(* ===== verification/_CoqProject ===== *)
-Q . S2P
Prelude.v
Bytes.v
Io.v
Fcall.v
Legacy.v
Serialize.v
Wire.v
EncodeFacts.v
DecodeFacts.v
SerializeProps.v
Decoder.v
Error.v
ErrorText.v
Utils.v
Srv.v
Dispatch.v
DispatchFacts.v
SrvProps.v
Path.v
Unpfs.v
UnpfsFacts.v
MemOs.v
UnpfsProps.v
UnpfsJail.v
Proc.v
UnpfsSteps.v
UnpfsAlone.v
FsLoop.v
FsLoopFacts.v
FsLoopProps.v
FsLoopJail.v
Linear.v
LinearProps.v
LinearLoop.v
Text.v
Namespace.v
NamespaceProps.v
Launcher.v
LauncherProps.v
Server.v
ServerProps.v
Steps.v
StepsProps.v
StepsTasks.v
StepsWaits.v
Copying.v
CopyingFacts.v
CopyingProps.v
StepsTerm.v
StepsRefine.v
Streams.v
StreamsProps.v
Tunnel.v
Client.v
ClientProps.v
Rpc.v
RpcProps.v
AsyncFd.v
Stdio.v
StdioProps.v
NetText.v
App.v
AppProps.v
Session.v
