(* ===== verification/Prelude.v ===== *)
(** * p9cpu: a verification library

    p9cpu runs a command on a remote machine and lets it see files of the
    local one, like cpu(1) of Plan 9.  The local program (p9cpu) dials the
    remote daemon (p9cpud) over gRPC, sends it a command, forwards its own
    standard streams, and serves its files by 9P2000.L through the same
    connection; the daemon spawns a copy of itself that builds a mount
    namespace in which the kernel mounts those files, drops its privileges and
    becomes the program.

    ** The parts, and the files that model them

    The paths are those below src/crates/.

    - 9p/src/fcall.rs: Fcall.v has every struct, enum and flags type of the
      protocol and their methods, Legacy.v those of mod p92000.  Bytes.v has bytes, little-endian integers and
      UTF-8; Io.v has std's I/O errors and the reader and writer interfaces.
    - 9p/src/serialize.rs: Serialize.v has all the [Encodable] and [Decodable]
      implementations, [read_msg] and [write_msg], for any reader and writer of
      the interface.  Wire.v is the specification, the byte layout of each type;
      EncodeFacts.v and DecodeFacts.v relate the two, SerializeProps.v has the
      theorems: writing refines the layout, reading undoes writing, what is read
      is well formed, and what is cut or of an unknown type is refused.
      Decoder.v has the decoder's operators and what a chain of them reads.
    - 9p/src/error.rs, utils.rs: Error.v, ErrorText.v (how errors are shown, the
      table of strings), Utils.v.
    - 9p/src/srv.rs: Srv.v has the trait [Filesystem] and [dispatch_once];
      Dispatch.v has the loop of [dispatch] as a transition system, whose steps
      are a turn of the reading loop or one stretch of a spawned task between
      two locks, and the listeners.  DispatchFacts.v and SrvProps.v show the
      effect of a request on the fid table, its soundness in every reachable
      state, that under every interleaving the replies answer the requests, that
      every schedule ends with all of them answered, and that for a client with
      one request at a time the loop refines [dispatch_once] in order.
    - 9p/src/unpfs.rs, unpfs/utils.rs: Path.v has std's path operations, Unpfs.v
      every handler of the file server on an operating system given by its
      calls, with fid objects in a heap so that aliasing is kept.  UnpfsFacts.v
      and UnpfsProps.v have the theorems on walks, reads, directories and flags,
      UnpfsJail.v that no fid leaves the served directory while names are
      plain, and that an absolute name does, MemOs.v a machine in memory on which
      the witnesses run.
    - The same server with its handlers run call by call: Proc.v has processes,
      whose moves are a call of the operating system or the taking and leaving
      of a lock, UnpfsSteps.v the handlers as processes with the locks of
      their fid objects, UnpfsAlone.v that one which runs alone does what
      Unpfs.v says.  FsLoop.v is the connection of Dispatch.v with such
      handlers: FsLoopProps.v shows that no locks are waited for in a circle,
      that every run ends with every request answered, and that a handler which
      does not return holds up every writer of the fid table; FsLoopJail.v that
      fids stay in the served directory.  Linear.v and LinearProps.v show that
      reads, writes and syncs of open files take effect one after the other, in
      the order of their last calls, and LinearLoop.v that therefore the
      connection's replies and state are those of the server which serves one
      request at a time.  [FileLaws] of Linear.v says what this needs of the
      operating system: that operations on one open file do not move another.
    - libp9cpu/src/cmd.rs, lib.rs, p9cpu/src/p9cpu.rs: Text.v has splitting on
      white space and decimal numbers, Namespace.v the commands, fstab lines,
      namespaces and mount options, NamespaceProps.v their theorems.
    - libp9cpu/src/launcher.rs: Launcher.v has [connect] with a record of the
      calls it makes; LauncherProps.v shows which calls a launch makes, that a
      command is received as it was sent, and that a program only runs as the
      command's group and user.
    - libp9cpu/src/server.rs: Server.v has the two session tables and their
      operations on a host given by its calls; ServerProps.v has the effect of
      each request and what a start that succeeds has done, call by call.
      Steps.v has the same operations as threads that move from await to await,
      over shared tables, session objects and locks; StepsProps.v shows who
      holds which lock in every reachable state and that a start which waits for
      its launcher blocks the table of sessions; StepsTasks.v how the tasks of a
      session change and that a second wait for a session panics, StepsWaits.v
      that without a second wait no request does; StepsTerm.v that the threads
      make a bounded number of moves; StepsRefine.v that requests which do not
      overlap are answered as Server.v answers them.
    - The copying tasks of the server run next to these threads in Copying.v,
      with the locks of the streams and the channels to the clients.
      CopyingFacts.v and CopyingProps.v show that with one reader for each
      stream nothing in the server waits in a circle, so that what cannot move
      waits for the outside in the end, and that two readers of one stream and a
      wait can stop each other for ever.
    - libp9cpu/src/client.rs: Streams.v has [StreamReader] and [SenderWriter]
      (and the stream adapters of rpc.rs and rpc/rpc_client.rs) as poll
      functions, StreamsProps.v what they deliver, Tunnel.v that the 9p tunnel
      from the remote kernel to the local file server is transparent; Client.v
      has [P9cpuClient] on any transport, ClientProps.v its two operations.
      Stdio.v has the tasks for the standard streams, StdioProps.v follows the
      output from the server's reads to the client's terminal, and the input
      the other way, through both copying loops and the RPC.
    - libp9cpu/src/rpc.rs, rpc/: Rpc.v has both sides of each RPC method,
      RpcProps.v that over a working connection the transport is the session
      server, and what a failing one does to the standard input.
    - p9cpud/src/p9cpud.rs, p9cpu/src/p9cpu.rs and the connecting and serving of
      rpc_client.rs and rpc_server.rs: App.v, on the text of addresses
      (NetText.v, as core::net prints and parses them).  AppProps.v shows which
      addresses survive the URI the client makes of them, and that the process
      a start spawns becomes the program of the command.
    - libp9cpu/src/async_fd.rs: AsyncFd.v has the conversion and the polling
      loops.
    - Session.v puts the client, the transport and the session server together:
      a run gives the user what became of the process it started.

    ** How code is modelled

    Stateful, fallible code is a computation of [M S E A], from a state to a
    result and a state: what was changed before an error stays changed.  A
    panic is [None], or an error of its own.  Machine integers are [Z], with
    [wrap] where the code converts or may wrap around.  What the program takes
    from elsewhere (bitflags, nix, prost, uuid, tokio, tonic, the operating
    system) is a class whose laws, where a theorem needs any, are a second
    class that states the documented behaviour; the witnesses instantiate both.

    ** Steps, bounds and fuel

    - A handler of the file server is one step of [dispatch] in Dispatch.v; in
      FsLoop.v a step of it is one call of the operating system or one lock, and
      the handlers of a connection interleave at all of these.  Calls return;
      that one may not is what [running_handler_blocks_table] is about.
    - An operation of the session server is one step in Server.v.  In Steps.v a
      move ends where the code awaits something that another request or the
      world can hold up: the table while a start has it, the locks of a session,
      a launcher's connection, the end of a command or of a task, a client's
      next item, room in a pipe; that a task has finished is an event of the
      world there, and of the model in Copying.v, but for the 9p forwarder, which
      waits for nothing of the server.  Calls that do not wait for long (binding,
      spawning, writing the command to the launcher) are within a move, and so
      is taking the lock of [pending], which is never held for long.  What
      the tasks deliver is stated of their bodies, [copy_to] and [forward_loop]
      of Server.v, [copy_stream] and [in_task] of Stdio.v.
    - A connection's schedule is bounded by the measure of DispatchFacts.v, the
      session server's by that of StepsTerm.v;
      listing a directory takes at most two pages more than it has entries;
      printing a number has fuel for 20 digits, more than 64 bits need;
      [poll_read] needs two turns of its loop, and never runs out of them;
      [copy_stream] takes a unit of fuel for each poll, and StdioProps.v shows
      that some amount is enough whenever the stream ends; the
      loops of AsyncFd.v answer with any fuel above the number of turns in which
      the descriptor was wrongly said to be ready, which nothing bounds.

    ** What is not modelled

    Closing of descriptors when values are dropped; requests that are cancelled
    because their client has gone, except that the client may drop a stream it
    was given; memory that cannot be
    allocated; log output; parsing of the command line (clap); the code that
    tonic and prost generate.

    ** Plan

    Next: the 9p forwarder as a task of Copying.v; requests that are cancelled;
    a whole run of Session.v on the interleaved server; the closing of
    descriptors, with who sees which end of file. *)

From Stdlib Require Export ZArith Lia.
From stdpp Require Export base tactics decidable list strings gmap.

#[global] Open Scope Z_scope.
#[global] Set Default Goal Selector "!".

(** ** Machine integers

    A [uN] of Rust is a [Z]; the four types are kept apart by name so that
    trait (class) resolution sees which one a field has.  [wrap w] is the
    truncation an [as uN] cast performs. *)
Definition u8 : Set := Z.
Definition u16 : Set := Z.
Definition u32 : Set := Z.
Definition u64 : Set := Z.
Definition i32 : Set := Z.
Definition i64 : Set := Z.
Definition usize : Set := Z.

#[global] Hint Opaque u8 u16 u32 u64 i32 i64 : typeclass_instances.

#[export] Instance u8_eq_dec : EqDecision u8 := Z.eq_dec.
#[export] Instance u16_eq_dec : EqDecision u16 := Z.eq_dec.
#[export] Instance u32_eq_dec : EqDecision u32 := Z.eq_dec.
#[export] Instance u64_eq_dec : EqDecision u64 := Z.eq_dec.
#[export] Instance u16_countable : Countable u16 := Z_countable.
#[export] Instance u32_countable : Countable u32 := Z_countable.

Definition wrap (w z : Z) : Z := z mod 2 ^ w.

(** The value is one that the [w]-bit unsigned type holds. *)
Definition fits (w z : Z) : Prop := 0 <= z < 2 ^ w.

#[export] Instance fits_dec w z : Decision (fits w z).
Proof. unfold fits. apply _. Defined.

Lemma wrap_fits w z : 0 <= w -> fits w (wrap w z).
Proof. intros ?. apply Z.mod_pos_bound. lia. Qed.

Lemma wrap_id w z : fits w z -> wrap w z = z.
Proof. intros ?. by apply Z.mod_small. Qed.

Lemma fits_mono w w' z : 0 <= w <= w' -> fits w z -> fits w' z.
Proof.
  intros ? [? ?]. split; [done|].
  apply Z.lt_le_trans with (2 ^ w); [done|]. apply Z.pow_le_mono_r; lia.
Qed.

(** ** Results and the state-and-error monad

    [result E A] is Rust's [Result<A, E>].  [M S E A] is a computation that
    may change a state [S] and fail: as in Rust, what was changed through a
    [&mut] before the error stays changed. *)
Inductive result (E A : Type) : Type :=
  | Ok (a : A)
  | Err (e : E).
Arguments Ok {E A} a.
Arguments Err {E A} e.

#[export] Instance result_ret E : MRet (result E) := fun A => Ok.
#[export] Instance result_bind E : MBind (result E) := fun A B k m =>
  match m with Ok a => k a | Err e => Err e end.

#[export] Instance result_eq_dec E A `{EqDecision E, EqDecision A} : EqDecision (result E A).
Proof. solve_decision. Defined.

Definition M (S E A : Type) : Type := S -> result E A * S.

#[export] Instance M_ret S E : MRet (M S E) := fun A a s => (Ok a, s).
#[export] Instance M_bind S E : MBind (M S E) := fun A B k m s =>
  match m s with
  | (Ok a, s') => k a s'
  | (Err e, s') => (Err e, s')
  end.

Definition throw {S E A} (e : E) : M S E A := fun s => (Err e, s).

(** [ok_or] on an [Option]. *)
Definition ok_or {S E A} (o : option A) (e : E) : M S E A :=
  match o with Some a => mret a | None => throw e end.

(** The [?] operator's [From] conversion of the error. *)
Definition map_err {S E F A} (f : E -> F) (m : M S E A) : M S F A := fun s =>
  match m s with
  | (Ok a, s') => (Ok a, s')
  | (Err e, s') => (Err (f e), s')
  end.

Definition is_ok {E A} (r : result E A) : bool :=
  match r with Ok _ => true | Err _ => false end.

Section MonadLemmas.
Context {S E : Type}.

Lemma bind_ok {A B} (m : M S E A) (k : A -> M S E B) s a s' :
  m s = (Ok a, s') -> (m ≫= k) s = k a s'.
Proof. intros H. unfold mbind, M_bind. by rewrite H. Qed.

Lemma bind_err {A B} (m : M S E A) (k : A -> M S E B) s e s' :
  m s = (Err e, s') -> (m ≫= k) s = (Err e, s').
Proof. intros H. unfold mbind, M_bind. by rewrite H. Qed.

(** An error of the first computation is the error of the bind. *)
Lemma bind_err_fst {A B} (m : M S E A) (k : A -> M S E B) s e :
  (m s).1 = Err e -> ((m ≫= k) s).1 = Err e.
Proof. unfold mbind, M_bind. by destruct (m s) as [[?|?] ?]; simpl; intros [=->]. Qed.

(** A bind that succeeded did so through both halves. *)
Lemma bind_ok_inv {A B} (m : M S E A) (k : A -> M S E B) s b s2 :
  (m ≫= k) s = (Ok b, s2) ->
  exists a s1, m s = (Ok a, s1) /\ k a s1 = (Ok b, s2).
Proof. unfold mbind, M_bind. destruct (m s) as [[a|e] s1]; naive_solver. Qed.

Lemma ret_run {A} (a : A) (s : S) : (mret a : M S E A) s = (Ok a, s).
Proof. done. Qed.
End MonadLemmas.

(** ** Automation shared by the files

    [wire]: the byte-level lemmas (lengths, encoders, decoders).
    [split_bind] opens a successful monadic chain into its steps. *)
Create HintDb wire discriminated.

Ltac split_bind :=
  repeat match goal with
  | H : (?m ≫= ?k) ?s = (Ok ?b, ?s2) |- _ =>
      apply bind_ok_inv in H as (? & ? & ? & H)
  | H : mret ?a ?s = (Ok ?b, ?s2) |- _ =>
      rewrite ret_run in H; injection H as ? ?; subst
  end.

(** ** Lists *)

Lemma prefix_of_app_l {A} (l1 l2 l : list A) : l1 ++ l2 `prefix_of` l -> l1 `prefix_of` l.
Proof. intros [k ->]. exists (l2 ++ k). by rewrite app_assoc. Qed.

Lemma take_app_exact {A} n (l k : list A) : length l = n -> take n (l ++ k) = l.
Proof. intros <-. apply take_app_length. Qed.

Lemma drop_app_exact {A} n (l k : list A) : length l = n -> drop n (l ++ k) = k.
Proof. intros <-. apply drop_app_length. Qed.
