(* ===== verification/Bytes.v ===== *)
(** * Bytes, little-endian integers, UTF-8 and strings

    The parts of the language and its standard library that the wire format
    rests on: bytes ([Byte.byte] of the Standard Library), the little-endian
    reading and writing of an integer, the well-formedness test of
    [String::from_utf8], and Rust strings as Rocq strings whose characters
    are the UTF-8 bytes. *)

From Stdlib Require Import Strings.Byte Strings.String Strings.Ascii.
From S2P Require Import Prelude.

Abbreviation byte := Byte.byte.

(** ** One byte as an integer *)

Definition byte_val (b : byte) : Z := Z.of_N (Byte.to_N b).

Definition byte_of (z : Z) : byte :=
  match Byte.of_N (Z.to_N (wrap 8 z)) with
  | Some b => b
  | None => Byte.x00
  end.

Lemma byte_val_fits b : fits 8 (byte_val b).
Proof.
  unfold fits, byte_val. pose proof (Byte.to_N_bounded b). change (2 ^ 8) with 256. lia.
Qed.

Lemma byte_val_of z : byte_val (byte_of z) = wrap 8 z.
Proof.
  pose proof (wrap_fits 8 z ltac:(lia)) as [Hlo Hhi]. change (2 ^ 8) with 256 in Hhi.
  unfold byte_of. destruct (Byte.of_N (Z.to_N (wrap 8 z))) as [b|] eqn:E.
  - unfold byte_val. apply Byte.to_of_N in E. rewrite E. lia.
  - apply Byte.of_N_None_iff in E. lia.
Qed.

Lemma byte_val_inj b c : byte_val b = byte_val c -> b = c.
Proof.
  unfold byte_val. intros H. apply N2Z.inj in H.
  assert (Some b = Some c) as E by (rewrite <- !Byte.of_to_N; by rewrite H).
  by injection E.
Qed.

Lemma byte_of_val b : byte_of (byte_val b) = b.
Proof. apply byte_val_inj. rewrite byte_val_of. apply wrap_id, byte_val_fits. Qed.

#[export] Instance byte_eq_dec : EqDecision byte := Byte.byte_eq_dec.

(** ** Little-endian integers of [n] bytes *)

Fixpoint le_bytes (n : nat) (z : Z) : list byte :=
  match n with
  | O => []
  | S n => byte_of z :: le_bytes n (z / 256)
  end.

Fixpoint le_value (l : list byte) : Z :=
  match l with
  | [] => 0
  | b :: l => byte_val b + 256 * le_value l
  end.

Lemma le_bytes_length n z : length (le_bytes n z) = n.
Proof. revert z. induction n; intros z; simpl; auto. Qed.

Lemma pow_bytes_S n : 2 ^ (8 * Z.of_nat (S n)) = 256 * 2 ^ (8 * Z.of_nat n).
Proof.
  replace (8 * Z.of_nat (S n)) with (8 + 8 * Z.of_nat n) by lia.
  rewrite Z.pow_add_r by lia. done.
Qed.

(** Reading back what was written gives the value truncated to [n] bytes. *)
Lemma le_value_bytes n z : le_value (le_bytes n z) = wrap (8 * Z.of_nat n) z.
Proof.
  revert z. induction n as [|n IH]; intros z.
  - simpl. unfold wrap. by rewrite Z.mod_1_r.
  - cbn [le_bytes le_value]. rewrite IH, byte_val_of. unfold wrap.
    rewrite pow_bytes_S. change (2 ^ 8) with 256.
    rewrite (Z.rem_mul_r z 256) by lia. lia.
Qed.

Lemma le_value_fits l : fits (8 * Z.of_nat (length l)) (le_value l).
Proof.
  induction l as [|b l IH]; [done|].
  cbn [length le_value]. unfold fits in *. rewrite pow_bytes_S.
  pose proof (byte_val_fits b) as Hb. unfold fits in Hb. change (2 ^ 8) with 256 in Hb. lia.
Qed.

Lemma le_bytes_value l : le_bytes (length l) (le_value l) = l.
Proof.
  induction l as [|b l IH]; [done|]. cbn [length le_value le_bytes].
  pose proof (byte_val_fits b) as Hb. unfold fits in Hb. change (2 ^ 8) with 256 in Hb.
  f_equal.
  - apply byte_val_inj. rewrite byte_val_of. unfold wrap. change (2 ^ 8) with 256.
    rewrite Z.mul_comm, Z.mod_add by lia. apply Z.mod_small; lia.
  - rewrite Z.mul_comm, Z.div_add by lia. rewrite Z.div_small by lia. by rewrite Z.add_0_l.
Qed.

(** ** UTF-8

    [utf8_valid l] is the test of [String::from_utf8]: the byte sequences of
    the Unicode Standard's table of well-formed UTF-8 (no overlong forms, no
    surrogates, nothing above U+10FFFF). *)
Definition between (lo hi : Z) (b : byte) : bool := (lo <=? byte_val b) && (byte_val b <=? hi).

Definition is_cont (b : byte) : bool := between 0x80 0xBF b.

(** Whether [b1] may follow the leading byte [b0] of a three- or four-byte
    sequence. *)
Definition second3 (b0 b1 : byte) : bool :=
  if between 0xE0 0xE0 b0 then between 0xA0 0xBF b1
  else if between 0xED 0xED b0 then between 0x80 0x9F b1
  else is_cont b1.

Definition second4 (b0 b1 : byte) : bool :=
  if between 0xF0 0xF0 b0 then between 0x90 0xBF b1
  else if between 0xF4 0xF4 b0 then between 0x80 0x8F b1
  else is_cont b1.

Fixpoint utf8_valid (l : list byte) : bool :=
  match l with
  | [] => true
  | b0 :: l1 =>
      if between 0 0x7F b0 then utf8_valid l1
      else match l1 with
      | [] => false
      | b1 :: l2 =>
          if between 0xC2 0xDF b0 then is_cont b1 && utf8_valid l2
          else match l2 with
          | [] => false
          | b2 :: l3 =>
              if between 0xE0 0xEF b0 then second3 b0 b1 && is_cont b2 && utf8_valid l3
              else match l3 with
              | [] => false
              | b3 :: l4 =>
                  between 0xF0 0xF4 b0 && second4 b0 b1 && is_cont b2 && is_cont b3
                  && utf8_valid l4
              end
          end
      end
  end.

(** The lengths a sequence of UTF-8 bytes is cut at: induction over the
    characters of a valid sequence. *)
Lemma utf8_valid_ind (P : list byte -> Prop) :
  P [] ->
  (forall c l, c <> [] -> utf8_valid l = true -> P l ->
     (forall k, utf8_valid (c ++ k) = utf8_valid k) -> P (c ++ l)) ->
  forall l, utf8_valid l = true -> P l.
Proof.
  intros Hnil Hcons l. remember (length l) as n eqn:Hn. revert l Hn.
  induction n as [n IH] using lt_wf_ind. intros [|b0 l1] Hn; [done|]. simpl in Hn.
  assert (forall c l, b0 :: l1 = c ++ l -> c <> [] ->
    (forall k, utf8_valid (c ++ k) = utf8_valid k) ->
    utf8_valid l = true -> P (b0 :: l1)) as Hstep.
  { intros c l E Hc Hk Hl. rewrite E. apply Hcons; [done..| |done].
    apply (IH (length l)); [|done..].
    assert (length (b0 :: l1) = length (c ++ l)) as L by (by rewrite E).
    rewrite length_app in L. destruct c; [done|]. simpl in L. lia. }
  cbn [utf8_valid]. destruct (between 0 0x7F b0) eqn:E0.
  { intros H. apply (Hstep [b0] l1); try done. intros k. simpl. by rewrite E0. }
  destruct l1 as [|b1 l2]; [done|].
  destruct (between 0xC2 0xDF b0) eqn:E1.
  { intros [H1 H2]%andb_prop. apply (Hstep [b0; b1] l2); try done.
    intros k. simpl. by rewrite E0, E1, H1. }
  destruct l2 as [|b2 l3]; [done|].
  destruct (between 0xE0 0xEF b0) eqn:E2.
  { intros [[H1 H2]%andb_prop H3]%andb_prop. apply (Hstep [b0; b1; b2] l3); try done.
    intros k. simpl. by rewrite E0, E1, E2, H1, H2. }
  destruct l3 as [|b3 l4]; [done|].
  intros [[[[H0 H1]%andb_prop H2]%andb_prop H3]%andb_prop H4]%andb_prop.
  apply (Hstep [b0; b1; b2; b3] l4); try done.
  intros k. simpl. by rewrite E0, E1, E2, H0, H1, H2, H3.
Qed.

(** Concatenation: a valid prefix can be dropped from the test. *)
Lemma utf8_valid_app l k : utf8_valid l = true -> utf8_valid (l ++ k) = utf8_valid k.
Proof.
  revert l. apply utf8_valid_ind; [done|].
  intros c l _ _ IH Hc. by rewrite <- app_assoc, Hc.
Qed.

(** ** Strings

    A Rust [String] or [&str] is a Rocq [string] whose characters are the
    UTF-8 bytes: [as_bytes] and [len] are the next two definitions. *)
Definition as_bytes (s : string) : list byte := list_byte_of_string s.
Definition str_of_bytes (l : list byte) : string := string_of_list_byte l.
Definition str_len (s : string) : usize := Z.of_nat (length (as_bytes s)).

Lemma as_bytes_of_bytes l : as_bytes (str_of_bytes l) = l.
Proof. apply list_byte_of_string_of_list_byte. Qed.

Lemma str_of_bytes_as_bytes s : str_of_bytes (as_bytes s) = s.
Proof. apply string_of_list_byte_of_string. Qed.

(** What every Rust string satisfies: its bytes are valid UTF-8. *)
Definition str_wf (s : string) : Prop := utf8_valid (as_bytes s) = true.

(** [String::from_utf8]. *)
Definition from_utf8 (l : list byte) : option string :=
  if utf8_valid l then Some (str_of_bytes l) else None.

Lemma from_utf8_as_bytes s : str_wf s -> from_utf8 (as_bytes s) = Some s.
Proof. intros H. unfold from_utf8. by rewrite H, str_of_bytes_as_bytes. Qed.

Lemma from_utf8_Some l s : from_utf8 l = Some s -> l = as_bytes s /\ str_wf s.
Proof.
  unfold from_utf8, str_wf. destruct (utf8_valid l) eqn:E; [|done].
  intros [= <-]. by rewrite as_bytes_of_bytes.
Qed.
