(* ===== verification/Io.v ===== *)
(** * std::io errors, and the readers and writers the serializer is generic in

    [io_error] models [std::io::Error].  [ReadBytesExt] and [WriteBytesExt]
    are the interfaces of the byteorder crate (over [std::io::Read] and
    [std::io::Write]) that [serialize.rs] is written against: its code never
    sees a concrete reader or writer, so neither do the definitions of
    Serialize.v.  [ReaderLaws] and [WriterLaws] state the documented behaviour
    of those traits; the byte slice, the growing vector and the fixed buffer
    at the end of the file are lawful instances. *)

From Stdlib Require Import Strings.Byte.
From S2P Require Import Prelude Bytes.

(** ** std::io::Error *)

Inductive ErrorKind : Set :=
  | NotFound | PermissionDenied | ConnectionRefused | ConnectionReset
  | ConnectionAborted | NotConnected | AddrInUse | AddrNotAvailable | BrokenPipe
  | AlreadyExists | WouldBlock | InvalidInput | InvalidData | TimedOut | WriteZero
  | Interrupted | Unsupported | UnexpectedEof | OutOfMemory | Other.

(** An error is the code the operating system gave ([from_raw_os_error]), or a
    kind with a message ([Error::new]). *)
Inductive io_error : Set :=
  | Os (code : i32)
  | Simple (kind : ErrorKind) (msg : string).

#[export] Instance ErrorKind_eq_dec : EqDecision ErrorKind.
Proof. solve_decision. Defined.
#[export] Instance i32_eq_dec : EqDecision i32 := Z.eq_dec.
#[export] Instance io_error_eq_dec : EqDecision io_error.
Proof. solve_decision. Defined.

Definition raw_os_error (e : io_error) : option i32 :=
  match e with Os c => Some c | Simple _ _ => None end.

(** What [Read::read_exact] reports when the input ends early. *)
Definition eof_error : io_error := Simple UnexpectedEof "failed to fill whole buffer".

(** What [Write::write_all] reports when the writer takes no more bytes. *)
Definition write_zero_error : io_error := Simple WriteZero "failed to write whole buffer".

(** ** The interfaces *)

Class ReadBytesExt (R : Type) := {
  read_u8 : M R io_error u8;
  read_u16_le : M R io_error u16;
  read_u32_le : M R io_error u32;
  read_u64_le : M R io_error u64;
  (** [Read::read_exact] into a buffer of the given length. *)
  read_exact_buf : nat -> M R io_error (list byte)
}.

Class WriteBytesExt (W : Type) := {
  write_u8 : u8 -> M W io_error unit;
  write_u16_le : u16 -> M W io_error unit;
  write_u32_le : u32 -> M W io_error unit;
  write_u64_le : u64 -> M W io_error unit;
  (** [Write::write_all]. *)
  write_all : list byte -> M W io_error unit
}.

(** ** The reference reader: a byte slice, [impl Read for &[u8]] *)

Definition slice_read_exact (n : nat) : M (list byte) io_error (list byte) := fun l =>
  if decide (n <= length l)%nat then (Ok (take n l), drop n l) else (Err eof_error, []).

Definition slice_uint (n : nat) : M (list byte) io_error Z :=
  b ← slice_read_exact n; mret (le_value b).

#[export] Instance slice_reader : ReadBytesExt (list byte) := {|
  read_u8 := slice_uint 1;
  read_u16_le := slice_uint 2;
  read_u32_le := slice_uint 4;
  read_u64_le := slice_uint 8;
  read_exact_buf := slice_read_exact
|}.

(** ** The reference writer: [impl Write for Vec<u8>], which never fails *)

Definition vec_push (b : list byte) : M (list byte) io_error unit := fun l => (Ok tt, l ++ b).

#[export] Instance vec_writer : WriteBytesExt (list byte) := {|
  write_u8 v := vec_push (le_bytes 1 v);
  write_u16_le v := vec_push (le_bytes 2 v);
  write_u32_le v := vec_push (le_bytes 4 v);
  write_u64_le v := vec_push (le_bytes 8 v);
  write_all := vec_push
|}.

(** ** Readers: laws

    [view r] is what is left to read.  [simulates view m n]: run on [r], the
    reader's [m] returns what the slice reader's [n] returns on [view r], and
    keeps the views equal. *)
Definition simulates {R A} (view : R -> list byte)
    (m : M R io_error A) (n : M (list byte) io_error A) : Prop :=
  forall r, match n (view r) with
    | (Ok a, l) => exists r', m r = (Ok a, r') /\ view r' = l
    | (Err e, _) => exists r', m r = (Err e, r')
    end.

Class ReaderLaws (R : Type) `{ReadBytesExt R} := {
  view : R -> list byte;
  read_u8_law : simulates view read_u8 (slice_uint 1);
  read_u16_law : simulates view read_u16_le (slice_uint 2);
  read_u32_law : simulates view read_u32_le (slice_uint 4);
  read_u64_law : simulates view read_u64_le (slice_uint 8);
  read_exact_law : forall n, simulates view (read_exact_buf n) (slice_read_exact n)
}.

Section Simulates.
Context {R : Type} (v : R -> list byte).

Lemma simulates_ret {A} (a : A) : simulates v (mret a) (mret a).
Proof. intros r. simpl. eauto. Qed.

Lemma simulates_throw {A} (e : io_error) : simulates (A := A) v (throw e) (throw e).
Proof. intros r. simpl. eauto. Qed.

Lemma simulates_bind {A B} (m : M R io_error A) n (k : A -> M R io_error B) h :
  simulates v m n -> (forall a, simulates v (k a) (h a)) -> simulates v (m ≫= k) (n ≫= h).
Proof.
  intros Hm Hk r. specialize (Hm r). unfold mbind, M_bind.
  destruct (n (v r)) as [[a|e] l].
  - destruct Hm as (r' & -> & <-). apply Hk.
  - destruct Hm as (r' & ->). eauto.
Qed.
End Simulates.

#[export] Hint Resolve simulates_ret simulates_throw simulates_bind
  read_u8_law read_u16_law read_u32_law read_u64_law read_exact_law : wire.

#[export] Instance slice_reader_laws : ReaderLaws (list byte).
Proof.
  refine {| view := fun l => l |}.
  all: intros; intros l; simpl;
    match goal with |- context [?n l] => destruct (n l) as [[?|?] ?]; eauto end.
Defined.

(** ** Writers: laws

    [appended v w bs r w']: a write of [bs] that gave [r] left the writer with
    [bs] appended when it succeeded, and with a part of [bs] when it failed. *)
Definition appended {W A} (v : W -> list byte) (w : W) (bs : list byte)
    (r : result io_error A) (w' : W) : Prop :=
  match r with
  | Ok _ => v w' = v w ++ bs
  | Err _ => exists p, p `prefix_of` bs /\ v w' = v w ++ p
  end.

Definition writes {W A} (v : W -> list byte) (m : M W io_error A) (bs : list byte) : Prop :=
  forall w, appended v w bs (m w).1 (m w).2.

Class WriterLaws (W : Type) `{WriteBytesExt W} := {
  written : W -> list byte;
  write_u8_law : forall x, writes written (write_u8 x) (le_bytes 1 x);
  write_u16_law : forall x, writes written (write_u16_le x) (le_bytes 2 x);
  write_u32_law : forall x, writes written (write_u32_le x) (le_bytes 4 x);
  write_u64_law : forall x, writes written (write_u64_le x) (le_bytes 8 x);
  write_all_law : forall bs, writes written (write_all bs) bs
}.

#[export] Hint Resolve write_u8_law write_u16_law write_u32_law write_u64_law
  write_all_law : wire.

#[export] Instance vec_writer_laws : WriterLaws (list byte).
Proof. refine {| written := fun l => l |}; intros; intros w; done. Defined.

(** ** A writer that fails: [impl Write for &mut [u8]], a buffer of fixed size *)

Record buffer : Set := { buf_data : list byte; buf_room : nat }.

Definition buffer_push (b : list byte) : M buffer io_error unit := fun w =>
  if decide (length b <= buf_room w)%nat
  then (Ok tt, {| buf_data := buf_data w ++ b; buf_room := buf_room w - length b |})
  else (Err write_zero_error,
        {| buf_data := buf_data w ++ take (buf_room w) b; buf_room := 0 |}).

Definition buffer_writer : WriteBytesExt buffer := {|
  write_u8 v := buffer_push (le_bytes 1 v);
  write_u16_le v := buffer_push (le_bytes 2 v);
  write_u32_le v := buffer_push (le_bytes 4 v);
  write_u64_le v := buffer_push (le_bytes 8 v);
  write_all := buffer_push
|}.

Lemma buffer_push_writes b : writes buf_data (buffer_push b) b.
Proof.
  intros w. unfold buffer_push. case_decide; simpl; [done|].
  eexists. split; [apply prefix_take|done].
Qed.

#[local] Existing Instance buffer_writer.
Definition buffer_writer_laws : WriterLaws buffer.
Proof. refine {| written := buf_data |}; intros; apply buffer_push_writes. Defined.

(** A writer that makes room for whatever it is given, as [Vec] and the
    [bytes] crate's [BytesMut] do. *)
Class Growable (W : Type) `{WriteBytesExt W} : Prop := {
  grow_u8 : forall x w, is_ok (write_u8 x w).1;
  grow_u16 : forall x w, is_ok (write_u16_le x w).1;
  grow_u32 : forall x w, is_ok (write_u32_le x w).1;
  grow_u64 : forall x w, is_ok (write_u64_le x w).1;
  grow_all : forall bs w, is_ok (write_all bs w).1
}.

#[export] Instance vec_growable : Growable (list byte).
Proof. by split. Qed.
