(* ===== verification/Fcall.v ===== *)
(** * 9P2000.L data types and constants (crates/9p/src/fcall.rs)

    The structs as records, the enums as inductive types, the bitflags types
    as their [bits()], and the methods of these types. *)

From S2P Require Import Prelude Bytes.

(** ** The macros of two other crates

    [bitflags!] (bitflags 1.3) generates, for a flags type, the operations of
    [Bitflags]; a flags value is the integer its [bits()] returns, and [all]
    is the [bits()] of the type's [all()], the union of its declared flags.
    [enum_from_primitive!] generates [FromPrimitive::from_u8]. *)
Class Bitflags := {
  from_bits_truncate : forall (all bits : Z), Z;
  contains : forall (self other : Z), bool;
  intersects : forall (self other : Z), bool;
  insert_flags : forall (self other : Z), Z
}.

Class BitflagsLaws `{Bitflags} : Prop := {
  from_bits_truncate_law : forall all b, from_bits_truncate all b = Z.land b all;
  contains_law : forall a b, contains a b = (Z.land a b =? b);
  intersects_law : forall a b, intersects a b = negb (Z.land a b =? 0);
  insert_law : forall a b, insert_flags a b = Z.lor a b
}.

Class FromPrimitive (T : Type) := from_u8 : u8 -> option T.

(** An instance that obeys the laws, for concrete runs. *)
Definition bitflags_ref : Bitflags := {|
  from_bits_truncate all b := Z.land b all;
  contains a b := Z.land a b =? b;
  intersects a b := negb (Z.land a b =? 0);
  insert_flags := Z.lor
|}.

Lemma bitflags_ref_laws : @BitflagsLaws bitflags_ref.
Proof. by constructor. Qed.

(** ** Constants *)

Definition P92000 : string := "9P2000".
Definition P92000L : string := "9P2000.L".
Definition VERSION_UNKNOWN : string := "unknown".

Definition NOTAG : u16 := 0xFFFF.
Definition NOFID : u32 := 0xFFFFFFFF.
Definition NONUNAME : u32 := 0xFFFFFFFF.
Definition IOHDRSZ : u32 := 24.
Definition READDIRHDRSZ : u32 := 24.
Definition V9FS_PORT : u16 := 564.

(** ** Flags types *)

Definition LockType : Set := Z.
Module LockTypes.
Definition RDLOCK := 0.
Definition WRLOCK := 1.
Definition UNLOCK := 2.
Definition all : LockType := Z.lor RDLOCK (Z.lor WRLOCK UNLOCK).
End LockTypes.

Definition LockFlag : Set := Z.
Module LockFlags.
Definition BLOCK := 1.
Definition RECLAIM := 2.
Definition all : LockFlag := Z.lor BLOCK RECLAIM.
End LockFlags.

Definition LockStatus : Set := Z.
Module LockStatuses.
Definition SUCCESS := 0.
Definition BLOCKED := 1.
Definition ERROR := 2.
Definition GRACE := 3.
Definition all : LockStatus := Z.lor SUCCESS (Z.lor BLOCKED (Z.lor ERROR GRACE)).
End LockStatuses.

Definition QidType : Set := Z.
Module QidTypes.
Definition DIR := 0x80.
Definition APPEND := 0x40.
Definition EXCL := 0x20.
Definition MOUNT := 0x10.
Definition AUTH := 0x08.
Definition TMP := 0x04.
Definition SYMLINK := 0x02.
Definition LINK := 0x01.
Definition FILE := 0x00.
Definition all : QidType :=
  foldr Z.lor 0 [DIR; APPEND; EXCL; MOUNT; AUTH; TMP; SYMLINK; LINK; FILE].
End QidTypes.

Definition GetattrMask : Set := Z.
Module GetattrMasks.
Definition MODE := 0x00000001.
Definition NLINK := 0x00000002.
Definition UID := 0x00000004.
Definition GID := 0x00000008.
Definition RDEV := 0x00000010.
Definition ATIME := 0x00000020.
Definition MTIME := 0x00000040.
Definition CTIME := 0x00000080.
Definition INO := 0x00000100.
Definition SIZE := 0x00000200.
Definition BLOCKS := 0x00000400.
Definition BTIME := 0x00000800.
Definition GEN := 0x00001000.
Definition DATA_VERSION := 0x00002000.
Definition BASIC := 0x000007ff.
Definition ALL := 0x00003fff.
Definition all : GetattrMask :=
  foldr Z.lor 0 [MODE; NLINK; UID; GID; RDEV; ATIME; MTIME; CTIME; INO; SIZE; BLOCKS;
    BTIME; GEN; DATA_VERSION; BASIC; ALL].
End GetattrMasks.

Definition SetattrMask : Set := Z.
Module SetattrMasks.
Definition MODE := 0x00000001.
Definition UID := 0x00000002.
Definition GID := 0x00000004.
Definition SIZE := 0x00000008.
Definition ATIME := 0x00000010.
Definition MTIME := 0x00000020.
Definition CTIME := 0x00000040.
Definition ATIME_SET := 0x00000080.
Definition MTIME_SET := 0x00000100.
Definition all : SetattrMask :=
  foldr Z.lor 0 [MODE; UID; GID; SIZE; ATIME; MTIME; CTIME; ATIME_SET; MTIME_SET].
End SetattrMasks.

(** ** Structs *)

Record Qid : Set := { qid_typ : QidType; qid_version : u32; qid_path : u64 }.

(** [size_of::<QidType>() + size_of::<u32>() + size_of::<u64>()] *)
Definition Qid_size (self : Qid) : u32 := 1 + 4 + 8.

Record Statfs : Set := {
  statfs_typ : u32; statfs_bsize : u32; statfs_blocks : u64; statfs_bfree : u64;
  statfs_bavail : u64; statfs_files : u64; statfs_ffree : u64; statfs_fsid : u64;
  statfs_namelen : u32
}.

Record Time : Set := { sec : u64; nsec : u64 }.

Record Stat : Set := {
  stat_mode : u32; stat_uid : u32; stat_gid : u32; stat_nlink : u64; stat_rdev : u64;
  stat_size : u64; stat_blksize : u64; stat_blocks : u64;
  stat_atime : Time; stat_mtime : Time; stat_ctime : Time
}.

Record SetAttr : Set := {
  setattr_mode : u32; setattr_uid : u32; setattr_gid : u32; setattr_size : u64;
  setattr_atime : Time; setattr_mtime : Time
}.

Record DirEntry : Set := {
  dirent_qid : Qid; dirent_offset : u64; dirent_typ : u8; dirent_name : string
}.

(** [DirEntry::size]: the sum of usizes, cast to u32. *)
Definition DirEntry_size (self : DirEntry) : u32 :=
  wrap 32 (Qid_size (dirent_qid self) + 8 + 1 + 2 + str_len (dirent_name self)).

Record DirEntryData : Set := { dirents : list DirEntry }.

Definition DirEntryData_with (v : list DirEntry) : DirEntryData := {| dirents := v |}.
Definition DirEntryData_new : DirEntryData := DirEntryData_with [].

(** [fold(0, |a, e| a + e.size())]: u32 additions, which wrap in the release
    build (the debug build stops at the overflow). *)
Definition DirEntryData_size (self : DirEntryData) : u32 :=
  fold_left (fun a e => wrap 32 (a + DirEntry_size e)) (dirents self) 0.

Definition DirEntryData_push (self : DirEntryData) (entry : DirEntry) : DirEntryData :=
  {| dirents := dirents self ++ [entry] |}.

Record Data : Set := { data_bytes : list byte }.

Record Flock : Set := {
  flock_typ : LockType; flock_flags : LockFlag; flock_start : u64; flock_length : u64;
  flock_proc_id : u32; flock_client_id : string
}.

Record Getlock : Set := {
  getlock_typ : LockType; getlock_start : u64; getlock_length : u64;
  getlock_proc_id : u32; getlock_client_id : string
}.

(** ** Conversions from the operating system's structures

    [FileType] and [Metadata] are what the methods of [std::fs::FileType] and
    [std::fs::Metadata] (with [MetadataExt]) return, [Statvfs] what the
    accessors of [nix::sys::statvfs::Statvfs] return. *)
Record FileType : Set := { is_dir : bool; is_symlink : bool }.

Record Metadata : Set := {
  md_file_type : FileType;
  md_ino : u64; md_mode : u32; md_uid : u32; md_gid : u32; md_nlink : u64; md_rdev : u64;
  md_size : u64; md_blksize : u64; md_blocks : u64;
  md_atime : i64; md_atime_nsec : i64; md_mtime : i64; md_mtime_nsec : i64;
  md_ctime : i64; md_ctime_nsec : i64
}.

Record Statvfs : Set := {
  sv_block_size : u64; sv_blocks : u64; sv_blocks_free : u64; sv_blocks_available : u64;
  sv_files : u64; sv_files_free : u64; sv_filesystem_id : u64; sv_name_max : u64
}.

Definition QidType_from_file_type `{Bitflags} (typ : FileType) : QidType :=
  let qid_type := QidTypes.FILE in
  let qid_type := if is_dir typ then insert_flags qid_type QidTypes.DIR else qid_type in
  if is_symlink typ then insert_flags qid_type QidTypes.SYMLINK else qid_type.

Definition Statfs_from_statvfs (buf : Statvfs) : Statfs := {|
  statfs_typ := 0;
  statfs_bsize := wrap 32 (sv_block_size buf);
  statfs_blocks := sv_blocks buf;
  statfs_bfree := sv_blocks_free buf;
  statfs_bavail := sv_blocks_available buf;
  statfs_files := sv_files buf;
  statfs_ffree := sv_files_free buf;
  statfs_fsid := wrap 64 (sv_filesystem_id buf);
  statfs_namelen := wrap 32 (sv_name_max buf)
|}.

Definition Stat_from_metadata (attr : Metadata) : Stat := {|
  stat_mode := md_mode attr;
  stat_uid := md_uid attr;
  stat_gid := md_gid attr;
  stat_nlink := md_nlink attr;
  stat_rdev := md_rdev attr;
  stat_size := wrap 64 (md_size attr);
  stat_blksize := wrap 64 (md_blksize attr);
  stat_blocks := wrap 64 (md_blocks attr);
  stat_atime := {| sec := wrap 64 (md_atime attr); nsec := wrap 64 (md_atime_nsec attr) |};
  stat_mtime := {| sec := wrap 64 (md_mtime attr); nsec := wrap 64 (md_mtime_nsec attr) |};
  stat_ctime := {| sec := wrap 64 (md_ctime attr); nsec := wrap 64 (md_ctime_nsec attr) |}
|}.

(** ** Message types *)

Module MsgTypes.
Inductive MsgType : Set :=
  | Tlerror | Rlerror | Tstatfs | Rstatfs | Tlopen | Rlopen | Tlcreate | Rlcreate
  | Tsymlink | Rsymlink | Tmknod | Rmknod | Trename | Rrename | Treadlink | Rreadlink
  | Tgetattr | Rgetattr | Tsetattr | Rsetattr | Txattrwalk | Rxattrwalk | Txattrcreate
  | Rxattrcreate | Treaddir | Rreaddir | Tfsync | Rfsync | Tlock | Rlock | Tgetlock
  | Rgetlock | Tlink | Rlink | Tmkdir | Rmkdir | Trenameat | Rrenameat | Tunlinkat
  | Runlinkat | Tversion | Rversion | Tauth | Rauth | Tattach | Rattach | Tflush
  | Rflush | Twalk | Rwalk | Tread | Rread | Twrite | Rwrite | Tclunk | Rclunk
  | Tremove | Rremove.

(** [self as u8] *)
Definition as_u8 (self : MsgType) : u8 :=
  match self with
  | Tlerror => 6 | Rlerror => 7 | Tstatfs => 8 | Rstatfs => 9 | Tlopen => 12
  | Rlopen => 13 | Tlcreate => 14 | Rlcreate => 15 | Tsymlink => 16 | Rsymlink => 17
  | Tmknod => 18 | Rmknod => 19 | Trename => 20 | Rrename => 21 | Treadlink => 22
  | Rreadlink => 23 | Tgetattr => 24 | Rgetattr => 25 | Tsetattr => 26
  | Rsetattr => 27 | Txattrwalk => 30 | Rxattrwalk => 31 | Txattrcreate => 32
  | Rxattrcreate => 33 | Treaddir => 40 | Rreaddir => 41 | Tfsync => 50 | Rfsync => 51
  | Tlock => 52 | Rlock => 53 | Tgetlock => 54 | Rgetlock => 55 | Tlink => 70
  | Rlink => 71 | Tmkdir => 72 | Rmkdir => 73 | Trenameat => 74 | Rrenameat => 75
  | Tunlinkat => 76 | Runlinkat => 77 | Tversion => 100 | Rversion => 101
  | Tauth => 102 | Rauth => 103 | Tattach => 104 | Rattach => 105 | Tflush => 108
  | Rflush => 109 | Twalk => 110 | Rwalk => 111 | Tread => 116 | Rread => 117
  | Twrite => 118 | Rwrite => 119 | Tclunk => 120 | Rclunk => 121 | Tremove => 122
  | Rremove => 123
  end.

Definition is_r (self : MsgType) : bool :=
  match self with
    | Rlerror | Rstatfs | Rlopen | Rlcreate | Rsymlink | Rmknod | Rrename | Rreadlink
    | Rgetattr | Rsetattr | Rxattrwalk | Rxattrcreate | Rreaddir | Rfsync | Rlock
    | Rgetlock | Rlink | Rmkdir | Rrenameat | Runlinkat | Rversion | Rauth | Rattach
    | Rflush | Rwalk | Rread | Rwrite | Rclunk | Rremove => true
  | _ => false
  end.

Definition is_t (self : MsgType) : bool := negb (is_r self).

(** The variants in their order. *)
Definition variants : list MsgType := [
   Tlerror; Rlerror; Tstatfs; Rstatfs; Tlopen; Rlopen; Tlcreate; Rlcreate; Tsymlink;
   Rsymlink; Tmknod; Rmknod; Trename; Rrename; Treadlink; Rreadlink; Tgetattr;
   Rgetattr; Tsetattr; Rsetattr; Txattrwalk; Rxattrwalk; Txattrcreate; Rxattrcreate;
   Treaddir; Rreaddir; Tfsync; Rfsync; Tlock; Rlock; Tgetlock; Rgetlock; Tlink; Rlink;
   Tmkdir; Rmkdir; Trenameat; Rrenameat; Tunlinkat; Runlinkat; Tversion; Rversion;
   Tauth; Rauth; Tattach; Rattach; Tflush; Rflush; Twalk; Rwalk; Tread; Rread; Twrite;
   Rwrite; Tclunk; Rclunk; Tremove; Rremove ].
End MsgTypes.
Abbreviation MsgType := MsgTypes.MsgType.

#[export] Instance MsgType_eq_dec : EqDecision MsgType.
Proof. solve_decision. Defined.

(** What [enum_from_primitive!] promises of the enum it wraps. *)
Class FromPrimitiveLaws `{FromPrimitive MsgType} : Prop :=
  from_u8_law : forall n t, from_u8 n = Some t <-> MsgTypes.as_u8 t = n.

Definition from_u8_ref : FromPrimitive MsgType := fun n =>
  List.find (fun t => MsgTypes.as_u8 t =? n) MsgTypes.variants.

Lemma as_u8_inj t u : MsgTypes.as_u8 t = MsgTypes.as_u8 u -> t = u.
Proof.
  assert (forall t, from_u8_ref (MsgTypes.as_u8 t) = Some t) as H by (by intros []).
  intros E. assert (Some t = Some u) as [= ->]; [|done]. by rewrite <- !H, E.
Qed.

Lemma as_u8_fits t : fits 8 (MsgTypes.as_u8 t).
Proof. unfold fits. destruct t; simpl; lia. Qed.

Lemma from_u8_ref_laws : @FromPrimitiveLaws from_u8_ref.
Proof.
  intros n t. split.
  - unfold from_u8, from_u8_ref. intros [_ H%Z.eqb_eq]%List.find_some. done.
  - intros <-. by destruct t.
Qed.

(** ** Messages *)

Inductive Fcall : Set :=
  | Rlerror (ecode : u32)
  | Tstatfs (fid : u32)
  | Rstatfs (statfs : Statfs)
  | Tlopen (fid : u32) (flags : u32)
  | Rlopen (qid : Qid) (iounit : u32)
  | Tlcreate (fid : u32) (name : string) (flags : u32) (mode : u32) (gid : u32)
  | Rlcreate (qid : Qid) (iounit : u32)
  | Tsymlink (fid : u32) (name : string) (symtgt : string) (gid : u32)
  | Rsymlink (qid : Qid)
  | Tmknod (dfid : u32) (name : string) (mode : u32) (major : u32) (minor : u32) (gid : u32)
  | Rmknod (qid : Qid)
  | Trename (fid : u32) (dfid : u32) (name : string)
  | Rrename
  | Treadlink (fid : u32)
  | Rreadlink (target : string)
  | Tgetattr (fid : u32) (req_mask : GetattrMask)
  | Rgetattr (valid : GetattrMask) (qid : Qid) (stat : Stat)
  | Tsetattr (fid : u32) (valid : SetattrMask) (stat : SetAttr)
  | Rsetattr
  | Txattrwalk (fid : u32) (newfid : u32) (name : string)
  | Rxattrwalk (size : u64)
  | Txattrcreate (fid : u32) (name : string) (attr_size : u64) (flags : u32)
  | Rxattrcreate
  | Treaddir (fid : u32) (offset : u64) (count : u32)
  | Rreaddir (data : DirEntryData)
  | Tfsync (fid : u32)
  | Rfsync
  | Tlock (fid : u32) (flock : Flock)
  | Rlock (status : LockStatus)
  | Tgetlock (fid : u32) (flock : Getlock)
  | Rgetlock (flock : Getlock)
  | Tlink (dfid : u32) (fid : u32) (name : string)
  | Rlink
  | Tmkdir (dfid : u32) (name : string) (mode : u32) (gid : u32)
  | Rmkdir (qid : Qid)
  | Trenameat (olddirfid : u32) (oldname : string) (newdirfid : u32) (newname : string)
  | Rrenameat
  | Tunlinkat (dirfd : u32) (name : string) (flags : u32)
  | Runlinkat
  | Tauth (afid : u32) (uname : string) (aname : string) (n_uname : u32)
  | Rauth (aqid : Qid)
  | Tattach (fid : u32) (afid : u32) (uname : string) (aname : string) (n_uname : u32)
  | Rattach (qid : Qid)
  | Tversion (msize : u32) (version : string)
  | Rversion (msize : u32) (version : string)
  | Tflush (oldtag : u16)
  | Rflush
  | Twalk (fid : u32) (newfid : u32) (wnames : list string)
  | Rwalk (wqids : list Qid)
  | Tread (fid : u32) (offset : u64) (count : u32)
  | Rread (data : Data)
  | Twrite (fid : u32) (offset : u64) (data : Data)
  | Rwrite (count : u32)
  | Tclunk (fid : u32)
  | Rclunk
  | Tremove (fid : u32)
  | Rremove.

Record Msg : Set := { msg_tag : u16; msg_body : Fcall }.

(** [impl From<&Fcall> for MsgType] *)
Definition MsgType_from (fcall : Fcall) : MsgType :=
  match fcall with
  | Rlerror _ => MsgTypes.Rlerror
  | Tstatfs _ => MsgTypes.Tstatfs
  | Rstatfs _ => MsgTypes.Rstatfs
  | Tlopen _ _ => MsgTypes.Tlopen
  | Rlopen _ _ => MsgTypes.Rlopen
  | Tlcreate _ _ _ _ _ => MsgTypes.Tlcreate
  | Rlcreate _ _ => MsgTypes.Rlcreate
  | Tsymlink _ _ _ _ => MsgTypes.Tsymlink
  | Rsymlink _ => MsgTypes.Rsymlink
  | Tmknod _ _ _ _ _ _ => MsgTypes.Tmknod
  | Rmknod _ => MsgTypes.Rmknod
  | Trename _ _ _ => MsgTypes.Trename
  | Rrename => MsgTypes.Rrename
  | Treadlink _ => MsgTypes.Treadlink
  | Rreadlink _ => MsgTypes.Rreadlink
  | Tgetattr _ _ => MsgTypes.Tgetattr
  | Rgetattr _ _ _ => MsgTypes.Rgetattr
  | Tsetattr _ _ _ => MsgTypes.Tsetattr
  | Rsetattr => MsgTypes.Rsetattr
  | Txattrwalk _ _ _ => MsgTypes.Txattrwalk
  | Rxattrwalk _ => MsgTypes.Rxattrwalk
  | Txattrcreate _ _ _ _ => MsgTypes.Txattrcreate
  | Rxattrcreate => MsgTypes.Rxattrcreate
  | Treaddir _ _ _ => MsgTypes.Treaddir
  | Rreaddir _ => MsgTypes.Rreaddir
  | Tfsync _ => MsgTypes.Tfsync
  | Rfsync => MsgTypes.Rfsync
  | Tlock _ _ => MsgTypes.Tlock
  | Rlock _ => MsgTypes.Rlock
  | Tgetlock _ _ => MsgTypes.Tgetlock
  | Rgetlock _ => MsgTypes.Rgetlock
  | Tlink _ _ _ => MsgTypes.Tlink
  | Rlink => MsgTypes.Rlink
  | Tmkdir _ _ _ _ => MsgTypes.Tmkdir
  | Rmkdir _ => MsgTypes.Rmkdir
  | Trenameat _ _ _ _ => MsgTypes.Trenameat
  | Rrenameat => MsgTypes.Rrenameat
  | Tunlinkat _ _ _ => MsgTypes.Tunlinkat
  | Runlinkat => MsgTypes.Runlinkat
  | Tauth _ _ _ _ => MsgTypes.Tauth
  | Rauth _ => MsgTypes.Rauth
  | Tattach _ _ _ _ _ => MsgTypes.Tattach
  | Rattach _ => MsgTypes.Rattach
  | Tversion _ _ => MsgTypes.Tversion
  | Rversion _ _ => MsgTypes.Rversion
  | Tflush _ => MsgTypes.Tflush
  | Rflush => MsgTypes.Rflush
  | Twalk _ _ _ => MsgTypes.Twalk
  | Rwalk _ => MsgTypes.Rwalk
  | Tread _ _ _ => MsgTypes.Tread
  | Rread _ => MsgTypes.Rread
  | Twrite _ _ _ => MsgTypes.Twrite
  | Rwrite _ => MsgTypes.Rwrite
  | Tclunk _ => MsgTypes.Tclunk
  | Rclunk => MsgTypes.Rclunk
  | Tremove _ => MsgTypes.Tremove
  | Rremove => MsgTypes.Rremove
  end.

Definition fids (self : Fcall) : list u32 :=
  match self with
  | Tstatfs fid => [fid]
  | Tlopen fid _ => [fid]
  | Tlcreate fid _ _ _ _ => [fid]
  | Tsymlink fid _ _ _ => [fid]
  | Tmknod dfid _ _ _ _ _ => [dfid]
  | Trename fid dfid _ => [fid; dfid]
  | Treadlink fid => [fid]
  | Tgetattr fid _ => [fid]
  | Tsetattr fid _ _ => [fid]
  | Txattrwalk fid _ _ => [fid]
  | Txattrcreate fid _ _ _ => [fid]
  | Treaddir fid _ _ => [fid]
  | Tfsync fid => [fid]
  | Tlock fid _ => [fid]
  | Tgetlock fid _ => [fid]
  | Tlink dfid fid _ => [dfid; fid]
  | Tmkdir dfid _ _ _ => [dfid]
  | Trenameat olddirfid _ newdirfid _ => [olddirfid; newdirfid]
  | Tunlinkat dirfd _ _ => [dirfd]
  | Tattach _ afid _ _ _ => if afid =? NOFID then [] else [afid]
  | Twalk fid _ _ => [fid]
  | Tread fid _ _ => [fid]
  | Twrite fid _ _ => [fid]
  | Tclunk fid => [fid]
  | Tremove fid => [fid]
  | _ => []
  end.

Definition newfid (self : Fcall) : option u32 :=
  match self with
  | Txattrwalk _ newfid _ => Some newfid
  | Tauth afid _ _ _ => Some afid
  | Tattach fid _ _ _ _ => Some fid
  | Twalk _ newfid _ => Some newfid
  | _ => None
  end.

Definition qids (self : Fcall) : list Qid :=
  match self with
  | Rlopen qid _ => [qid]
  | Rlcreate qid _ => [qid]
  | Rsymlink qid => [qid]
  | Rmknod qid => [qid]
  | Rgetattr _ qid _ => [qid]
  | Rmkdir qid => [qid]
  | Rauth aqid => [aqid]
  | Rattach qid => [qid]
  | Rwalk wqids => wqids
  | _ => []
  end.
