(* ===== verification/Legacy.v ===== *)
(** * The types of 9P2000 (crates/9p/src/fcall.rs, [mod p92000])

    Kept by the program for the older protocol; no message uses them. *)

From Stdlib Require Import Strings.Byte.
From S2P Require Import Prelude Bytes Fcall.

Module om.
Definition READ : u8 := 0.
Definition WRITE : u8 := 1.
Definition RDWR : u8 := 2.
Definition EXEC : u8 := 3.
Definition TRUNC : u8 := 16.
Definition CEXEC : u8 := 32.
Definition RCLOSE : u8 := 64.
End om.

Module dm.
Definition DIR : u32 := 0x80000000.
Definition APPEND : u32 := 0x40000000.
Definition EXCL : u32 := 0x20000000.
Definition MOUNT : u32 := 0x10000000.
Definition AUTH : u32 := 0x08000000.
Definition TMP : u32 := 0x04000000.
Definition READ : u32 := 0x4.
Definition WRITE : u32 := 0x2.
Definition EXEC : u32 := 0x1.

Definition all : list u32 := [DIR; APPEND; EXCL; MOUNT; AUTH; TMP; READ; WRITE; EXEC].

(** Each is a bit of its own. *)
Lemma all_bits : Forall (fun x => exists i, 0 <= i < 32 /\ x = 2 ^ i) all /\ NoDup all.
Proof.
  split; [|apply (bool_decide_unpack _); by vm_compute].
  repeat constructor; [by exists 31|by exists 30|by exists 29|by exists 28|by exists 27|by exists 26|
    by exists 2|by exists 1|by exists 0].
Qed.
End dm.

Record OldStat : Set := {
  typ : u16; dev : u32; qid : Qid; mode : u32; atime : u32; mtime : u32; length : u64;
  name : string; uid : string; gid : string; muid : string
}.

(** The bytes a [Qid] takes in memory are the compiler's choice. *)
Class Layout := size_of_Qid : Z.

Definition str_len (s : string) : Z := Z.of_nat (List.length (as_bytes s)).

Definition OldStat_size `{Layout} (self : OldStat) : u16 :=
  wrap 16 (2 + 4 + size_of_Qid + 4 + 4 + 4 + 8 + 2 * 4
    + str_len (name self) + str_len (uid self) + str_len (gid self) + str_len (muid self)).

(** What the fields of a stat take in a message of 9P2000, where a qid has 13
    bytes. *)
Definition message_size (self : OldStat) : Z :=
  2 + 4 + 13 + 4 + 4 + 4 + 8 + (2 + str_len (name self)) + (2 + str_len (uid self))
  + (2 + str_len (gid self)) + (2 + str_len (muid self)).

(** [size] is the size in a message only when the compiler adds nothing to a
    [Qid], whose last field is to be aligned to 8 bytes. *)
Lemma OldStat_size_message `{Layout} (self : OldStat) :
  OldStat_size self = wrap 16 (message_size self + (size_of_Qid - 13)).
Proof. unfold OldStat_size, message_size. f_equal. lia. Qed.
