(* ===== verification/Serialize.v ===== *)
(** * Serialization of 9P messages (crates/9p/src/serialize.rs)

    [Encodable] and [Decodable] are the traits of the same names; every
    [impl] of the file is an instance.  The encoder chains of the source,
    [Encoder::new(w) << a << b], read the same here: the first [<<] is
    [impl Shl for Encoder] and the following ones, written [<<<], are
    [impl Shl for SResult<Encoder>]. *)

From S2P Require Import Prelude Bytes Io Fcall.

(** ** Encoder and SResult

    The source's encoder holds [&mut W]: when a step fails the encoder is
    dropped and the error returned, but the borrowed writer keeps what was
    written, so [SErr] carries it. *)
Record Encoder (W : Type) := { writer : W; bytes_written : usize }.
Arguments writer {W}.
Arguments bytes_written {W}.

Definition Encoder_new {W} (w : W) : Encoder W := {| writer := w; bytes_written := 0 |}.

Inductive SResult (W : Type) :=
  | SOk (enc : Encoder W)
  | SErr (e : io_error) (w : W).
Arguments SOk {W}.
Arguments SErr {W}.

Class Encodable (A : Type) := encode_ : forall W, WriteBytesExt W -> A -> M W io_error usize.
Definition encode {A W} `{Encodable A, WriteBytesExt W} (self : A) : M W io_error usize :=
  encode_ W _ self.

Definition Encoder_encode {A W} `{Encodable A, WriteBytesExt W} (data : A)
    : M (Encoder W) io_error usize := fun self =>
  match encode data (writer self) with
  | (Ok n, w) => (Ok n, {| writer := w; bytes_written := bytes_written self + n |})
  | (Err e, w) => (Err e, {| writer := w; bytes_written := bytes_written self |})
  end.

Definition Encoder_shl {A W} `{Encodable A, WriteBytesExt W} (self : Encoder W) (rhs : A)
    : SResult W :=
  match Encoder_encode rhs self with
  | (Ok _, self) => SOk self
  | (Err e, self) => SErr e (writer self)
  end.

Definition SResult_shl {A W} `{Encodable A, WriteBytesExt W} (self : SResult W) (rhs : A)
    : SResult W :=
  match self with
  | SOk encoder => Encoder_shl encoder rhs
  | SErr e w => SErr e w
  end.

Declare Scope encoder_scope.
Infix "<<" := Encoder_shl (at level 45, left associativity) : encoder_scope.
Infix "<<<" := SResult_shl (at level 45, left associativity) : encoder_scope.
#[local] Open Scope encoder_scope.

(** [match .. { SResult(Ok(enc)) => Ok(enc.bytes_written()), SResult(Err(e)) => Err(e) }] *)
Definition bytes_or_err {W} (r : SResult W) : result io_error usize * W :=
  match r with
  | SOk enc => (Ok (bytes_written enc), writer enc)
  | SErr e w => (Err e, w)
  end.

(** ** impl Encodable *)

#[export] Instance Encodable_u8 : Encodable u8 := fun W _ self =>
  _ ← write_u8 self; mret 1.
#[export] Instance Encodable_u16 : Encodable u16 := fun W _ self =>
  _ ← write_u16_le self; mret 2.
#[export] Instance Encodable_u32 : Encodable u32 := fun W _ self =>
  _ ← write_u32_le self; mret 4.
#[export] Instance Encodable_u64 : Encodable u64 := fun W _ self =>
  _ ← write_u64_le self; mret 8.

#[export] Instance Encodable_String : Encodable string := fun W _ self =>
  bytes ← encode (wrap 16 (str_len self) : u16);
  n ← (_ ← write_all (as_bytes self); mret (str_len self));
  mret (bytes + n).

#[export] Instance Encodable_Qid : Encodable Qid := fun W _ self w =>
  bytes_or_err (Encoder_new w << (qid_typ self : u8) <<< qid_version self <<< qid_path self).

#[export] Instance Encodable_Statfs : Encodable Statfs := fun W _ self w =>
  bytes_or_err (Encoder_new w
    << statfs_typ self <<< statfs_bsize self <<< statfs_blocks self <<< statfs_bfree self
    <<< statfs_bavail self <<< statfs_files self <<< statfs_ffree self <<< statfs_fsid self
    <<< statfs_namelen self).

#[export] Instance Encodable_Time : Encodable Time := fun W _ self w =>
  bytes_or_err (Encoder_new w << sec self <<< nsec self).

#[export] Instance Encodable_Stat : Encodable Stat := fun W _ self w =>
  bytes_or_err (Encoder_new w
    << stat_mode self <<< stat_uid self <<< stat_gid self <<< stat_nlink self
    <<< stat_rdev self <<< stat_size self <<< stat_blksize self <<< stat_blocks self
    <<< stat_atime self <<< stat_mtime self <<< stat_ctime self).

#[export] Instance Encodable_SetAttr : Encodable SetAttr := fun W _ self w =>
  bytes_or_err (Encoder_new w
    << setattr_mode self <<< setattr_uid self <<< setattr_gid self <<< setattr_size self
    <<< setattr_atime self <<< setattr_mtime self).

#[export] Instance Encodable_DirEntry : Encodable DirEntry := fun W _ self w =>
  bytes_or_err (Encoder_new w
    << dirent_qid self <<< dirent_offset self <<< dirent_typ self <<< dirent_name self).

#[export] Instance Encodable_DirEntryData : Encodable DirEntryData := fun W _ self w =>
  bytes_or_err (fold_left (fun acc e => acc <<< e) (dirents self)
    (Encoder_new w << DirEntryData_size self)).

#[export] Instance Encodable_Data : Encodable Data := fun W _ self =>
  let size := Z.of_nat (length (data_bytes self)) in
  n ← encode (wrap 32 size : u32);
  let bytes := n + size in
  _ ← write_all (data_bytes self);
  mret bytes.

#[export] Instance Encodable_Flock : Encodable Flock := fun W _ self w =>
  bytes_or_err (Encoder_new w
    << (flock_typ self : u8) <<< (flock_flags self : u32) <<< flock_start self
    <<< flock_length self <<< flock_proc_id self <<< flock_client_id self).

#[export] Instance Encodable_Getlock : Encodable Getlock := fun W _ self w =>
  bytes_or_err (Encoder_new w
    << (getlock_typ self : u8) <<< getlock_start self <<< getlock_length self
    <<< getlock_proc_id self <<< getlock_client_id self).

#[export] Instance Encodable_Vec {T} `{Encodable T} : Encodable (list T) := fun W _ self w =>
  bytes_or_err (fold_left (fun acc s => acc <<< s) self
    (Encoder_new w << (wrap 16 (Z.of_nat (length self)) : u16))).

(** The [match self.body] of [impl Encodable for Msg]. *)
Definition encode_body {W} `{WriteBytesExt W} (body : Fcall) (buf : SResult W) : SResult W :=
    match body with
    | Rlerror ecode => buf <<< ecode
    | Tstatfs fid => buf <<< fid
    | Rstatfs statfs => buf <<< statfs
    | Tlopen fid flags => buf <<< fid <<< flags
    | Rlopen qid iounit => buf <<< qid <<< iounit
    | Tlcreate fid name flags mode gid => buf <<< fid <<< name <<< flags <<< mode <<< gid
    | Rlcreate qid iounit => buf <<< qid <<< iounit
    | Tsymlink fid name symtgt gid => buf <<< fid <<< name <<< symtgt <<< gid
    | Rsymlink qid => buf <<< qid
    | Tmknod dfid name mode major minor gid =>
        buf <<< dfid <<< name <<< mode <<< major <<< minor <<< gid
    | Rmknod qid => buf <<< qid
    | Trename fid dfid name => buf <<< fid <<< dfid <<< name
    | Rrename => buf
    | Treadlink fid => buf <<< fid
    | Rreadlink target => buf <<< target
    | Tgetattr fid req_mask => buf <<< fid <<< (req_mask : u64)
    | Rgetattr valid qid stat =>
        buf <<< (valid : u64) <<< qid <<< stat <<< (0 : u64) <<< (0 : u64) <<< (0 : u64)
        <<< (0 : u64)
    | Tsetattr fid valid stat => buf <<< fid <<< (valid : u32) <<< stat
    | Rsetattr => buf
    | Txattrwalk fid newfid name => buf <<< fid <<< newfid <<< name
    | Rxattrwalk size => buf <<< size
    | Txattrcreate fid name attr_size flags => buf <<< fid <<< name <<< attr_size <<< flags
    | Rxattrcreate => buf
    | Treaddir fid offset count => buf <<< fid <<< offset <<< count
    | Rreaddir data => buf <<< data
    | Tfsync fid => buf <<< fid
    | Rfsync => buf
    | Tlock fid flock => buf <<< fid <<< flock
    | Rlock status => buf <<< (status : u8)
    | Tgetlock fid flock => buf <<< fid <<< flock
    | Rgetlock flock => buf <<< flock
    | Tlink dfid fid name => buf <<< dfid <<< fid <<< name
    | Rlink => buf
    | Tmkdir dfid name mode gid => buf <<< dfid <<< name <<< mode <<< gid
    | Rmkdir qid => buf <<< qid
    | Trenameat olddirfid oldname newdirfid newname =>
        buf <<< olddirfid <<< oldname <<< newdirfid <<< newname
    | Rrenameat => buf
    | Tunlinkat dirfd name flags => buf <<< dirfd <<< name <<< flags
    | Runlinkat => buf
    | Tauth afid uname aname n_uname => buf <<< afid <<< uname <<< aname <<< n_uname
    | Rauth aqid => buf <<< aqid
    | Tattach fid afid uname aname n_uname =>
        buf <<< fid <<< afid <<< uname <<< aname <<< n_uname
    | Rattach qid => buf <<< qid
    | Tversion msize version => buf <<< msize <<< version
    | Rversion msize version => buf <<< msize <<< version
    | Tflush oldtag => buf <<< oldtag
    | Rflush => buf
    | Twalk fid newfid wnames => buf <<< fid <<< newfid <<< wnames
    | Rwalk wqids => buf <<< wqids
    | Tread fid offset count => buf <<< fid <<< offset <<< count
    | Rread data => buf <<< data
    | Twrite fid offset data => buf <<< fid <<< offset <<< data
    | Rwrite count => buf <<< count
    | Tclunk fid => buf <<< fid
    | Rclunk => buf
    | Tremove fid => buf <<< fid
    | Rremove => buf
    end.

#[export] Instance Encodable_Msg : Encodable Msg := fun W _ self w =>
  let typ := MsgType_from (msg_body self) in
  let buf := Encoder_new w << MsgTypes.as_u8 typ <<< msg_tag self in
  bytes_or_err (encode_body (msg_body self) buf).

Definition write_msg {W} `{WriteBytesExt W} (msg : Msg) : M W io_error usize := encode msg.

(** ** impl Decodable *)

Class Decodable (A : Type) := decode_ : forall R, ReadBytesExt R -> M R io_error A.
Definition decode {A R} `{Decodable A, ReadBytesExt R} : M R io_error A := decode_ R _.

(** [decode!(Typ, buf)]: [Typ::from_bits_truncate(decode!(buf))]. *)
Definition decode_flags {R} `{Bitflags} (all : Z) (bits : M R io_error Z) : M R io_error Z :=
  b ← bits; mret (from_bits_truncate all b).

(** The [read_exact] helper of the file. *)
Definition read_exact {R} `{ReadBytesExt R} (size : usize) : M R io_error (list byte) :=
  read_exact_buf (Z.to_nat size).

#[export] Instance Decodable_u8 : Decodable u8 := fun R _ => read_u8.
#[export] Instance Decodable_u16 : Decodable u16 := fun R _ => read_u16_le.
#[export] Instance Decodable_u32 : Decodable u32 := fun R _ => read_u32_le.
#[export] Instance Decodable_u64 : Decodable u64 := fun R _ => read_u64_le.

Definition invalid_utf8 : io_error := Simple Other "Invalid UTF-8 sequence".

#[export] Instance Decodable_String : Decodable string := fun R _ =>
  len ← decode (A := u16);
  v ← read_exact len;
  match from_utf8 v with
  | Some s => mret s
  | None => throw invalid_utf8
  end.

(** [for _ in 0..n { buf.push(Decodable::decode(r)?) }] *)
Fixpoint decode_n {A R} `{Decodable A, ReadBytesExt R} (n : nat) : M R io_error (list A) :=
  match n with
  | O => mret []
  | S n => x ← decode; l ← decode_n n; mret (x :: l)
  end.

#[export] Instance Decodable_Statfs : Decodable Statfs := fun R _ =>
  typ ← decode; bsize ← decode; blocks ← decode; bfree ← decode; bavail ← decode;
  files ← decode; ffree ← decode; fsid ← decode; namelen ← decode;
  mret {| statfs_typ := typ; statfs_bsize := bsize; statfs_blocks := blocks;
          statfs_bfree := bfree; statfs_bavail := bavail; statfs_files := files;
          statfs_ffree := ffree; statfs_fsid := fsid; statfs_namelen := namelen |}.

#[export] Instance Decodable_Time : Decodable Time := fun R _ =>
  s ← decode; n ← decode; mret {| sec := s; nsec := n |}.

#[export] Instance Decodable_Stat : Decodable Stat := fun R _ =>
  mode ← decode; uid ← decode; gid ← decode; nlink ← decode; rdev ← decode; size ← decode;
  blksize ← decode; blocks ← decode; atime ← decode; mtime ← decode; ctime ← decode;
  mret {| stat_mode := mode; stat_uid := uid; stat_gid := gid; stat_nlink := nlink;
          stat_rdev := rdev; stat_size := size; stat_blksize := blksize;
          stat_blocks := blocks; stat_atime := atime; stat_mtime := mtime;
          stat_ctime := ctime |}.

#[export] Instance Decodable_SetAttr : Decodable SetAttr := fun R _ =>
  mode ← decode; uid ← decode; gid ← decode; size ← decode; atime ← decode; mtime ← decode;
  mret {| setattr_mode := mode; setattr_uid := uid; setattr_gid := gid;
          setattr_size := size; setattr_atime := atime; setattr_mtime := mtime |}.

#[export] Instance Decodable_Data : Decodable Data := fun R _ =>
  len ← decode (A := u32);
  v ← read_exact len;
  mret {| data_bytes := v |}.

#[export] Instance Decodable_Vec {T} `{Decodable T} : Decodable (list T) := fun R _ =>
  len ← decode (A := u16);
  decode_n (Z.to_nat len).

Section Flags.
Context `{Bitflags} `{FromPrimitive MsgType}.

#[export] Instance Decodable_Qid : Decodable Qid := fun R _ =>
  typ ← decode_flags QidTypes.all (decode (A := u8)); version ← decode; path ← decode;
  mret {| qid_typ := typ; qid_version := version; qid_path := path |}.

#[export] Instance Decodable_DirEntry : Decodable DirEntry := fun R _ =>
  qid ← decode; offset ← decode; typ ← decode; name ← decode;
  mret {| dirent_qid := qid; dirent_offset := offset; dirent_typ := typ;
          dirent_name := name |}.

#[export] Instance Decodable_DirEntryData : Decodable DirEntryData := fun R _ =>
  count ← decode (A := u32);
  data ← decode_n (Z.to_nat count);
  mret (DirEntryData_with data).

#[export] Instance Decodable_Flock : Decodable Flock := fun R _ =>
  typ ← decode_flags LockTypes.all (decode (A := u8));
  flags ← decode_flags LockFlags.all (decode (A := u32));
  start ← decode; len ← decode; proc_id ← decode; client_id ← decode;
  mret {| flock_typ := typ; flock_flags := flags; flock_start := start;
          flock_length := len; flock_proc_id := proc_id; flock_client_id := client_id |}.

#[export] Instance Decodable_Getlock : Decodable Getlock := fun R _ =>
  typ ← decode_flags LockTypes.all (decode (A := u8));
  start ← decode; len ← decode; proc_id ← decode; client_id ← decode;
  mret {| getlock_typ := typ; getlock_start := start; getlock_length := len;
          getlock_proc_id := proc_id; getlock_client_id := client_id |}.

Definition invalid_message_type : io_error := Simple Other "Invalid message type".

Import MsgTypes.

(** The [match msg_type] of [impl Decodable for Msg]. *)
Definition decode_body {R} `{ReadBytesExt R} (msg_type : option MsgType) : M R io_error Fcall :=
  match msg_type with
  | Some Rlerror => ecode ← decode; mret (Fcall.Rlerror ecode)
  | Some Tstatfs => fid ← decode; mret (Fcall.Tstatfs fid)
  | Some Rstatfs => statfs ← decode; mret (Fcall.Rstatfs statfs)
  | Some Tlopen => fid ← decode; flags ← decode; mret (Fcall.Tlopen fid flags)
  | Some Rlopen => qid ← decode; iounit ← decode; mret (Fcall.Rlopen qid iounit)
  | Some Tlcreate =>
      fid ← decode; name ← decode; flags ← decode; mode ← decode; gid ← decode;
      mret (Fcall.Tlcreate fid name flags mode gid)
  | Some Rlcreate => qid ← decode; iounit ← decode; mret (Fcall.Rlcreate qid iounit)
  | Some Tsymlink =>
      fid ← decode; name ← decode; symtgt ← decode; gid ← decode;
      mret (Fcall.Tsymlink fid name symtgt gid)
  | Some Rsymlink => qid ← decode; mret (Fcall.Rsymlink qid)
  | Some Tmknod =>
      dfid ← decode; name ← decode; mode ← decode; major ← decode; minor ← decode; gid ← decode;
      mret (Fcall.Tmknod dfid name mode major minor gid)
  | Some Rmknod => qid ← decode; mret (Fcall.Rmknod qid)
  | Some Trename =>
      fid ← decode; dfid ← decode; name ← decode;
      mret (Fcall.Trename fid dfid name)
  | Some Rrename => mret Fcall.Rrename
  | Some Treadlink => fid ← decode; mret (Fcall.Treadlink fid)
  | Some Rreadlink => target ← decode; mret (Fcall.Rreadlink target)
  | Some Tgetattr =>
      fid ← decode; req_mask ← decode_flags GetattrMasks.all (decode (A := u64));
      mret (Fcall.Tgetattr fid req_mask)
  | Some Rgetattr =>
      valid ← decode_flags GetattrMasks.all (decode (A := u64)); qid ← decode; stat ← decode;
      let r := Fcall.Rgetattr valid qid stat in
      _btime ← decode (A := Time); _gen ← decode (A := u64); _ver ← decode (A := u64);
      mret r
  | Some Tsetattr =>
      fid ← decode; valid ← decode_flags SetattrMasks.all (decode (A := u32)); stat ← decode;
      mret (Fcall.Tsetattr fid valid stat)
  | Some Rsetattr => mret Fcall.Rsetattr
  | Some Txattrwalk =>
      fid ← decode; newfid ← decode; name ← decode;
      mret (Fcall.Txattrwalk fid newfid name)
  | Some Rxattrwalk => size ← decode; mret (Fcall.Rxattrwalk size)
  | Some Txattrcreate =>
      fid ← decode; name ← decode; attr_size ← decode; flags ← decode;
      mret (Fcall.Txattrcreate fid name attr_size flags)
  | Some Rxattrcreate => mret Fcall.Rxattrcreate
  | Some Treaddir =>
      fid ← decode; offset ← decode; count ← decode;
      mret (Fcall.Treaddir fid offset count)
  | Some Rreaddir => data ← decode; mret (Fcall.Rreaddir data)
  | Some Tfsync => fid ← decode; mret (Fcall.Tfsync fid)
  | Some Rfsync => mret Fcall.Rfsync
  | Some Tlock => fid ← decode; flock ← decode; mret (Fcall.Tlock fid flock)
  | Some Rlock =>
      status ← decode_flags LockStatuses.all (decode (A := u8));
      mret (Fcall.Rlock status)
  | Some Tgetlock => fid ← decode; flock ← decode; mret (Fcall.Tgetlock fid flock)
  | Some Rgetlock => flock ← decode; mret (Fcall.Rgetlock flock)
  | Some Tlink =>
      dfid ← decode; fid ← decode; name ← decode;
      mret (Fcall.Tlink dfid fid name)
  | Some Rlink => mret Fcall.Rlink
  | Some Tmkdir =>
      dfid ← decode; name ← decode; mode ← decode; gid ← decode;
      mret (Fcall.Tmkdir dfid name mode gid)
  | Some Rmkdir => qid ← decode; mret (Fcall.Rmkdir qid)
  | Some Trenameat =>
      olddirfid ← decode; oldname ← decode; newdirfid ← decode; newname ← decode;
      mret (Fcall.Trenameat olddirfid oldname newdirfid newname)
  | Some Rrenameat => mret Fcall.Rrenameat
  | Some Tunlinkat =>
      dirfd ← decode; name ← decode; flags ← decode;
      mret (Fcall.Tunlinkat dirfd name flags)
  | Some Runlinkat => mret Fcall.Runlinkat
  | Some Tauth =>
      afid ← decode; uname ← decode; aname ← decode; n_uname ← decode;
      mret (Fcall.Tauth afid uname aname n_uname)
  | Some Rauth => aqid ← decode; mret (Fcall.Rauth aqid)
  | Some Tattach =>
      fid ← decode; afid ← decode; uname ← decode; aname ← decode; n_uname ← decode;
      mret (Fcall.Tattach fid afid uname aname n_uname)
  | Some Rattach => qid ← decode; mret (Fcall.Rattach qid)
  | Some Tversion => msize ← decode; version ← decode; mret (Fcall.Tversion msize version)
  | Some Rversion => msize ← decode; version ← decode; mret (Fcall.Rversion msize version)
  | Some Tflush => oldtag ← decode; mret (Fcall.Tflush oldtag)
  | Some Rflush => mret Fcall.Rflush
  | Some Twalk =>
      fid ← decode; newfid ← decode; wnames ← decode;
      mret (Fcall.Twalk fid newfid wnames)
  | Some Rwalk => wqids ← decode; mret (Fcall.Rwalk wqids)
  | Some Tread =>
      fid ← decode; offset ← decode; count ← decode;
      mret (Fcall.Tread fid offset count)
  | Some Rread => data ← decode; mret (Fcall.Rread data)
  | Some Twrite =>
      fid ← decode; offset ← decode; data ← decode;
      mret (Fcall.Twrite fid offset data)
  | Some Rwrite => count ← decode; mret (Fcall.Rwrite count)
  | Some Tclunk => fid ← decode; mret (Fcall.Tclunk fid)
  | Some Rclunk => mret Fcall.Rclunk
  | Some Tremove => fid ← decode; mret (Fcall.Tremove fid)
  | Some Rremove => mret Fcall.Rremove
  | Some Tlerror | None => throw invalid_message_type
  end.

#[export] Instance Decodable_Msg : Decodable Msg := fun R _ =>
  b ← decode (A := u8);
  let msg_type := from_u8 b in
  tag ← decode;
  body ← decode_body msg_type;
  mret {| msg_tag := tag; msg_body := body |}.

Definition read_msg {R} `{ReadBytesExt R} : M R io_error Msg := decode.
End Flags.
