(* ===== verification/Wire.v ===== *)
(** * The wire format of 9P2000.L messages, as a specification

    [wire x] is the byte layout of [x]: integers little-endian, a string as a
    two-byte length and its bytes, a list as a two-byte count and its
    elements, directory data as a four-byte length in bytes and its entries.
    It mentions no reader, writer, cast or error.  [wf x] says that the
    integers of [x] fit their types, its flags are declared ones, its strings
    are UTF-8, and its strings and lists have a length the format can hold.
    EncodeFacts.v and DecodeFacts.v relate Serialize.v to it. *)

From Stdlib Require Import Strings.Byte.
From S2P Require Import Prelude Bytes Fcall.

Class Wire (A : Type) := wire : A -> list byte.
Class Wf (A : Type) := wf : A -> Prop.

(** Only bits among [all] are set. *)
Definition flags_wf (all b : Z) : Prop := Z.land b all = b.

#[export] Instance Wire_u8 : Wire u8 := le_bytes 1.
#[export] Instance Wire_u16 : Wire u16 := le_bytes 2.
#[export] Instance Wire_u32 : Wire u32 := le_bytes 4.
#[export] Instance Wire_u64 : Wire u64 := le_bytes 8.
#[export] Instance Wf_u8 : Wf u8 := fits 8.
#[export] Instance Wf_u16 : Wf u16 := fits 16.
#[export] Instance Wf_u32 : Wf u32 := fits 32.
#[export] Instance Wf_u64 : Wf u64 := fits 64.

#[export] Instance Wire_string : Wire string := fun s =>
  le_bytes 2 (str_len s) ++ as_bytes s.
#[export] Instance Wf_string : Wf string := fun s => str_wf s /\ fits 16 (str_len s).

#[export] Instance Wire_list {A} `{Wire A} : Wire (list A) := fun l =>
  le_bytes 2 (Z.of_nat (length l)) ++ concat (map wire l).
#[export] Instance Wf_list {A} `{Wf A} : Wf (list A) := fun l =>
  Forall wf l /\ fits 16 (Z.of_nat (length l)).

#[export] Instance Wire_Data : Wire Data := fun d =>
  le_bytes 4 (Z.of_nat (length (data_bytes d))) ++ data_bytes d.
#[export] Instance Wf_Data : Wf Data := fun d => fits 32 (Z.of_nat (length (data_bytes d))).

#[export] Instance Wire_Qid : Wire Qid := fun q =>
  wire (qid_typ q : u8) ++ wire (qid_version q) ++ wire (qid_path q).
#[export] Instance Wf_Qid : Wf Qid := fun q =>
  flags_wf QidTypes.all (qid_typ q) /\ wf (qid_version q) /\ wf (qid_path q).

#[export] Instance Wire_Statfs : Wire Statfs := fun s =>
  wire (statfs_typ s) ++ wire (statfs_bsize s) ++ wire (statfs_blocks s)
  ++ wire (statfs_bfree s) ++ wire (statfs_bavail s) ++ wire (statfs_files s)
  ++ wire (statfs_ffree s) ++ wire (statfs_fsid s) ++ wire (statfs_namelen s).
#[export] Instance Wf_Statfs : Wf Statfs := fun s =>
  wf (statfs_typ s) /\ wf (statfs_bsize s) /\ wf (statfs_blocks s)
  /\ wf (statfs_bfree s) /\ wf (statfs_bavail s) /\ wf (statfs_files s)
  /\ wf (statfs_ffree s) /\ wf (statfs_fsid s) /\ wf (statfs_namelen s).

#[export] Instance Wire_Time : Wire Time := fun t => wire (sec t) ++ wire (nsec t).
#[export] Instance Wf_Time : Wf Time := fun t => wf (sec t) /\ wf (nsec t).

#[export] Instance Wire_Stat : Wire Stat := fun s =>
  wire (stat_mode s) ++ wire (stat_uid s) ++ wire (stat_gid s) ++ wire (stat_nlink s)
  ++ wire (stat_rdev s) ++ wire (stat_size s) ++ wire (stat_blksize s)
  ++ wire (stat_blocks s) ++ wire (stat_atime s) ++ wire (stat_mtime s)
  ++ wire (stat_ctime s).
#[export] Instance Wf_Stat : Wf Stat := fun s =>
  wf (stat_mode s) /\ wf (stat_uid s) /\ wf (stat_gid s) /\ wf (stat_nlink s)
  /\ wf (stat_rdev s) /\ wf (stat_size s) /\ wf (stat_blksize s)
  /\ wf (stat_blocks s) /\ wf (stat_atime s) /\ wf (stat_mtime s)
  /\ wf (stat_ctime s).

#[export] Instance Wire_SetAttr : Wire SetAttr := fun s =>
  wire (setattr_mode s) ++ wire (setattr_uid s) ++ wire (setattr_gid s)
  ++ wire (setattr_size s) ++ wire (setattr_atime s) ++ wire (setattr_mtime s).
#[export] Instance Wf_SetAttr : Wf SetAttr := fun s =>
  wf (setattr_mode s) /\ wf (setattr_uid s) /\ wf (setattr_gid s)
  /\ wf (setattr_size s) /\ wf (setattr_atime s) /\ wf (setattr_mtime s).

#[export] Instance Wire_DirEntry : Wire DirEntry := fun e =>
  wire (dirent_qid e) ++ wire (dirent_offset e) ++ wire (dirent_typ e)
  ++ wire (dirent_name e).
#[export] Instance Wf_DirEntry : Wf DirEntry := fun e =>
  wf (dirent_qid e) /\ wf (dirent_offset e) /\ wf (dirent_typ e) /\ wf (dirent_name e).

(** The length in front of directory data counts bytes, not entries. *)
#[export] Instance Wire_DirEntryData : Wire DirEntryData := fun d =>
  let body := concat (map wire (dirents d)) in
  le_bytes 4 (Z.of_nat (length body)) ++ body.
#[export] Instance Wf_DirEntryData : Wf DirEntryData := fun d => Forall wf (dirents d).

#[export] Instance Wire_Flock : Wire Flock := fun f =>
  wire (flock_typ f : u8) ++ wire (flock_flags f : u32) ++ wire (flock_start f)
  ++ wire (flock_length f) ++ wire (flock_proc_id f) ++ wire (flock_client_id f).
#[export] Instance Wf_Flock : Wf Flock := fun f =>
  flags_wf LockTypes.all (flock_typ f) /\ flags_wf LockFlags.all (flock_flags f)
  /\ wf (flock_start f) /\ wf (flock_length f) /\ wf (flock_proc_id f)
  /\ wf (flock_client_id f).

#[export] Instance Wire_Getlock : Wire Getlock := fun f =>
  wire (getlock_typ f : u8) ++ wire (getlock_start f) ++ wire (getlock_length f)
  ++ wire (getlock_proc_id f) ++ wire (getlock_client_id f).
#[export] Instance Wf_Getlock : Wf Getlock := fun f =>
  flags_wf LockTypes.all (getlock_typ f)
  /\ wf (getlock_start f) /\ wf (getlock_length f) /\ wf (getlock_proc_id f)
  /\ wf (getlock_client_id f).

(** The fields of each message, in the order of the protocol.  Rgetattr ends
    with the reserved birth time, generation and data version, all zero. *)
#[export] Instance Wire_Fcall : Wire Fcall := fun body =>
  match body with
  | Rlerror ecode => wire ecode
  | Tstatfs fid => wire fid
  | Rstatfs statfs => wire statfs
  | Tlopen fid flags => wire fid ++ wire flags
  | Rlopen qid iounit => wire qid ++ wire iounit
  | Tlcreate fid name flags mode gid =>
      wire fid ++ wire name ++ wire flags ++ wire mode ++ wire gid
  | Rlcreate qid iounit => wire qid ++ wire iounit
  | Tsymlink fid name symtgt gid => wire fid ++ wire name ++ wire symtgt ++ wire gid
  | Rsymlink qid => wire qid
  | Tmknod dfid name mode major minor gid =>
      wire dfid ++ wire name ++ wire mode ++ wire major ++ wire minor ++ wire gid
  | Rmknod qid => wire qid
  | Trename fid dfid name => wire fid ++ wire dfid ++ wire name
  | Rrename => []
  | Treadlink fid => wire fid
  | Rreadlink target => wire target
  | Tgetattr fid req_mask => wire fid ++ wire (req_mask : u64)
  | Rgetattr valid qid stat => wire (valid : u64) ++ wire qid ++ wire stat ++ replicate 32 x00
  | Tsetattr fid valid stat => wire fid ++ wire (valid : u32) ++ wire stat
  | Rsetattr => []
  | Txattrwalk fid newfid name => wire fid ++ wire newfid ++ wire name
  | Rxattrwalk size => wire size
  | Txattrcreate fid name attr_size flags =>
      wire fid ++ wire name ++ wire attr_size ++ wire flags
  | Rxattrcreate => []
  | Treaddir fid offset count => wire fid ++ wire offset ++ wire count
  | Rreaddir data => wire data
  | Tfsync fid => wire fid
  | Rfsync => []
  | Tlock fid flock => wire fid ++ wire flock
  | Rlock status => wire (status : u8)
  | Tgetlock fid flock => wire fid ++ wire flock
  | Rgetlock flock => wire flock
  | Tlink dfid fid name => wire dfid ++ wire fid ++ wire name
  | Rlink => []
  | Tmkdir dfid name mode gid => wire dfid ++ wire name ++ wire mode ++ wire gid
  | Rmkdir qid => wire qid
  | Trenameat olddirfid oldname newdirfid newname =>
      wire olddirfid ++ wire oldname ++ wire newdirfid ++ wire newname
  | Rrenameat => []
  | Tunlinkat dirfd name flags => wire dirfd ++ wire name ++ wire flags
  | Runlinkat => []
  | Tauth afid uname aname n_uname => wire afid ++ wire uname ++ wire aname ++ wire n_uname
  | Rauth aqid => wire aqid
  | Tattach fid afid uname aname n_uname =>
      wire fid ++ wire afid ++ wire uname ++ wire aname ++ wire n_uname
  | Rattach qid => wire qid
  | Tversion msize version => wire msize ++ wire version
  | Rversion msize version => wire msize ++ wire version
  | Tflush oldtag => wire oldtag
  | Rflush => []
  | Twalk fid newfid wnames => wire fid ++ wire newfid ++ wire wnames
  | Rwalk wqids => wire wqids
  | Tread fid offset count => wire fid ++ wire offset ++ wire count
  | Rread data => wire data
  | Twrite fid offset data => wire fid ++ wire offset ++ wire data
  | Rwrite count => wire count
  | Tclunk fid => wire fid
  | Rclunk => []
  | Tremove fid => wire fid
  | Rremove => []
  end.

#[export] Instance Wf_Fcall : Wf Fcall := fun body =>
  match body with
  | Rlerror ecode => wf ecode
  | Tstatfs fid => wf fid
  | Rstatfs statfs => wf statfs
  | Tlopen fid flags => wf fid /\ wf flags
  | Rlopen qid iounit => wf qid /\ wf iounit
  | Tlcreate fid name flags mode gid => wf fid /\ wf name /\ wf flags /\ wf mode /\ wf gid
  | Rlcreate qid iounit => wf qid /\ wf iounit
  | Tsymlink fid name symtgt gid => wf fid /\ wf name /\ wf symtgt /\ wf gid
  | Rsymlink qid => wf qid
  | Tmknod dfid name mode major minor gid =>
      wf dfid /\ wf name /\ wf mode /\ wf major /\ wf minor /\ wf gid
  | Rmknod qid => wf qid
  | Trename fid dfid name => wf fid /\ wf dfid /\ wf name
  | Rrename => True
  | Treadlink fid => wf fid
  | Rreadlink target => wf target
  | Tgetattr fid req_mask => wf fid /\ flags_wf GetattrMasks.all req_mask
  | Rgetattr valid qid stat => flags_wf GetattrMasks.all valid /\ wf qid /\ wf stat
  | Tsetattr fid valid stat => wf fid /\ flags_wf SetattrMasks.all valid /\ wf stat
  | Rsetattr => True
  | Txattrwalk fid newfid name => wf fid /\ wf newfid /\ wf name
  | Rxattrwalk size => wf size
  | Txattrcreate fid name attr_size flags => wf fid /\ wf name /\ wf attr_size /\ wf flags
  | Rxattrcreate => True
  | Treaddir fid offset count => wf fid /\ wf offset /\ wf count
  | Rreaddir data => wf data
  | Tfsync fid => wf fid
  | Rfsync => True
  | Tlock fid flock => wf fid /\ wf flock
  | Rlock status => flags_wf LockStatuses.all status
  | Tgetlock fid flock => wf fid /\ wf flock
  | Rgetlock flock => wf flock
  | Tlink dfid fid name => wf dfid /\ wf fid /\ wf name
  | Rlink => True
  | Tmkdir dfid name mode gid => wf dfid /\ wf name /\ wf mode /\ wf gid
  | Rmkdir qid => wf qid
  | Trenameat olddirfid oldname newdirfid newname =>
      wf olddirfid /\ wf oldname /\ wf newdirfid /\ wf newname
  | Rrenameat => True
  | Tunlinkat dirfd name flags => wf dirfd /\ wf name /\ wf flags
  | Runlinkat => True
  | Tauth afid uname aname n_uname => wf afid /\ wf uname /\ wf aname /\ wf n_uname
  | Rauth aqid => wf aqid
  | Tattach fid afid uname aname n_uname =>
      wf fid /\ wf afid /\ wf uname /\ wf aname /\ wf n_uname
  | Rattach qid => wf qid
  | Tversion msize version => wf msize /\ wf version
  | Rversion msize version => wf msize /\ wf version
  | Tflush oldtag => wf oldtag
  | Rflush => True
  | Twalk fid newfid wnames => wf fid /\ wf newfid /\ wf wnames
  | Rwalk wqids => wf wqids
  | Tread fid offset count => wf fid /\ wf offset /\ wf count
  | Rread data => wf data
  | Twrite fid offset data => wf fid /\ wf offset /\ wf data
  | Rwrite count => wf count
  | Tclunk fid => wf fid
  | Rclunk => True
  | Tremove fid => wf fid
  | Rremove => True
  end.

#[export] Instance Wire_Msg : Wire Msg := fun m =>
  wire (MsgTypes.as_u8 (MsgType_from (msg_body m))) ++ wire (msg_tag m) ++ wire (msg_body m).
#[export] Instance Wf_Msg : Wf Msg := fun m => wf (msg_tag m) /\ wf (msg_body m).

(** ** Lemmas on the layout *)

Lemma le_bytes_wrap n z : le_bytes n (wrap (8 * Z.of_nat n) z) = le_bytes n z.
Proof.
  rewrite <- le_value_bytes.
  rewrite <- (le_bytes_length n z) at 1. apply le_bytes_value.
Qed.

Lemma flags_fits w all b : 0 <= w -> fits w all -> flags_wf all b -> fits w b.
Proof.
  unfold flags_wf. intros Hw Hall Hb.
  assert (Z.land all (Z.ones w) = all) as Ha.
  { rewrite Z.land_ones by done. by apply wrap_id. }
  assert (wrap w b = b) as <-; [|by apply wrap_fits].
  unfold wrap. rewrite <- Z.land_ones by done.
  by rewrite <- Hb at 1; rewrite <- Z.land_assoc, Ha.
Qed.

Lemma flags_wf_land all b : flags_wf all (Z.land b all).
Proof. unfold flags_wf. by rewrite <- Z.land_assoc, Z.land_diag. Qed.

(** A message always has a type and a tag. *)
Lemma wire_Msg_length m : (3 <= length (wire m))%nat.
Proof.
  unfold wire, Wire_Msg. rewrite !length_app.
  unfold wire at 1 2, Wire_u8, Wire_u16. rewrite !le_bytes_length. lia.
Qed.
