(* ===== verification/EncodeFacts.v ===== *)
(** * Encoding refines the wire format

    For every lawful writer, [encode x] appends [wire x] and returns its
    length; when the writer fails part-way the error is returned and what was
    written is a prefix of [wire x]. *)

From Stdlib Require Import Strings.Byte.
From S2P Require Import Prelude Bytes Io Fcall Serialize Wire.

#[local] Open Scope encoder_scope.

(** ** Computations that append bytes and count them *)
Section Tracks.
Context {W : Type} `{WriterLaws W}.

(** [m] appends [bs] to the writer and returns how many bytes that is. *)
Definition encodes_to (m : M W io_error usize) (bs : list byte) : Prop :=
  forall w, appended written w bs (m w).1 (m w).2
    /\ forall n, (m w).1 = Ok n -> n = Z.of_nat (length bs).

(** The encoder chain [r], started on the writer [w0], has produced [bs]. *)
Definition tracks (w0 : W) (bs : list byte) (r : SResult W) : Prop :=
  match r with
  | SOk enc => written (writer enc) = written w0 ++ bs
               /\ bytes_written enc = Z.of_nat (length bs)
  | SErr _ w => exists p, p `prefix_of` bs /\ written w = written w0 ++ p
  end.

(** One integer: write it, return its size. *)
Lemma encodes_to_write (m : M W io_error unit) bs n :
  writes written m bs -> n = Z.of_nat (length bs) ->
  encodes_to (_ ← m; mret n) bs.
Proof.
  intros Hm -> w. pose proof (Hm w) as Ha. unfold mbind, M_bind.
  destruct (m w) as [[[]|e] w1]; simpl in *; [|done].
  split; [done|]. by intros n [= <-].
Qed.

(** Two encodings in a row, whose sizes are added. *)
Lemma encodes_to_seq m1 m2 bs1 bs2 :
  encodes_to m1 bs1 -> encodes_to m2 bs2 ->
  encodes_to (a ← m1; b ← m2; mret (a + b)) (bs1 ++ bs2).
Proof.
  intros H1 H2 w. destruct (H1 w) as [A1 N1]. unfold mbind, M_bind.
  destruct (m1 w) as [[a|e] w1]; simpl in *.
  - destruct (H2 w1) as [A2 N2]. destruct (m2 w1) as [[b|e] w2]; simpl in *.
    + rewrite A2, A1, app_assoc. split; [done|]. intros n [= <-].
      rewrite (N1 a), (N2 b) by done. rewrite length_app. lia.
    + split; [|done]. destruct A2 as (p & Hp & ->). exists (bs1 ++ p).
      rewrite A1, app_assoc. split; [by apply prefix_app|done].
  - split; [|done]. destruct A1 as (p & Hp & ->). exists p.
    split; [|done]. by apply prefix_app_r.
Qed.

Lemma tracks_new {A} `{Encodable A} w (a : A) bs :
  encodes_to (encode a) bs -> tracks w bs (Encoder_new w << a).
Proof.
  intros Ha. destruct (Ha w) as [A1 N1].
  unfold Encoder_shl, Encoder_encode, Encoder_new. simpl.
  destruct (encode a w) as [[n|e] w1]; simpl in *; [|done].
  rewrite (N1 n) by done. split; [done|lia].
Qed.

Lemma tracks_shl {A} `{Encodable A} w r bs (a : A) bs' :
  encodes_to (encode a) bs' -> tracks w bs r -> tracks w (bs ++ bs') (r <<< a).
Proof.
  intros Ha. destruct r as [enc|e w1]; simpl.
  - intros [E N]. destruct (Ha (writer enc)) as [A1 N1].
    unfold Encoder_shl, Encoder_encode.
    destruct (encode a (writer enc)) as [[n|e] w1]; simpl in *.
    + rewrite A1, E, N, (N1 n), app_assoc, length_app by done. split; [done|lia].
    + destruct A1 as (p & Hp & ->). exists (bs ++ p). rewrite E, app_assoc.
      split; [by apply prefix_app|done].
  - intros (p & Hp & ->). exists p. split; [by apply prefix_app_r|done].
Qed.

Lemma tracks_fold {A} `{Encodable A} `{Wire A} w (l : list A) :
  (forall a, encodes_to (encode a) (wire a)) ->
  forall r bs, tracks w bs r ->
  tracks w (bs ++ concat (map wire l)) (fold_left (fun acc e => acc <<< e) l r).
Proof.
  intros Ha. induction l as [|a l IH]; intros r bs Hr; simpl; [by rewrite app_nil_r|].
  rewrite app_assoc. apply IH. by apply tracks_shl.
Qed.

(** A chain that produced the wanted bytes, closed by [bytes_or_err]. *)
Lemma tracks_done (f : W -> SResult W) bs :
  (forall w, exists bs', tracks w bs' (f w) /\ bs' = bs) ->
  encodes_to (fun w => bytes_or_err (f w)) bs.
Proof.
  intros Hf w. destruct (Hf w) as (? & Ht & ->).
  destruct (f w) as [enc|e w1]; simpl in *; [|done].
  destruct Ht as [E N]. split; [done|]. by intros n [= <-].
Qed.
End Tracks.

#[export] Hint Resolve tracks_new tracks_shl : wire.

(** The obligation of one [impl Encodable]: what every encoder promises to the
    encoders built from it. *)
Class Encodes (A : Type) `{Encodable A, Wire A} : Prop :=
  encodes : forall W (HW : WriteBytesExt W) (LW : WriterLaws W) (a : A),
    encodes_to (encode a) (wire a).

#[export] Hint Extern 2 (encodes_to (encode _) _) => apply encodes : wire.

(** Follows a chain of [<<] and collects its bytes. *)
Ltac track_chain :=
  repeat (eapply tracks_shl; [solve [apply encodes]|]);
  eapply tracks_new; solve [apply encodes].

Ltac encode_struct :=
  intros W HW LW a; apply tracks_done; intros w;
  eexists; split; [track_chain | by rewrite <- ?app_assoc].

#[export] Instance Encodes_u8 : Encodes u8.
Proof. intros W HW LW a. by apply encodes_to_write; [apply write_u8_law|]. Qed.
#[export] Instance Encodes_u16 : Encodes u16.
Proof. intros W HW LW a. by apply encodes_to_write; [apply write_u16_law|]. Qed.
#[export] Instance Encodes_u32 : Encodes u32.
Proof. intros W HW LW a. by apply encodes_to_write; [apply write_u32_law|]. Qed.
#[export] Instance Encodes_u64 : Encodes u64.
Proof. intros W HW LW a. by apply encodes_to_write; [apply write_u64_law|]. Qed.

(** The cast of a length to the width of its prefix writes the same bytes as
    the length itself. *)
Lemma encodes_len16 {W} `{WriterLaws W} (n : Z) :
  encodes_to (encode (wrap 16 n : u16)) (le_bytes 2 n).
Proof. rewrite <- (le_bytes_wrap 2 n). exact (encodes (A := u16) W _ _ _). Qed.

Lemma encodes_len32 {W} `{WriterLaws W} (n : Z) :
  encodes_to (encode (wrap 32 n : u32)) (le_bytes 4 n).
Proof. rewrite <- (le_bytes_wrap 4 n). exact (encodes (A := u32) W _ _ _). Qed.

#[export] Instance Encodes_String : Encodes string.
Proof.
  intros W HW LW s. apply encodes_to_seq; [apply encodes_len16|].
  by apply encodes_to_write; [apply write_all_law|].
Qed.

#[export] Instance Encodes_Data : Encodes Data.
Proof.
  intros W HW LW [l] w. unfold encode, encode_, Encodable_Data, wire, Wire_Data. simpl.
  assert (encodes_to (n ← encode (wrap 32 (Z.of_nat (length l)) : u32);
    k ← (_ ← write_all l; mret (Z.of_nat (length l))); mret (n + k))
    (le_bytes 4 (Z.of_nat (length l)) ++ l)) as Hs.
  { apply encodes_to_seq; [apply encodes_len32|].
    by apply encodes_to_write; [apply write_all_law|]. }
  specialize (Hs w). revert Hs. unfold mbind, M_bind.
  destruct (encode _ w) as [[n|e] w1]; [|done].
  by destruct (write_all l w1) as [[[]|e] w2].
Qed.

#[export] Instance Encodes_Qid : Encodes Qid.
Proof. encode_struct. Qed.
#[export] Instance Encodes_Statfs : Encodes Statfs.
Proof. encode_struct. Qed.
#[export] Instance Encodes_Time : Encodes Time.
Proof. encode_struct. Qed.
#[export] Instance Encodes_Stat : Encodes Stat.
Proof. encode_struct. Qed.
#[export] Instance Encodes_SetAttr : Encodes SetAttr.
Proof. encode_struct. Qed.
#[export] Instance Encodes_DirEntry : Encodes DirEntry.
Proof. encode_struct. Qed.
#[export] Instance Encodes_Flock : Encodes Flock.
Proof. encode_struct. Qed.
#[export] Instance Encodes_Getlock : Encodes Getlock.
Proof. encode_struct. Qed.

#[export] Instance Encodes_Vec {A} `{Encodes A} : Encodes (list A).
Proof.
  intros W HW LW l. apply tracks_done. intros w. eexists. split; [|done].
  apply tracks_fold; [intros; apply encodes|]. apply tracks_new, encodes_len16.
Qed.

(** ** Directory data

    [DirEntry::size] and [DirEntryData::size] compute the lengths of the
    encodings, up to the width of their type. *)
Lemma wire_Qid_length (q : Qid) : length (wire q) = 13%nat.
Proof.
  unfold wire, Wire_Qid. rewrite !length_app.
  unfold wire, Wire_u8, Wire_u32, Wire_u64. by rewrite !le_bytes_length.
Qed.

Lemma wire_DirEntry_length e :
  Z.of_nat (length (wire e)) = 24 + str_len (dirent_name e).
Proof.
  unfold wire at 1, Wire_DirEntry. rewrite !length_app, wire_Qid_length.
  unfold wire, Wire_u8, Wire_u64, Wire_string.
  rewrite length_app, !le_bytes_length. unfold str_len. lia.
Qed.

Lemma wire_DirEntry_min (e : DirEntry) : (24 <= length (wire e))%nat.
Proof. pose proof (wire_DirEntry_length e). unfold str_len in *. lia. Qed.

(** There are fewer entries than bytes. *)
Lemma dirents_shorter (l : list DirEntry) :
  l <> [] -> (length l < length (concat (map wire l)))%nat.
Proof.
  intros Hl. assert (24 * length l <= length (concat (map wire l)))%nat as H.
  { clear Hl. induction l as [|e l IH]; simpl; [lia|].
    rewrite length_app. pose proof (wire_DirEntry_min e). lia. }
  destruct l; [done|]. simpl in *. lia.
Qed.

Lemma DirEntry_size_wire e : DirEntry_size e = wrap 32 (Z.of_nat (length (wire e))).
Proof. rewrite wire_DirEntry_length. unfold DirEntry_size, Qid_size. f_equal. Qed.

Lemma wrap_add_l w a b : wrap w (wrap w a + b) = wrap w (a + b).
Proof. unfold wrap. by rewrite Zplus_mod_idemp_l. Qed.
Lemma wrap_add_r w a b : wrap w (a + wrap w b) = wrap w (a + b).
Proof. unfold wrap. by rewrite Zplus_mod_idemp_r. Qed.

Lemma DirEntryData_size_wire d :
  DirEntryData_size d = wrap 32 (Z.of_nat (length (concat (map wire (dirents d))))).
Proof.
  unfold DirEntryData_size. destruct d as [l]. simpl.
  enough (forall a, fold_left (fun a e => wrap 32 (a + DirEntry_size e)) l (wrap 32 a)
    = wrap 32 (a + Z.of_nat (length (concat (map wire l))))) as Hl by apply (Hl 0).
  induction l as [|e l IH]; intros a; cbn [fold_left map concat]; [by rewrite Z.add_0_r|].
  rewrite wrap_add_l, DirEntry_size_wire, wrap_add_r, IH, length_app. f_equal. lia.
Qed.

#[export] Instance Encodes_DirEntryData : Encodes DirEntryData.
Proof.
  intros W HW LW d. apply tracks_done. intros w. eexists. split; [|done].
  apply tracks_fold; [intros; apply encodes|]. apply tracks_new.
  rewrite DirEntryData_size_wire. apply encodes_len32.
Qed.

(** ** Messages *)

Lemma encode_body_tracks {W} `{WriterLaws W} w bs r (body : Fcall) :
  tracks w bs r -> exists bs', tracks w bs' (encode_body body r) /\ bs' = bs ++ wire body.
Proof.
  intros Hr.
  destruct body; simpl; eexists; (split;
    [repeat (eapply tracks_shl; [solve [apply encodes]|]); exact Hr
    |unfold wire at 1, Wire_Fcall; rewrite <- ?app_assoc; rewrite ?app_nil_r; reflexivity]).
Qed.

#[export] Instance Encodes_Msg : Encodes Msg.
Proof.
  intros W HW LW [tag body]. apply tracks_done. intros w.
  destruct (encode_body_tracks w (wire (MsgTypes.as_u8 (MsgType_from body)) ++ wire tag)
    (Encoder_new w << MsgTypes.as_u8 (MsgType_from body) <<< tag) body) as (bs & Ht & ->).
  - apply tracks_shl; [apply encodes|]. apply tracks_new, encodes.
  - eexists. split; [exact Ht|]. by rewrite <- app_assoc.
Qed.

(** ** Encoding into a growable writer succeeds *)
Section TotalChain.
Context {W : Type} `{Growable W}.

Definition total {A} (m : M W io_error A) : Prop := forall w, is_ok (m w).1.
Definition chain_ok (r : SResult W) : Prop := exists enc, r = SOk enc.

Lemma total_bind {A B} (m : M W io_error A) (k : A -> M W io_error B) :
  total m -> (forall a, total (k a)) -> total (m ≫= k).
Proof.
  intros Hm Hk w. specialize (Hm w). unfold mbind, M_bind.
  destruct (m w) as [[a|e] w1]; [apply Hk|done].
Qed.

Lemma total_ret {A} (a : A) : total (mret a).
Proof. by intros w. Qed.

Lemma chain_shl {A} `{Encodable A} r (a : A) :
  total (encode a) -> chain_ok r -> chain_ok (r <<< a).
Proof.
  intros Ha [enc ->]. simpl. specialize (Ha (writer enc)). unfold Encoder_shl, Encoder_encode.
  destruct (encode a (writer enc)) as [[n|e] w1]; [by eexists|done].
Qed.

Lemma chain_new {A} `{Encodable A} w (a : A) :
  total (encode a) -> chain_ok (Encoder_new w << a).
Proof. intros Ha. apply (chain_shl (SOk (Encoder_new w)) a Ha). by eexists. Qed.

Lemma chain_fold {A} `{Encodable A} (l : list A) :
  (forall a, total (encode a)) ->
  forall r, chain_ok r -> chain_ok (fold_left (fun acc e => acc <<< e) l r).
Proof. intros Ha. induction l; intros r Hr; simpl; auto using chain_shl. Qed.

Lemma total_done (f : W -> SResult W) :
  (forall w, chain_ok (f w)) -> total (fun w => bytes_or_err (f w)).
Proof. intros Hf w. by destruct (Hf w) as [enc ->]. Qed.
End TotalChain.

#[export] Hint Resolve total_bind total_ret chain_shl chain_new grow_u8 grow_u16 grow_u32
  grow_u64 grow_all : wire.

Class EncodeTotal (A : Type) `{Encodable A} : Prop :=
  encode_total : forall W (HW : WriteBytesExt W) (GW : Growable W) (a : A), total (encode a).

#[export] Hint Extern 2 (total (encode _)) => apply encode_total : wire.

Ltac total_struct := intros W HW GW a; apply total_done; intros w; auto 30 with wire.

#[export] Instance EncodeTotal_u8 : EncodeTotal u8.
Proof. intros W HW GW a. apply total_bind; [exact (grow_u8 a)|apply total_ret]. Qed.
#[export] Instance EncodeTotal_u16 : EncodeTotal u16.
Proof. intros W HW GW a. apply total_bind; [exact (grow_u16 a)|apply total_ret]. Qed.
#[export] Instance EncodeTotal_u32 : EncodeTotal u32.
Proof. intros W HW GW a. apply total_bind; [exact (grow_u32 a)|apply total_ret]. Qed.
#[export] Instance EncodeTotal_u64 : EncodeTotal u64.
Proof. intros W HW GW a. apply total_bind; [exact (grow_u64 a)|apply total_ret]. Qed.
#[export] Instance EncodeTotal_String : EncodeTotal string.
Proof.
  intros W HW GW s. apply total_bind; [exact (encode_total (A := u16) W _ _ _)|].
  intros n. apply total_bind; [|intros; apply total_ret].
  apply total_bind; [exact (grow_all (as_bytes s))|intros; apply total_ret].
Qed.
#[export] Instance EncodeTotal_Data : EncodeTotal Data.
Proof.
  intros W HW GW d. apply total_bind; [exact (encode_total (A := u32) W _ _ _)|].
  intros n. apply total_bind; [exact (grow_all (data_bytes d))|intros; apply total_ret].
Qed.
#[export] Instance EncodeTotal_Qid : EncodeTotal Qid.
Proof. total_struct. Qed.
#[export] Instance EncodeTotal_Statfs : EncodeTotal Statfs.
Proof. total_struct. Qed.
#[export] Instance EncodeTotal_Time : EncodeTotal Time.
Proof. total_struct. Qed.
#[export] Instance EncodeTotal_Stat : EncodeTotal Stat.
Proof. total_struct. Qed.
#[export] Instance EncodeTotal_SetAttr : EncodeTotal SetAttr.
Proof. total_struct. Qed.
#[export] Instance EncodeTotal_DirEntry : EncodeTotal DirEntry.
Proof. total_struct. Qed.
#[export] Instance EncodeTotal_Flock : EncodeTotal Flock.
Proof. total_struct. Qed.
#[export] Instance EncodeTotal_Getlock : EncodeTotal Getlock.
Proof. total_struct. Qed.
#[export] Instance EncodeTotal_DirEntryData : EncodeTotal DirEntryData.
Proof.
  intros W HW GW a. apply total_done. intros w. apply chain_fold; auto with wire.
Qed.
#[export] Instance EncodeTotal_Vec {A} `{EncodeTotal A} : EncodeTotal (list A).
Proof.
  intros W HW GW a. apply total_done. intros w. apply chain_fold; auto with wire.
Qed.

Lemma encode_body_ok {W} `{Growable W} r (body : Fcall) :
  chain_ok r -> chain_ok (encode_body body r).
Proof. intros Hr. destruct body; simpl; auto 30 with wire. Qed.

#[export] Instance EncodeTotal_Msg : EncodeTotal Msg.
Proof.
  intros W HW GW a. apply total_done. intros w. apply encode_body_ok. auto with wire.
Qed.
