(* ===== verification/DecodeFacts.v ===== *)
(** * Decoding inverts the wire format

    Four obligations are proved for every [impl Decodable] and gathered in the
    class [Decodes]:
    - any lawful reader decodes what the byte slice decodes;
    - decoding is local: it depends on the bytes it consumes and on no other,
      and an error other than the end of the input stays when bytes are added;
    - what is decoded is well-formed;
    [Inverts] adds, for the types where it holds, that decoding [wire x] gives
    back [x]. *)

From Stdlib Require Import Strings.Byte.
From S2P Require Import Prelude Bytes Io Fcall Serialize Wire EncodeFacts.

Abbreviation slice_m A := (M (list byte) io_error A).

(** ** Computations on a byte slice *)

(** [m] consumes exactly [bs] and returns [a], whatever follows. *)
Definition decodes_to {A} (m : slice_m A) (bs : list byte) (a : A) : Prop :=
  forall k, m (bs ++ k) = (Ok a, k).

Definition local {A} (m : slice_m A) : Prop :=
  forall l,
    match m l with
    | (Ok a, rest) => exists c, l = c ++ rest /\ decodes_to m c a
    | (Err e, _) => e = eof_error \/ forall k, (m (l ++ k)).1 = Err e
    end.

Definition yields {A} (P : A -> Prop) (m : slice_m A) : Prop :=
  forall l a rest, m l = (Ok a, rest) -> P a.

Section Slices.
Context {A B : Type}.

Lemma decodes_to_ret (a : A) : decodes_to (mret a) [] a.
Proof. intros k. done. Qed.

Lemma decodes_to_bind (m : slice_m A) (h : A -> slice_m B) bs bs' a b :
  decodes_to m bs a -> decodes_to (h a) bs' b -> decodes_to (m ≫= h) (bs ++ bs') b.
Proof. intros Hm Hh k. rewrite <- app_assoc. rewrite (bind_ok _ _ _ _ _ (Hm _)). apply Hh. Qed.

(** The last step of a chain. *)
Lemma decodes_to_last (m : slice_m A) (h : A -> slice_m B) bs a b :
  decodes_to m bs a -> decodes_to (h a) [] b -> decodes_to (m ≫= h) bs b.
Proof. intros Hm Hh. rewrite <- (app_nil_r bs). by eapply decodes_to_bind. Qed.

Lemma local_ret (a : A) : local (mret a).
Proof. intros l. exists []. split; [done|]. intros k. done. Qed.

Lemma local_throw (e : io_error) : local (throw (A := A) e).
Proof. intros l. right. done. Qed.

Lemma local_bind (m : slice_m A) (h : A -> slice_m B) :
  local m -> (forall a, local (h a)) -> local (m ≫= h).
Proof.
  intros Hm Hh l. pose proof (Hm l) as Ha. unfold mbind, M_bind.
  destruct (m l) as [[a|e] l1] eqn:E.
  - destruct Ha as (c & -> & Hc). pose proof (Hh a l1) as Hb.
    destruct (h a l1) as [[b|e] l2] eqn:E2.
    + destruct Hb as (c' & -> & Hc'). exists (c ++ c'). rewrite app_assoc.
      split; [done|]. by eapply decodes_to_bind.
    + destruct Hb as [Hb|Hb]; [by left|right]. intros k. rewrite <- app_assoc, Hc. apply Hb.
  - destruct Ha as [Ha|Ha]; [by left|right]. intros k. specialize (Ha k).
    destruct (m (l ++ k)) as [[?|?] ?]; simpl in *; congruence.
Qed.

Lemma yields_ret (P : A -> Prop) a : P a -> yields P (mret a).
Proof. intros Ha l a' rest [= <- _]. done. Qed.

Lemma yields_throw (P : A -> Prop) e : yields P (throw e).
Proof. intros l a' rest [=]. Qed.

Lemma yields_bind (P : A -> Prop) (Q : B -> Prop) (m : slice_m A) (h : A -> slice_m B) :
  yields P m -> (forall a, P a -> yields Q (h a)) -> yields Q (m ≫= h).
Proof.
  intros Hm Hh l b rest (a & l1 & Ha & Hb)%bind_ok_inv.
  exact (Hh a (Hm l a l1 Ha) l1 b rest Hb).
Qed.
End Slices.

#[export] Hint Resolve local_ret local_throw local_bind : wire.

(** ** The primitive reads *)

Lemma slice_read_exact_local n : local (slice_read_exact n).
Proof.
  intros l. unfold slice_read_exact. case_decide as Hn; [|by left].
  exists (take n l). rewrite take_drop. split; [done|]. intros k.
  assert (length (take n l) = n) as Hl by (rewrite length_take; lia).
  rewrite decide_True by (rewrite length_app; lia).
  by rewrite take_app_exact, drop_app_exact by done.
Qed.

Lemma slice_read_exact_decodes n bs : length bs = n -> decodes_to (slice_read_exact n) bs bs.
Proof.
  intros <- k. unfold slice_read_exact.
  rewrite decide_True by (rewrite length_app; lia).
  by rewrite take_app_length, drop_app_length.
Qed.

Lemma slice_read_exact_length n : yields (fun b => length b = n) (slice_read_exact n).
Proof.
  intros l b rest. unfold slice_read_exact. case_decide; [|done].
  intros [= <- _]. rewrite length_take. lia.
Qed.

Lemma slice_uint_local n : local (slice_uint n).
Proof. unfold slice_uint. eauto using slice_read_exact_local with wire. Qed.

Lemma slice_uint_decodes n z :
  fits (8 * Z.of_nat n) z -> decodes_to (slice_uint n) (le_bytes n z) z.
Proof.
  intros Hz. eapply decodes_to_last; [apply slice_read_exact_decodes, le_bytes_length|].
  rewrite le_value_bytes, wrap_id by done. apply decodes_to_ret.
Qed.

Lemma slice_uint_yields n : yields (fits (8 * Z.of_nat n)) (slice_uint n).
Proof.
  eapply yields_bind; [apply slice_read_exact_length|].
  intros b <-. apply yields_ret, le_value_fits.
Qed.

(** ** What every [impl Decodable] promises *)
Class Decodes (A : Type) `{Decodable A, Wf A} : Prop := {
  decode_simulates : forall R (HR : ReadBytesExt R) (LR : ReaderLaws R),
    simulates view (decode (A := A) (R := R)) decode;
  decode_local : local (decode (A := A));
  decode_yields : yields wf (decode (A := A))
}.

Class Inverts (A : Type) `{Decodable A, Wf A, Wire A} : Prop :=
  decode_wire : forall a : A, wf a -> decodes_to decode (wire a) a.

#[export] Hint Extern 2 (simulates view ?m _) =>
  lazymatch m with @decode ?T _ _ _ => exact (decode_simulates (A := T) _ _ _) end : wire.
#[export] Hint Extern 2 (local ?m) =>
  lazymatch m with @decode ?T _ _ _ => exact (decode_local (A := T)) end : wire.

Ltac simulate :=
  repeat (eapply simulates_bind; [solve [eauto with wire]|intros ?]);
  solve [eauto with wire].
Ltac localize :=
  repeat (eapply local_bind; [solve [eauto with wire]|intros ?]);
  solve [eauto with wire].
(** [yields_step] goes through one bind, keeping what the step yields. *)
Ltac yield_all :=
  repeat (eapply yields_bind; [solve [apply decode_yields | eauto with yields]|intros ? ?]);
  apply yields_ret; repeat first [assumption | exact I | split].
Ltac invert_all :=
  repeat match goal with
  | |- decodes_to (_ ≫= _) (_ ++ _) _ =>
      eapply decodes_to_bind; [solve [apply decode_wire; done | eauto with yields]|]
  | |- decodes_to (_ ≫= _) _ _ =>
      eapply decodes_to_last; [solve [apply decode_wire; done | eauto with yields]|]
  end.

Create HintDb yields discriminated.

#[export] Instance Decodes_u8 : Decodes u8.
Proof. split; [intros; apply read_u8_law|apply slice_uint_local|apply slice_uint_yields]. Qed.
#[export] Instance Decodes_u16 : Decodes u16.
Proof. split; [intros; apply read_u16_law|apply slice_uint_local|apply slice_uint_yields]. Qed.
#[export] Instance Decodes_u32 : Decodes u32.
Proof. split; [intros; apply read_u32_law|apply slice_uint_local|apply slice_uint_yields]. Qed.
#[export] Instance Decodes_u64 : Decodes u64.
Proof. split; [intros; apply read_u64_law|apply slice_uint_local|apply slice_uint_yields]. Qed.

#[export] Instance Inverts_u8 : Inverts u8.
Proof. intros a Ha. by apply slice_uint_decodes. Qed.
#[export] Instance Inverts_u16 : Inverts u16.
Proof. intros a Ha. by apply slice_uint_decodes. Qed.
#[export] Instance Inverts_u32 : Inverts u32.
Proof. intros a Ha. by apply slice_uint_decodes. Qed.
#[export] Instance Inverts_u64 : Inverts u64.
Proof. intros a Ha. by apply slice_uint_decodes. Qed.

(** Strings: the length, then the bytes, checked to be UTF-8. *)
Definition utf8_or_err {R} (v : list byte) : M R io_error string :=
  match from_utf8 v with Some s => mret s | None => throw invalid_utf8 end.

#[export] Instance Decodes_String : Decodes string.
Proof.
  split.
  - intros R HR LR. eapply simulates_bind; [apply read_u16_law|]. intros n.
    eapply simulates_bind; [apply read_exact_law|]. intros v.
    destruct (from_utf8 v); eauto with wire.
  - eapply local_bind; [apply slice_uint_local|]. intros n.
    eapply local_bind; [apply slice_read_exact_local|]. intros v.
    destruct (from_utf8 v); eauto with wire.
  - eapply yields_bind; [apply slice_uint_yields|]. intros n Hn.
    eapply yields_bind; [apply slice_read_exact_length|]. intros v Hv.
    destruct (from_utf8 v) as [s|] eqn:E; [|apply yields_throw].
    apply from_utf8_Some in E as [-> Hs]. apply yields_ret. split; [done|].
    unfold str_len. rewrite Hv. unfold fits in *. change (8 * Z.of_nat 2) with 16 in Hn. lia.
Qed.

#[export] Instance Inverts_String : Inverts string.
Proof.
  intros s [Hs Hl]. eapply decodes_to_bind; [by apply slice_uint_decodes|].
  eapply decodes_to_last; [apply slice_read_exact_decodes; unfold str_len; lia|].
  rewrite from_utf8_as_bytes by done. apply decodes_to_ret.
Qed.

#[export] Instance Decodes_Data : Decodes Data.
Proof.
  split.
  - intros R HR LR. eapply simulates_bind; [apply read_u32_law|]. intros n.
    eapply simulates_bind; [apply read_exact_law|]. eauto with wire.
  - eapply local_bind; [apply slice_uint_local|]. intros n.
    eapply local_bind; [apply slice_read_exact_local|]. eauto with wire.
  - eapply yields_bind; [apply slice_uint_yields|]. intros n Hn.
    eapply yields_bind; [apply slice_read_exact_length|]. intros v Hv.
    apply yields_ret. unfold wf, Wf_Data. simpl. rewrite Hv.
    unfold fits in *. change (8 * Z.of_nat 4) with 32 in Hn. lia.
Qed.

#[export] Instance Inverts_Data : Inverts Data.
Proof.
  intros [v] Hv. eapply decodes_to_bind; [by apply slice_uint_decodes|].
  eapply decodes_to_last; [apply slice_read_exact_decodes; simpl; lia|].
  apply decodes_to_ret.
Qed.

(** ** Flags *)
Section FlagReads.
Context `{BitflagsLaws}.

Lemma decode_flags_simulates {R} `{ReaderLaws R} all m n :
  simulates view m n -> simulates view (decode_flags all m) (decode_flags all n).
Proof. unfold decode_flags. eauto with wire. Qed.

Lemma decode_flags_local all m : local m -> local (decode_flags all m).
Proof. unfold decode_flags. eauto with wire. Qed.

Lemma decode_flags_yields all m : yields (flags_wf all) (decode_flags all m).
Proof.
  eapply (yields_bind (fun _ => True)); [done|]. intros b _. apply yields_ret.
  rewrite from_bits_truncate_law. apply flags_wf_land.
Qed.

Lemma decode_flags_inverts all m bs b :
  flags_wf all b -> decodes_to m bs b -> decodes_to (decode_flags all m) bs b.
Proof.
  intros Hb Hm. eapply decodes_to_last; [done|].
  rewrite from_bits_truncate_law, Hb. apply decodes_to_ret.
Qed.
End FlagReads.

#[export] Hint Resolve decode_flags_simulates decode_flags_local : wire.
#[export] Hint Resolve decode_flags_yields : yields.

(** A flags field: the flags fit the integer that carries them. *)
Ltac flag_field ty w := match goal with
  | H : flags_wf ?all ?b |- decodes_to (decode_flags ?all _) _ _ =>
      apply decode_flags_inverts; [exact H|];
      apply (decode_wire (A := ty)), (flags_fits w all b); [done|by vm_compute|exact H]
  end.

#[export] Hint Extern 1 (decodes_to (decode_flags _ ?m) _ _) =>
  lazymatch m with
  | decode (A := u8) => flag_field u8 8
  | decode (A := u32) => flag_field u32 32
  | decode (A := u64) => flag_field u64 64
  end : yields.

(** ** Structs and lists *)

Ltac decodes_struct :=
  split; [intros R HR LR; simulate | localize | yield_all].
Ltac wf_conj H :=
  lazymatch type of H with
  | _ /\ _ => let H1 := fresh in destruct H as [H1 H]; wf_conj H
  | _ => idtac
  end.
Tactic Notation "inverts_struct" reference(d) reference(w) :=
  let a := fresh "a" in let Ha := fresh "Ha" in
  intros a Ha; hnf in Ha; wf_conj Ha;
  unfold decode at 1, decode_ at 1, d; unfold wire at 1, w;
  invert_all; destruct a; apply decodes_to_ret.

#[export] Instance Decodes_Time : Decodes Time.
Proof. decodes_struct. Qed.
#[export] Instance Inverts_Time : Inverts Time.
Proof. inverts_struct Decodable_Time Wire_Time. Qed.
#[export] Instance Decodes_Statfs : Decodes Statfs.
Proof. decodes_struct. Qed.
#[export] Instance Inverts_Statfs : Inverts Statfs.
Proof. inverts_struct Decodable_Statfs Wire_Statfs. Qed.
#[export] Instance Decodes_Stat : Decodes Stat.
Proof. decodes_struct. Qed.
#[export] Instance Inverts_Stat : Inverts Stat.
Proof. inverts_struct Decodable_Stat Wire_Stat. Qed.
#[export] Instance Decodes_SetAttr : Decodes SetAttr.
Proof. decodes_struct. Qed.
#[export] Instance Inverts_SetAttr : Inverts SetAttr.
Proof. inverts_struct Decodable_SetAttr Wire_SetAttr. Qed.

Section Lists.
Context {A : Type} `{Decodes A}.

Lemma decode_n_simulates n {R} `{ReaderLaws R} :
  simulates view (decode_n (A := A) n) (decode_n n).
Proof. induction n; simpl; eauto 10 with wire. Qed.

Lemma decode_n_local n : local (decode_n (A := A) n).
Proof. induction n; simpl; eauto 10 with wire. Qed.

Lemma decode_n_yields n : yields (fun l => Forall wf l /\ length l = n) (decode_n (A := A) n).
Proof.
  induction n as [|n IH]; simpl; [by apply yields_ret|].
  eapply yields_bind; [apply decode_yields|]. intros x Hx.
  eapply yields_bind; [apply IH|]. intros l [Hl <-].
  apply yields_ret. split; [by constructor|done].
Qed.

Lemma decode_n_inverts `{Wire A} `{!Inverts A} (l : list A) :
  Forall wf l -> decodes_to (decode_n (length l)) (concat (map wire l)) l.
Proof.
  induction 1 as [|x l Hx Hl IH]; simpl; [apply decodes_to_ret|].
  eapply decodes_to_bind; [by apply decode_wire|].
  eapply decodes_to_last; [exact IH|]. apply decodes_to_ret.
Qed.
End Lists.

#[export] Instance Decodes_Vec {A} `{Decodes A} : Decodes (list A).
Proof.
  split.
  - intros R HR LR. eapply simulates_bind; [apply read_u16_law|]. intros n.
    apply decode_n_simulates.
  - eapply local_bind; [apply slice_uint_local|]. intros n. apply decode_n_local.
  - eapply yields_bind; [apply slice_uint_yields|]. intros n Hn.
    intros l x rest [Hx Hl]%decode_n_yields. split; [done|]. rewrite Hl.
    unfold fits in *. change (8 * Z.of_nat 2) with 16 in Hn. lia.
Qed.

#[export] Instance Inverts_Vec {A} `{Inverts A} `{!Decodes A} : Inverts (list A).
Proof.
  intros l [Hl Hn]. eapply decodes_to_bind; [by apply slice_uint_decodes|].
  rewrite Nat2Z.id. by apply decode_n_inverts.
Qed.

Section WithFlags.
Context `{BitflagsLaws} `{FP : FromPrimitive MsgType}.

#[export] Instance Decodes_Qid : Decodes Qid.
Proof. decodes_struct. Qed.
#[export] Instance Inverts_Qid : Inverts Qid.
Proof. inverts_struct Decodable_Qid Wire_Qid. Qed.
#[export] Instance Decodes_DirEntry : Decodes DirEntry.
Proof. decodes_struct. Qed.
#[export] Instance Inverts_DirEntry : Inverts DirEntry.
Proof. inverts_struct Decodable_DirEntry Wire_DirEntry. Qed.
#[export] Instance Decodes_Flock : Decodes Flock.
Proof. decodes_struct. Qed.
#[export] Instance Inverts_Flock : Inverts Flock.
Proof. inverts_struct Decodable_Flock Wire_Flock. Qed.
#[export] Instance Decodes_Getlock : Decodes Getlock.
Proof. decodes_struct. Qed.
#[export] Instance Inverts_Getlock : Inverts Getlock.
Proof. inverts_struct Decodable_Getlock Wire_Getlock. Qed.

#[export] Instance Decodes_DirEntryData : Decodes DirEntryData.
Proof.
  split.
  - intros R HR LR. eapply simulates_bind; [apply read_u32_law|]. intros n.
    eapply simulates_bind; [apply decode_n_simulates|]. eauto with wire.
  - eapply local_bind; [apply slice_uint_local|]. intros n.
    eapply local_bind; [apply decode_n_local|]. eauto with wire.
  - eapply yields_bind; [apply slice_uint_yields|]. intros n Hn.
    eapply yields_bind; [apply decode_n_yields|]. intros l [Hl _]. by apply yields_ret.
Qed.

(** ** Messages *)

Lemma decode_body_simulates {R} `{ReaderLaws R} t :
  simulates view (decode_body t) (decode_body t).
Proof. destruct t as [[]|]; unfold decode_body; simulate. Qed.

Lemma decode_body_local t : local (decode_body t).
Proof. destruct t as [[]|]; unfold decode_body; localize. Qed.

Lemma decode_body_yields t : yields wf (decode_body t).
Proof.
  destruct t as [[]|]; unfold decode_body; first [apply yields_throw|yield_all].
Qed.

#[export] Instance Decodes_Msg : Decodes Msg.
Proof.
  split.
  - intros R HR LR. eapply simulates_bind; [apply read_u8_law|]. intros b.
    eapply simulates_bind; [apply read_u16_law|]. intros tag.
    eapply simulates_bind; [apply decode_body_simulates|]. eauto with wire.
  - eapply local_bind; [apply slice_uint_local|]. intros b.
    eapply local_bind; [apply slice_uint_local|]. intros tag.
    eapply local_bind; [apply decode_body_local|]. eauto with wire.
  - eapply yields_bind; [apply slice_uint_yields|]. intros b _.
    eapply yields_bind; [apply slice_uint_yields|]. intros tag Htag.
    eapply yields_bind; [apply decode_body_yields|]. intros body Hbody.
    by apply yields_ret.
Qed.

(** The message holds no directory entries: what [Rreaddir] needs to be read
    back by this file's decoder. *)
Definition no_dirents (body : Fcall) : Prop :=
  match body with Rreaddir d => dirents d = [] | _ => True end.

Lemma decode_body_inverts body :
  wf body -> no_dirents body ->
  decodes_to (decode_body (Some (MsgType_from body))) (wire body) body.
Proof.
  intros Hw Hn. destruct body;
    unfold wf at 1, Wf_Fcall in Hw; wf_conj Hw;
    unfold decode_body, MsgType_from; unfold wire at 1, Wire_Fcall;
    try solve [invert_all; apply decodes_to_ret | apply decodes_to_ret].
  destruct data as [l]. simpl in Hn. subst l. intros k. reflexivity.
Qed.

Context `{FL : !FromPrimitiveLaws}.

Lemma decode_msg_inverts (m : Msg) :
  wf m -> no_dirents (msg_body m) -> decodes_to decode (wire m) m.
Proof.
  destruct m as [tag body]. intros [Htag Hbody] Hn. simpl in *.
  eapply decodes_to_bind.
  { apply (decode_wire (A := u8)), as_u8_fits. }
  rewrite (proj2 (from_u8_law _ (MsgType_from body))) by done.
  eapply decodes_to_bind; [by apply (decode_wire (A := u16))|].
  eapply decodes_to_last; [by apply decode_body_inverts|]. apply decodes_to_ret.
Qed.

(** ** Truncated input

    No strict prefix of something that decodes can be decoded, and the error
    is the one of an input that ends early. *)
Lemma local_truncated {A} (m : slice_m A) p s a :
  local m -> s <> [] -> decodes_to m (p ++ s) a -> (m p).1 = Err eof_error.
Proof.
  intros Hm Hs Hd. specialize (Hm p). specialize (Hd []). rewrite app_nil_r in Hd.
  destruct (m p) as [[b|e] rest] eqn:E; simpl.
  - destruct Hm as (c & -> & Hc). rewrite <- app_assoc, Hc in Hd.
    injection Hd as _ Hd. destruct rest; [|done]. by destruct s.
  - destruct Hm as [->|Hm]; [done|]. specialize (Hm s). by rewrite Hd in Hm.
Qed.

Lemma decode_n_eof {A} `{Inverts A} `{!Decodes A} (l : list A) (n : nat) :
  (decode (A := A) []).1 = Err eof_error -> Forall wf l -> (length l < n)%nat ->
  (decode_n (A := A) n (concat (map wire l))).1 = Err eof_error.
Proof.
  intros He Hl. revert n. induction Hl as [|x l Hx Hl IH]; intros [|n] Hn; simpl in *; try lia.
  - by apply bind_err_fst.
  - rewrite (bind_ok _ _ _ _ _ (decode_wire x Hx _)). apply bind_err_fst, IH. lia.
Qed.

(** The length in bytes is taken for a number of entries. *)
Lemma decode_DirEntryData_eof (d : DirEntryData) :
  wf d -> dirents d <> [] ->
  fits 32 (Z.of_nat (length (concat (map wire (dirents d))))) ->
  (decode (A := DirEntryData) (wire d)).1 = Err eof_error.
Proof.
  intros Hd Hne Hfit. unfold decode, decode_ at 1, Decodable_DirEntryData.
  unfold wire at 1, Wire_DirEntryData. change (le_bytes 4) with (wire (A := u32)).
  rewrite (bind_ok _ _ _ _ _ (decode_wire (A := u32) _ Hfit _)).
  apply bind_err_fst. rewrite Nat2Z.id.
  apply decode_n_eof; [done|exact Hd|by apply dirents_shorter].
Qed.

(** What is too short stays so when more is cut off. *)
Lemma local_prefix_eof {A} (m : slice_m A) p s :
  local m -> (m (p ++ s)).1 = Err eof_error -> (m p).1 = Err eof_error.
Proof.
  intros Hm He. specialize (Hm p). destruct (m p) as [[a|e] rest]; simpl.
  - destruct Hm as (c & -> & Hc). rewrite <- app_assoc, Hc in He. done.
  - destruct Hm as [->|Hm]; [done|]. by rewrite <- (Hm s).
Qed.

(** An error in a message's body is the error of the message. *)
Lemma decode_msg_body_err (m : Msg) e :
  wf (msg_tag m) ->
  (decode_body (Some (MsgType_from (msg_body m))) (wire (msg_body m))).1 = Err e ->
  (decode (A := Msg) (wire m)).1 = Err e.
Proof.
  intros Htag He. unfold decode, decode_ at 1, Decodable_Msg. unfold wire at 1, Wire_Msg.
  rewrite (bind_ok _ _ _ _ _ (decode_wire (A := u8) _ (as_u8_fits _) _)).
  rewrite (proj2 (from_u8_law _ (MsgType_from (msg_body m)))) by done.
  rewrite (bind_ok _ _ _ _ _ (decode_wire (A := u16) _ Htag _)). by apply bind_err_fst.
Qed.

(** The directory data of the message has a length of at most 32 bits. *)
Definition dirents_fit (body : Fcall) : Prop :=
  match body with
  | Rreaddir d => fits 32 (Z.of_nat (length (concat (map wire (dirents d)))))
  | _ => True
  end.

Lemma no_dirents_dec body : no_dirents body \/ exists d, body = Rreaddir d /\ dirents d <> [].
Proof. destruct body; try by left. destruct (dirents data) eqn:E; [by left|right]. exists data. by rewrite E. Qed.

(** A reply with entries ends too early for the decoder, on its own; *)
Lemma decode_dirents_eof (m : Msg) :
  wf m -> dirents_fit (msg_body m) -> ~ no_dirents (msg_body m) -> (decode (A := Msg) (wire m)).1 = Err eof_error.
Proof.
  intros [Htag Hb] Hfit Hd. destruct (no_dirents_dec (msg_body m)) as [|(d & Ed & Hne)]; [done|].
  apply decode_msg_body_err; [done|]. rewrite Ed in *. apply bind_err_fst. by apply decode_DirEntryData_eof.
Qed.

(** with more behind it, what is read has another number of entries. *)
Lemma decode_dirents_other (m : Msg) k rest :
  wf m -> dirents_fit (msg_body m) -> ~ no_dirents (msg_body m) -> decode (A := Msg) (wire m ++ k) <> (Ok m, rest).
Proof.
  intros [Htag Hb] Hfit Hd. destruct (no_dirents_dec (msg_body m)) as [|(d & Ed & Hne)]; [done|].
  destruct m as [tag body]. simpl in Htag, Hb, Ed. subst body. simpl in Hfit.
  unfold decode, decode_ at 1, Decodable_Msg. unfold wire at 1, Wire_Msg. cbn [msg_body msg_tag].
  rewrite <- !app_assoc, (bind_ok _ _ _ _ _ (decode_wire (A := u8) _ (as_u8_fits _) _)).
  rewrite (proj2 (from_u8_law _ (MsgType_from (Rreaddir d)))) by done.
  rewrite (bind_ok _ _ _ _ _ (decode_wire (A := u16) _ Htag _)).
  intros (b & l & (d' & l' & Hdec & [= <- <-])%bind_ok_inv & [= <- <-])%bind_ok_inv.
  unfold decode, decode_ at 1, Decodable_DirEntryData, wire at 1, Wire_Fcall, wire at 1, Wire_DirEntryData in Hdec.
  change (le_bytes 4) with (wire (A := u32)) in Hdec.
  rewrite <- app_assoc, (bind_ok _ _ _ _ _ (decode_wire (A := u32) _ Hfit _)) in Hdec.
  apply bind_ok_inv in Hdec as (es & l1 & [_ Hlen]%decode_n_yields & [= <- <-]).
  pose proof (dirents_shorter _ Hne) as Hs. simpl in *. rewrite Nat2Z.id in Hlen. lia.
Qed.
End WithFlags.
