(* ===== verification/SerializeProps.v ===== *)
(** * Properties of the serializer

    What serialize.rs promises to its callers, stated for any reader and
    writer: encoding produces the wire format, decoding inverts it, rejects
    what is cut short or of unknown type, and only returns well-formed
    messages; and the two places where a value is not read back. *)

From Stdlib Require Import Strings.Byte.
From S2P Require Import Prelude Bytes Io Fcall Serialize Wire EncodeFacts DecodeFacts.

(** A reader that is the byte slice itself. *)
Lemma read_msg_view {R} `{ReaderLaws R} `{Bitflags} `{FromPrimitive MsgType} `{!BitflagsLaws}
    (r : R) m rest :
  read_msg (view r) = (Ok m, rest) -> exists r', read_msg r = (Ok m, r') /\ view r' = rest.
Proof.
  intros E. pose proof (decode_simulates (A := Msg) R _ _ r) as Hs.
  unfold read_msg in E. by rewrite E in Hs.
Qed.

Lemma read_msg_view_err {R} `{ReaderLaws R} `{Bitflags} `{FromPrimitive MsgType} `{!BitflagsLaws}
    (r : R) e :
  (read_msg (view r)).1 = Err e -> exists r', read_msg r = (Err e, r').
Proof.
  intros E. pose proof (decode_simulates (A := Msg) R _ _ r) as Hs.
  unfold read_msg in E. destruct (decode (view r)) as [[?|?] ?]; simplify_eq/=. exact Hs.
Qed.

Section Props.
Context {R : Type} `{LR : ReaderLaws R} {W : Type} `{LW : WriterLaws W}.
Context `{BL : BitflagsLaws} `{FL : FromPrimitiveLaws}.

(** C10: [write_msg] refines the wire format: on success the writer has
    received exactly [wire m] and the count returned is its length; on an
    error it has received a prefix of it. *)
Theorem write_msg_refines_wire (m : Msg) (w : W) :
  match write_msg m w with
  | (Ok n, w') => written w' = written w ++ wire m /\ n = Z.of_nat (length (wire m))
  | (Err _, w') => exists p, p `prefix_of` wire m /\ written w' = written w ++ p
  end.
Proof.
  destruct (encodes (A := Msg) W _ _ m w) as [Ha Hn]. unfold write_msg.
  destruct (encode m w) as [[n|e] w']; simpl in *; [|done]. split; [done|by apply Hn].
Qed.

(** C6: a message that was written is read back as it was, with what follows
    it left in the reader, whatever the writer and the reader are, if and only
    if it is not a reply with directory entries. *)
Theorem write_read_roundtrip (m : Msg) (w w' : W) n (r : R) rest :
  wf m -> dirents_fit (msg_body m) ->
  write_msg m w = (Ok n, w') ->
  view r = drop (length (written w)) (written w') ++ rest ->
  (exists r', read_msg r = (Ok m, r') /\ view r' = rest) <-> no_dirents (msg_body m).
Proof.
  intros Hm Hfit E Hv. pose proof (encodes (A := Msg) W _ _ m w) as [Ha _].
  unfold write_msg in E. rewrite E in Ha. simpl in Ha. rewrite Ha, drop_app_length in Hv. split.
  - intros (r' & Hr & _). destruct (no_dirents_dec (msg_body m)) as [|(d & Ed & Hne)]; [done|exfalso].
    pose proof (decode_simulates (A := Msg) R _ _ r) as Hs. unfold read_msg in Hr. rewrite Hv in Hs.
    destruct (decode (A := Msg) (wire m ++ rest)) as [[m'|e] l] eqn:Em.
    + destruct Hs as (r1 & Hs & _). rewrite Hr in Hs. injection Hs as <- _.
      eapply decode_dirents_other; [exact Hm|exact Hfit| |exact Em]. rewrite Ed. exact Hne.
    + destruct Hs as (r1 & Hs). by rewrite Hr in Hs.
  - intros Hd. apply read_msg_view. rewrite Hv. by apply decode_msg_inverts.
Qed.

(** C30: whatever the input, a message that [read_msg] returns is well-formed:
    its integers fit their types, its flags are declared ones, its strings are
    UTF-8. *)
Theorem read_msg_wf (r r' : R) m : read_msg r = (Ok m, r') -> wf m.
Proof.
  intros E. pose proof (decode_simulates (A := Msg) R _ _ r) as Hs. unfold read_msg in E.
  destruct (decode (A := Msg) (view r)) as [[m'|e] l] eqn:E'.
  - destruct Hs as (? & Hs & _). rewrite E in Hs. injection Hs as <- <-.
    by eapply (decode_yields (A := Msg)).
  - destruct Hs as (? & Hs). by rewrite E in Hs.
Qed.

(** C36: no strict prefix of a message's bytes is accepted, of a reply with
    directory entries no more than of any other: the result is the error of an
    input that ends early. *)
Theorem read_msg_truncated (m : Msg) (r : R) missing :
  wf m -> dirents_fit (msg_body m) -> missing <> [] ->
  view r ++ missing = wire m ->
  exists r', read_msg r = (Err eof_error, r').
Proof.
  intros Hm Hfit Hne Hv. apply read_msg_view_err. destruct (no_dirents_dec (msg_body m)) as [Hd|(d & Ed & Hd)].
  - eapply local_truncated; [apply decode_local|exact Hne|]. rewrite Hv. by apply decode_msg_inverts.
  - apply (local_prefix_eof _ _ missing); [apply decode_local|]. rewrite Hv. apply decode_dirents_eof; [done..|].
    rewrite Ed. exact Hd.
Qed.

(** A type byte that is no message type, and the illegal Tlerror, are
    refused with the error of an invalid type once the tag has been read. *)
Theorem read_msg_invalid_type (r : R) b t1 t2 rest :
  view r = b :: t1 :: t2 :: rest ->
  (forall t, from_u8 (byte_val b) = Some t -> t = MsgTypes.Tlerror) ->
  exists r', read_msg r = (Err invalid_message_type, r').
Proof.
  intros Hv Ht. apply read_msg_view_err. rewrite Hv.
  unfold read_msg, decode, decode_, Decodable_Msg.
  rewrite (bind_ok _ _ _ (byte_val b) (t1 :: t2 :: rest)).
  - rewrite (bind_ok _ _ _ (le_value [t1; t2]) rest) by done.
    destruct (from_u8 (byte_val b)) as [t|] eqn:Eb; [|done]. by rewrite (Ht t eq_refl).
  - pose proof (decode_wire (A := u8) (byte_val b) (byte_val_fits b) (t1 :: t2 :: rest)) as E.
    unfold wire, Wire_u8 in E. simpl in E. rewrite byte_of_val in E. exact E.
Qed.

(** Directory data is not read back.  [encode] puts the length in bytes
    in front of the entries, [decode] takes it for the number of entries: a
    reply with at least one entry, sent alone, is refused as cut short. *)
Theorem rreaddir_not_read_back (tag : u16) (d : DirEntryData) (r : R) :
  wf tag -> wf d -> dirents d <> [] ->
  fits 32 (Z.of_nat (length (concat (map wire (dirents d))))) ->
  view r = wire {| msg_tag := tag; msg_body := Rreaddir d |} ->
  exists r', read_msg r = (Err eof_error, r').
Proof.
  intros Htag Hd Hne Hfit Hv. apply read_msg_view_err. rewrite Hv.
  apply decode_msg_body_err; [done|]. apply bind_err_fst. by apply decode_DirEntryData_eof.
Qed.

(** C38: a string that was written is read back, with what follows it left,
    exactly when its length fits the two-byte prefix. *)
Theorem string_read_back_iff (s : string) (w w' : W) n :
  str_wf s -> encode s w = (Ok n, w') ->
  (forall rest, decode (drop (length (written w)) (written w') ++ rest) = (Ok s, rest)) <-> str_len s < 65536.
Proof.
  intros Hs E. pose proof (encodes (A := string) W _ _ s w) as [Ha _]. rewrite E in Ha. simpl in Ha.
  rewrite Ha, drop_app_length. split.
  - intros Hr. specialize (Hr []). by apply (decode_yields (A := string)) in Hr as [_ [_ Hr]].
  - intros Hlen rest. apply decode_wire. split; [done|].
    split; [unfold str_len; lia|exact Hlen].
Qed.
End Props.

(** ** Witnesses: the theorems at concrete messages, readers and writers *)

#[local] Existing Instance bitflags_ref.
#[local] Existing Instance from_u8_ref.
#[local] Existing Instance bitflags_ref_laws.
#[local] Existing Instance from_u8_ref_laws.
#[local] Existing Instance buffer_writer.
#[local] Existing Instance buffer_writer_laws.

(** The reply of the version handshake, with a tag of the source's own test. *)
Definition sample_version : Msg := {| msg_tag := 0xdead; msg_body := Rversion 40 P92000L |}.

Definition sample_dirents : DirEntryData := DirEntryData_with [
  {| dirent_qid := {| qid_typ := QidTypes.DIR; qid_version := 0; qid_path := 7 |};
     dirent_offset := 0; dirent_typ := 0; dirent_name := "." |} ].

(** A buffer with room for five bytes takes a part of the message. *)
Lemma write_msg_refines_wire_witness :
  exists e p, write_msg sample_version {| buf_data := []; buf_room := 5 |}
    = (Err e, {| buf_data := p; buf_room := 0 |})
  /\ exists q, q `prefix_of` wire sample_version /\ p = [] ++ q.
Proof.
  eexists _, _. split; [by vm_compute|].
  exact (write_msg_refines_wire sample_version {| buf_data := []; buf_room := 5 |}).
Defined.

Lemma sample_version_wf : wf sample_version.
Proof. repeat split; by vm_compute. Qed.

Lemma write_read_roundtrip_witness :
  exists r', read_msg (snd (write_msg sample_version ([] : list byte))) = (Ok sample_version, r')
    /\ view r' = [].
Proof.
  eapply (write_read_roundtrip sample_version ([] : list byte)
    (snd (write_msg sample_version ([] : list byte))));
    [exact sample_version_wf | exact I | vm_compute; reflexivity | vm_compute; reflexivity | exact I].
Defined.

Lemma read_msg_wf_witness : wf {| msg_tag := 1; msg_body := Tclunk 258 |}.
Proof.
  apply (read_msg_wf [x78; x01; x00; x02; x01; x00; x00] []). vm_compute. reflexivity.
Defined.

Lemma read_msg_truncated_witness :
  exists r', read_msg (take 9 (wire sample_version)) = (Err eof_error, r').
Proof.
  apply (read_msg_truncated sample_version (take 9 (wire sample_version))
    (drop 9 (wire sample_version))); [exact sample_version_wf | exact I | |].
  - vm_compute. discriminate.
  - vm_compute. reflexivity.
Defined.

(** 106 is Terror of 9P2000, which this dialect does not have. *)
Lemma read_msg_invalid_type_witness :
  exists r', read_msg [x6a; x01; x00; xff] = (Err invalid_message_type, r').
Proof.
  apply (read_msg_invalid_type [x6a; x01; x00; xff] x6a x01 x00 [xff]); [reflexivity|].
  intros t. vm_compute. discriminate.
Defined.

Lemma rreaddir_not_read_back_witness :
  exists r', read_msg (snd (write_msg
    {| msg_tag := 1; msg_body := Rreaddir sample_dirents |} ([] : list byte)))
  = (Err eof_error, r').
Proof.
  apply (rreaddir_not_read_back 1 sample_dirents);
    [by vm_compute | | discriminate | by vm_compute | vm_compute; reflexivity].
  constructor; [|constructor]. repeat split; by vm_compute.
Defined.

Lemma string_read_back_iff_witness :
  (forall rest, decode (drop (length (written ([] : list byte))) (written (snd (encode P92000L ([] : list byte)))) ++ rest)
    = (Ok P92000L, rest)) <-> str_len P92000L < 65536.
Proof.
  apply (string_read_back_iff P92000L ([] : list byte) (snd (encode P92000L ([] : list byte)))
    (Z.of_nat (length (wire P92000L)))); vm_compute; reflexivity.
Defined.
