(* ===== verification/Decoder.v ===== *)
(** * The decoding operators (crates/9p/src/serialize.rs)

    [Decoder], the counterpart of [Encoder]: a chain [dec >> &mut a >> &mut b]
    reads one value after the other and stops at the first error. *)

From Stdlib Require Import Strings.Byte.
From S2P Require Import Prelude Bytes Io Fcall Serialize Wire EncodeFacts DecodeFacts.

Record Decoder (R : Type) : Type := { reader : R }.
Arguments reader {R}.

Definition Decoder_new {R} (r : R) : Decoder R := {| reader := r |}.

(** [SResult<Decoder<R>>] *)
Inductive DResult (R : Type) : Type :=
  | DOk (dec : Decoder R)
  | DErr (e : io_error).
Arguments DOk {R} dec.
Arguments DErr {R} e.

Section Ops.
Context {R : Type} `{ReadBytesExt R}.

Definition Decoder_decode {T} `{Decodable T} : M (Decoder R) io_error T := fun self =>
  let '(r, reader) := decode (reader self) in (r, {| reader := reader |}).

(** [impl Shr for Decoder]: the result, and what [*rhs] is afterwards. *)
Definition Decoder_shr {T} `{Decodable T} (self : Decoder R) (rhs : T) : DResult R * T :=
  match Decoder_decode self with
  | (Ok r, self) => (DOk self, r)
  | (Err e, _) => (DErr e, rhs)
  end.

(** [impl Shr for SResult<Decoder>] *)
Definition DResult_shr {T} `{Decodable T} (self : DResult R) (rhs : T) : DResult R * T :=
  match self with
  | DOk decoder => Decoder_shr decoder rhs
  | DErr e => (DErr e, rhs)
  end.

(** A chain over several variables of one type. *)
Fixpoint shr_all {T} `{Decodable T} (self : DResult R) (vars : list T) : DResult R * list T :=
  match vars with
  | [] => (self, [])
  | v :: vars =>
      let '(self, v) := DResult_shr self v in
      let '(self, vars) := shr_all self vars in (self, v :: vars)
  end.
End Ops.

(** [into_inner] of both wrappers *)
Definition Decoder_into_inner {R} (self : Decoder R) : R := reader self.
Definition Encoder_into_inner {W} (self : Encoder W) : W := writer self.

(** ** What the operators read *)

Section Props.
Context {T : Type} `{DT : Decodable T, WT : Wf T, WI : Wire T} {IN : Inverts T}.

Lemma Decoder_shr_wire (a v : T) rest : wf a ->
  Decoder_shr (Decoder_new (wire a ++ rest)) v = (DOk (Decoder_new rest), a).
Proof.
  intros Ha. unfold Decoder_shr, Decoder_decode, Decoder_new. simpl.
  pose proof (decode_wire a Ha rest) as E. by rewrite E.
Qed.

(** A chain over the wire forms of some values sets every variable to its
    value, and leaves the rest in the reader. *)
Lemma shr_all_wire (values vars : list T) rest : Forall wf values -> length vars = length values ->
  shr_all (DOk (Decoder_new (concat (map wire values) ++ rest))) vars = (DOk (Decoder_new rest), values).
Proof.
  intros Hwf. revert vars. induction Hwf as [|a values Ha _ IH]; intros [|v vars] Hlen; try done. simpl.
  rewrite <- app_assoc, Decoder_shr_wire by done. simpl in Hlen. rewrite IH by lia. done.
Qed.

(** After an error no variable is touched. *)
Lemma shr_all_err (vars : list T) e : shr_all (R := list byte) (DErr e) vars = (DErr e, vars).
Proof. induction vars as [|v vars IH]; simpl; [done|]. by rewrite IH. Qed.
End Props.

(** The repository's own test of the decoder: the bytes 0 to 9, one by one. *)
Example decoder_test1 :
  shr_all (T := u8) (DOk (Decoder_new (map byte_of [0; 1; 2; 3; 4; 5; 6; 7; 8; 9]))) (replicate 10 0)
  = (DOk (Decoder_new []), [0; 1; 2; 3; 4; 5; 6; 7; 8; 9]).
Proof. by vm_compute. Qed.
