(* ===== verification/Error.v ===== *)
(** * 9P errors (crates/9p/src/error.rs)

    The error type of the server and its conversion to an errno, the number
    an Rlerror reply carries. *)

From S2P Require Import Prelude Bytes Io.

(** nix's [Errno] is a [repr(i32)] enum whose discriminants are the errno
    numbers of the system's C library; a value is its discriminant. *)
Definition Errno : Set := i32.

Definition UnknownErrno : Errno := 0.
Definition EPERM : Errno := 1.
Definition ENOENT : Errno := 2.
Definition EINTR : Errno := 4.
Definition EIO : Errno := 5.
Definition EBADF : Errno := 9.
Definition EAGAIN : Errno := 11.
Definition EINVAL : Errno := 22.
Definition EPIPE : Errno := 32.
Definition EOPNOTSUPP : Errno := 95.
Definition EADDRINUSE : Errno := 98.
Definition EADDRNOTAVAIL : Errno := 99.
Definition ECONNABORTED : Errno := 103.
Definition ECONNRESET : Errno := 104.
Definition ENOTCONN : Errno := 107.
Definition ETIMEDOUT : Errno := 110.
Definition ECONNREFUSED : Errno := 111.
Definition EALREADY : Errno := 114.

(** [nix::errno::from_i32]: a number the crate knows is that errno, any other
    is [UnknownErrno]. *)
Class Nix := nix_from_i32 : i32 -> Errno.
Class NixLaws `{Nix} : Prop :=
  nix_from_i32_law : forall n, nix_from_i32 n = n \/ nix_from_i32 n = UnknownErrno.

(** Linux numbers its errors up to 133. *)
Definition nix_ref : Nix := fun n => if (0 <? n) && (n <=? 133) then n else UnknownErrno.

Lemma nix_ref_laws : @NixLaws nix_ref.
Proof. intros n. unfold nix_from_i32, nix_ref. destruct (_ && _); auto. Qed.

(** [io::Error::kind]: the kind of a [Simple] error is stored, that of an
    operating-system error is decoded from its code; [errno_from_io_error]
    only asks for the kind of the former. *)
Definition errno_from_kind (k : ErrorKind) : Errno :=
  match k with
  | NotFound => ENOENT
  | PermissionDenied => EPERM
  | ConnectionRefused => ECONNREFUSED
  | ConnectionReset => ECONNRESET
  | ConnectionAborted => ECONNABORTED
  | NotConnected => ENOTCONN
  | AddrInUse => EADDRINUSE
  | AddrNotAvailable => EADDRNOTAVAIL
  | BrokenPipe => EPIPE
  | AlreadyExists => EALREADY
  | WouldBlock => EAGAIN
  | InvalidInput => EINVAL
  | InvalidData => EINVAL
  | TimedOut => ETIMEDOUT
  | WriteZero => EAGAIN
  | Interrupted => EINTR
  | _ => EIO
  end.

Definition errno_from_io_error `{Nix} (e : io_error) : Errno :=
  match e with
  | Os code => nix_from_i32 code
  | Simple kind _ => errno_from_kind kind
  end.

Inductive Error : Set :=
  | No (e : Errno)
  | Io (e : io_error).

#[export] Instance Error_eq_dec : EqDecision Error.
Proof. unfold Errno in *. solve_decision. Defined.

Definition errno `{Nix} (self : Error) : Errno :=
  match self with
  | No e => e
  | Io e => errno_from_io_error e
  end.

(** [From<io::Error>] and [From<nix::Error>], which [?] applies. *)
Definition Error_from_io (e : io_error) : Error := Io e.
Definition Error_from_io_ref `{Nix} (e : io_error) : Error := No (errno_from_io_error e).
Definition Error_from_nix (e : Errno) : Error := No e.

(** The borrowed and the owned conversion carry the same errno. *)
Lemma Error_from_io_ref_errno `{Nix} e : errno (Error_from_io_ref e) = errno (Error_from_io e).
Proof. done. Qed.

(** No error of the program's own making is the number 0, which a client would
    take for success. *)
Lemma errno_from_kind_pos k : 0 < errno_from_kind k < 2 ^ 31.
Proof.
  destruct k; unfold errno_from_kind, EPERM, ENOENT, EINTR, EIO, EBADF, EAGAIN, EINVAL, EPIPE,
    EOPNOTSUPP, EADDRINUSE, EADDRNOTAVAIL, ECONNABORTED, ECONNRESET, ENOTCONN, ETIMEDOUT,
    ECONNREFUSED, EALREADY; lia.
Qed.
