(* ===== verification/ErrorText.v ===== *)
(** * The texts of errors (crates/9p/src/error.rs)

    How an [Error] is shown, and the table of the error strings of 9P2000,
    which nothing in the program uses. *)

From S2P Require Import Prelude Io Error.

(** ** Display and cause *)

(** nix's description of an errno, and std's display of an I/O error. *)
Class ErrorTexts := { desc : Errno -> string; io_display : io_error -> string }.

Definition Error_fmt `{ErrorTexts} (self : Error) : string :=
  match self with
  | No e => "System error: " +:+ desc e
  | Io e => "I/O error: " +:+ io_display e
  end.

Definition cause (self : Error) : option io_error :=
  match self with No _ => None | Io e => Some e end.

(** An error whose cause is known is shown with it. *)
Lemma Error_fmt_cause `{ErrorTexts} (self : Error) e :
  cause self = Some e -> Error_fmt self = "I/O error: " +:+ io_display e.
Proof. destruct self; [done|]. by intros [= ->]. Qed.

(** ** mod string *)
Definition error_strings : list (string * string) :=
  [("EPERM", "Operation not permitted");
   ("EPERM_WSTAT", "wstat prohibited");
   ("ENOENT", "No such file or directory");
   ("ENOENT_DIR", "directory entry not found");
   ("ENOENT_FILE", "file not found");
   ("EINTR", "Interrupted system call");
   ("EIO", "Input/output error");
   ("ENXIO", "No such device or address");
   ("E2BIG", "Argument list too long");
   ("EBADF", "Bad file descriptor");
   ("EAGAIN", "Resource temporarily unavailable");
   ("ENOMEM", "Cannot allocate memory");
   ("EACCES", "Permission denied");
   ("EFAULT", "Bad address");
   ("ENOTBLK", "Block device required");
   ("EBUSY", "Device or resource busy");
   ("EEXIST", "File exists");
   ("EXDEV", "Invalid cross-device link");
   ("ENODEV", "No such device");
   ("ENOTDIR", "Not a directory");
   ("EISDIR", "Is a directory");
   ("EINVAL", "Invalid argument");
   ("ENFILE", "Too many open files in system");
   ("EMFILE", "Too many open files");
   ("ETXTBSY", "Text file busy");
   ("EFBIG", "File too large");
   ("ENOSPC", "No space left on device");
   ("ESPIPE", "Illegal seek");
   ("EROFS", "Read-only file system");
   ("EMLINK", "Too many links");
   ("EPIPE", "Broken pipe");
   ("EDOM", "Numerical argument out of domain");
   ("ERANGE", "Numerical result out of range");
   ("EDEADLK", "Resource deadlock avoided");
   ("ENAMETOOLONG", "File name too long");
   ("ENOLCK", "No locks available");
   ("ENOSYS", "Function not implemented");
   ("ENOTEMPTY", "Directory not empty");
   ("ELOOP", "Too many levels of symbolic links");
   ("ENOMSG", "No message of desired type");
   ("EIDRM", "Identifier removed");
   ("ENODATA", "No data available");
   ("ENONET", "Machine is not on the network");
   ("ENOPKG", "Package not installed");
   ("EREMOTE", "Object is remote");
   ("ENOLINK", "Link has been severed");
   ("ECOMM", "Communication error on send");
   ("EPROTO", "Protocol error");
   ("EBADMSG", "Bad message");
   ("EBADFD", "File descriptor in bad state");
   ("ESTRPIPE", "Streams pipe error");
   ("EUSERS", "Too many users");
   ("ENOTSOCK", "Socket operation on non-socket");
   ("EMSGSIZE", "Message too long");
   ("ENOPROTOOPT", "Protocol not available");
   ("EPROTONOSUPPORT", "Protocol not supported");
   ("ESOCKTNOSUPPORT", "Socket type not supported");
   ("EOPNOTSUPP", "Operation not supported");
   ("EPFNOSUPPORT", "Protocol family not supported");
   ("ENETDOWN", "Network is down");
   ("ENETUNREACH", "Network is unreachable");
   ("ENETRESET", "Network dropped connection on reset");
   ("ECONNABORTED", "Software caused connection abort");
   ("ECONNRESET", "Connection reset by peer");
   ("ENOBUFS", "No buffer space available");
   ("EISCONN", "Transport endpoint is already connected");
   ("ENOTCONN", "Transport endpoint is not connected");
   ("ESHUTDOWN", "Cannot send after transport endpoint shutdown");
   ("ETIMEDOUT", "Connection timed out");
   ("ECONNREFUSED", "Connection refused");
   ("EHOSTDOWN", "Host is down");
   ("EHOSTUNREACH", "No route to host");
   ("EALREADY", "Operation already in progress");
   ("EINPROGRESS", "Operation now in progress");
   ("EISNAM", "Is a named type file");
   ("EREMOTEIO", "Remote I/O error");
   ("EDQUOT", "Disk quota exceeded");
   ("EBADF2", "fid unknown or out of range");
   ("EACCES2", "permission denied");
   ("ENOENT_FILE2", "file does not exist");
   ("ECONNREFUSED2", "authentication failed");
   ("ESPIPE2", "bad offset in directory read");
   ("EBADF3", "bad use of fid");
   ("EPERM_CONV", "wstat can't convert between files and directories");
   ("ENOTEMPTY2", "directory is not empty");
   ("EEXIST2", "file exists");
   ("EEXIST3", "file already exists");
   ("EEXIST4", "file or directory already exists");
   ("EBADF4", "fid already in use");
   ("ETXTBSY2", "file in use");
   ("EIO2", "i/o error");
   ("ETXTBSY3", "file already open for I/O");
   ("EINVAL2", "illegal mode");
   ("ENAMETOOLONG2", "illegal name");
   ("ENOTDIR2", "not a directory");
   ("EPERM_GRP", "not a member of proposed group");
   ("EACCES3", "not owner");
   ("EACCES4", "only owner can change group in wstat");
   ("EROFS2", "read only file system");
   ("EPERM_SPFILE", "no access to special file");
   ("EIO3", "i/o count too large");
   ("EINVAL3", "unknown group");
   ("EINVAL4", "unknown user");
   ("EPROTO2", "bogus wstat buffer");
   ("EAGAIN2", "exclusive use file already open");
   ("EIO4", "corrupted directory entry");
   ("EIO5", "corrupted file entry");
   ("EIO6", "corrupted block label");
   ("EIO7", "corrupted meta data");
   ("EINVAL5", "illegal offset");
   ("ENOENT_PATH", "illegal path element");
   ("EIO8", "root of file system is corrupted");
   ("EIO9", "corrupted super block");
   ("EPROTO3", "protocol botch");
   ("ENOSPC2", "file system is full");
   ("EAGAIN3", "file is in use");
   ("ENOENT_ALLOC", "directory entry is not allocated");
   ("EROFS3", "file is read only");
   ("EIDRM2", "file has been removed");
   ("EPERM_TRUNCATE", "only support truncation to zero length");
   ("EPERM_RMROOT", "cannot remove root");
   ("EFBIG2", "file too big");
   ("EIO10", "venti i/o error")].

(** No name is declared twice. *)
Lemma error_strings_names : NoDup (map fst error_strings).
Proof. apply (bool_decide_unpack _). by vm_compute. Qed.
