(* ===== verification/Utils.v ===== *)
(** * Strings and utils.rs (crates/9p/src/utils.rs)

    [str::split] on a character and [parse_proto], the address syntax
    [proto!addr!port] of the listeners. *)

From Stdlib Require Import Ascii.
From S2P Require Import Prelude.

#[local] Open Scope string_scope.

(** [s.split(c)], for an ASCII separator: the pieces between the occurrences
    of [c], always at least one. *)
Fixpoint split_char (c : ascii) (s : string) : list string :=
  match s with
  | EmptyString => [""]
  | String a s =>
      let pieces := split_char c s in
      if decide (a = c) then "" :: pieces
      else match pieces with
           | [] => [String a ""]
           | p :: ps => String a p :: ps
           end
  end.

(** The pieces put back together. *)
Fixpoint join_char (c : ascii) (ps : list string) : string :=
  match ps with
  | [] => ""
  | [p] => p
  | p :: ps => p +:+ String c (join_char c ps)
  end.

Fixpoint has_char (c : ascii) (s : string) : bool :=
  match s with
  | EmptyString => false
  | String a s => bool_decide (a = c) || has_char c s
  end.

Definition parse_proto (arg : string) : option (string * string) :=
  match split_char "!" arg with
  | proto :: addr :: port :: _ => Some (proto, (addr +:+ ":") +:+ port)
  | _ => None
  end.

Lemma split_char_ne c s : split_char c s <> [].
Proof. destruct s; simpl; [done|]. case_decide; [done|]. by destruct (split_char c s). Qed.

Lemma split_char_join c s : join_char c (split_char c s) = s.
Proof.
  induction s as [|a s IH]; simpl; [done|].
  pose proof (split_char_ne c s) as Hne. case_decide as Ha.
  - subst a. simpl. destruct (split_char c s) as [|p ps]; [done|]. by rewrite <- IH.
  - destruct (split_char c s) as [|p ps]; [done|]. rewrite <- IH. by destruct ps.
Qed.

Lemma str_app_assoc (s t u : string) : s +:+ (t +:+ u) = (s +:+ t) +:+ u.
Proof.
  induction s as [|a s IH]; [done|].
  change (String a (s +:+ (t +:+ u)) = String a ((s +:+ t) +:+ u)). by rewrite IH.
Qed.

Lemma has_char_app c s t : has_char c (s +:+ t) = has_char c s || has_char c t.
Proof.
  induction s as [|a s IH]; [done|]. change (has_char c (String a (s +:+ t)) = has_char c (String a s) || has_char c t).
  simpl. by rewrite IH, orb_assoc.
Qed.

(** Splitting at a separator that the piece before it does not contain. *)
Lemma split_char_app c s t :
  has_char c s = false -> split_char c (s +:+ String c t) = s :: split_char c t.
Proof.
  induction s as [|a s IH]; intros Hs; simpl.
  - by rewrite decide_True.
  - simpl in Hs. apply orb_false_iff in Hs as [Ha Hs].
    change (String.append s (String c t)) with (s +:+ String c t).
    rewrite decide_False by (by apply bool_decide_eq_false in Ha). by rewrite IH.
Qed.

Lemma split_char_none c s : has_char c s = false -> split_char c s = [s].
Proof.
  induction s as [|a s IH]; intros Hs; simpl; [done|].
  simpl in Hs. apply orb_false_iff in Hs as [Ha Hs].
  rewrite decide_False by (by apply bool_decide_eq_false in Ha). by rewrite IH.
Qed.

Lemma split_char_pieces c s : Forall (fun p => has_char c p = false) (split_char c s).
Proof.
  induction s as [|a s IH]; simpl; [by constructor|].
  case_decide as Ha; [by constructor|].
  destruct (split_char c s) as [|p ps]; [by constructor; simpl; rewrite ?bool_decide_eq_false_2|].
  apply Forall_cons in IH as [Hp Hps]. constructor; [|done]. simpl.
  by rewrite bool_decide_eq_false_2, Hp.
Qed.

Lemma split_char_unique c ps :
  ps <> [] -> Forall (fun p => has_char c p = false) ps -> split_char c (join_char c ps) = ps.
Proof.
  induction ps as [|p ps IH]; [done|]. intros _ [Hp Hps]%Forall_cons.
  destruct ps as [|q ps]; [by apply split_char_none|].
  change (join_char c (p :: q :: ps)) with (p +:+ String c (join_char c (q :: ps))).
  by rewrite split_char_app, IH.
Qed.

(** An address is accepted exactly when it has at least two separators;
    the protocol is what precedes the first, the listening address the next
    two pieces with a colon between them, and further pieces are ignored. *)
Theorem parse_proto_spec (arg proto listen_addr : string) :
  parse_proto arg = Some (proto, listen_addr)
  <-> exists addr port rest, arg = join_char "!" (proto :: addr :: port :: rest)
      /\ Forall (fun p => has_char "!" p = false) (proto :: addr :: port :: rest)
      /\ listen_addr = addr +:+ ":" +:+ port.
Proof.
  unfold parse_proto. split.
  - pose proof (split_char_join "!" arg) as Hj. pose proof (split_char_pieces "!" arg) as Hp.
    destruct (split_char "!" arg) as [|p1 [|p2 [|p3 ps]]]; intros [= -> <-].
    exists p2, p3, ps. split; [done|]. split; [done|]. by rewrite str_app_assoc.
  - intros (addr & port & rest & -> & Hp & ->). rewrite split_char_unique by done.
    by rewrite str_app_assoc.
Qed.
