(* ===== verification/Srv.v ===== *)
(** * The 9P server (crates/9p/src/srv.rs)

    The [Filesystem] trait, [dispatch_once] and the loop of [dispatch].

    A handler may change the file system and the objects behind the fids: both
    live in the state [S] of the class, and the [aux] of a fid is a handle of
    type [T] into it, so that two fids that share an object, or one fid that
    is used twice in a request, alias as they do in the source. *)

From S2P Require Import Prelude Bytes Io Error Fcall Serialize.

Record Fid (T : Type) := { fid_raw : u32; aux : T }.
Arguments fid_raw {T}.
Arguments aux {T}.

(** ** The trait *)

Class Filesystem (S T : Type) := {
  (** [Self::Fid: Default]: a new object and its handle. *)
  default_aux : S -> T * S;
  rstatfs : Fid T -> M S Error Fcall;
  rlopen : Fid T -> u32 -> M S Error Fcall;
  rlcreate : Fid T -> string -> u32 -> u32 -> u32 -> M S Error Fcall;
  rsymlink : Fid T -> string -> string -> u32 -> M S Error Fcall;
  rmknod : Fid T -> string -> u32 -> u32 -> u32 -> u32 -> M S Error Fcall;
  rrename : Fid T -> Fid T -> string -> M S Error Fcall;
  rreadlink : Fid T -> M S Error Fcall;
  rgetattr : Fid T -> GetattrMask -> M S Error Fcall;
  rsetattr : Fid T -> SetattrMask -> SetAttr -> M S Error Fcall;
  rxattrwalk : Fid T -> Fid T -> string -> M S Error Fcall;
  rxattrcreate : Fid T -> string -> u64 -> u32 -> M S Error Fcall;
  rreaddir : Fid T -> u64 -> u32 -> M S Error Fcall;
  rfsync : Fid T -> M S Error Fcall;
  rlock : Fid T -> Flock -> M S Error Fcall;
  rgetlock : Fid T -> Getlock -> M S Error Fcall;
  rlink : Fid T -> Fid T -> string -> M S Error Fcall;
  rmkdir : Fid T -> string -> u32 -> u32 -> M S Error Fcall;
  rrenameat : Fid T -> string -> Fid T -> string -> M S Error Fcall;
  runlinkat : Fid T -> string -> u32 -> M S Error Fcall;
  rauth : Fid T -> string -> string -> u32 -> M S Error Fcall;
  rattach : Fid T -> option (Fid T) -> string -> string -> u32 -> M S Error Fcall;
  rflush : option Fcall -> M S Error Fcall;
  rwalk : Fid T -> Fid T -> list string -> M S Error Fcall;
  rread : Fid T -> u64 -> u32 -> M S Error Fcall;
  rwrite : Fid T -> u64 -> Data -> M S Error Fcall;
  rclunk : Fid T -> M S Error Fcall;
  rremove : Fid T -> M S Error Fcall;
  rversion : u32 -> string -> M S Error Fcall
}.

Definition unsupported {S} : M S Error Fcall := throw (No EOPNOTSUPP).

(** The provided [rversion]. *)
Definition rversion_default {S} (msize : u32) (ver : string) : M S Error Fcall :=
  mret (Rversion msize (if decide (ver = P92000L) then ver else VERSION_UNKNOWN)).

(** The provided methods: an implementor overrides the ones it supports. *)
Definition Filesystem_provided {S T} (default : S -> T * S) : Filesystem S T := {|
  default_aux := default;
  rstatfs _ := unsupported;
  rlopen _ _ := unsupported;
  rlcreate _ _ _ _ _ := unsupported;
  rsymlink _ _ _ _ := unsupported;
  rmknod _ _ _ _ _ _ := unsupported;
  rrename _ _ _ := unsupported;
  rreadlink _ := unsupported;
  rgetattr _ _ := unsupported;
  rsetattr _ _ _ := unsupported;
  rxattrwalk _ _ _ := unsupported;
  rxattrcreate _ _ _ _ := unsupported;
  rreaddir _ _ _ := unsupported;
  rfsync _ := unsupported;
  rlock _ _ := unsupported;
  rgetlock _ _ := unsupported;
  rlink _ _ _ := unsupported;
  rmkdir _ _ _ _ := unsupported;
  rrenameat _ _ _ _ := unsupported;
  runlinkat _ _ _ := unsupported;
  rauth _ _ _ _ := unsupported;
  rattach _ _ _ _ _ := unsupported;
  rflush _ := unsupported;
  rwalk _ _ _ := unsupported;
  rread _ _ _ := unsupported;
  rwrite _ _ _ := unsupported;
  rclunk _ := unsupported;
  rremove _ := unsupported;
  rversion := rversion_default
|}.

(** ** dispatch_once *)
Section Dispatch.
Context {S T : Type} `{FS : Filesystem S T}.

Abbreviation fid_table := (gmap u32 (Fid T)).

Definition get_fid (fids : fid_table) (fid : u32) : M S Error (Fid T) :=
  ok_or (fids !! fid) (No EBADF).

(** [newfid.as_ref().unwrap()]: the source panics on [None]; [call_handler]
    then has no computation to run. *)
Definition unwrap {A B} (o : option A) (k : A -> B) : option B := k <$> o.

(** The [match msg.body] of [dispatch_once]: the handler call a request
    stands for, given the fid table and the new fid. *)
Definition call_handler (fids : fid_table) (newfid : option (Fid T)) (body : Fcall)
    : option (M S Error Fcall) :=
  let get_fid := get_fid fids in
  match body with
  | Tstatfs fid => Some (f ← get_fid fid; rstatfs f)
  | Tlopen fid flags => Some (f ← get_fid fid; rlopen f flags)
  | Tlcreate fid name flags mode gid =>
      Some (f ← get_fid fid; rlcreate f name flags mode gid)
  | Tsymlink fid name symtgt gid => Some (f ← get_fid fid; rsymlink f name symtgt gid)
  | Tmknod dfid name mode major minor gid =>
      Some (f ← get_fid dfid; rmknod f name mode major minor gid)
  | Trename fid dfid name => Some (f ← get_fid fid; d ← get_fid dfid; rrename f d name)
  | Treadlink fid => Some (f ← get_fid fid; rreadlink f)
  | Tgetattr fid req_mask => Some (f ← get_fid fid; rgetattr f req_mask)
  | Tsetattr fid valid stat => Some (f ← get_fid fid; rsetattr f valid stat)
  | Txattrwalk fid _ name => unwrap newfid (fun n => f ← get_fid fid; rxattrwalk f n name)
  | Txattrcreate fid name attr_size flags =>
      Some (f ← get_fid fid; rxattrcreate f name attr_size flags)
  | Treaddir fid offset count => Some (f ← get_fid fid; rreaddir f offset count)
  | Tfsync fid => Some (f ← get_fid fid; rfsync f)
  | Tlock fid flock => Some (f ← get_fid fid; rlock f flock)
  | Tgetlock fid flock => Some (f ← get_fid fid; rgetlock f flock)
  | Tlink dfid fid name => Some (d ← get_fid dfid; f ← get_fid fid; rlink d f name)
  | Tmkdir dfid name mode gid => Some (f ← get_fid dfid; rmkdir f name mode gid)
  | Trenameat olddirfid oldname newdirfid newname =>
      Some (o ← get_fid olddirfid; n ← get_fid newdirfid; rrenameat o oldname n newname)
  | Tunlinkat dirfd name flags => Some (f ← get_fid dirfd; runlinkat f name flags)
  | Tauth _ uname aname n_uname => unwrap newfid (fun n => rauth n uname aname n_uname)
  | Tattach _ _ uname aname n_uname =>
      unwrap newfid (fun n => rattach n None uname aname n_uname)
  | Tversion msize version => Some (rversion msize version)
  | Tflush _ => Some (rflush None)
  | Twalk fid _ wnames => unwrap newfid (fun n => f ← get_fid fid; rwalk f n wnames)
  | Tread fid offset count => Some (f ← get_fid fid; rread f offset count)
  | Twrite fid offset data => Some (f ← get_fid fid; rwrite f offset data)
  | Tclunk fid => Some (f ← get_fid fid; rclunk f)
  | Tremove fid => Some (f ← get_fid fid; rremove f)
  | _ => Some (throw (No EOPNOTSUPP))
  end.

(** The state the requests of a connection share. *)
Record served := { fs : S; fsfids : fid_table }.

(** [msg.body.newfid().map(|f| Fid { fid: f, aux: Default::default() })] *)
Definition make_newfid (body : Fcall) (s : S) : option (Fid T) * S :=
  match newfid body with
  | Some f => let '(a, s) := default_aux s in (Some {| fid_raw := f; aux := a |}, s)
  | None => (None, s)
  end.

(** The part under the read lock: from the making of the new fid to the
    handler's result.  [None] is a panic. *)
Definition run_handler (body : Fcall) (d : served)
    : option (result Error (Fcall * option (Fid T)) * served) :=
  let '(newfid, s) := make_newfid body (fs d) in
  match call_handler (fsfids d) newfid body with
  | None => None
  | Some m =>
      let '(r, s) := m s in
      let d := {| fs := s; fsfids := fsfids d |} in
      Some (match r with Ok response => Ok (response, newfid) | Err e => Err e end, d)
  end.

(** The two parts under the write lock. *)
Definition drop_clunked (body : Fcall) (d : served) : served :=
  match body with
  | Tclunk fid => {| fs := fs d; fsfids := delete fid (fsfids d) |}
  | _ => d
  end.

Definition insert_newfid (newfid : option (Fid T)) (d : served) : served :=
  match newfid with
  | Some f => {| fs := fs d; fsfids := <[fid_raw f := f]> (fsfids d) |}
  | None => d
  end.

Definition dispatch_once (msg : Msg) (d : served) : option (result Error Fcall * served) :=
  match run_handler (msg_body msg) d with
  | None => None
  | Some (Err e, d) => Some (Err e, d)
  | Some (Ok (response, newfid), d) =>
      Some (Ok response, insert_newfid newfid (drop_clunked (msg_body msg) d))
  end.

(** [unwrap_or_else] of the dispatch loop: an error becomes an Rlerror. *)
Definition response_of `{Nix} (r : result Error Fcall) : Fcall :=
  match r with
  | Ok response => response
  | Err e => Rlerror (wrap 32 (errno e))
  end.
End Dispatch.
Arguments served : clear implicits.
