(* ===== verification/Dispatch.v ===== *)
(** * The server loop (crates/9p/src/srv.rs, [dispatch] and [srv_async])

    [dispatch] reads frames and spawns one task per request; the tasks run
    concurrently over the shared file system and fid table.  A connection is a
    state, and a step of it is a move of the reading loop or of one task up to
    its next lock: the read lock is held over the handler, and the write lock
    is taken twice, to drop a clunked fid and to insert a new one. *)

From S2P Require Import Prelude Bytes Io Error Fcall Serialize Utils Srv.

(** The [bytes] crate: a buffer read from, [Bytes::reader], and a growing
    buffer written to, [BytesMut::with_capacity(65535).writer()]. *)
Class BytesBuf (R W : Type) := {
  bytes_read_ext :: ReadBytesExt R;
  bytes_write_ext :: WriteBytesExt W;
  bytes_reader : list byte -> R;
  bytes_writer : W;
  into_inner : W -> list byte
}.

Class BytesBufLaws (R W : Type) `{BytesBuf R W} := {
  bytes_reader_laws :: ReaderLaws R;
  bytes_writer_laws :: WriterLaws W;
  bytes_growable :: Growable W;
  bytes_reader_view : forall b, view (bytes_reader b) = b;
  bytes_writer_empty : written bytes_writer = [];
  bytes_into_inner : forall w, into_inner w = written w
}.

Definition bytes_ref : BytesBuf (list byte) (list byte) := {|
  bytes_read_ext := slice_reader; bytes_write_ext := vec_writer;
  bytes_reader b := b; bytes_writer := []; into_inner w := w
|}.

Definition bytes_ref_laws : @BytesBufLaws (list byte) (list byte) bytes_ref.
Proof.
  by refine {| bytes_reader_laws := slice_reader_laws : @ReaderLaws _ (@bytes_read_ext _ _ bytes_ref);
    bytes_writer_laws := vec_writer_laws : @WriterLaws _ (@bytes_write_ext _ _ bytes_ref) |}.
Defined.

Section Loop.
Context {S T : Type} `{FS : Filesystem S T} `{Nix} {R W : Type} `{BytesBuf R W}.
Context `{Bitflags} `{FromPrimitive MsgType}.

(** ** Tasks *)

(** How a task ended: its reply was sent; the response was no R-message and
    nothing was sent; an [unwrap] panicked. *)
Inductive outcome : Set :=
  | Replied (response : Fcall)
  | Silent (response : Fcall)
  | Panicked.

(** Where a task stands. *)
Inductive phase : Type :=
  | Spawned
  | Handled (response : Fcall) (newfid : option (Fid T))
  | Clunked (response : Fcall) (newfid : option (Fid T))
  | Responding (response : Fcall)
  | Done (o : outcome).

Record task := { task_msg : Msg; task_phase : phase }.

(** [serialize::write_msg(&mut writer, &response).unwrap()], then
    [writer.into_inner().freeze()]. *)
Definition encode_response (response : Msg) : option (list byte) :=
  match write_msg response bytes_writer with
  | (Ok _, w) => Some (into_inner w)
  | (Err _, _) => None
  end.

(** One move of a task: its next phase, the shared state after it, and the
    frame it sends.  [sent_ok] is the result of [framedwrite.send]. *)
Definition task_step (sent_ok : bool) (t : task) (d : served S T)
    : option (phase * served S T * list (list byte)) :=
  let msg := task_msg t in
  match task_phase t with
  | Spawned =>
      match run_handler (msg_body msg) d with
      | None => Some (Done Panicked, d, [])
      | Some (Err e, d) => Some (Responding (response_of (Err e)), d, [])
      | Some (Ok (response, newfid), d) => Some (Handled response newfid, d, [])
      end
  | Handled response newfid =>
      Some (Clunked response newfid, drop_clunked (msg_body msg) d, [])
  | Clunked response newfid => Some (Responding response, insert_newfid newfid d, [])
  | Responding response =>
      if MsgTypes.is_r (MsgType_from response) then
        match encode_response {| msg_tag := msg_tag msg; msg_body := response |} with
        | None => Some (Done Panicked, d, [])
        | Some bytes =>
            if sent_ok then Some (Done (Replied response), d, [bytes])
            else Some (Done Panicked, d, [])
        end
      else Some (Done (Silent response), d, [])
  | Done _ => None
  end.

(** ** The connection *)

Inductive status : Set :=
  | Reading
  | Returned (r : result Error unit).

Record conn := {
  shared : served S T;
  (** What [framedread] still yields; at the end the client has closed. *)
  incoming : list (result io_error (list byte));
  tasks : list task;
  sent : list (list byte);
  conn_status : status
}.

(** [dispatch] starts with an empty fid table. *)
Definition conn_init (filesystem : S) (frames : list (result io_error (list byte))) : conn := {|
  shared := {| fs := filesystem; fsfids := ∅ |};
  incoming := frames; tasks := []; sent := []; conn_status := Reading
|}.

(** One turn of [while let Some(bytes) = framedread.next().await]. *)
Definition recv (c : conn) : option conn :=
  match conn_status c with
  | Returned _ => None
  | Reading =>
      let stop r rest := Some {| shared := shared c; incoming := rest; tasks := tasks c;
        sent := sent c; conn_status := Returned r |} in
      match incoming c with
      | [] => stop (Ok tt) []
      | Err e :: rest => stop (Err (Error_from_io e)) rest
      | Ok bytes :: rest =>
          match (read_msg (bytes_reader bytes)).1 with
          | Err e => stop (Err (Error_from_io e)) rest
          | Ok msg => Some {| shared := shared c; incoming := rest;
              tasks := tasks c ++ [{| task_msg := msg; task_phase := Spawned |}];
              sent := sent c; conn_status := Reading |}
          end
      end
  end.

Definition run_task (i : nat) (sent_ok : bool) (c : conn) : option conn :=
  t ← tasks c !! i;
  '(p, d, frames) ← task_step sent_ok t (shared c);
  Some {| shared := d; incoming := incoming c;
    tasks := <[i := {| task_msg := task_msg t; task_phase := p |}]> (tasks c);
    sent := sent c ++ frames; conn_status := conn_status c |}.

(** What the scheduler and the network choose. *)
Inductive label : Set :=
  | Recv
  | Run (i : nat) (sent_ok : bool).

Definition step (l : label) (c : conn) : option conn :=
  match l with
  | Recv => recv c
  | Run i sent_ok => run_task i sent_ok c
  end.

(** A run of the connection under a schedule. *)
Fixpoint exec (ls : list label) (c : conn) : option conn :=
  match ls with
  | [] => Some c
  | l :: ls => c ← step l c; exec ls c
  end.

Definition conn_step (c c' : conn) : Prop := exists l, step l c = Some c'.

Definition reachable (filesystem : S) (frames : list (result io_error (list byte))) (c : conn) : Prop :=
  rtc conn_step (conn_init filesystem frames) c.
End Loop.
Arguments phase : clear implicits.
Arguments task : clear implicits.
Arguments conn : clear implicits.

(** ** The listeners *)

Definition invalid_address : io_error := Simple InvalidInput "Invalid protocol or address".
Definition unsupported_protocol : io_error := Simple InvalidInput "Protocol not supported".

(** tokio's listeners.  Binding an address fails or gives what [accept] will
    return, in order; a connection is its two halves. *)
Class Listeners (C : Type) := {
  tcp_bind : string -> result io_error (list (result io_error C));
  unix_bind : string -> result io_error (list (result io_error C))
}.

Section Listen.
Context {C : Type} `{Listeners C}.

(** The accept loop over what has arrived: the connections [dispatch] was
    spawned for, and the error that ended the loop if one has. *)
Fixpoint accept_loop (accepted : list (result io_error C)) : list C * option Error :=
  match accepted with
  | [] => ([], None)
  | Err e :: _ => ([], Some (Error_from_io e))
  | Ok stream :: rest =>
      let '(served, e) := accept_loop rest in (stream :: served, e)
  end.

Definition listen_on (bound : result io_error (list (result io_error C))) : list C * option Error :=
  match bound with
  | Err e => ([], Some (Error_from_io e))
  | Ok accepted => accept_loop accepted
  end.

Definition srv_async_tcp (addr : string) : list C * option Error := listen_on (tcp_bind addr).
Definition srv_async_unix (addr : string) : list C * option Error := listen_on (unix_bind addr).

Definition srv_async (addr : string) : list C * option Error :=
  match parse_proto addr with
  | None => ([], Some (Error_from_io invalid_address))
  | Some (proto, listen_addr) =>
      if decide (proto = "tcp") then srv_async_tcp listen_addr
      else if decide (proto = "unix") then srv_async_unix listen_addr
      else ([], Some (Error_from_io unsupported_protocol))
  end.
End Listen.
