(* ===== verification/DispatchFacts.v ===== *)
(** * Lemmas about the server loop

    The cases of a step, the measure a step decreases, and the invariants of
    the reachable states that the properties of the loop rest on. *)

From S2P Require Import Prelude Bytes Io Error Fcall Serialize Wire EncodeFacts Srv Dispatch.

(** ** dispatch_once *)
Section Once.
Context {S T : Type} `{FS : Filesystem S T}.

Lemma call_handler_total (fids : gmap u32 (Fid T)) (body : Fcall) (s : S) :
  exists m, call_handler fids (make_newfid body s).1 body = Some m.
Proof.
  unfold make_newfid. destruct body; cbn [Fcall.newfid call_handler fst]; try (by eexists);
    destruct (default_aux s); cbn; eauto.
Qed.

(** The handler always runs, and leaves the fid table alone. *)
Lemma run_handler_spec body (d : served S T) :
  exists r d', run_handler body d = Some (r, d') /\ fsfids d' = fsfids d
    /\ forall resp n, r = Ok (resp, n) -> n = (make_newfid body (fs d)).1.
Proof.
  unfold run_handler. destruct (call_handler_total (fsfids d) body (fs d)) as [m Hm].
  destruct (make_newfid body (fs d)) as [n s] eqn:En. cbn [fst] in *. rewrite Hm.
  destruct (m s) as [r s']. eexists _, _. split; [reflexivity|]. split; [done|].
  intros resp n' Hr. destruct r; by simplify_eq.
Qed.

Lemma make_newfid_raw body (s : S) f :
  (make_newfid body s).1 = Some f -> newfid body = Some (fid_raw f).
Proof.
  unfold make_newfid. destruct (newfid body) as [n|]; [|done].
  destruct (default_aux s). by intros [= <-].
Qed.

Lemma make_newfid_some body (s : S) n :
  newfid body = Some n ->
  (make_newfid body s).1 = Some {| fid_raw := n; aux := (default_aux s).1 |}.
Proof. unfold make_newfid. intros ->. by destruct (default_aux s). Qed.

Lemma make_newfid_none body (s : S) : newfid body = None -> (make_newfid body s).1 = None.
Proof. unfold make_newfid. by intros ->. Qed.

Lemma get_fid_none (fids : gmap u32 (Fid T)) f (s : S) :
  fids !! f = None -> get_fid fids f s = (Err (No EBADF), s).
Proof. unfold get_fid. by intros ->. Qed.

Lemma get_fid_some (fids : gmap u32 (Fid T)) f x (s : S) :
  fids !! f = Some x -> get_fid fids f s = (Ok x, s).
Proof. unfold get_fid. by intros ->. Qed.
End Once.

(** ** One reply, one frame *)
Section Steps.
Context {S T : Type} `{FS : Filesystem S T} `{Nix} {R W : Type} `{BytesBufLaws R W}.
Context `{Bitflags} `{FromPrimitive MsgType}.

Lemma encode_response_wire (m : Msg) : encode_response (R := R) (W := W) m = Some (wire m).
Proof.
  unfold encode_response, write_msg.
  pose proof (encode_total (A := Msg) W _ _ m bytes_writer) as Ht.
  destruct (encodes (A := Msg) W _ _ m bytes_writer) as [Ha _].
  destruct (encode m bytes_writer) as [[n|e] w]; [|done]. simpl in Ha.
  by rewrite bytes_into_inner, Ha, bytes_writer_empty.
Qed.

(** The frame a finished task has sent. *)
Definition reply_frame (t : task T) : option (list byte) :=
  match task_phase t with
  | Done (Replied response) =>
      Some (wire {| msg_tag := msg_tag (task_msg t); msg_body := response |})
  | _ => None
  end.

Definition is_done (t : task T) : Prop := exists o, task_phase t = Done o.

#[export] Instance is_done_dec t : Decision (is_done t).
Proof. unfold is_done. destruct (task_phase t); [right; by intros [? ?].. | left; eauto]. Defined.

(** The moves of a task, by phase. *)
Inductive moves (ok : bool) (t : task T) (d : served S T) :
    phase T -> served S T -> list (list byte) -> Prop :=
  | move_err e d' : task_phase t = Spawned ->
      run_handler (msg_body (task_msg t)) d = Some (Err e, d') ->
      moves ok t d (Responding (response_of (Err e))) d' []
  | move_ok resp n d' : task_phase t = Spawned ->
      run_handler (msg_body (task_msg t)) d = Some (Ok (resp, n), d') ->
      moves ok t d (Handled resp n) d' []
  | move_clunk resp n : task_phase t = Handled resp n ->
      moves ok t d (Clunked resp n) (drop_clunked (msg_body (task_msg t)) d) []
  | move_insert resp n : task_phase t = Clunked resp n ->
      moves ok t d (Responding resp) (insert_newfid n d) []
  | move_reply resp : task_phase t = Responding resp ->
      MsgTypes.is_r (MsgType_from resp) = true -> ok = true ->
      moves ok t d (Done (Replied resp)) d
        [wire {| msg_tag := msg_tag (task_msg t); msg_body := resp |}]
  | move_fail resp : task_phase t = Responding resp ->
      MsgTypes.is_r (MsgType_from resp) = true -> ok = false ->
      moves ok t d (Done Panicked) d []
  | move_silent resp : task_phase t = Responding resp ->
      MsgTypes.is_r (MsgType_from resp) = false ->
      moves ok t d (Done (Silent resp)) d [].

Lemma task_step_moves ok t d p d' frames :
  task_step (R := R) (W := W) ok t d = Some (p, d', frames) <-> moves ok t d p d' frames.
Proof.
  unfold task_step. split.
  - intros E. destruct (task_phase t) as [|resp n|resp n|resp|o] eqn:Ep; simplify_eq.
    + destruct (run_handler_spec (msg_body (task_msg t)) d) as (r & d1 & Er & _).
      rewrite Er in E. destruct r as [[resp n]|e]; simplify_eq; by econstructor.
    + by econstructor.
    + by econstructor.
    + rewrite encode_response_wire in E. destruct (MsgTypes.is_r _) eqn:Eis.
      * destruct ok; simplify_eq; by econstructor.
      * simplify_eq. by econstructor.
  - destruct 1 as [? ? Hp Hr|? ? ? Hp Hr|? ? Hp|? ? Hp|? Hp Hr ->|? Hp Hr ->|? Hp Hr];
      rewrite Hp, ?Hr, ?encode_response_wire; done.
Qed.

(** A task that has not ended can move, whatever the state. *)
Lemma task_can_move t d : is_done t \/ exists p d' frames, moves true t d p d' frames.
Proof.
  destruct (task_phase t) as [|resp n|resp n|resp|o] eqn:Ep.
  - right. destruct (run_handler_spec (msg_body (task_msg t)) d) as (r & d1 & Er & _).
    destruct r as [[resp n]|e]; eexists _, _, _; by econstructor.
  - right. eexists _, _, _. by econstructor.
  - right. eexists _, _, _. by econstructor.
  - right. destruct (MsgTypes.is_r (MsgType_from resp)) eqn:Er;
      eexists _, _, _; [by eapply move_reply|by eapply move_silent].
  - left. by exists o.
Qed.

Lemma moves_not_done ok t d p d' frames : moves ok t d p d' frames -> ~ is_done t.
Proof. intros Hm [o Ho]. inversion Hm; congruence. Qed.

Lemma moves_frames ok t d p d' frames :
  moves ok t d p d' frames ->
  frames = option_list (reply_frame {| task_msg := task_msg t; task_phase := p |}).
Proof. by destruct 1. Qed.

(** ** The steps of a connection *)

Definition with_task (i : nat) (p : phase T) (d : served S T) (frames : list (list byte))
    (t : task T) (c : conn S T) : conn S T := {|
  shared := d; incoming := incoming c;
  tasks := <[i := {| task_msg := task_msg t; task_phase := p |}]> (tasks c);
  sent := sent c ++ frames; conn_status := conn_status c |}.

Definition stopped (r : result Error unit) rest (c : conn S T) : conn S T := {|
  shared := shared c; incoming := rest; tasks := tasks c; sent := sent c;
  conn_status := Returned r |}.

Definition spawned (m : Msg) rest (c : conn S T) : conn S T := {|
  shared := shared c; incoming := rest;
  tasks := tasks c ++ [{| task_msg := m; task_phase := Spawned |}];
  sent := sent c; conn_status := Reading |}.

Inductive step_case : label -> conn S T -> conn S T -> Prop :=
  | case_closed c : conn_status c = Reading -> incoming c = [] ->
      step_case Recv c (stopped (Ok tt) [] c)
  | case_io c e rest : conn_status c = Reading -> incoming c = Err e :: rest ->
      step_case Recv c (stopped (Err (Error_from_io e)) rest c)
  | case_bad c b e rest : conn_status c = Reading -> incoming c = Ok b :: rest ->
      (read_msg (R := R) (bytes_reader b)).1 = Err e ->
      step_case Recv c (stopped (Err (Error_from_io e)) rest c)
  | case_spawn c b m rest : conn_status c = Reading -> incoming c = Ok b :: rest ->
      (read_msg (R := R) (bytes_reader b)).1 = Ok m ->
      step_case Recv c (spawned m rest c)
  | case_run c i ok t p d frames : tasks c !! i = Some t ->
      moves ok t (shared c) p d frames ->
      step_case (Run i ok) c (with_task i p d frames t c).

Lemma step_cases l c c' : step (R := R) (W := W) l c = Some c' <-> step_case l c c'.
Proof.
  split.
  - destruct l as [|i ok]; simpl.
    + unfold recv. destruct (conn_status c) eqn:Es; [|done].
      destruct (incoming c) as [|[b|e] rest] eqn:Ei; intros E; simplify_eq/=.
      * by apply case_closed.
      * destruct (read_msg (bytes_reader b)).1 as [m|e] eqn:Er; simplify_eq/=.
        -- by eapply case_spawn.
        -- by eapply case_bad.
      * by eapply case_io.
    + unfold run_task. destruct (tasks c !! i) as [t|] eqn:Et; [|done]. simpl.
      destruct (task_step ok t (shared c)) as [[[p d] frames]|] eqn:Es; [|done].
      intros [= <-]. apply task_step_moves in Es. by eapply (case_run c i ok t).
  - destruct 1 as [c Hs Hi|c e rest Hs Hi|c b e rest Hs Hi Hr|c b m rest Hs Hi Hr
      |c i ok t p d frames Ht Hm]; simpl; unfold recv, run_task; rewrite ?Hs, ?Hi, ?Hr; try done.
    rewrite Ht. simpl. apply task_step_moves in Hm. by rewrite Hm.
Qed.

(** ** What a step decreases *)

Definition phase_rank (p : phase T) : nat :=
  match p with Spawned => 4 | Handled _ _ => 3 | Clunked _ _ => 2 | Responding _ => 1 | Done _ => 0 end.

Definition status_rank (s : status) : nat := match s with Reading => 1 | Returned _ => 0 end.

Definition conn_rank (c : conn S T) : nat :=
  (5 * length (incoming c) + status_rank (conn_status c)
   + sum_list (phase_rank ∘ task_phase <$> tasks c))%nat.

Lemma moves_rank ok t d p d' frames :
  moves ok t d p d' frames -> (phase_rank p < phase_rank (task_phase t))%nat.
Proof. destruct 1 as [? ? Hp|? ? ? Hp|? ? Hp|? ? Hp|? Hp|? Hp|? Hp]; rewrite Hp; simpl; lia. Qed.

(** The sum over a list with one element replaced by a smaller one. *)
Lemma sum_list_insert_lt {A} (f : A -> nat) l i x y :
  l !! i = Some x -> (f y < f x)%nat ->
  (sum_list (f <$> <[i := y]> l) < sum_list (f <$> l))%nat.
Proof.
  revert i. induction l as [|a l IH]; intros [|i] Hi Hf; simplify_eq/=; [lia|].
  specialize (IH i Hi Hf). lia.
Qed.

Lemma step_rank l c c' : step_case l c c' -> (conn_rank c' < conn_rank c)%nat.
Proof.
  destruct 1 as [c Hs Hi|c e rest Hs Hi|c b e rest Hs Hi Hr|c b m rest Hs Hi Hr
    |c i ok t p d frames Ht Hm]; unfold conn_rank; simpl; rewrite ?Hs, ?Hi; simpl; try lia.
  - rewrite fmap_app, sum_list_with_app. simpl. lia.
  - apply Nat.add_lt_mono_l.
    apply (sum_list_insert_lt (phase_rank ∘ task_phase) _ _ t); [done|]. by eapply moves_rank.
Qed.

(** Replacing an element that contributes nothing to an [omap]. *)
Lemma omap_insert_perm {A B} (f : A -> option B) l i x y :
  l !! i = Some x -> f x = None ->
  omap f (<[i := y]> l) ≡ₚ omap f l ++ option_list (f y).
Proof.
  revert i. induction l as [|a l IH]; intros [|i] Hi Hx; simplify_eq/=.
  - rewrite Hx. destruct (f y); simpl; [|by rewrite app_nil_r]. apply Permutation_cons_append.
  - destruct (f a); simpl; by rewrite IH.
Qed.

Lemma not_done_no_reply t : ~ is_done t -> reply_frame t = None.
Proof.
  unfold is_done, reply_frame. destruct (task_phase t); try done. intros Hd. by destruct Hd; eexists.
Qed.

(** ** Invariants of the reachable states *)

Lemma reachable_ind_case (P : conn S T -> Prop) filesystem frames :
  P (conn_init filesystem frames) ->
  (forall l c c', P c -> step_case l c c' -> P c') ->
  forall c, reachable (R := R) (W := W) filesystem frames c -> P c.
Proof.
  intros Hinit Hs c Hr. unfold reachable in Hr. revert Hinit.
  induction Hr as [c0|c0 c1 c2 [l Hl] _ IH]; [done|]. intros HP.
  apply IH. eapply Hs; [done|]. by apply step_cases.
Qed.

Lemma exec_ind_case (P : conn S T -> Prop) (good : label -> Prop) :
  (forall l c c', P c -> good l -> step_case l c c' -> P c') ->
  forall ls c c', exec (R := R) (W := W) ls c = Some c' -> Forall good ls -> P c -> P c'.
Proof.
  intros Hs ls. induction ls as [|l ls IH]; intros c c' Hx Hg HP; simpl in Hx; [by simplify_eq|].
  destruct (step l c) as [c1|] eqn:El; [|done]. apply Forall_cons in Hg as [Hl Hg].
  eapply IH; [done|done|]. eapply Hs; [done|done|]. by apply step_cases.
Qed.

Lemma exec_reachable ls filesystem frames c c' :
  reachable (R := R) (W := W) filesystem frames c -> exec (R := R) (W := W) ls c = Some c' ->
  reachable (R := R) (W := W) filesystem frames c'.
Proof.
  revert c. induction ls as [|l ls IH]; intros c Hr Hx; simpl in Hx; [by simplify_eq|].
  destruct (step l c) as [c1|] eqn:El; [|done]. eapply IH; [|done].
  eapply rtc_r; [done|]. by exists l.
Qed.

(** What was sent is one frame for each task that ended with a reply. *)
Lemma sent_perm filesystem frames c :
  reachable (R := R) (W := W) filesystem frames c -> sent c ≡ₚ omap reply_frame (tasks c).
Proof.
  revert c. apply reachable_ind_case; [done|].
  intros l c c' Hsent Hs.
  destruct Hs as [c Hs Hi|c e rest Hs Hi|c b e rest Hs Hi Hm|c b m rest Hs Hi Hm
    |c i ok t p d fr Hi Hm]; simpl; try done.
  - rewrite omap_app. simpl. by rewrite app_nil_r.
  - rewrite omap_insert_perm by (try done; by apply not_done_no_reply, (moves_not_done _ _ _ _ _ _ Hm)).
    by rewrite Hsent, (moves_frames _ _ _ _ _ _ Hm).
Qed.
End Steps.
Arguments is_done {T}.
Arguments reply_frame {T}.
