(* ===== verification/SrvProps.v ===== *)
(** * Properties of the server

    [dispatch_once]: the fid table after each request, the refusal of unknown
    fids.  [dispatch]: what every interleaving of the tasks guarantees, that
    the loop comes to an end with every request answered, and that a client
    that waits for each reply sees the requests served in order. *)

From Stdlib Require Import Wf_nat Wellfounded.
From stdpp Require Import relations.
From S2P Require Import Prelude Bytes Io Error Fcall Serialize Wire Utils Srv Dispatch DispatchFacts.

Section Props.
Context {S T : Type} `{FS : Filesystem S T} `{NX : Nix} {R W : Type} `{BL : BytesBufLaws R W}.
Context `{BF : Bitflags} `{FP : FromPrimitive MsgType}.

Abbreviation served_step := (conn_step (S := S) (T := T) (R := R) (W := W)).
Abbreviation served_conn := (reachable (S := S) (T := T) (R := R) (W := W)).

(** ** One request *)

(** C20: a request is always answered, and its answer decides the fid table: an
    error leaves it as it was; a successful Tclunk removes its fid; a
    successful request that names a new fid binds it to the object made for it
    (whatever it was bound to before); any other leaves it as it was. *)
Theorem dispatch_once_fid_table (msg : Msg) (d : served S T) :
  match dispatch_once msg d with
  | None => False
  | Some (Err _, d') => fsfids d' = fsfids d
  | Some (Ok _, d') =>
      fsfids d' = match msg_body msg with
        | Tclunk fid => delete fid (fsfids d)
        | body =>
            match newfid body with
            | Some n => <[n := {| fid_raw := n; aux := (default_aux (fs d)).1 |}]> (fsfids d)
            | None => fsfids d
            end
        end
  end.
Proof.
  unfold dispatch_once. destruct (run_handler_spec (msg_body msg) d) as (r & d' & -> & <- & Hn).
  destruct r as [[resp n]|e]; [|done]. rewrite (Hn resp n) by done.
  destruct (newfid (msg_body msg)) as [k|] eqn:Ek.
  - rewrite (make_newfid_some _ _ k) by done. destruct (msg_body msg); simplify_eq/=; done.
  - rewrite make_newfid_none by done. destruct (msg_body msg); simplify_eq/=; done.
Qed.

(** A request on a fid the table does not hold is answered with EBADF; the
    handler is not called and the table does not change.  (The afid of a
    Tattach is not looked up.) *)
Theorem dispatch_once_unknown_fid (msg : Msg) (d : served S T) f :
  f ∈ fids (msg_body msg) -> fsfids d !! f = None ->
  MsgType_from (msg_body msg) <> MsgTypes.Tattach ->
  dispatch_once msg d = Some (Err (No EBADF),
    {| fs := (make_newfid (msg_body msg) (fs d)).2; fsfids := fsfids d |}).
Proof.
  intros Hf Hnone Ht. unfold dispatch_once, run_handler.
  destruct msg as [tag body]. cbn [msg_body] in *.
  destruct (make_newfid body (fs d)) as [n s] eqn:En. cbn [snd].
  destruct body; cbn [fids] in Hf; try (by destruct (Ht eq_refl)); try (by apply elem_of_nil in Hf);
    unfold make_newfid in En; cbn [Fcall.newfid] in En;
    try (destruct (default_aux (fs d))); simplify_eq/=;
    repeat (apply elem_of_cons in Hf as [<-|Hf]); try (by apply elem_of_nil in Hf);
    unfold mbind, M_bind; rewrite ?(get_fid_none _ f) by done; try done;
    match goal with |- context [get_fid ?t ?g ?s] =>
      destruct (t !! g) eqn:?; [erewrite (get_fid_some _ g) by done|rewrite (get_fid_none _ g) by done]
    end; rewrite ?(get_fid_none _ f) by done; done.
Qed.

(** ** Every interleaving *)

Definition has_inserted (t : task T) : Prop := (phase_rank (task_phase t) <= 1)%nat.

(** The new fid a task is about to insert is the one its request names. *)
Definition holds_newfid (t : task T) : Prop :=
  forall f, (exists r, task_phase t = Handled r (Some f) \/ task_phase t = Clunked r (Some f)) ->
  newfid (msg_body (task_msg t)) = Some (fid_raw f).

Definition requested (ts : list (task T)) (k : u32) : Prop :=
  exists i t, ts !! i = Some t /\ newfid (msg_body (task_msg t)) = Some k /\ has_inserted t.

Lemma requested_insert ts i t p k :
  ts !! i = Some t -> (phase_rank p <= phase_rank (task_phase t))%nat ->
  requested ts k -> requested (<[i := {| task_msg := task_msg t; task_phase := p |}]> ts) k.
Proof.
  intros Hi Hp (j & u & Hj & Hk & Hu). destruct (decide (i = j)) as [<-|Hij].
  - simplify_eq. eexists i, _. rewrite list_lookup_insert_eq by (by eapply lookup_lt_Some).
    split; [done|]. split; [done|]. unfold has_inserted in *. simpl. lia.
  - exists j, u. by rewrite list_lookup_insert_ne.
Qed.

(** How a move changes the fid table. *)
Lemma moves_fid_table ok (t : task T) d p d' frames k f :
  moves ok t d p d' frames -> fsfids d' !! k = Some f ->
  fsfids d !! k = Some f
  \/ (exists r, task_phase t = Clunked r (Some f)) /\ fid_raw f = k /\ (phase_rank p <= 1)%nat.
Proof.
  destruct 1 as [e d' Hp Hr|resp n d' Hp Hr|resp n Hp|resp n Hp|resp Hp Hr|resp Hp Hr|resp Hp Hr];
    intros Hk; auto.
  - destruct (run_handler_spec (msg_body (task_msg t)) d) as (? & ? & E & <- & _). simplify_eq. auto.
  - destruct (run_handler_spec (msg_body (task_msg t)) d) as (? & ? & E & <- & _). simplify_eq. auto.
  - left. destruct (msg_body (task_msg t)); try done. simpl in Hk. by apply lookup_delete_Some in Hk as [_ Hk].
  - destruct n as [g|]; [|by left]. simpl in Hk.
    apply lookup_insert_Some in Hk as [[<- <-]|[_ Hk]]; [right|by left]. simpl. eauto.
Qed.

Lemma moves_holds_newfid ok (t : task T) d p d' frames :
  moves ok t d p d' frames -> holds_newfid t ->
  holds_newfid {| task_msg := task_msg t; task_phase := p |}.
Proof.
  intros Hm Ht f [r Hf]. simpl in *.
  destruct Hm as [e d' Hp Hr|resp n d' Hp Hr|resp n Hp|resp n Hp|resp Hp Hr|resp Hp Hr|resp Hp Hr];
    destruct Hf as [Hf|Hf]; simplify_eq.
  - destruct (run_handler_spec (msg_body (task_msg t)) d) as (? & ? & E & _ & Hn). simplify_eq.
    by eapply make_newfid_raw, eq_sym, Hn.
  - apply Ht. eauto.
Qed.

(** C24: in every reachable state of a connection, every entry of the fid table
    is stored under its own number, and a request of this connection that
    named it as its new fid has put it there. *)
Theorem fid_table_sound filesystem frames (c : conn S T) k f :
  served_conn filesystem frames c -> fsfids (shared c) !! k = Some f ->
  fid_raw f = k /\ requested (tasks c) k.
Proof.
  intros Hr. revert k f.
  cut (Forall holds_newfid (tasks c) /\ forall k f, fsfids (shared c) !! k = Some f ->
    fid_raw f = k /\ requested (tasks c) k); [by intros [_ ?]|].
  revert c Hr. apply reachable_ind_case; [by split|].
  intros l c c' [Hh Ht] Hs.
  destruct Hs as [c Hs Hi|c e rest Hs Hi|c b e rest Hs Hi Hr|c b m rest Hs Hi Hr
    |c i ok t p d fr Hi Hm]; try done.
  - simpl. split; [apply Forall_app; split; [done|]; apply Forall_singleton; by intros ? [? [?|?]]|].
    intros k f Hk. destruct (Ht k f Hk) as (? & j & u & Hj & ?). split; [done|].
    exists j, u. by rewrite lookup_app_l by (by eapply lookup_lt_Some).
  - pose proof (Forall_lookup_1 _ _ _ _ Hh Hi) as Hti. split.
    + apply Forall_insert; [done|]. by eapply moves_holds_newfid.
    + intros k f Hk. pose proof (moves_rank _ _ _ _ _ _ Hm) as Hrank.
      destruct (moves_fid_table _ _ _ _ _ _ k f Hm Hk) as [Hold|([r Hc] & Hraw & Hp)].
      * destruct (Ht k f Hold). split; [done|]. apply requested_insert; [done|lia|done].
      * split; [done|]. eexists i, _. simpl. rewrite list_lookup_insert_eq by (by eapply lookup_lt_Some).
        split; [done|]. split; [|done]. simpl. rewrite <- Hraw. apply Hti. eauto.
Qed.

(** C2: the replies of a connection, in every reachable state: the tasks are
    the requests decoded from the frames consumed so far, in their order; what
    was sent is, in some order, one frame for each task that ended with a
    reply, carrying that request's tag; and only R-messages are sent. *)
Theorem replies_match_requests filesystem frames (c : conn S T) :
  served_conn filesystem frames c ->
  sent c ≡ₚ omap reply_frame (tasks c)
  /\ (exists bs tail, frames = (Ok <$> bs) ++ tail ++ incoming c
       /\ Forall2 (fun b t => (read_msg (R := R) (bytes_reader b)).1 = Ok (task_msg t)) bs (tasks c)
       /\ (conn_status c = Reading -> tail = []))
  /\ Forall (fun t => forall resp, task_phase t = Done (Replied resp) ->
       MsgTypes.is_r (MsgType_from resp) = true) (tasks c).
Proof.
  intros Hreach. split; [by eapply sent_perm|]. revert c Hreach. apply reachable_ind_case.
  { split; [|done]. exists [], []. by split; [|split; [constructor|]]. }
  intros l c c' ((bs & tail & Hfr & Hbs & Htail) & Hr) Hs.
  destruct Hs as [c Hs Hi|c e rest Hs Hi|c b e rest Hs Hi Hm|c b m rest Hs Hi Hm
    |c i ok t p d fr Hi Hm]; simpl; rewrite ?Hi in Hfr.
  - split; [|done]. by exists bs, tail.
  - split; [|done]. exists bs, (tail ++ [Err e]). by rewrite <- app_assoc.
  - split; [|done]. exists bs, (tail ++ [Ok b]). by rewrite <- app_assoc.
  - split.
    + exists (bs ++ [b]), []. rewrite fmap_app, <- app_assoc, Hfr, Htail by done.
      split; [done|]. split; [|done]. by apply Forall2_app; [|constructor].
    + apply Forall_app. split; [done|]. by apply Forall_singleton.
  - split.
    + exists bs, tail. split; [done|]. split; [|done].
      destruct (Forall2_lookup_r _ _ _ _ _ Hbs Hi) as (b & Hb & ?).
      rewrite <- (list_insert_id bs i b Hb). by apply Forall2_insert.
    + apply Forall_insert; [done|]. simpl. intros resp ->. by inversion Hm.
Qed.

(** No schedule runs for ever. *)
Theorem dispatch_terminates (c : conn S T) : sn served_step c.
Proof.
  apply (wf_incl _ _ (ltof _ conn_rank)); [|apply well_founded_ltof].
  intros c2 c1 [l Hl]. by apply step_cases, step_rank in Hl.
Qed.

(** ** Every request is answered *)

(** The network takes every frame. *)
Definition reliable (l : label) : Prop :=
  match l with Recv => True | Run _ sent_ok => sent_ok = true end.

(** Every response the file system gives is an R-message. *)
Definition handlers_reply : Prop := forall body (d d' : served S T) resp n,
  run_handler body d = Some (Ok (resp, n), d') -> MsgTypes.is_r (MsgType_from resp) = true.

(** The response a task carries is an R-message, and it is not lost. *)
Definition will_reply (t : task T) : Prop :=
  match task_phase t with
  | Spawned => True
  | Handled resp _ | Clunked resp _ | Responding resp | Done (Replied resp) =>
      MsgTypes.is_r (MsgType_from resp) = true
  | Done _ => False
  end.

Lemma moves_will_reply t d p d' frames :
  handlers_reply -> moves true t d p d' frames -> will_reply t ->
  will_reply {| task_msg := task_msg t; task_phase := p |}.
Proof.
  intros Hh Hm Ht. unfold will_reply in *. simpl.
  destruct Hm as [e d' Hp Hr|resp n d' Hp Hr|resp n Hp|resp n Hp|resp Hp Hr|resp Hp Hr|resp Hp Hr];
    rewrite Hp in Ht; try done; [by eapply Hh|congruence].
Qed.

Lemma will_reply_exec filesystem frames ls (c : conn S T) :
  handlers_reply ->
  exec (R := R) (W := W) ls (conn_init filesystem frames) = Some c -> Forall reliable ls ->
  Forall will_reply (tasks c).
Proof.
  intros Hh Hx Hg.
  eapply (exec_ind_case (fun c => Forall will_reply (tasks c)) reliable);
    [|exact Hx|exact Hg|constructor].
  clear -Hh. intros l c c' Hw Hl Hs.
  destruct Hs as [c Hs Hi|c e rest Hs Hi|c b e rest Hs Hi Hm|c b m rest Hs Hi Hm
    |c i ok t p d fr Hi Hm]; simpl in *; try done.
  - apply Forall_app. split; [done|]. by apply Forall_singleton.
  - subst ok. apply Forall_insert; [done|].
    eapply moves_will_reply; [done|done|]. by eapply Forall_lookup_1.
Qed.

(** C3: when nothing is left to do, the loop has returned and, if the file
    system answers with R-messages and the network took every frame, every
    request has been replied to: as many frames were sent as requests read. *)
Theorem every_request_answered filesystem frames ls (c : conn S T) :
  handlers_reply ->
  exec (R := R) (W := W) ls (conn_init filesystem frames) = Some c -> Forall reliable ls ->
  (forall l, step (R := R) (W := W) l c = None) ->
  (exists r, conn_status c = Returned r)
  /\ Forall (fun t => exists resp, task_phase t = Done (Replied resp)) (tasks c)
  /\ length (sent c) = length (tasks c).
Proof.
  intros Hh Hx Hg Hstuck.
  assert (sent c ≡ₚ omap reply_frame (tasks c)) as Hlen.
  { eapply sent_perm, exec_reachable; [apply rtc_refl|done]. }
  assert (Forall will_reply (tasks c)) as Hw by (eapply will_reply_exec; done).
  assert (Forall is_done (tasks c)) as Hd.
  { apply Forall_lookup_2. intros i t Ht. destruct (task_can_move t (shared c)) as [?|Hm]; [done|].
    destruct Hm as (p & d' & fr & Hm). specialize (Hstuck (Run i true)).
    by rewrite (proj2 (step_cases _ _ _) (case_run c i true t p d' fr Ht Hm)) in Hstuck. }
  assert (Forall (fun t => exists resp, task_phase t = Done (Replied resp)) (tasks c)) as Hall.
  { apply Forall_lookup_2. intros i t Ht. pose proof (Forall_lookup_1 _ _ _ _ Hw Ht) as Hwt.
    destruct (Forall_lookup_1 _ _ _ _ Hd Ht) as [o Ho]. unfold will_reply in Hwt.
    rewrite Ho in *. destruct o; naive_solver. }
  split; [|split; [done|]].
  - specialize (Hstuck Recv). simpl in Hstuck. unfold recv in Hstuck.
    destruct (conn_status c); [|eauto].
    destruct (incoming c) as [|[b|e] rest]; [done| |done].
    by destruct (read_msg (bytes_reader b)).1.
  - rewrite (Permutation_length Hlen). clear -Hall.
    induction Hall as [|t ts [resp Ht] _ IH]; [done|]. simpl.
    assert (is_Some (reply_frame t)) as [fr ->] by (unfold reply_frame; rewrite Ht; by eexists).
    simpl. f_equal. exact IH.
Qed.

(** ** A client that waits for each reply *)

(** The response of a task is put on the wire. *)
Definition emit (msg : Msg) (resp : Fcall) (out : list (list byte)) : list (list byte) :=
  if MsgTypes.is_r (MsgType_from resp)
  then out ++ [wire {| msg_tag := msg_tag msg; msg_body := resp |}] else out.

(** The specification: one request, served at once. *)
Definition serve (st : served S T * list (list byte)) (msg : Msg)
    : served S T * list (list byte) :=
  match dispatch_once msg st.1 with
  | Some (r, d) => (d, emit msg (response_of r) st.2)
  | None => st
  end.

(** A step with a network that works and a client that sends a request only
    when it has no other one outstanding. *)
Definition lockstep (c c' : conn S T) : Prop :=
  exists l, step (R := R) (W := W) l c = Some c'
    /\ match l with Recv => Forall is_done (tasks c) | Run _ sent_ok => sent_ok = true end.

(** What is left of a task, done at once. *)
Definition complete (st : served S T * list (list byte)) (t : task T)
    : served S T * list (list byte) :=
  let msg := task_msg t in
  match task_phase t with
  | Spawned => serve st msg
  | Handled resp n => (insert_newfid n (drop_clunked (msg_body msg) st.1), emit msg resp st.2)
  | Clunked resp n => (insert_newfid n st.1, emit msg resp st.2)
  | Responding resp => (st.1, emit msg resp st.2)
  | Done _ => st
  end.

Lemma complete_moves t d p d' frames out :
  moves true t d p d' frames ->
  complete (d', out ++ frames) {| task_msg := task_msg t; task_phase := p |} = complete (d, out) t.
Proof.
  intros Hm. unfold complete, serve, emit, dispatch_once.
  destruct Hm as [e d' Hp Hr|resp n d' Hp Hr|resp n Hp|resp n Hp|resp Hp Hr|resp Hp Hr|resp Hp Hr];
    rewrite Hp; simpl; rewrite ?Hr, ?app_nil_r; done.
Qed.

Lemma complete_done st ts : Forall is_done ts -> fold_left complete ts st = st.
Proof.
  induction 1 as [|t ts [o Ho] _ IH]; [done|]. simpl. by unfold complete at 2; rewrite Ho.
Qed.

(** At most the last task is unfinished, and finishing it gives the state of
    the specification. *)
Definition in_step (d0 : served S T) (c : conn S T) : Prop :=
  exists ts last, tasks c = ts ++ last /\ Forall is_done ts /\ (length last <= 1)%nat
    /\ fold_left complete last (shared c, sent c) = fold_left serve (map task_msg (tasks c)) (d0, []).

Lemma in_step_spawned d0 c m rest :
  in_step d0 c -> Forall is_done (tasks c) -> in_step d0 (spawned m rest c).
Proof.
  intros (ts & last & E & _ & _ & Hf) Hd. exists (tasks c), [{| task_msg := m; task_phase := Spawned |}].
  split; [done|]. split; [done|]. split; [done|]. simpl.
  rewrite complete_done in Hf by (rewrite E in Hd; by apply Forall_app in Hd as [_ ?]).
  by rewrite map_app, fold_left_app, <- Hf.
Qed.

Lemma in_step_run d0 c i t p d frames :
  tasks c !! i = Some t -> moves true t (shared c) p d frames ->
  in_step d0 c -> in_step d0 (with_task i p d frames t c).
Proof.
  intros Hi Hm (ts & last & E & Hd & Hl & Hf).
  destruct (decide (i < length ts)%nat) as [Hlt|Hge].
  { rewrite E, lookup_app_l in Hi by done.
    by destruct (moves_not_done _ _ _ _ _ _ Hm (Forall_lookup_1 _ _ _ _ Hd Hi)). }
  rewrite E, lookup_app_r in Hi by lia.
  destruct last as [|u [|? ?]]; [done| |simpl in Hl; lia].
  destruct (i - length ts)%nat as [|k] eqn:Ek; [|by destruct k]. simplify_eq/=.
  exists ts, [{| task_msg := task_msg t; task_phase := p |}]. simpl.
  rewrite E, insert_app_r_alt, Ek by lia. simpl. split; [done|]. split; [done|]. split; [done|].
  rewrite (complete_moves _ _ _ _ _ _ Hm), Hf, E, !map_app. done.
Qed.

(** C1: against the specification, for such a client: whatever the order in
    which the tasks' moves were scheduled, once they are done the file
    system, the fid table and the replies, in order, are those of
    [dispatch_once] applied to the requests one after the other. *)
Theorem lockstep_refines_serve filesystem frames (c : conn S T) :
  rtc lockstep (conn_init filesystem frames) c -> Forall is_done (tasks c) ->
  (shared c, sent c)
  = fold_left serve (map task_msg (tasks c)) ({| fs := filesystem; fsfids := ∅ |}, []).
Proof.
  intros Hr Hd.
  assert (in_step {| fs := filesystem; fsfids := ∅ |} c) as (ts & last & E & _ & _ & Hf).
  { clear Hd. revert Hr. apply rtc_ind_r.
    - exists [], []. repeat split; [constructor|simpl; lia].
    - intros c1 c2 _ (l & Hl & Hok) IH. apply step_cases in Hl.
      destruct Hl as [c1 Hs Hi|c1 e rest Hs Hi|c1 b e rest Hs Hi Hm|c1 b m rest Hs Hi Hm
        |c1 i ok t p d fr Hi Hm]; try done.
      + by apply in_step_spawned.
      + subst ok. by apply in_step_run. }
  rewrite complete_done in Hf; [done|]. rewrite E in Hd. by apply Forall_app in Hd as [_ ?].
Qed.
End Props.

(** ** Witnesses: a file system with one handler per kind of fid use *)

#[local] Existing Instance bitflags_ref.
#[local] Existing Instance from_u8_ref.
#[local] Existing Instance nix_ref.
#[local] Existing Instance bytes_ref.
#[local] Existing Instance bytes_ref_laws.

(** Its state is how many objects were made. *)
#[local] Instance toy_fs : Filesystem Z Z :=
  let provided := Filesystem_provided (fun n : Z => (n, n + 1)) in {|
  default_aux := @default_aux _ _ provided;
  rstatfs := @rstatfs _ _ provided; rlopen := @rlopen _ _ provided;
  rlcreate := @rlcreate _ _ provided; rsymlink := @rsymlink _ _ provided;
  rmknod := @rmknod _ _ provided; rrename := @rrename _ _ provided;
  rreadlink := @rreadlink _ _ provided; rgetattr := @rgetattr _ _ provided;
  rsetattr := @rsetattr _ _ provided; rxattrwalk := @rxattrwalk _ _ provided;
  rxattrcreate := @rxattrcreate _ _ provided; rreaddir := @rreaddir _ _ provided;
  rfsync := @rfsync _ _ provided; rlock := @rlock _ _ provided;
  rgetlock := @rgetlock _ _ provided; rlink := @rlink _ _ provided;
  rmkdir := @rmkdir _ _ provided; rrenameat := @rrenameat _ _ provided;
  runlinkat := @runlinkat _ _ provided; rauth := @rauth _ _ provided;
  rflush := @rflush _ _ provided; rread := @rread _ _ provided;
  rwrite := @rwrite _ _ provided; rremove := @rremove _ _ provided;
  rversion := @rversion _ _ provided;
  rattach f _ _ _ _ := mret (Rattach {| qid_typ := 0; qid_version := 0; qid_path := aux f |});
  rwalk _ _ _ := mret (Rwalk []);
  rclunk _ := mret Rclunk
|}.

Definition toy_requests : list Msg := [
  {| msg_tag := 1; msg_body := Tattach 7 NOFID "u" "/" 0 |};
  {| msg_tag := 2; msg_body := Twalk 7 8 [] |};
  {| msg_tag := 3; msg_body := Tclunk 9 |} ].

Definition toy_frames : list (result io_error (list byte)) := Ok ∘ wire <$> toy_requests.

(** One request after the other. *)
Definition toy_one (i : nat) : list label :=
  [Recv; Run i true; Run i true; Run i true; Run i true].

(** The walk is read before the attach is handled, and fails. *)
Definition toy_schedule : list label :=
  [Recv; Recv; Run 1 true; Recv; Run 0 true; Run 0 true; Run 0 true; Run 1 true; Run 2 true;
   Run 0 true; Run 2 true; Recv].

Definition toy_run (ls : list label) : option (conn Z Z) :=
  exec (R := list byte) (W := list byte) ls (conn_init 0 toy_frames).

Definition toy_table : gmap u32 (Fid Z) := <[(1 : u32) := {| fid_raw := 1; aux := 0 |}]> ∅.

Lemma dispatch_once_unknown_fid_witness :
  dispatch_once {| msg_tag := 2; msg_body := Trename 1 2 "x" |} {| fs := 5; fsfids := toy_table |}
  = Some (Err (No EBADF), {| fs := 5; fsfids := toy_table |}).
Proof.
  apply (dispatch_once_unknown_fid {| msg_tag := 2; msg_body := Trename 1 2 "x" |}
    {| fs := 5; fsfids := toy_table |} 2);
    [apply list_elem_of_In; simpl; auto | reflexivity | discriminate].
Defined.

Lemma toy_reachable ls c :
  toy_run ls = Some c ->
  reachable (R := list byte) (W := list byte) 0 toy_frames c.
Proof. intros Hx. eapply exec_reachable; [apply rtc_refl|exact Hx]. Qed.

Lemma fid_table_sound_witness :
  exists c f, toy_run toy_schedule = Some c /\ fsfids (shared c) !! (7 : u32) = Some f
    /\ fid_raw f = 7 /\ requested (tasks c) 7.
Proof.
  eexists _, _. split; [vm_compute; reflexivity|]. split; [vm_compute; reflexivity|].
  eapply (fid_table_sound 0 toy_frames);
    [eapply (toy_reachable toy_schedule); vm_compute; reflexivity | vm_compute; reflexivity].
Defined.

Lemma replies_match_requests_witness :
  exists c, toy_run toy_schedule = Some c /\ length (sent c) = 3%nat
    /\ sent c ≡ₚ omap reply_frame (tasks c).
Proof.
  eexists. split; [vm_compute; reflexivity|]. split; [reflexivity|].
  eapply (replies_match_requests 0 toy_frames), (toy_reachable toy_schedule).
  vm_compute; reflexivity.
Defined.

Lemma toy_handlers_reply : handlers_reply (S := Z) (T := Z).
Proof.
  intros body [s t] d' resp n. unfold run_handler. destruct body; cbn; unfold get_fid, mbind, M_bind;
    repeat match goal with
    | |- context [t !! ?k] => destruct (t !! k); cbn
    end; try done; intros E; by simplify_eq/=.
Qed.

Lemma every_request_answered_witness :
  exists c, toy_run toy_schedule = Some c
    /\ Forall (fun t => exists resp, task_phase t = Done (Replied resp)) (tasks c)
    /\ length (sent c) = length (tasks c).
Proof.
  eexists. split; [vm_compute; reflexivity|].
  refine (proj2 (every_request_answered 0 toy_frames toy_schedule _ toy_handlers_reply _ _ _)).
  - vm_compute. reflexivity.
  - repeat constructor.
  - intros [|[|[|[|i]]] ok]; reflexivity.
Defined.

Definition in_lockstep (l : label) (c : conn Z Z) : Prop :=
  match l with Recv => Forall is_done (tasks c) | Run _ sent_ok => sent_ok = true end.

#[local] Instance in_lockstep_dec l c : Decision (in_lockstep l c).
Proof. unfold in_lockstep. destruct l; apply _. Defined.

(** Running a schedule that keeps to the lockstep. *)
Fixpoint lockstep_exec (ls : list label) (c : conn Z Z) : option (conn Z Z) :=
  match ls with
  | [] => Some c
  | l :: ls =>
      if decide (in_lockstep l c)
      then c ← step (R := list byte) (W := list byte) l c; lockstep_exec ls c
      else None
  end.

Lemma lockstep_exec_rtc ls c c' :
  lockstep_exec ls c = Some c' -> rtc (lockstep (R := list byte) (W := list byte)) c c'.
Proof.
  revert c. induction ls as [|l ls IH]; intros c Hx; simpl in Hx; [by simplify_eq|].
  destruct (decide _) as [Hl|]; [|done]. destruct (step l c) as [c1|] eqn:E; [|done].
  eapply rtc_l; [by exists l|by apply IH].
Qed.

Lemma lockstep_refines_serve_witness :
  exists c, toy_run (toy_one 0 ++ toy_one 1 ++ [Recv; Run 2 true; Run 2 true]) = Some c
    /\ (shared c, sent c) = fold_left serve toy_requests ({| fs := 0; fsfids := ∅ |}, []).
Proof.
  eexists. split; [vm_compute; reflexivity|].
  refine (lockstep_refines_serve (R := list byte) (W := list byte) 0 toy_frames _ _ _).
  - eapply (lockstep_exec_rtc (toy_one 0 ++ toy_one 1 ++ [Recv; Run 2 true; Run 2 true])).
    vm_compute. reflexivity.
  - repeat constructor; by eexists.
Defined.
