(* ===== verification/Path.v ===== *)
(** * Paths, as std::path and OsStr::to_string_lossy handle them

    A [PathBuf] is its bytes, held in a [string]; it need not be UTF-8.
    [push] and [join] are the Unix ones: an absolute path replaces what it is
    pushed onto.  [to_string_lossy] replaces what is not UTF-8. *)

From Stdlib Require Import Ascii Strings.Byte.
From S2P Require Import Prelude Bytes Utils.

Definition PathBuf : Set := string.

Definition is_absolute (p : PathBuf) : bool :=
  match p with String "/" _ => true | _ => false end.

Fixpoint ends_with_sep (p : PathBuf) : bool :=
  match p with
  | EmptyString => false
  | String c EmptyString => bool_decide (c = "/"%char)
  | String _ p => ends_with_sep p
  end.

(** [PathBuf::push]. *)
Definition push (self : PathBuf) (path : PathBuf) : PathBuf :=
  if is_absolute path then path
  else if bool_decide (self = "") || ends_with_sep self then self +:+ path
  else self +:+ String "/" path.

(** [Path::join]. *)
Definition join (self : PathBuf) (path : PathBuf) : PathBuf := push self path.

(** ** to_string_lossy *)

(** U+FFFD. *)
Definition replacement : list byte := [xef; xbf; xbd].

(** Every maximal ill-formed part is replaced. *)
Fixpoint utf8_lossy (l : list byte) : list byte :=
  match l with
  | [] => []
  | b0 :: l1 =>
      if between 0 0x7F b0 then b0 :: utf8_lossy l1
      else if between 0xC2 0xDF b0 then
        match l1 with
        | [] => replacement
        | b1 :: l2 => if is_cont b1 then b0 :: b1 :: utf8_lossy l2 else replacement ++ utf8_lossy l1
        end
      else if between 0xE0 0xEF b0 then
        match l1 with
        | [] => replacement
        | b1 :: l2 =>
            if second3 b0 b1 then
              match l2 with
              | [] => replacement
              | b2 :: l3 =>
                  if is_cont b2 then b0 :: b1 :: b2 :: utf8_lossy l3
                  else replacement ++ utf8_lossy l2
              end
            else replacement ++ utf8_lossy l1
        end
      else if between 0xF0 0xF4 b0 then
        match l1 with
        | [] => replacement
        | b1 :: l2 =>
            if second4 b0 b1 then
              match l2 with
              | [] => replacement
              | b2 :: l3 =>
                  if is_cont b2 then
                    match l3 with
                    | [] => replacement
                    | b3 :: l4 =>
                        if is_cont b3 then b0 :: b1 :: b2 :: b3 :: utf8_lossy l4
                        else replacement ++ utf8_lossy l3
                    end
                  else replacement ++ utf8_lossy l2
              end
            else replacement ++ utf8_lossy l1
        end
      else replacement ++ utf8_lossy l1
  end.

Definition to_string_lossy (s : PathBuf) : string := str_of_bytes (utf8_lossy (as_bytes s)).

(** ** The result is UTF-8, and UTF-8 is kept *)

Lemma utf8_valid_replacement l : utf8_valid (replacement ++ l) = utf8_valid l.
Proof. by apply utf8_valid_app. Qed.

Lemma between_disjoint lo hi lo' hi' b :
  between lo hi b = true -> hi < lo' -> between lo' hi' b = false.
Proof. unfold between. lia. Qed.

Lemma utf8_lossy_valid l : utf8_valid (utf8_lossy l) = true.
Proof.
  remember (length l) as n eqn:Hn. revert l Hn. induction n as [n IH] using lt_wf_ind.
  intros l Hn. assert (forall k, (length k < n)%nat -> utf8_valid (utf8_lossy k) = true) as Hk.
  { intros k Hlt. by eapply IH. }
  clear IH. destruct l as [|b0 l1]; [done|]. simpl in Hn. cbn [utf8_lossy].
  destruct (between 0 0x7F b0) eqn:E0; [cbn [utf8_valid]; rewrite E0; apply Hk; lia|].
  destruct (between 0xC2 0xDF b0) eqn:E1.
  { destruct l1 as [|b1 l2]; [done|]. simpl in Hn. destruct (is_cont b1) eqn:E2.
    - cbn [utf8_valid]. rewrite E0, E1, E2. apply Hk. lia.
    - rewrite utf8_valid_replacement. apply Hk. simpl. lia. }
  destruct (between 0xE0 0xEF b0) eqn:E2.
  { destruct l1 as [|b1 l2]; [done|]. simpl in Hn. destruct (second3 b0 b1) eqn:E3;
      [|rewrite utf8_valid_replacement; apply Hk; simpl; lia].
    destruct l2 as [|b2 l3]; [done|]. simpl in Hn. destruct (is_cont b2) eqn:E4;
      [|rewrite utf8_valid_replacement; apply Hk; simpl; lia].
    cbn [utf8_valid]. rewrite E0, E1, E2, E3, E4. apply Hk. lia. }
  destruct (between 0xF0 0xF4 b0) eqn:E3; [|rewrite utf8_valid_replacement; apply Hk; lia].
  destruct l1 as [|b1 l2]; [done|]. simpl in Hn. destruct (second4 b0 b1) eqn:E4;
    [|rewrite utf8_valid_replacement; apply Hk; simpl; lia].
  destruct l2 as [|b2 l3]; [done|]. simpl in Hn. destruct (is_cont b2) eqn:E5;
    [|rewrite utf8_valid_replacement; apply Hk; simpl; lia].
  destruct l3 as [|b3 l4]; [done|]. simpl in Hn. destruct (is_cont b3) eqn:E6;
    [|rewrite utf8_valid_replacement; apply Hk; simpl; lia].
  cbn [utf8_valid]. rewrite E0, E1, E2, E3, E4, E5, E6. apply Hk. lia.
Qed.

Lemma to_string_lossy_wf s : str_wf (to_string_lossy s).
Proof. unfold str_wf, to_string_lossy. rewrite as_bytes_of_bytes. apply utf8_lossy_valid. Qed.

Lemma utf8_lossy_id l : utf8_valid l = true -> utf8_lossy l = l.
Proof.
  remember (length l) as n eqn:Hn. revert l Hn. induction n as [n IH] using lt_wf_ind.
  intros l Hn. assert (forall k, (length k < n)%nat -> utf8_valid k = true -> utf8_lossy k = k) as Hk.
  { intros k Hlt. by eapply IH. }
  clear IH. destruct l as [|b0 l1]; [done|]. simpl in Hn. cbn [utf8_lossy utf8_valid].
  destruct (between 0 0x7F b0) eqn:E0; [intros H; f_equal; apply Hk; [lia|done]|].
  destruct l1 as [|b1 l2]; [done|]. simpl in Hn.
  destruct (between 0xC2 0xDF b0) eqn:E1.
  { intros [-> H]%andb_prop. do 2 f_equal. apply Hk; [lia|done]. }
  destruct l2 as [|b2 l3]; [done|]. simpl in Hn.
  destruct (between 0xE0 0xEF b0) eqn:E2.
  { intros [[-> ->]%andb_prop H]%andb_prop. do 3 f_equal. apply Hk; [lia|done]. }
  destruct l3 as [|b3 l4]; [done|]. simpl in Hn.
  intros [[[[-> ->]%andb_prop ->]%andb_prop ->]%andb_prop H]%andb_prop.
  do 4 f_equal. apply Hk; [lia|done].
Qed.

Lemma to_string_lossy_id s : str_wf s -> to_string_lossy s = s.
Proof.
  unfold str_wf, to_string_lossy. intros H. by rewrite utf8_lossy_id, str_of_bytes_as_bytes.
Qed.

(** ** Paths below a root *)

(** A name that stays in its directory. *)
Definition plain (name : string) : bool :=
  negb (bool_decide (name = "")) && negb (bool_decide (name = ".."))
  && negb (has_char "/" name).

(** [root] and then plain names. *)
Definition under (root p : PathBuf) : Prop :=
  exists names, Forall (fun n => plain n) names /\ p = fold_left push names root.

Lemma under_root root : under root root.
Proof. by exists []. Qed.

Lemma under_push root p name : under root p -> plain name -> under root (push p name).
Proof.
  intros (names & Hn & ->) Hp. exists (names ++ [name]).
  rewrite fold_left_app. split; [|done]. apply Forall_app. by rewrite Forall_singleton.
Qed.

Lemma under_walk root p names :
  under root p -> Forall (fun n => plain n) names -> under root (fold_left push names p).
Proof.
  intros Hp Hn. revert p Hp. induction Hn; intros p Hp; [done|]. simpl. auto using under_push.
Qed.

Lemma plain_relative name : plain name -> is_absolute name = false.
Proof.
  unfold plain. destruct name as [|c s]; [done|]. simpl.
  destruct (decide (c = "/"%char)) as [->|Hc]; [by rewrite ?andb_false_r|].
  intros _. destruct c as [[] [] [] [] [] [] [] []]; done.
Qed.

Lemma ends_with_sep_app p q : q <> "" -> ends_with_sep (p +:+ q) = ends_with_sep q.
Proof.
  intros Hq. induction p as [|c p IH]; [done|].
  change (String c p +:+ q) with (String c (p +:+ q)). simpl. rewrite <- IH.
  destruct p as [|d p]; [|done]. simpl. by destruct q.
Qed.

Lemma plain_ends name : plain name -> ends_with_sep name = false.
Proof.
  intros [[_ _]%andb_prop_elim Hs]%andb_prop_elim. apply negb_prop_elim in Hs.
  induction name as [|c s IH]; [done|]. simpl in *. destruct s as [|d s].
  - destruct (bool_decide (c = "/"%char)); [|done]. by destruct Hs.
  - apply IH. intros H. apply Hs. by destruct (bool_decide _).
Qed.

(** What [under] means, as text: the root, and the names behind separators. *)
Lemma under_text root names :
  root <> "" -> ends_with_sep root = false -> Forall (fun n => plain n) names ->
  fold_left push names root = join_char "/" (root :: names).
Proof.
  intros Hr Hs Hn. revert root Hr Hs. induction Hn as [|n ns Hp _ IH]; intros root Hr Hs; [done|].
  simpl. unfold push at 2. rewrite plain_relative by done.
  rewrite Hs, bool_decide_eq_false_2 by done. simpl.
  assert (n <> "") as Hne by (intros ->; done).
  rewrite IH.
  - destruct ns as [|m ns]; [done|].
    change (join_char "/" ((root +:+ String "/" n) :: m :: ns))
      with ((root +:+ String "/" n) +:+ String "/" (join_char "/" (m :: ns))).
    rewrite <- str_app_assoc. done.
  - destruct root; done.
  - change (String "/" n) with ("/" +:+ n). rewrite ends_with_sep_app by done.
    rewrite ends_with_sep_app by done. by apply plain_ends.
Qed.
