(* ===== verification/Unpfs.v ===== *)
(** * The file server (crates/9p/src/unpfs.rs, unpfs/utils.rs)

    [Unpfs] serves a directory of the machine it runs on.  The operating
    system is a parameter: [OsCalls] lists the calls the code makes, on a state [O]
    of the machine; each handler is the sequence of calls its source makes, in
    that order, stopping at the first error.

    The objects behind the fids ([UnpfsFid], reached through [&Fid]) live in a
    heap and the [aux] of a fid is its address there, so that a handler's
    change to one is seen by every later use of the fid. *)

From S2P Require Import Prelude Bytes Io Error Fcall Serialize Srv Path.

(** ** The operating system

    [F] is an open file, [D] an entry of a directory stream, [FT] a time of
    the filetime crate.  Looking up a file's attributes changes nothing; every
    other call may change the machine's state, also when it fails. *)
Class OsCalls (O F D FT : Type) := {
  symlink_metadata : PathBuf -> O -> result io_error Metadata;
  metadata : PathBuf -> O -> result io_error Metadata;
  set_permissions : PathBuf -> u32 -> M O io_error unit;
  chown : PathBuf -> option u32 -> option u32 -> M O Errno unit;
  (** [OpenOptions::new().write(true).create(false).open(path)] *)
  open_for_write : PathBuf -> M O io_error F;
  set_len : F -> u64 -> M O io_error unit;
  from_unix_time : i64 -> u32 -> FT;
  from_last_access_time : Metadata -> FT;
  from_last_modification_time : Metadata -> FT;
  set_file_times : PathBuf -> FT -> FT -> M O io_error unit;
  read_link : PathBuf -> M O io_error PathBuf;
  (** The directory stream, with the errors it yields. *)
  read_dir : PathBuf -> M O io_error (list (result io_error D));
  entry_metadata : D -> O -> result io_error Metadata;
  file_name : D -> PathBuf;
  (** [nix::fcntl::open] and [File::from_raw_fd]. *)
  nix_open : PathBuf -> i32 -> u32 -> M O Errno F;
  oflag_all : Z;
  mode_all : Z;
  seek : F -> u64 -> M O io_error unit;
  (** [read] into a buffer: the count, and the buffer afterwards. *)
  read : F -> list byte -> M O io_error (nat * list byte);
  write : F -> list byte -> M O io_error usize;
  sync_all : F -> M O io_error unit;
  create_dir : PathBuf -> M O io_error unit;
  rename : PathBuf -> PathBuf -> M O io_error unit;
  remove_dir : PathBuf -> M O io_error unit;
  remove_file : PathBuf -> M O io_error unit;
  statvfs : PathBuf -> M O Errno Statvfs;
  (** What an allocation of that many bytes holds before it is written. *)
  uninit : nat -> list byte
}.

(** The documented behaviour the properties rely on: a read overwrites the
    start of its buffer and says how much of it. *)
Class OsLaws (O F D FT : Type) `{OsCalls O F D FT} : Prop := {
  uninit_length : forall n, length (uninit n) = n;
  read_law : forall (f : F) buf o n buf' o', read f buf o = (Ok (n, buf'), o') ->
    exists bs, length bs = n /\ (n <= length buf)%nat /\ buf' = bs ++ drop n buf;
  (** what it reads does not depend on what the buffer held *)
  read_oblivious : forall (f : F) buf buf2 o, length buf = length buf2 ->
    match read f buf o, read f buf2 o with
    | (Ok (n, b), o1), (Ok (n2, b2), o2) => n = n2 /\ take n b = take n b2 /\ o1 = o2
    | (Err e, o1), (Err e2, o2) => e = e2 /\ o1 = o2
    | _, _ => False
    end
}.

Definition O_RDONLY : i32 := 0.
Definition O_WRONLY : i32 := 1.
Definition O_RDWR : i32 := 2.
Definition O_CREAT : i32 := 0x40.
Definition O_TRUNC : i32 := 0x200.

Definition UNIX_FLAGS : u32 :=
  wrap 32 (Z.lor O_WRONLY (Z.lor O_RDONLY (Z.lor O_RDWR (Z.lor O_CREAT O_TRUNC)))).

(** [as i64], of a u64. *)
Definition as_i64 (z : u64) : i64 := if z <? 2 ^ 63 then z else z - 2 ^ 64.
(** [as i32], of a u32. *)
Definition as_i32 (z : u32) : i32 := if z <? 2 ^ 31 then z else z - 2 ^ 32.

Record Unpfs : Set := { realroot : PathBuf }.

Section Unpfs.
Context {O F D FT : Type} `{OS : OsCalls O F D FT} `{BF : Bitflags}.

Record UnpfsFid := { realpath : PathBuf; file : option F }.

(** [#[derive(Default)]] *)
Definition UnpfsFid_default : UnpfsFid := {| realpath := ""; file := None |}.

(** The machine, and the objects made so far. *)
Record state := { os : O; heap : list UnpfsFid }.

Abbreviation handler := (M state Error).

(** [Self::Fid::default()] *)
Definition new_aux (s : state) : nat * state :=
  (length (heap s), {| os := os s; heap := heap s ++ [UnpfsFid_default] |}).

Definition object (fid : Fid nat) (s : state) : UnpfsFid :=
  default UnpfsFid_default (heap s !! aux fid).

Definition set_object (fid : Fid nat) (o : UnpfsFid) (s : state) : state :=
  {| os := os s; heap := <[aux fid := o]> (heap s) |}.

(** [fid.aux.realpath.read().await], and [.write()]. *)
Definition get_realpath (fid : Fid nat) : handler PathBuf := fun s =>
  (Ok (realpath (object fid s)), s).

Definition set_realpath (fid : Fid nat) (p : PathBuf) : handler unit := fun s =>
  (Ok tt, set_object fid {| realpath := p; file := file (object fid s) |} s).

(** [fid.aux.file.lock().await], and the assignment through it. *)
Definition get_file (fid : Fid nat) : handler (option F) := fun s => (Ok (file (object fid s)), s).

Definition set_file (fid : Fid nat) (f : option F) : handler unit := fun s =>
  (Ok tt, set_object fid {| realpath := realpath (object fid s); file := f |} s).

(** A call of the operating system; [?] converts its error. *)
Definition call {E A} (conv : E -> Error) (m : M O E A) : handler A := fun s =>
  match m (os s) with
  | (Ok a, o) => (Ok a, {| os := o; heap := heap s |})
  | (Err e, o) => (Err (conv e), {| os := o; heap := heap s |})
  end.

Abbreviation io := (call Error_from_io).
Abbreviation nix := (call Error_from_nix).

(** One that only looks. *)
Definition look {A} (m : O -> result io_error A) : M O io_error A := fun o => (m o, o).

(** A call whose result is dropped. *)
Definition ignore {A} (m : handler A) : handler unit := fun s => (Ok tt, (m s).2).

(** ** unpfs/utils.rs *)

Definition INVALID_FID : io_error := Simple InvalidInput "Invalid fid".

Definition create_buffer (size : nat) : list byte := uninit size.

Definition qid_from_attr (attr : Metadata) : Qid := {|
  qid_typ := QidType_from_file_type (md_file_type attr);
  qid_version := 0;
  qid_path := md_ino attr
|}.

Definition get_qid (path : PathBuf) : handler Qid :=
  attr ← io (look (symlink_metadata path)); mret (qid_from_attr attr).

Definition get_dirent_from (p : PathBuf) (offset : u64) : handler DirEntry :=
  qid ← get_qid p;
  mret {| dirent_qid := qid; dirent_offset := offset; dirent_typ := 0;
          dirent_name := to_string_lossy p |}.

Definition get_dirent (entry : D) (offset : u64) : handler DirEntry :=
  attr ← io (look (entry_metadata entry));
  mret {| dirent_qid := qid_from_attr attr; dirent_offset := offset; dirent_typ := 0;
          dirent_name := to_string_lossy (file_name entry) |}.

(** ** The handlers *)

Definition unpfs_rattach (self : Unpfs) (fid : Fid nat) (_ : option (Fid nat))
    (_ _ : string) (_ : u32) : handler Fcall :=
  _ ← set_realpath fid (realroot self);
  qid ← get_qid (realroot self);
  mret (Rattach qid).

(** [match get_qid(&path).await]: the error is a value here. *)
Definition try_ {A} (m : handler A) : handler (result Error A) := fun s =>
  let '(r, s) := m s in (Ok r, s).

(** The [for] loop of [rwalk], at index [i] with the path so far and the qids
    found. *)
Fixpoint walk_loop (i : nat) (path : PathBuf) (wqids : list Qid) (wnames : list string)
    : handler (PathBuf * list Qid) :=
  match wnames with
  | [] => mret (path, wqids)
  | name :: wnames =>
      let path := push path name in
      r ← try_ (get_qid path);
      match r with
      | Ok qid => walk_loop (S i) path (wqids ++ [qid]) wnames
      | Err e => if (i =? 0)%nat then throw e else mret (path, wqids)
      end
  end.

Definition unpfs_rwalk (fid newfid : Fid nat) (wnames : list string) : handler Fcall :=
  path ← get_realpath fid;
  '(path, wqids) ← walk_loop 0 path [] wnames;
  _ ← set_realpath newfid path;
  mret (Rwalk wqids).

Definition unpfs_rgetattr (fid : Fid nat) (req_mask : GetattrMask) : handler Fcall :=
  path ← get_realpath fid;
  attr ← io (look (symlink_metadata path));
  mret (Rgetattr req_mask (qid_from_attr attr) (Stat_from_metadata attr)).

(** [if c { .. }] *)
Definition when (c : bool) (m : handler unit) : handler unit := if c then m else mret tt.

Definition unpfs_rsetattr (fid : Fid nat) (valid : SetattrMask) (stat : SetAttr) : handler Fcall :=
  filepath ← get_realpath fid;
  _ ← when (contains valid SetattrMasks.MODE) (io (set_permissions filepath (setattr_mode stat)));
  _ ← when (intersects valid (Z.lor SetattrMasks.UID SetattrMasks.GID))
    (nix (chown filepath
      (if contains valid SetattrMasks.UID then Some (setattr_uid stat) else None)
      (if contains valid SetattrMasks.GID then Some (setattr_gid stat) else None)));
  _ ← when (contains valid SetattrMasks.SIZE)
    (f ← io (open_for_write filepath); io (set_len f (setattr_size stat)));
  _ ← when (intersects valid (Z.lor SetattrMasks.ATIME_SET SetattrMasks.MTIME_SET))
    (attr ← io (look (metadata filepath));
     let atime :=
       if contains valid SetattrMasks.ATIME_SET
       then from_unix_time (as_i64 (sec (setattr_atime stat))) (wrap 32 (nsec (setattr_atime stat)))
       else from_last_access_time attr in
     let mtime :=
       if contains valid SetattrMasks.MTIME_SET
       then from_unix_time (as_i64 (sec (setattr_mtime stat))) (wrap 32 (nsec (setattr_mtime stat)))
       else from_last_modification_time attr in
     ignore (io (set_file_times filepath atime mtime)));
  mret Rsetattr.

Definition unpfs_rreadlink (fid : Fid nat) : handler Fcall :=
  path ← get_realpath fid;
  link ← io (read_link path);
  mret (Rreadlink (to_string_lossy link)).

(** The [while let] loop of [rreaddir]. *)
Fixpoint readdir_loop (i : usize) (count : u32) (dirents : DirEntryData)
    (entries : list (result io_error D)) : handler DirEntryData :=
  match entries with
  | [] => mret dirents
  | entry :: entries =>
      entry ← (fun s => (match entry with Ok d => Ok d | Err e => Err (Error_from_io e) end, s));
      dirent ← get_dirent entry (wrap 64 (2 + i));
      if count <? wrap 32 (DirEntryData_size dirents + DirEntry_size dirent) then mret dirents
      else readdir_loop (i + 1) count (DirEntryData_push dirents dirent) entries
  end.

Definition unpfs_rreaddir (fid : Fid nat) (off : u64) (count : u32) : handler Fcall :=
  let dirents := DirEntryData_new in
  '(dirents, offset) ← (
    if off =? 0 then
      dot ← get_dirent_from "." 0;
      dotdot ← get_dirent_from ".." 1;
      mret (DirEntryData_push (DirEntryData_push dirents dot) dotdot, off)
    else mret (dirents, off - 1));
  path ← get_realpath fid;
  entries ← io (read_dir path);
  dirents ← readdir_loop offset count dirents (drop (Z.to_nat offset) entries);
  mret (Rreaddir dirents).

Definition open_flags (flags : u32) : i32 :=
  from_bits_truncate oflag_all (as_i32 (Z.land flags UNIX_FLAGS)).

Definition unpfs_rlopen (fid : Fid nat) (flags : u32) : handler Fcall :=
  path ← get_realpath fid;
  qid ← get_qid path;
  _ ← when (negb (contains (qid_typ qid) QidTypes.DIR))
    (fd ← nix (nix_open path (open_flags flags) (from_bits_truncate mode_all 0));
     set_file fid (Some fd));
  mret (Rlopen qid 0).

Definition unpfs_rlcreate (fid : Fid nat) (name : string) (flags mode _gid : u32) : handler Fcall :=
  dir ← get_realpath fid;
  let path := join dir name in
  fd ← nix (nix_open path (open_flags flags) (from_bits_truncate mode_all mode));
  qid ← get_qid path;
  _ ← set_realpath fid path;
  _ ← set_file fid (Some fd);
  mret (Rlcreate qid 0).

(** [file.as_mut().ok_or_else(|| INVALID_FID!())?] *)
Definition get_open_file (fid : Fid nat) : handler F :=
  f ← get_file fid; ok_or f (Error_from_io INVALID_FID).

Definition unpfs_rread (fid : Fid nat) (offset : u64) (count : u32) : handler Fcall :=
  f ← get_open_file fid;
  _ ← io (seek f offset);
  '(bytes, buf) ← io (read f (create_buffer (Z.to_nat count)));
  mret (Rread {| data_bytes := take bytes buf |}).

Definition unpfs_rwrite (fid : Fid nat) (offset : u64) (data : Data) : handler Fcall :=
  f ← get_open_file fid;
  _ ← io (seek f offset);
  count ← io (write f (data_bytes data));
  mret (Rwrite (wrap 32 count)).

Definition unpfs_rmkdir (dfid : Fid nat) (name : string) (_mode _gid : u32) : handler Fcall :=
  dir ← get_realpath dfid;
  let path := join dir name in
  _ ← io (create_dir path);
  qid ← get_qid path;
  mret (Rmkdir qid).

Definition unpfs_rrenameat (olddir : Fid nat) (oldname : string) (newdir : Fid nat)
    (newname : string) : handler Fcall :=
  old ← get_realpath olddir;
  new ← get_realpath newdir;
  _ ← io (rename (join old oldname) (join new newname));
  mret Rrenameat.

Definition unpfs_runlinkat (dirfid : Fid nat) (name : string) (_flags : u32) : handler Fcall :=
  dir ← get_realpath dirfid;
  let path := join dir name in
  attr ← io (look (symlink_metadata path));
  _ ← (if is_dir (md_file_type attr) then io (remove_dir path) else io (remove_file path));
  mret Runlinkat.

Definition unpfs_rfsync (fid : Fid nat) : handler Fcall :=
  f ← get_open_file fid;
  _ ← io (sync_all f);
  mret Rfsync.

Definition unpfs_rclunk (_ : Fid nat) : handler Fcall := mret Rclunk.

Definition unpfs_rstatfs (fid : Fid nat) : handler Fcall :=
  path ← get_realpath fid;
  fs ← nix (statvfs path);
  mret (Rstatfs (Statfs_from_statvfs fs)).

(** [impl Filesystem for Unpfs]; the methods it does not define are the
    provided ones. *)
Definition Unpfs_Filesystem (self : Unpfs) : Filesystem state nat :=
  let provided := Filesystem_provided new_aux in {|
  default_aux := new_aux;
  rattach := unpfs_rattach self;
  rwalk := unpfs_rwalk;
  rgetattr := unpfs_rgetattr;
  rsetattr := unpfs_rsetattr;
  rreadlink := unpfs_rreadlink;
  rreaddir := unpfs_rreaddir;
  rlopen := unpfs_rlopen;
  rlcreate := unpfs_rlcreate;
  rread := unpfs_rread;
  rwrite := unpfs_rwrite;
  rmkdir := unpfs_rmkdir;
  rrenameat := unpfs_rrenameat;
  runlinkat := unpfs_runlinkat;
  rfsync := unpfs_rfsync;
  rclunk := unpfs_rclunk;
  rstatfs := unpfs_rstatfs;
  rsymlink := @rsymlink _ _ provided;
  rmknod := @rmknod _ _ provided;
  rrename := @rrename _ _ provided;
  rxattrwalk := @rxattrwalk _ _ provided;
  rxattrcreate := @rxattrcreate _ _ provided;
  rlock := @rlock _ _ provided;
  rgetlock := @rgetlock _ _ provided;
  rlink := @rlink _ _ provided;
  rauth := @rauth _ _ provided;
  rflush := @rflush _ _ provided;
  rremove := @rremove _ _ provided;
  rversion := @rversion _ _ provided
|}.
End Unpfs.
Arguments UnpfsFid : clear implicits.
Arguments state : clear implicits.
