(* ===== verification/UnpfsFacts.v ===== *)
(** * Lemmas about the file server's handlers

    What a handler may change ([touches], [keeps_paths]), what it answers
    ([answers]), each proved for the building blocks and composed; the walk
    and the directory page as functions of the machine's state. *)

From S2P Require Import Prelude Bytes Io Error Fcall Serialize Srv Path Unpfs EncodeFacts Wire.

Section Facts.
Context {O F D FT : Type} `{OS : OsCalls O F D FT} `{BF : Bitflags}.

Abbreviation st := (state O F).
Abbreviation handler := (M st Error).

(** ** What a computation changes *)

(** Only the objects at the addresses in [P] may change; none is made. *)
Definition touches {A} (P : nat -> Prop) (m : handler A) : Prop := forall s,
  length (heap (m s).2) = length (heap s)
  /\ forall h, ~ P h -> heap (m s).2 !! h = heap s !! h.

Definition nothing : nat -> Prop := fun _ => False.
Definition only (fid : Fid nat) : nat -> Prop := fun h => h = aux fid.

Lemma touches_bind {A B} P (m : handler A) (k : A -> handler B) :
  touches P m -> (forall a, touches P (k a)) -> touches P (m ≫= k).
Proof.
  intros Hm Hk s. destruct (Hm s) as [L1 H1]. unfold mbind, M_bind.
  destruct (m s) as [[a|e] s1]; [|done]. simpl in *. destruct (Hk a s1) as [L2 H2].
  split; [congruence|]. intros h Hh. rewrite H2, H1; done.
Qed.

Lemma touches_ret {A} P (a : A) : touches P (mret a).
Proof. by intros s. Qed.

Lemma touches_throw {A} P (e : Error) : touches (A := A) P (throw e).
Proof. by intros s. Qed.

Lemma touches_ok_or {A} P (o : option A) (e : Error) : touches P (ok_or o e).
Proof. destruct o; [apply touches_ret|apply touches_throw]. Qed.

Lemma touches_call {E A} P conv (m : M O E A) : touches P (call (F := F) conv m).
Proof. intros s. unfold call. by destruct (m (os s)) as [[?|?] ?]. Qed.

Lemma touches_when P c (m : handler unit) : touches P m -> touches P (when c m).
Proof. destruct c; [done|]. intros _. apply touches_ret. Qed.

Lemma touches_ignore {A} P (m : handler A) : touches P m -> touches P (ignore m).
Proof. intros Hm s. apply (Hm s). Qed.

Lemma touches_try {A} P (m : handler A) : touches P m -> touches P (try_ m).
Proof. intros Hm s. specialize (Hm s). unfold try_. by destruct (m s). Qed.

Lemma touches_get_realpath P fid : touches P (get_realpath (F := F) (O := O) fid).
Proof. by intros s. Qed.

Lemma touches_get_file P fid : touches P (get_file (F := F) (O := O) fid).
Proof. by intros s. Qed.

Lemma touches_set fid (o : UnpfsFid F) (s : st) :
  length (heap (set_object fid o s)) = length (heap s)
  /\ forall h, ~ only fid h -> heap (set_object fid o s) !! h = heap s !! h.
Proof.
  split; [apply length_insert|]. intros h Hh. simpl. apply list_lookup_insert_ne.
  intros E. by apply Hh, eq_sym.
Qed.

Lemma touches_set_realpath fid p : touches (only fid) (set_realpath (F := F) (O := O) fid p).
Proof. intros s. apply touches_set. Qed.

Lemma touches_set_file fid f : touches (only fid) (set_file (F := F) (O := O) fid f).
Proof. intros s. apply touches_set. Qed.

Lemma touches_mono {A} (P Q : nat -> Prop) (m : handler A) :
  (forall h, P h -> Q h) -> touches P m -> touches Q m.
Proof. intros HPQ Hm s. destruct (Hm s) as [L H]. split; [done|]. intros h Hh. apply H. auto. Qed.

(** The paths of the objects stay as they are. *)
Definition keeps_paths {A} (m : handler A) : Prop := forall s h,
  realpath <$> heap (m s).2 !! h = realpath <$> heap s !! h.

Lemma touches_nothing_paths {A} (m : handler A) : touches nothing m -> keeps_paths m.
Proof. intros Hm s h. rewrite (proj2 (Hm s) h); [done|by intros []]. Qed.

Lemma keeps_bind {A B} (m : handler A) (k : A -> handler B) :
  keeps_paths m -> (forall a, keeps_paths (k a)) -> keeps_paths (m ≫= k).
Proof.
  intros Hm Hk s h. specialize (Hm s h). unfold mbind, M_bind.
  destruct (m s) as [[a|e] s1]; [|done]. by rewrite Hk.
Qed.

Lemma keeps_when c (m : handler unit) : keeps_paths m -> keeps_paths (when c m).
Proof. by destruct c. Qed.

Lemma keeps_set_file fid f : keeps_paths (set_file (F := F) (O := O) fid f).
Proof.
  intros s h. simpl. unfold object. destruct (decide (aux fid = h)) as [<-|Hh].
  - destruct (heap s !! aux fid) as [o|] eqn:Eo.
    + by rewrite list_lookup_insert_eq by (by eapply lookup_lt_Some).
    + by rewrite list_insert_ge, Eo by (by apply lookup_ge_None).
  - by rewrite list_lookup_insert_ne.
Qed.

(** ** The handlers that change no object *)

(** [frame] follows the structure of a handler; [frame_helper] is extended with
    the lemmas of the helpers as they are proved. *)
Ltac frame_helper := fail.
Ltac frame := intros; lazymatch goal with
  | |- touches _ (mbind _ _) => apply touches_bind; frame
  | |- touches _ (mret _) => apply touches_ret
  | |- touches _ (throw _) => apply touches_throw
  | |- touches _ (ok_or _ _) => apply touches_ok_or
  | |- touches _ (call _ _) => apply touches_call
  | |- touches _ (when _ _) => apply touches_when; frame
  | |- touches _ (ignore _) => apply touches_ignore; frame
  | |- touches _ (try_ _) => apply touches_try; frame
  | |- touches _ (get_realpath _) => apply touches_get_realpath
  | |- touches _ (get_file _) => apply touches_get_file
  | |- touches _ (match _ with _ => _ end) => case_match; frame
  | |- _ => try frame_helper
  end.

Lemma touches_get_qid P p : touches P (get_qid (F := F) p).
Proof. unfold get_qid. frame. Qed.

Ltac frame_helper ::= apply touches_get_qid.

Lemma touches_get_open_file P fid : touches P (get_open_file (F := F) (O := O) fid).
Proof. unfold get_open_file. frame. Qed.

Ltac frame_helper ::= first [apply touches_get_qid | apply touches_get_open_file].

Lemma touches_readdir_loop P i count ds entries :
  touches P (readdir_loop (F := F) i count ds entries).
Proof.
  revert i ds. induction entries as [|e es IH]; intros i ds; simpl; [apply touches_ret|].
  apply touches_bind; [by intros s|]. intros d. apply touches_bind; [unfold get_dirent; frame|].
  intros dirent. destruct (count <? _); [apply touches_ret|apply IH].
Qed.


Lemma touches_walk_loop P i path wqids wnames :
  touches P (walk_loop (F := F) i path wqids wnames).
Proof.
  revert i path wqids. induction wnames as [|n ns IH]; intros i path wqids; simpl; frame. apply IH.
Qed.

Ltac frame_helper ::= first [apply touches_get_qid | apply touches_get_open_file
  | apply touches_readdir_loop | apply touches_walk_loop].

Lemma touches_rgetattr fid m : touches nothing (unpfs_rgetattr fid m).
Proof. unfold unpfs_rgetattr. frame. Qed.
Lemma touches_rsetattr fid v a : touches nothing (unpfs_rsetattr fid v a).
Proof. unfold unpfs_rsetattr. frame. Qed.
Lemma touches_rreadlink fid : touches nothing (unpfs_rreadlink fid).
Proof. unfold unpfs_rreadlink. frame. Qed.
Lemma touches_rreaddir fid off count : touches nothing (unpfs_rreaddir fid off count).
Proof. unfold unpfs_rreaddir, get_dirent_from. frame. Qed.
Lemma touches_rread fid off count : touches nothing (unpfs_rread fid off count).
Proof. unfold unpfs_rread. frame. Qed.
Lemma touches_rwrite fid off data : touches nothing (unpfs_rwrite fid off data).
Proof. unfold unpfs_rwrite. frame. Qed.
Lemma touches_rmkdir fid name m g : touches nothing (unpfs_rmkdir fid name m g).
Proof. unfold unpfs_rmkdir. frame. Qed.
Lemma touches_rrenameat fid n fid' n' : touches nothing (unpfs_rrenameat fid n fid' n').
Proof. unfold unpfs_rrenameat. frame. Qed.
Lemma touches_runlinkat fid n fl : touches nothing (unpfs_runlinkat fid n fl).
Proof. unfold unpfs_runlinkat. frame. Qed.
Lemma touches_rfsync fid : touches nothing (unpfs_rfsync fid).
Proof. unfold unpfs_rfsync. frame. Qed.
Lemma touches_rstatfs fid : touches nothing (unpfs_rstatfs fid).
Proof. unfold unpfs_rstatfs. frame. Qed.

Lemma touches_rlopen fid flags : touches (only fid) (unpfs_rlopen fid flags).
Proof. unfold unpfs_rlopen. frame. apply touches_set_file. Qed.
Lemma touches_rlcreate fid n f m g : touches (only fid) (unpfs_rlcreate fid n f m g).
Proof. unfold unpfs_rlcreate. frame; [apply touches_set_realpath|apply touches_set_file]. Qed.
Lemma touches_rattach self fid a u n i : touches (only fid) (unpfs_rattach self fid a u n i).
Proof. unfold unpfs_rattach. frame. apply touches_set_realpath. Qed.
Lemma touches_rwalk fid newfid ns : touches (only newfid) (unpfs_rwalk fid newfid ns).
Proof. unfold unpfs_rwalk. frame. apply touches_set_realpath. Qed.

Lemma keeps_rlopen fid flags : keeps_paths (unpfs_rlopen fid flags).
Proof.
  unfold unpfs_rlopen. apply keeps_bind; [by intros s h|]. intros p.
  apply keeps_bind; [apply touches_nothing_paths, touches_get_qid|]. intros q.
  apply keeps_bind; [|by intros a s h]. apply keeps_when.
  apply keeps_bind; [apply touches_nothing_paths, touches_call|]. intros fd. apply keeps_set_file.
Qed.

(** ** What the handlers read, as functions of the machine's state *)

Definition qid_at (p : PathBuf) (o : O) : result Error Qid :=
  match symlink_metadata p o with
  | Ok attr => Ok (qid_from_attr attr)
  | Err e => Err (Error_from_io e)
  end.

Lemma state_eta (s : st) : {| os := os s; heap := heap s |} = s.
Proof. by destruct s. Qed.

Lemma get_qid_run p (s : st) : get_qid p s = (qid_at p (os s), s).
Proof.
  unfold get_qid, qid_at, mbind, M_bind, call, look.
  destruct (symlink_metadata p (os s)); by rewrite state_eta.
Qed.

(** The qids of the leading names that resolve. *)
Fixpoint walk_qids (o : O) (p : PathBuf) (names : list string) : list Qid :=
  match names with
  | [] => []
  | n :: ns =>
      match qid_at (push p n) o with
      | Ok q => q :: walk_qids o (push p n) ns
      | Err _ => []
      end
  end.

Lemma walk_loop_run i p qs names (s : st) :
  walk_loop (F := F) i p qs names s
  = match names with
    | n :: _ =>
        match qid_at (push p n) (os s) with
        | Err e => if (i =? 0)%nat then (Err e, s) else (Ok (push p n, qs), s)
        | Ok _ =>
            (Ok (fold_left push (take (S (length (walk_qids (os s) p names))) names) p,
              qs ++ walk_qids (os s) p names), s)
        end
    | [] => (Ok (p, qs), s)
    end.
Proof.
  revert i p qs. induction names as [|n ns IH]; intros i p qs; [done|].
  cbn [walk_loop walk_qids]. unfold mbind, M_bind, try_. rewrite get_qid_run.
  destruct (qid_at (push p n) (os s)) as [q|e]; [|by destruct i].
  rewrite IH. destruct ns as [|n' ns]; [done|]. cbn [walk_qids].
  destruct (qid_at (push (push p n) n') (os s)) as [q'|e]; cbn [length take fold_left Nat.eqb].
  - by rewrite <- app_assoc.
  - done.
Qed.

(** A walk whose first name resolves. *)
Lemma rwalk_found fid newfid wnames (s : st) :
  let qids := walk_qids (os s) (realpath (object fid s)) wnames in
  qids <> [] ->
  unpfs_rwalk fid newfid wnames s
  = (Ok (Rwalk qids), set_object newfid
      {| realpath := fold_left push (take (S (length qids)) wnames) (realpath (object fid s));
         file := file (object newfid s) |} s).
Proof.
  intros qids Hne. unfold unpfs_rwalk, get_realpath, mbind, M_bind. rewrite walk_loop_run.
  destruct wnames as [|n ns]; [done|]. subst qids. cbn [walk_qids] in *.
  by destruct (qid_at (push (realpath (object fid s)) n) (os s)).
Qed.

Lemma object_set fid o (s : st) :
  (aux fid < length (heap s))%nat -> object fid (set_object fid o s) = o.
Proof. intros H. unfold object. simpl. by rewrite list_lookup_insert_eq. Qed.

(** ** A page of a directory *)

(** The bytes that entries take in a reply. *)
Definition entry_size (e : DirEntry) : Z := Z.of_nat (length (wire e)).
Definition total_size (l : list DirEntry) : Z := Z.of_nat (length (concat (map wire l))).

Lemma total_size_app l k : total_size (l ++ k) = total_size l + total_size k.
Proof. unfold total_size. rewrite map_app, concat_app, length_app. lia. Qed.

Lemma total_size_cons e l : total_size (e :: l) = entry_size e + total_size l.
Proof. unfold total_size, entry_size. simpl. rewrite length_app. lia. Qed.

Lemma total_size_one e : total_size [e] = entry_size e.
Proof. rewrite total_size_cons. unfold total_size. simpl. lia. Qed.

Lemma total_size_nonneg l : 0 <= total_size l.
Proof. unfold total_size. lia. Qed.

(** The entries that fit when [size] bytes are taken already. *)
Fixpoint fitting (count size : Z) (l : list DirEntry) : list DirEntry :=
  match l with
  | [] => []
  | e :: l => if count <? size + entry_size e then []
              else e :: fitting count (size + entry_size e) l
  end.

(** It is the longest prefix within the bound. *)
Lemma fitting_spec count size l :
  exists rest, l = fitting count size l ++ rest
  /\ (fitting count size l <> [] -> size + total_size (fitting count size l) <= count)
  /\ match rest with
     | [] => True
     | e :: _ => count < size + total_size (fitting count size l) + entry_size e
     end.
Proof.
  revert size. induction l as [|e l IH]; intros size; simpl; [by exists []|].
  destruct (Z.ltb_spec count (size + entry_size e)) as [Hlt|Hge].
  - exists (e :: l). unfold total_size. simpl. split; [done|]. split; [done|lia].
  - destruct (IH (size + entry_size e)) as (rest & El & Hb & Hr).
    exists rest. simpl. rewrite <- El, total_size_cons. split; [done|]. split.
    + intros _. destruct (fitting count (size + entry_size e) l) as [|x l'] eqn:Ef.
      * unfold total_size. simpl. lia.
      * specialize (Hb ltac:(done)). lia.
    + destruct rest; [done|]. lia.
Qed.

(** What the directory stream's entries become, from index [i] on. *)
Fixpoint entries_from (md : D -> Metadata) (i : Z) (ds : list D) : list DirEntry :=
  match ds with
  | [] => []
  | d :: ds => {| dirent_qid := qid_from_attr (md d); dirent_offset := wrap 64 (2 + i);
      dirent_typ := 0; dirent_name := to_string_lossy (file_name d) |} :: entries_from md (i + 1) ds
  end.

Lemma entries_from_drop md i ds n :
  drop n (entries_from md i ds) = entries_from md (i + Z.of_nat n) (drop n ds).
Proof.
  revert i n. induction ds as [|d ds IH]; intros i [|n]; simpl; rewrite ?Z.add_0_r; try done.
  rewrite IH. f_equal. lia.
Qed.

Lemma entries_from_length md i ds : length (entries_from md i ds) = length ds.
Proof. revert i. induction ds; intros i; simpl; auto. Qed.

Lemma entries_from_lookup md i ds n e :
  entries_from md i ds !! n = Some e -> dirent_offset e = wrap 64 (2 + i + Z.of_nat n).
Proof.
  revert i n. induction ds as [|d ds IH]; intros i [|n] H; simplify_eq/=.
  - f_equal. lia.
  - rewrite (IH _ _ H). f_equal. lia.
Qed.

(** The sizes the loop computes do not wrap while they stay below 2^32. *)
Lemma readdir_sizes ds e :
  total_size (dirents ds) + entry_size e < 2 ^ 32 ->
  wrap 32 (DirEntryData_size ds + DirEntry_size e) = total_size (dirents ds) + entry_size e.
Proof.
  intros H. rewrite DirEntryData_size_wire, DirEntry_size_wire, wrap_add_r, wrap_add_l.
  apply wrap_id. unfold fits, total_size, entry_size in *. lia.
Qed.

Lemma readdir_loop_run md i count acc ds (s : st) bound :
  Forall (fun d => entry_metadata d (os s) = Ok (md d)) ds ->
  Forall (fun e => bound + entry_size e < 2 ^ 32) (entries_from md i ds) ->
  count <= bound -> total_size (dirents acc) <= bound ->
  readdir_loop (F := F) i count acc (Ok <$> ds) s
  = (Ok {| dirents := dirents acc ++ fitting count (total_size (dirents acc)) (entries_from md i ds) |}, s).
Proof.
  revert i acc. induction ds as [|d ds IH]; intros i acc Hmd Hb Hc Ha.
  { simpl. rewrite app_nil_r. by destruct acc. }
  apply Forall_cons in Hmd as [Hd Hmd]. simpl in Hb. apply Forall_cons in Hb as [He Hb].
  cbn [fmap list_fmap readdir_loop]. unfold get_dirent, mbind, M_bind, call, look.
  rewrite Hd, state_eta. cbn [mret M_ret entries_from fitting].
  rewrite readdir_sizes by lia.
  set (e := {| dirent_qid := _ |}) in *.
  destruct (Z.ltb_spec count (total_size (dirents acc) + entry_size e)) as [Hlt|Hge].
  { rewrite app_nil_r. by destruct acc. }
  rewrite IH; [|done|done|done|].
  - unfold DirEntryData_push. simpl. rewrite total_size_app, total_size_one, <- app_assoc. done.
  - unfold DirEntryData_push. simpl. rewrite total_size_app, total_size_one. lia.
Qed.
End Facts.

#[export] Hint Resolve touches_rgetattr touches_rsetattr touches_rreadlink touches_rreaddir
  touches_rread touches_rwrite touches_rmkdir touches_rrenameat touches_runlinkat touches_rfsync
  touches_rstatfs touches_rlopen touches_rlcreate touches_rattach touches_rwalk : wire.
