(* ===== verification/MemOs.v ===== *)
(** * A machine in memory

    An instance of [OsCalls] with a tree of files, directories and links, for the
    concrete runs the theorems about the file server are checked on.  It obeys
    [OsLaws]. *)

From Stdlib Require Import Strings.Byte.
From S2P Require Import Prelude Bytes Io Error Fcall Srv Path Unpfs.

Inductive node : Set :=
  | Directory (names : list string)
  | Regular (content : list byte)
  | Symlink (target : string).

(** What each path is, and how far each open file was read. *)
Record machine : Set := { nodes : gmap string node; cursors : gmap string nat }.

Definition node_metadata (p : string) (n : node) : Metadata := {|
  md_file_type := {| is_dir := match n with Directory _ => true | _ => false end;
                     is_symlink := match n with Symlink _ => true | _ => false end |};
  md_ino := str_len p; md_mode := 420; md_uid := 0; md_gid := 0; md_nlink := 1; md_rdev := 0;
  md_size := match n with Regular c => Z.of_nat (length c) | _ => 0 end;
  md_blksize := 512; md_blocks := 1;
  md_atime := 0; md_atime_nsec := 0; md_mtime := 0; md_mtime_nsec := 0;
  md_ctime := 0; md_ctime_nsec := 0
|}.

Definition enoent : io_error := Os ENOENT.

Definition mem_stat (p : string) (m : machine) : result io_error Metadata :=
  match nodes m !! p with Some n => Ok (node_metadata p n) | None => Err enoent end.

Definition set_node (p : string) (n : node) (m : machine) : machine :=
  {| nodes := <[p := n]> (nodes m); cursors := cursors m |}.

Definition mem_update (p : string) (f : node -> node) : M machine io_error unit := fun m =>
  match nodes m !! p with
  | Some n => (Ok tt, set_node p (f n) m)
  | None => (Err enoent, m)
  end.

Definition mem_open (p : string) (flags : i32) (_ : u32) : M machine Errno string := fun m =>
  match nodes m !! p with
  | Some _ => (Ok p, {| nodes := nodes m; cursors := <[p := 0%nat]> (cursors m) |})
  | None => if Z.testbit flags 6 then (Ok p, set_node p (Regular []) m) else (Err ENOENT, m)
  end.

Definition content (p : string) (m : machine) : list byte :=
  match nodes m !! p with Some (Regular c) => c | _ => [] end.

Definition mem_read (p : string) (buf : list byte) : M machine io_error (nat * list byte) := fun m =>
  let pos := default 0%nat (cursors m !! p) in
  let got := take (length buf) (drop pos (content p m)) in
  (Ok (length got, got ++ drop (length got) buf),
   {| nodes := nodes m; cursors := <[p := (pos + length got)%nat]> (cursors m) |}).

Definition mem_write (p : string) (bs : list byte) : M machine io_error usize := fun m =>
  let pos := default 0%nat (cursors m !! p) in
  let c := content p m in
  (Ok (Z.of_nat (length bs)), set_node p (Regular (take pos c ++ bs ++ drop (pos + length bs) c)) m).

Definition mem_os : OsCalls machine string (string * string) Z := {|
  symlink_metadata := mem_stat;
  metadata := mem_stat;
  set_permissions p _ := mem_update p (fun n => n);
  chown p _ _ m := match nodes m !! p with Some _ => (Ok tt, m) | None => (Err ENOENT, m) end;
  open_for_write p m := match nodes m !! p with Some _ => (Ok p, m) | None => (Err enoent, m) end;
  set_len p n := mem_update p (fun _ => Regular (replicate (Z.to_nat n) x00));
  from_unix_time sec _ := sec;
  from_last_access_time := md_atime;
  from_last_modification_time := md_mtime;
  set_file_times p _ _ := mem_update p (fun n => n);
  read_link p m := match nodes m !! p with
    | Some (Symlink t) => (Ok t, m) | _ => (Err (Os EINVAL), m) end;
  read_dir p m := match nodes m !! p with
    | Some (Directory names) => (Ok ((fun n => Ok (p, n)) <$> names), m)
    | _ => (Err enoent, m) end;
  entry_metadata '(p, n) := mem_stat (join p n);
  file_name := snd;
  nix_open := mem_open;
  oflag_all := 2 ^ 32 - 1;
  mode_all := 4095;
  seek p pos m := (Ok tt, {| nodes := nodes m; cursors := <[p := Z.to_nat pos]> (cursors m) |});
  read := mem_read;
  write := mem_write;
  sync_all _ m := (Ok tt, m);
  create_dir p m := match nodes m !! p with
    | None => (Ok tt, set_node p (Directory []) m) | Some _ => (Err (Os 17), m) end;
  rename p q m := match nodes m !! p with
    | Some n => (Ok tt, set_node q n {| nodes := delete p (nodes m); cursors := cursors m |})
    | None => (Err enoent, m) end;
  remove_dir p m := (Ok tt, {| nodes := delete p (nodes m); cursors := cursors m |});
  remove_file p m := (Ok tt, {| nodes := delete p (nodes m); cursors := cursors m |});
  statvfs _ m := (Ok {| sv_block_size := 512; sv_blocks := 100; sv_blocks_free := 50;
    sv_blocks_available := 50; sv_files := 10; sv_files_free := 5; sv_filesystem_id := 1;
    sv_name_max := 255 |}, m);
  uninit n := replicate n xaa
|}.

Lemma mem_os_laws : @OsLaws machine string (string * string) Z mem_os.
Proof.
  constructor.
  - intros n. apply length_replicate.
  - intros f buf o n buf' o' [= <- <- <-]. eexists. split; [reflexivity|]. split; [|reflexivity].
    rewrite length_take. lia.
  - intros f buf buf2 o Hl. simpl. unfold mem_read. rewrite Hl. split; [done|]. split; [|done].
    by rewrite !take_app_length.
Qed.

(** A small tree, and the state of a server on it with fid objects for its
    root, a file and a directory. *)
Definition tree : machine := {|
  nodes := list_to_map [("/srv", Directory ["etc"; "motd"; "way"]); ("/srv/etc", Directory []);
    ("/srv/motd", Regular [x68; x69; x21]); ("/srv/way", Symlink "/srv/etc");
    (".", Directory []); ("..", Directory [])];
  cursors := ∅
|}.

Definition at_path (p : PathBuf) (f : option string) : UnpfsFid string :=
  {| realpath := p; file := f |}.

Definition tree_state : state machine string := {|
  os := tree;
  heap := [at_path "/srv" None; at_path "/srv/motd" (Some "/srv/motd"); at_path "/srv/etc" None]
|}.

Definition root_fid : Fid nat := {| fid_raw := 1; aux := 0%nat |}.
Definition motd_fid : Fid nat := {| fid_raw := 2; aux := 1%nat |}.
Definition etc_fid : Fid nat := {| fid_raw := 3; aux := 2%nat |}.

Definition tree_served : served (state machine string) nat := {|
  fs := tree_state;
  fsfids := list_to_map [((1 : u32), root_fid); ((2 : u32), motd_fid); ((3 : u32), etc_fid)]
|}.
