(* ===== verification/UnpfsProps.v ===== *)
(** * Properties of the file server

    Walking, reading directories and files, what a handler may change, and
    where the paths of the fids can point. *)

From Stdlib Require Import Strings.Byte.
From S2P Require Import Prelude Bytes Io Error Fcall Serialize Wire Srv Dispatch DispatchFacts.
From S2P Require Import Path Unpfs UnpfsFacts MemOs.

Section Props.
Context {O F D FT : Type} `{OS : OsCalls O F D FT} {OL : OsLaws O F D FT} `{BF : Bitflags}.
Context (self : Unpfs).

Abbreviation st := (state O F).
Abbreviation handler := (M st Error).

#[local] Instance unpfs_fs : Filesystem st nat := Unpfs_Filesystem self.

(** ** Answers *)

(** A handler that succeeds answers with a message of type [t]. *)
Definition answers (m : handler Fcall) (t : MsgType) : Prop :=
  forall s resp s', m s = (Ok resp, s') -> MsgType_from resp = t.

Lemma answers_bind {A} (m : handler A) k t : (forall a, answers (k a) t) -> answers (m ≫= k) t.
Proof. intros Hk s resp s' H. apply bind_ok_inv in H as (a & s1 & _ & H). by eapply Hk. Qed.

Lemma answers_ret resp t : MsgType_from resp = t -> answers (mret resp) t.
Proof. by intros H s r s' [= <- <-]. Qed.

Lemma answers_err e t : answers (throw e) t.
Proof. by intros s r s' H. Qed.

Ltac answers := intros; lazymatch goal with
  | |- answers (mbind _ _) _ => apply answers_bind; answers
  | |- answers (mret _) _ => by apply answers_ret
  | |- answers (throw _) _ => apply answers_err
  | |- answers (match _ with _ => _ end) _ => case_match; answers
  | |- _ => idtac
  end.

Lemma get_fid_bind {A} (fids : gmap u32 (Fid nat)) k (K : Fid nat -> handler A) s :
  (get_fid fids k ≫= K) s
  = match fids !! k with Some x => K x s | None => (Err (No EBADF), s) end.
Proof. unfold get_fid, mbind, M_bind. by destruct (fids !! k). Qed.

(** The R-message of a T-message. *)
Definition reply_type (t : MsgType) : MsgType :=
  default MsgTypes.Rlerror (from_u8_ref (MsgTypes.as_u8 t + 1)).

Lemma reply_type_succ t :
  MsgTypes.is_r t = false -> MsgTypes.as_u8 (reply_type t) = MsgTypes.as_u8 t + 1.
Proof. by destruct t. Qed.

Lemma call_handler_answers fids n body m :
  call_handler fids n body = Some m -> answers m (reply_type (MsgType_from body)).
Proof.
  intros Em. destruct body; simpl in Em; unfold unwrap in Em; destruct n; simplify_eq/=; answers;
    unfold unpfs_rstatfs, unpfs_rlopen, unpfs_rlcreate, unpfs_rreadlink, unpfs_rgetattr,
      unpfs_rsetattr, unpfs_rreaddir, unpfs_rfsync, unpfs_rmkdir, unpfs_rrenameat,
      unpfs_runlinkat, unpfs_rattach, unpfs_rwalk, unpfs_rread, unpfs_rwrite, unpfs_rclunk,
      unsupported, rversion_default; answers.
Qed.

Lemma call_handler_r fids n body m s resp s' :
  MsgTypes.is_r (MsgType_from body) = true ->
  call_handler fids n body = Some m -> m s = (Ok resp, s') -> False.
Proof. intros Hr Em. destruct body; simplify_eq/=; done. Qed.

(** A request is answered by the R-message of its own type: type byte
    one above the request's. *)
Theorem unpfs_response_type body (d d' : served st nat) resp n :
  run_handler body d = Some (Ok (resp, n), d') ->
  MsgTypes.as_u8 (MsgType_from resp) = MsgTypes.as_u8 (MsgType_from body) + 1.
Proof.
  unfold run_handler. destruct (make_newfid body (fs d)) as [n' s].
  destruct (call_handler (fsfids d) n' body) as [m|] eqn:Em; [|done].
  destruct (m s) as [[r|e] s'] eqn:Er; intros H; simplify_eq.
  rewrite (call_handler_answers _ _ _ _ Em _ _ _ Er). apply reply_type_succ.
  destruct (MsgTypes.is_r (MsgType_from body)) eqn:Hr; [|done].
  by destruct (call_handler_r _ _ _ _ _ _ _ Hr Em Er).
Qed.

(** ** Walking *)

(** C33: a walk resolves the names one by one.  When the first fails the walk
    fails and changes nothing; otherwise it answers the qids of the leading
    names that resolve, and the new fid is given the path of the names up to
    and including the one that stopped the walk. *)
Theorem rwalk_spec fid newfid wnames (s : st) :
  let p := realpath (object fid s) in
  let qids := walk_qids (os s) p wnames in
  unpfs_rwalk fid newfid wnames s
  = match wnames with
    | [] => (Ok (Rwalk []), set_object newfid {| realpath := p; file := file (object newfid s) |} s)
    | name :: _ =>
        match qid_at (push p name) (os s) with
        | Err e => (Err e, s)
        | Ok _ => (Ok (Rwalk qids), set_object newfid
            {| realpath := fold_left push (take (S (length qids)) wnames) p;
               file := file (object newfid s) |} s)
        end
    end.
Proof.
  unfold unpfs_rwalk, get_realpath, mbind, M_bind. cbn zeta. rewrite walk_loop_run.
  destruct wnames as [|n ns]; [done|].
  by destruct (qid_at (push (realpath (object fid s)) n) (os s)).
Qed.

Lemma object_new_aux fid (s : st) : object fid (new_aux s).2 = object fid s.
Proof.
  unfold object, new_aux. simpl. destruct (decide (aux fid < length (heap s))%nat) as [Hlt|Hge].
  - by rewrite lookup_app_l.
  - rewrite (lookup_ge_None_2 (heap s)) by lia. rewrite lookup_app_r by lia.
    by destruct (aux fid - length (heap s))%nat as [|[]].
Qed.

Lemma walk_qids_stop o p names :
  (length (walk_qids o p names) < length names)%nat ->
  exists e, qid_at (fold_left push (take (S (length (walk_qids o p names))) names) p) o = Err e.
Proof.
  revert p. induction names as [|n ns IH]; intros p; simpl; [lia|].
  destruct (qid_at (push p n) o) as [q|e] eqn:Eq; simpl; [|eauto].
  intros H. apply IH. lia.
Qed.

(** A walk that stops half-way still binds the new fid, to the path of
    the name that could not be resolved. *)
Theorem partial_walk_binds_newfid tag fid nfid wnames (d : served st nat) f :
  fsfids d !! fid = Some f ->
  let qids := walk_qids (os (fs d)) (realpath (object f (fs d))) wnames in
  qids <> [] -> (length qids < length wnames)%nat ->
  exists d' g e,
    dispatch_once {| msg_tag := tag; msg_body := Twalk fid nfid wnames |} d = Some (Ok (Rwalk qids), d')
    /\ fsfids d' !! nfid = Some g
    /\ qid_at (realpath (object g (fs d'))) (os (fs d')) = Err e.
Proof.
  intros Hf qids Hne Hlen.
  destruct (walk_qids_stop _ _ _ Hlen) as [e He].
  set (s1 := (new_aux (fs d)).2). set (g := {| fid_raw := nfid; aux := length (heap (fs d)) |}).
  assert (aux g < length (heap s1))%nat as Hg by (simpl; rewrite length_app; simpl; lia).
  pose proof (rwalk_found f g wnames s1) as Hw. subst s1. cbn zeta in Hw.
  rewrite object_new_aux in Hw. specialize (Hw Hne).
  eexists _, g, e. split; [|split].
  - unfold dispatch_once, run_handler. cbn [msg_body].
    replace (make_newfid (Twalk fid nfid wnames) (fs d)) with (Some g, (new_aux (fs d)).2) by done.
    cbn [call_handler unwrap fmap option_fmap option_map rwalk unpfs_fs Unpfs_Filesystem].
    rewrite get_fid_bind, Hf, Hw. reflexivity.
  - apply lookup_insert_eq.
  - cbn [insert_newfid drop_clunked fs]. rewrite object_set by done. exact He.
Qed.

(** ** What a request changes *)

(** The existing object a request may change: that of the fid it opens. *)
Definition opens (fids : gmap u32 (Fid nat)) (body : Fcall) : option (Fid nat) :=
  match body with
  | Tlopen fid _ | Tlcreate fid _ _ _ _ => fids !! fid
  | _ => None
  end.

Lemma touches_get_fid {A} P (fids : gmap u32 (Fid nat)) k (K : Fid nat -> handler A) :
  (forall f, fids !! k = Some f -> touches P (K f)) -> touches P (get_fid fids k ≫= K).
Proof.
  intros HK s. rewrite get_fid_bind. destruct (fids !! k) as [f|] eqn:Ef; [|done]. by apply HK.
Qed.

Lemma call_handler_touches fids n body m :
  call_handler fids n body = Some m ->
  touches (fun h => h ∈ aux <$> option_list (opens fids body) ++ option_list n) m.
Proof.
  intros Em. destruct body; simpl in Em; unfold unwrap in Em; destruct n as [g|]; simplify_eq/=;
    repeat (apply touches_get_fid; intros ? ?); try (by intros s);
    eapply touches_mono; eauto 2 with wire; unfold only, nothing; simpl; try done;
    repeat match goal with E : fids !! _ = Some _ |- _ => rewrite E; clear E end;
    intros h ->; simpl; set_solver.
Qed.

(** Requests on different fids do not disturb each other's objects: only
    Tlopen and Tlcreate change an object that exists, and only that of the
    fid they name. *)
Theorem requests_keep_other_objects body (d d' : served st nat) r h :
  run_handler body d = Some (r, d') -> (h < length (heap (fs d)))%nat ->
  aux <$> opens (fsfids d) body <> Some h ->
  heap (fs d') !! h = heap (fs d) !! h.
Proof.
  intros Hr Hh Hne. unfold run_handler in Hr.
  destruct (make_newfid body (fs d)) as [n s] eqn:En.
  destruct (call_handler (fsfids d) n body) as [m|] eqn:Em; [|done].
  pose proof (call_handler_touches _ _ _ _ Em s) as [_ Ht].
  destruct (m s) as [r' s'] eqn:Er. simplify_eq/=.
  assert (heap s !! h = heap (fs d) !! h /\ (forall g, n = Some g -> h <> aux g)) as [Hs Hn].
  { unfold make_newfid in En. destruct (newfid body); simplify_eq/=; [|done].
    rewrite lookup_app_l by done. split; [done|]. intros g [= <-]. simpl. lia. }
  rewrite <- Hs. apply Ht. destruct (opens (fsfids d) body), n; simpl in *; set_solver.
Qed.

(** ** Reading files *)

(** Reading a file answers what a read into a zeroed buffer of the
    requested size puts at its start, never more than was asked for; in
    particular nothing of the buffer the code does not initialise gets out. *)
Theorem rread_reads_file fid offset count (s : st) f o1 :
  file (object fid s) = Some f -> seek f offset (os s) = (Ok tt, o1) ->
  match read f (replicate (Z.to_nat count) x00) o1 with
  | (Ok (n, buf), o2) =>
      unpfs_rread fid offset count s
      = (Ok (Rread {| data_bytes := take n buf |}), {| os := o2; heap := heap s |})
      /\ length (take n buf) = n /\ (n <= Z.to_nat count)%nat
  | (Err e, o2) =>
      unpfs_rread fid offset count s = (Err (Io e), {| os := o2; heap := heap s |})
  end.
Proof.
  intros Hf Hs. unfold unpfs_rread, get_open_file, get_file, mbind, M_bind, call.
  rewrite Hf. cbn [ok_or mret M_ret]. rewrite Hs. cbn [os heap].
  assert (length (create_buffer (Z.to_nat count)) = length (replicate (Z.to_nat count) x00)) as Hl
    by (unfold create_buffer; by rewrite uninit_length, length_replicate).
  pose proof (read_oblivious f _ _ o1 Hl) as Ho.
  destruct (read f (create_buffer (Z.to_nat count)) o1) as [[[n b]|e] o2];
    destruct (read f (replicate (Z.to_nat count) x00) o1) as [[[n' b']|e'] o2'] eqn:Er; try done.
  - destruct Ho as (-> & Ht & ->). cbn. rewrite Ht. split; [done|].
    destruct (read_law _ _ _ _ _ _ Er) as (bs & Hbs & Hn & ->). rewrite length_replicate in Hn.
    split; [|done]. by rewrite take_app_exact.
  - by destruct Ho as [-> ->].
Qed.

(** On a fid that was not opened, reading, writing and syncing are
    answered with an error of kind InvalidInput (EINVAL to the client) and
    nothing changes. *)
Theorem io_needs_open fid offset count data (s : st) :
  file (object fid s) = None ->
  unpfs_rread fid offset count s = (Err (Io INVALID_FID), s)
  /\ unpfs_rwrite fid offset data s = (Err (Io INVALID_FID), s)
  /\ unpfs_rfsync fid s = (Err (Io INVALID_FID), s).
Proof.
  intros Hf.
  assert (get_open_file fid s = (Err (Io INVALID_FID), s)) as Hg.
  { unfold get_open_file, get_file, mbind, M_bind. by rewrite Hf. }
  split_and!; by apply bind_err.
Qed.

(** ** Opening *)

(** Flags other than the access mode, O_CREAT and O_TRUNC have no effect
    on an open or a create: whatever bits a client adds outside UNIX_FLAGS
    (O_DIRECT, O_APPEND, also O_EXCL), the machine is called as without them. *)
Theorem open_ignores_other_flags fid name flags extra mode gid (s : st) :
  Z.land extra UNIX_FLAGS = 0 ->
  unpfs_rlopen fid (Z.lor flags extra) s = unpfs_rlopen fid flags s
  /\ unpfs_rlcreate fid name (Z.lor flags extra) mode gid s = unpfs_rlcreate fid name flags mode gid s.
Proof.
  intros He. unfold unpfs_rlopen, unpfs_rlcreate.
  assert (open_flags (Z.lor flags extra) = open_flags flags) as ->; [|done].
  unfold open_flags. by rewrite Z.land_lor_distr_l, He, Z.lor_0_r.
Qed.

(** Opening a directory never opens anything on the machine. *)
Theorem rlopen_directory fid flags (s : st) attr `{!BitflagsLaws} :
  symlink_metadata (realpath (object fid s)) (os s) = Ok attr ->
  is_dir (md_file_type attr) = true ->
  unpfs_rlopen fid flags s = (Ok (Rlopen (qid_from_attr attr) 0), s).
Proof.
  intros Hm Hd. unfold unpfs_rlopen, get_realpath, mbind, M_bind.
  rewrite get_qid_run. unfold qid_at. rewrite Hm.
  assert (contains (qid_typ (qid_from_attr attr)) QidTypes.DIR = true) as ->; [|done].
  unfold qid_from_attr, QidType_from_file_type. simpl. rewrite Hd, contains_law.
  destruct (is_symlink _); rewrite !insert_law; done.
Qed.

(** ** Setting attributes *)

(** A Tsetattr that sets none of mode, owner, group, size and explicit
    times makes no call: asking for the server's own time (ATIME or MTIME
    without _SET) succeeds and does nothing. *)
Theorem rsetattr_server_time fid valid stat (s : st) `{!BitflagsLaws} :
  Z.land valid (Z.lor (Z.lor SetattrMasks.ATIME SetattrMasks.MTIME) SetattrMasks.CTIME) = valid ->
  unpfs_rsetattr fid valid stat s = (Ok Rsetattr, s).
Proof.
  intros Hv. unfold unpfs_rsetattr.
  assert (forall m, Z.land (Z.lor (Z.lor SetattrMasks.ATIME SetattrMasks.MTIME) SetattrMasks.CTIME) m = 0 ->
    Z.land valid m = 0) as H0 by (intros m Hm; by rewrite <- Hv, <- Z.land_assoc, Hm, Z.land_0_r).
  rewrite !contains_law, !intersects_law, !H0 by done. done.
Qed.

(** ** Directories *)
Section Readdir.
Context (md : D -> Metadata) (fid : Fid nat) (s : st) (ds : list D) (dot dotdot : Metadata).

(** The machine lists [ds] for the directory of [fid], whenever asked. *)
Hypothesis Hlist : read_dir (realpath (object fid s)) (os s) = (Ok (Ok <$> ds), os s).
Hypothesis Hmd : Forall (fun d => entry_metadata d (os s) = Ok (md d)) ds.
Hypothesis Hdot : symlink_metadata "." (os s) = Ok dot.
Hypothesis Hdotdot : symlink_metadata ".." (os s) = Ok dotdot.

(** The first two entries and those of the directory. *)
Definition dots : list DirEntry := [
  {| dirent_qid := qid_from_attr dot; dirent_offset := 0; dirent_typ := 0; dirent_name := "." |};
  {| dirent_qid := qid_from_attr dotdot; dirent_offset := 1; dirent_typ := 0; dirent_name := ".." |} ].

Definition listing : list DirEntry := entries_from md 0 ds.

(** The sizes stay within 32 bits. *)
Definition page_fits (count : u32) : Prop :=
  Forall (fun e => Z.max count (total_size dots) + entry_size e < 2 ^ 32) listing.

Lemma entries_drop n : entries_from md (Z.of_nat n) (drop n ds) = drop n listing.
Proof. unfold listing. by rewrite entries_from_drop. Qed.

Lemma rreaddir_first count :
  page_fits count ->
  unpfs_rreaddir fid 0 count s
  = (Ok (Rreaddir {| dirents := dots ++ fitting count (total_size dots) listing |}), s).
Proof.
  intros Hf. unfold unpfs_rreaddir, get_dirent_from, mbind, M_bind. simpl.
  rewrite !get_qid_run. unfold qid_at. rewrite Hdot. cbn [mret M_ret].
  rewrite get_qid_run. unfold qid_at. rewrite Hdotdot. cbn.
  unfold call. rewrite Hlist, state_eta.
  rewrite (readdir_loop_run md 0 count _ ds s (Z.max count (total_size dots)));
    [done|done|done|lia|]. change (total_size dots <= Z.max count (total_size dots)). lia.
Qed.

Lemma rreaddir_next off count :
  page_fits count -> 0 < off -> 0 <= count ->
  unpfs_rreaddir fid off count s
  = (Ok (Rreaddir {| dirents := fitting count 0 (drop (Z.to_nat (off - 1)) listing) |}), s).
Proof.
  intros Hf Ho Hc. unfold unpfs_rreaddir. destruct (Z.eqb_spec off 0) as [|_]; [lia|].
  unfold mbind, M_bind, get_realpath. cbn [mret M_ret].
  unfold call. rewrite Hlist, state_eta.
  rewrite <- fmap_drop, (readdir_loop_run md (off - 1) count _ _ s (Z.max count (total_size dots))).
  - rewrite <- entries_drop. by replace (Z.of_nat (Z.to_nat (off - 1))) with (off - 1) by lia.
  - by apply Forall_drop.
  - replace (off - 1) with (Z.of_nat (Z.to_nat (off - 1))) at 1 by lia.
    rewrite entries_drop. by apply Forall_drop.
  - lia.
  - unfold total_size. simpl. lia.
Qed.

(** C35: a page of a directory.  At offset 0 it starts with "." and "..";
    at offset [off] it starts with the entry after the one whose offset is
    [off].  It is the longest run of entries whose encoding stays within
    [count] bytes, counting the two dots (which are given in any case). *)
Theorem rreaddir_page off count :
  page_fits count -> 0 <= off -> 0 <= count ->
  exists page rest, let first := if off =? 0 then dots else [] in
    unpfs_rreaddir fid off count s = (Ok (Rreaddir {| dirents := first ++ page |}), s)
    /\ drop (Z.to_nat (off - 1)) listing = page ++ rest
    /\ (page <> [] -> total_size (first ++ page) <= count)
    /\ match rest with
       | [] => True
       | e :: _ => count < total_size (first ++ page) + entry_size e
       end.
Proof.
  intros Hf Ho Hc. destruct (Z.eqb_spec off 0) as [->|Hne].
  - rewrite rreaddir_first by done. destruct (fitting_spec count (total_size dots) listing) as (rest & E & Hb & Hr).
    exists (fitting count (total_size dots) listing), rest. cbn zeta. rewrite total_size_app. done.
  - rewrite rreaddir_next by (done || lia).
    destruct (fitting_spec count 0 (drop (Z.to_nat (off - 1)) listing)) as (rest & E & Hb & Hr).
    eexists _, rest. split; [done|]. simpl. done.
Qed.

(** A client that lists a directory: it asks for a page, and for the next one
    at the offset of the last entry it got, until a page is empty. *)
Fixpoint list_directory (fuel : nat) (off count : Z) : handler (list DirEntry) :=
  match fuel with
  | 0%nat => throw (Io (Simple Other "more pages"))
  | S fuel =>
      reply ← unpfs_rreaddir fid off count;
      match reply with
      | Rreaddir page =>
          match last (dirents page) with
          | None => mret []
          | Some e => rest ← list_directory fuel (dirent_offset e) count; mret (dirents page ++ rest)
          end
      | _ => throw (Io (Simple Other "not a page"))
      end
  end.

Lemma listing_last n e :
  (n <= length listing)%nat -> Z.of_nat (length ds) + 2 < 2 ^ 64 ->
  last (take n listing) = Some e -> dirent_offset e = Z.of_nat n + 1.
Proof.
  intros Hn Hlen Hl. rewrite last_lookup, length_take, Nat.min_l in Hl by done.
  destruct n as [|n]; [done|]. simpl in Hl. rewrite lookup_take_lt in Hl by lia.
  unfold listing in *. rewrite entries_from_length in Hn.
  rewrite (entries_from_lookup _ _ _ _ _ Hl). rewrite wrap_id; [lia|]. unfold fits. lia.
Qed.

(** The entries before the first that does not fit a page of its own. *)
Fixpoint servable (count : Z) (l : list DirEntry) : list DirEntry :=
  match l with
  | [] => []
  | e :: l => if entry_size e <=? count then e :: servable count l else []
  end.

Lemma servable_app count page l : Forall (fun e => entry_size e <= count) page ->
  servable count (page ++ l) = page ++ servable count l.
Proof. induction 1 as [|e page He _ IH]; simpl; [done|]. rewrite (proj2 (Z.leb_le _ _) He). by rewrite IH. Qed.

Lemma servable_all count l : servable count l = l <-> Forall (fun e => entry_size e <= count) l.
Proof.
  induction l as [|e l IH]; simpl; [done|]. rewrite Forall_cons, <- IH.
  destruct (Z.leb_spec (entry_size e) count) as [Hle|Hlt]; [|split; [done|lia]].
  split; [by intros [= ->]|by intros [_ ->]].
Qed.

(** Entries that fit together fit alone. *)
Lemma page_entries_fit count sz l : total_size sz + total_size l <= count -> Forall (fun e => entry_size e <= count) l.
Proof.
  induction l as [|e l IH]; intros Hl; [constructor|]. rewrite total_size_cons in Hl.
  pose proof (total_size_nonneg sz). pose proof (total_size_nonneg l).
  assert (0 <= entry_size e) by (unfold entry_size; lia). constructor; [lia|apply IH; lia].
Qed.

(** The pages from entry [n] on. *)
Lemma list_directory_rest fuel n count :
  page_fits count -> 0 <= count -> Z.of_nat (length ds) + 2 < 2 ^ 64 ->
  (n <= length listing)%nat -> (length listing - n < fuel)%nat ->
  list_directory fuel (Z.of_nat n + 1) count s = (Ok (servable count (drop n listing)), s).
Proof.
  intros Hf Hc Hlen. revert n. induction fuel as [|fuel IH]; intros n Hn Hfuel; [lia|].
  cbn [list_directory]. rewrite (bind_ok _ _ _ _ _ (rreaddir_next (Z.of_nat n + 1) count Hf ltac:(lia) Hc)).
  replace (Z.to_nat (Z.of_nat n + 1 - 1)) with n by lia. cbn [dirents].
  destruct (fitting_spec count 0 (drop n listing)) as (rest & E & Hb & Hr).
  set (page := fitting count 0 (drop n listing)) in *.
  destruct (last page) as [e|] eqn:El.
  - assert (page <> []) as Hne by (by intros ->; rewrite ?E in El).
    assert (last (take (n + length page) listing) = Some e) as Hlast.
    { rewrite <- (take_drop n listing), E. rewrite take_app_add' by (rewrite length_take; lia).
      rewrite take_app_length. rewrite last_app, El. done. }
    assert (n + length page <= length listing)%nat as Hle.
    { assert (length (drop n listing) = length (page ++ rest)) as L by (by rewrite <- E).
      rewrite length_drop, length_app in L. lia. }
    rewrite (listing_last _ _ Hle Hlen Hlast).
    assert (0 < length page)%nat by (destruct page; [done|simpl; lia]).
    rewrite (bind_ok _ _ _ _ _ (IH _ Hle ltac:(lia))). rewrite ret_run. do 2 f_equal.
    rewrite <- drop_drop, E. rewrite drop_app_length. symmetry. apply servable_app.
    apply (page_entries_fit count []). exact (Hb Hne).
  - apply last_None in El. rewrite El in *. simpl in E. rewrite E.
    destruct rest as [|e rest]; [done|]. unfold total_size in Hr. simpl in *.
    destruct (Z.leb_spec (entry_size e) count); [lia|done].
Qed.

(** C21: what such a client gets, with pages of any size: after "." and ".." the
    entries of the directory, each once and in order, up to the first that does
    not fit a page of its own, where the listing ends as if the directory did;
    so that it gets all of them if and only if each fits a page.  One page per
    entry is enough. *)
Theorem list_directory_complete count :
  page_fits count -> 0 <= count -> Z.of_nat (length ds) + 2 < 2 ^ 64 ->
  list_directory (2 + length ds) 0 count s = (Ok (dots ++ servable count listing), s)
  /\ (servable count listing = listing <-> Forall (fun e => entry_size e <= count) listing).
Proof.
  intros Hf Hc Hlen. split; [|apply servable_all]. cbn [list_directory Nat.add].
  rewrite (bind_ok _ _ _ _ _ (rreaddir_first _ Hf)). cbn [dirents].
  destruct (fitting_spec count (total_size dots) listing) as (rest & E & Hb & _).
  set (page := fitting count (total_size dots) listing) in *.
  assert (length page <= length listing)%nat as Hle.
  { assert (length listing = length (page ++ rest)) as L by (by rewrite <- E).
    rewrite length_app in L. lia. }
  assert (exists e, last (dots ++ page) = Some e /\ dirent_offset e = Z.of_nat (length page) + 1) as (e & El & Ho).
  { destruct (last page) as [e|] eqn:El.
    - exists e. rewrite last_app, El. split; [done|]. apply listing_last; [done|done|].
      by rewrite E, take_app_length.
    - apply last_None in El. rewrite El. by eexists. }
  rewrite El, Ho.
  assert (list_directory (S (length ds)) (Z.of_nat (length page) + 1) count s
    = (Ok (servable count (drop (length page) listing)), s)) as Hrest.
  { apply list_directory_rest; [done..|]. unfold listing. rewrite entries_from_length. lia. }
  cbn [list_directory] in Hrest. rewrite (bind_ok _ _ _ _ _ Hrest), ret_run, <- (assoc_L app).
  assert (Forall (fun e => entry_size e <= count) page) as Hfit.
  { destruct page as [|x page']; [constructor|]. apply (page_entries_fit count dots), Hb. done. }
  do 2 f_equal. f_equal. rewrite E, drop_app_length. symmetry. by apply servable_app.
Qed.
End Readdir.
End Props.

(** ** Witnesses: on the machine in memory *)

#[local] Existing Instance bitflags_ref.
#[local] Existing Instance bitflags_ref_laws.
#[local] Existing Instance mem_os.
#[local] Existing Instance mem_os_laws.

Definition srv : Unpfs := {| realroot := "/srv" |}.
#[local] Existing Instance unpfs_fs.

Lemma unpfs_response_type_witness :
  MsgTypes.as_u8 (MsgType_from (Rwalk [])) = MsgTypes.as_u8 (MsgType_from (Twalk 1 9 [])) + 1.
Proof.
  eapply (unpfs_response_type srv (Twalk 1 9 []) tree_served). vm_compute. reflexivity.
Defined.

Lemma partial_walk_binds_newfid_witness :
  exists d' g e,
    dispatch_once (FS := Unpfs_Filesystem srv)
      {| msg_tag := 1; msg_body := Twalk 1 9 ["etc"; "passwd"; "x"] |} tree_served
    = Some (Ok (Rwalk [{| qid_typ := QidTypes.DIR; qid_version := 0; qid_path := 8 |}]), d')
    /\ fsfids d' !! (9 : u32) = Some g
    /\ qid_at (realpath (object g (fs d'))) (os (fs d')) = Err e.
Proof.
  replace [_] with (walk_qids (os tree_state) "/srv" ["etc"; "passwd"; "x"]) by (vm_compute; reflexivity).
  apply (partial_walk_binds_newfid srv 1 1 9 ["etc"; "passwd"; "x"] tree_served root_fid);
    [reflexivity | vm_compute; discriminate | vm_compute; lia].
Defined.

Lemma requests_keep_other_objects_witness :
  exists r d', run_handler (FS := Unpfs_Filesystem srv) (Tlopen 2 0) tree_served = Some (r, d')
    /\ heap (fs d') !! 2%nat = heap (fs tree_served) !! 2%nat.
Proof.
  eexists _, _. split; [vm_compute; reflexivity|].
  eapply (requests_keep_other_objects srv (Tlopen 2 0) tree_served);
    [vm_compute; reflexivity | vm_compute; lia | vm_compute; discriminate].
Defined.

Lemma rread_reads_file_witness :
  unpfs_rread motd_fid 1 5 tree_state
  = (Ok (Rread {| data_bytes := [x69; x21] |}),
     {| os := {| nodes := nodes tree; cursors := <["/srv/motd" := 3%nat]> ∅ |}; heap := heap tree_state |}).
Proof.
  exact (proj1 (rread_reads_file motd_fid 1 5 tree_state "/srv/motd"
    {| nodes := nodes tree; cursors := <["/srv/motd" := 1%nat]> ∅ |} eq_refl eq_refl)).
Defined.

Lemma io_needs_open_witness :
  unpfs_rread root_fid 0 10 tree_state = (Err (Io INVALID_FID), tree_state).
Proof. apply (io_needs_open root_fid 0 10 {| data_bytes := [] |} tree_state). reflexivity. Defined.

(** O_DIRECT is 0x4000. *)
Lemma open_ignores_other_flags_witness :
  unpfs_rlopen motd_fid (Z.lor O_RDWR 0x4000) tree_state = unpfs_rlopen motd_fid O_RDWR tree_state.
Proof.
  apply (open_ignores_other_flags motd_fid "" O_RDWR 0x4000 0 0 tree_state). reflexivity.
Defined.

Lemma rlopen_directory_witness :
  unpfs_rlopen etc_fid 0 tree_state
  = (Ok (Rlopen {| qid_typ := QidTypes.DIR; qid_version := 0; qid_path := 8 |} 0), tree_state).
Proof.
  replace {| qid_typ := _ |} with (qid_from_attr (node_metadata "/srv/etc" (Directory [])))
    by (vm_compute; reflexivity).
  apply (rlopen_directory etc_fid 0 tree_state (node_metadata "/srv/etc" (Directory []))); reflexivity.
Defined.

Definition no_times : SetAttr := {|
  setattr_mode := 0; setattr_uid := 0; setattr_gid := 0; setattr_size := 0;
  setattr_atime := {| sec := 0; nsec := 0 |}; setattr_mtime := {| sec := 0; nsec := 0 |}
|}.

Lemma rsetattr_server_time_witness :
  unpfs_rsetattr motd_fid SetattrMasks.MTIME no_times tree_state = (Ok Rsetattr, tree_state).
Proof. apply (rsetattr_server_time motd_fid SetattrMasks.MTIME); [exact _|reflexivity]. Defined.

(** The directory /srv, with room for two of its entries in a page. *)
Definition srv_entries : list (string * string) := [("/srv", "etc"); ("/srv", "motd"); ("/srv", "way")].
Definition srv_metadata (d : string * string) : Metadata :=
  default (node_metadata "" (Directory [])) (node_metadata (join d.1 d.2) <$> nodes tree !! join d.1 d.2).

Lemma srv_page_fits count :
  0 <= count <= 100 ->
  page_fits srv_metadata srv_entries (node_metadata "." (Directory [])) (node_metadata ".." (Directory [])) count.
Proof.
  intros Hc. apply Forall_impl with (fun e => entry_size e <= 30).
  - repeat constructor; by vm_compute.
  - intros e He. assert (total_size (dots (node_metadata "." (Directory []))
      (node_metadata ".." (Directory []))) = 51) as -> by (vm_compute; reflexivity). lia.
Qed.

Lemma rreaddir_page_witness :
  exists page rest,
    unpfs_rreaddir root_fid 2 60 tree_state = (Ok (Rreaddir {| dirents := page |}), tree_state)
    /\ drop 1 (listing srv_metadata srv_entries) = page ++ rest
    /\ (page <> [] -> total_size page <= 60)
    /\ match rest with [] => True | e :: _ => 60 < total_size page + entry_size e end.
Proof.
  apply (rreaddir_page srv_metadata root_fid tree_state srv_entries
    (node_metadata "." (Directory [])) (node_metadata ".." (Directory []))) with (off := 2) (count := 60);
    [reflexivity | repeat constructor | reflexivity | reflexivity | apply srv_page_fits; lia | lia | lia].
Defined.

Lemma list_directory_complete_witness :
  list_directory root_fid 5 0 30 tree_state
  = (Ok (dots (node_metadata "." (Directory [])) (node_metadata ".." (Directory []))
      ++ listing srv_metadata srv_entries), tree_state).
Proof.
  destruct (list_directory_complete srv_metadata root_fid tree_state srv_entries
    (node_metadata "." (Directory [])) (node_metadata ".." (Directory []))) with (count := 30) as [Hl Hall];
    [reflexivity | repeat constructor | reflexivity | reflexivity | apply srv_page_fits; lia | lia | |].
  - vm_compute. reflexivity.
  - rewrite (proj2 Hall) in Hl; [exact Hl|]. repeat constructor; vm_compute; discriminate.
Defined.
