(* ===== verification/UnpfsJail.v ===== *)
(** * Where the paths of the fids point

    A client whose names are plain (no separator, not "..", not empty) can
    only give its fids paths at or below the root that is served, under every
    interleaving of its requests. *)

From stdpp Require Import relations.
From S2P Require Import Prelude Bytes Io Error Fcall Serialize Wire Srv Dispatch DispatchFacts.
From S2P Require Import Path Unpfs UnpfsFacts MemOs.

Section Jail.
Context {O F D FT : Type} `{OS : OsCalls O F D FT} `{BF : Bitflags} (self : Unpfs).

Abbreviation st := (state O F).
Abbreviation handler := (M st Error).

#[local] Instance jail_fs : Filesystem st nat := Unpfs_Filesystem self.

(** The names of a request that become part of a fid's path. *)
Definition plain_names (body : Fcall) : Prop :=
  match body with
  | Twalk _ _ wnames => Forall (fun n => plain n) wnames
  | Tlcreate _ name _ _ _ => plain name
  | _ => True
  end.

Definition jailed (s : st) (f : Fid nat) : Prop :=
  (aux f < length (heap s))%nat /\ under (realroot self) (realpath (object f s)).

Lemma object_path f (s : st) : realpath (object f s) = default "" (realpath <$> heap s !! aux f).
Proof. unfold object. by destruct (heap s !! aux f). Qed.

(** ** Computations that keep every jailed fid jailed *)

Definition keeps_jail {A} (m : handler A) : Prop :=
  forall s f, jailed s f -> jailed (m s).2 f.

Lemma keeps_jail_paths {A} P (m : handler A) : touches P m -> keeps_paths m -> keeps_jail m.
Proof.
  intros Ht Hk s f [Hl Hu]. split; [by rewrite (proj1 (Ht s))|].
  by rewrite object_path, Hk, <- object_path.
Qed.

Lemma keeps_jail_nothing {A} (m : handler A) : touches nothing m -> keeps_jail m.
Proof. intros Ht. eapply keeps_jail_paths; [done|]. by apply touches_nothing_paths. Qed.

Lemma keeps_jail_bind {A B} (m : handler A) (k : A -> handler B) :
  keeps_jail m -> (forall a, keeps_jail (k a)) -> keeps_jail (m ≫= k).
Proof.
  intros Hm Hk s f Hf. specialize (Hm s f Hf). unfold mbind, M_bind.
  destruct (m s) as [[a|e] s1]; [by apply Hk|done].
Qed.

Lemma keeps_jail_ret {A} (a : A) : keeps_jail (mret a).
Proof. by intros s f. Qed.

Lemma set_realpath_jailed fid p (s : st) f :
  under (realroot self) p -> jailed s f -> jailed (set_realpath fid p s).2 f.
Proof.
  intros Hp [Hl Hu]. split; [simpl; by rewrite length_insert|].
  unfold object in *. simpl. destruct (decide (aux fid = aux f)) as [E|E].
  - by rewrite E, list_lookup_insert_eq.
  - by rewrite list_lookup_insert_ne.
Qed.

(** The fid whose path is set is jailed from then on. *)
Lemma set_realpath_self fid p (s : st) :
  under (realroot self) p -> (aux fid < length (heap s))%nat -> jailed (set_realpath fid p s).2 fid.
Proof.
  intros Hp Hl. split; [simpl; by rewrite length_insert|]. simpl. by rewrite object_set.
Qed.

Lemma keeps_jail_set_realpath fid p :
  under (realroot self) p -> keeps_jail (set_realpath fid p).
Proof. intros Hp s f. by apply set_realpath_jailed. Qed.

Lemma keeps_jail_set_file fid x : keeps_jail (set_file fid x).
Proof. eapply keeps_jail_paths; [apply touches_set_file|apply keeps_set_file]. Qed.

Lemma keeps_jail_rattach fid a u n i : keeps_jail (unpfs_rattach self fid a u n i).
Proof.
  apply keeps_jail_bind; [apply keeps_jail_set_realpath, under_root|]. intros _.
  apply keeps_jail_bind; [apply keeps_jail_nothing, touches_get_qid|intros; apply keeps_jail_ret].
Qed.

Lemma keeps_jail_rlopen fid flags : keeps_jail (unpfs_rlopen fid flags).
Proof. eapply keeps_jail_paths; [apply touches_rlopen|apply keeps_rlopen]. Qed.

Lemma jailed_rlcreate g name flags mode gid (s : st) f :
  jailed s g -> plain name -> jailed s f -> jailed (unpfs_rlcreate g name flags mode gid s).2 f.
Proof.
  intros [_ Hu] Hn Hf. pose proof (under_push _ _ _ Hu Hn) as Hp.
  unfold unpfs_rlcreate. rewrite (bind_ok _ _ _ (realpath (object g s)) s) by done. cbv zeta.
  lazymatch goal with |- jailed (?m s).2 f => apply (fun H : keeps_jail m => H s f Hf) end.
  apply keeps_jail_bind; [apply keeps_jail_nothing, touches_call|intros fd].
  apply keeps_jail_bind; [apply keeps_jail_nothing, touches_get_qid|intros qid].
  apply keeps_jail_bind; [by apply keeps_jail_set_realpath|intros []].
  apply keeps_jail_bind; [apply keeps_jail_set_file|intros []]. apply keeps_jail_ret.
Qed.

(** A walk from a jailed fid gives a jailed path. *)
Lemma walk_loop_under (s : st) p names :
  under (realroot self) p -> Forall (fun n => plain n) names ->
  (walk_loop 0 p [] names s).2 = s
  /\ forall q qs, (walk_loop 0 p [] names s).1 = Ok (q, qs) -> under (realroot self) q.
Proof.
  intros Hp Hn. rewrite walk_loop_run. destruct names as [|n ns]; [by split; [|intros ? ? [= <- <-]]|].
  destruct (qid_at (push p n) (os s)); simpl; (split; [done|]); intros ? ? [=].
  subst. apply (under_walk _ _ (n :: take _ ns)); [done|]. apply Forall_cons in Hn as [? ?].
  constructor; [done|]. by apply Forall_take.
Qed.

Lemma rwalk_jailed f g names (s : st) :
  jailed s f -> Forall (fun n => plain n) names ->
  (forall h, jailed s h -> jailed (unpfs_rwalk f g names s).2 h)
  /\ forall r, (unpfs_rwalk f g names s).1 = Ok r -> (aux g < length (heap s))%nat ->
     jailed (unpfs_rwalk f g names s).2 g.
Proof.
  intros [_ Hu] Hn. unfold unpfs_rwalk.
  rewrite (bind_ok _ _ _ (realpath (object f s)) s) by done.
  destruct (walk_loop_under s _ _ Hu Hn) as [Hs Hq]. unfold mbind, M_bind.
  destruct (walk_loop 0 (realpath (object f s)) [] names s) as [[[q qs]|e] s']; simpl in Hs; subst s';
    [|done]. specialize (Hq q qs eq_refl). split.
  - intros h Hh. by apply set_realpath_jailed.
  - intros r _ Hg. by apply set_realpath_self.
Qed.

(** Without plain names there is no jail: an absolute name becomes the path of
    the new fid, wherever the walk starts. *)
Lemma absolute_name_escapes f g name (s : st) r :
  is_absolute name = true -> (aux g < length (heap s))%nat ->
  (unpfs_rwalk f g [name] s).1 = Ok r -> realpath (object g (unpfs_rwalk f g [name] s).2) = name.
Proof.
  intros Ha Hg. unfold unpfs_rwalk. rewrite (bind_ok _ _ _ (realpath (object f s)) s) by done.
  unfold mbind, M_bind. rewrite walk_loop_run.
  assert (push (realpath (object f s)) name = name) as Hp by (unfold push; by rewrite Ha). rewrite Hp.
  destruct (qid_at name (os s)) as [q|e]; simpl; [|done]. intros _.
  rewrite object_set by done. simpl. by rewrite take_nil.
Qed.

(** ** One request *)

Definition table_jailed (d : served st nat) : Prop :=
  forall k f, fsfids d !! k = Some f -> jailed (fs d) f.

Lemma jailed_new_aux (s : st) f : jailed s f -> jailed (new_aux s).2 f.
Proof.
  intros [Hl Hu]. split; [simpl; rewrite length_app; simpl; lia|].
  unfold object in *. simpl. by rewrite lookup_app_l.
Qed.

Lemma jailed_make_newfid body (s : st) f : jailed s f -> jailed (make_newfid body s).2 f.
Proof. intros Hf. unfold make_newfid. destruct (newfid body); [by apply jailed_new_aux|done]. Qed.

Lemma make_newfid_fresh body (s : st) g :
  (make_newfid body s).1 = Some g -> (aux g < length (heap (make_newfid body s).2))%nat.
Proof.
  unfold make_newfid. destruct (newfid body); [|done]. intros [= <-]. simpl.
  rewrite length_app. simpl. lia.
Qed.

(** What the handler of a plain request does to the jail: jailed fids stay so,
    and the new fid of a successful request is jailed. *)
Definition handler_jails (n : option (Fid nat)) (s : st) (m : handler Fcall) : Prop :=
  (forall h, jailed s h -> jailed (m s).2 h)
  /\ forall r g, (m s).1 = Ok r -> n = Some g -> jailed (m s).2 g.

Lemma jails_none s m : (forall h, jailed s h -> jailed (m s).2 h) -> handler_jails None s m.
Proof. by split. Qed.

Lemma jails_keep s m : keeps_jail m -> handler_jails None s m.
Proof. intros Hm. apply jails_none. by apply Hm. Qed.

Lemma jails_throw n s e : handler_jails n s (throw e).
Proof. by split. Qed.

Lemma jails_get_fid (fids : gmap u32 (Fid nat)) k K n s :
  (forall f, fids !! k = Some f -> jailed s f) ->
  (forall f, jailed s f -> handler_jails n s (K f)) -> handler_jails n s (get_fid fids k ≫= K).
Proof.
  intros Ht HK. unfold handler_jails.
  assert ((get_fid fids k ≫= K) s
    = match fids !! k with Some x => K x s | None => (Err (No EBADF), s) end) as ->.
  { unfold get_fid, mbind, M_bind. by destruct (fids !! k). }
  destruct (fids !! k) as [f|] eqn:Ef; [|done]. apply HK. by apply Ht.
Qed.

Lemma call_handler_jails (d : served st nat) body m :
  table_jailed d -> plain_names body ->
  call_handler (fsfids d) (make_newfid body (fs d)).1 body = Some m ->
  handler_jails (make_newfid body (fs d)).1 (make_newfid body (fs d)).2 m.
Proof.
  intros Ht Hp Em.
  assert (forall k f, fsfids d !! k = Some f -> jailed (make_newfid body (fs d)).2 f) as Hs.
  { intros k f Hk. apply jailed_make_newfid. by eapply Ht. }
  pose proof (make_newfid_fresh body (fs d)) as Hfresh.
  destruct body; simpl in Em, Hs, Hfresh, Hp |- *; injection Em as <-;
    try apply jails_throw; repeat (apply jails_get_fid; [by apply Hs|intros ? ?]);
    try apply jails_throw; try (apply jails_keep, keeps_jail_nothing; eauto 2 with wire; fail).
  - apply jails_keep, keeps_jail_rlopen.
  - apply jails_none. intros h Hh. by apply jailed_rlcreate.
  - split; [intros h Hh; by apply keeps_jail_rattach|]. intros r g _ [= <-].
    unfold rattach, jail_fs, Unpfs_Filesystem, unpfs_rattach.
    rewrite (bind_ok _ _ _ tt (set_realpath _ _ _).2) by done.
    apply (keeps_jail_nothing (qid ← get_qid (realroot self); mret (Rattach qid))).
    + apply touches_bind; [apply touches_get_qid|intros; apply touches_ret].
    + apply set_realpath_self; [apply under_root|by apply Hfresh].
  - apply jails_keep, keeps_jail_ret.
  - destruct (rwalk_jailed f {| fid_raw := newfid; aux := length (heap (fs d)) |} wnames
      (new_aux (fs d)).2) as [H1 H2]; [done..|].
    split; [exact H1|]. intros r g Hr [= <-]. eapply H2; [exact Hr|]. by apply Hfresh.
  - apply jails_keep, keeps_jail_ret.
Qed.

Lemma run_handler_jails body (d d' : served st nat) r :
  table_jailed d -> plain_names body -> run_handler body d = Some (r, d') ->
  (forall h, jailed (fs d) h -> jailed (fs d') h)
  /\ forall resp g, r = Ok (resp, Some g) -> jailed (fs d') g.
Proof.
  intros Ht Hp Hr. unfold run_handler in Hr.
  pose proof (call_handler_jails d body) as Hc. pose proof (jailed_make_newfid body (fs d)) as Hn.
  destruct (make_newfid body (fs d)) as [n s]. simpl in Hc, Hn.
  destruct (call_handler (fsfids d) n body) as [m|]; [|done].
  destruct (Hc m Ht Hp eq_refl) as [H1 H2]. destruct (m s) as [r' s'] eqn:Em. simplify_eq/=.
  split; [by auto|]. intros resp g Hok. destruct r' as [r'|]; simplify_eq. by eapply H2.
Qed.

(** ** Every interleaving *)

Definition conn_jailed (c : conn st nat) : Prop :=
  table_jailed (shared c)
  /\ Forall (fun t => forall r g, task_phase t = Handled r (Some g) \/ task_phase t = Clunked r (Some g) ->
      jailed (fs (shared c)) g) (tasks c).

Definition plain_task (t : task nat) : Prop := plain_names (msg_body (task_msg t)).

Context `{NX : Nix}.

Lemma moves_jailed ok (t : task nat) d p d' frames :
  moves ok t d p d' frames -> plain_task t -> table_jailed d ->
  (forall r g, task_phase t = Handled r (Some g) \/ task_phase t = Clunked r (Some g) -> jailed (fs d) g) ->
  table_jailed d' /\ (forall h, jailed (fs d) h -> jailed (fs d') h)
  /\ forall r g, p = Handled r (Some g) \/ p = Clunked r (Some g) -> jailed (fs d') g.
Proof.
  intros Hm Hp Ht Hg.
  destruct Hm as [e d' Hph Hr|resp n d' Hph Hr|resp n Hph|resp n Hph|resp Hph Hr|resp Hph Hr|resp Hph Hr].
  - destruct (run_handler_jails _ _ _ _ Ht Hp Hr) as [H1 _].
    destruct (run_handler_spec (msg_body (task_msg t)) d) as (? & ? & E & Ef & _). simplify_eq.
    split; [|split; [done|(intros r0 g0 [?|?]; simplify_eq)]]. intros k f Hk. rewrite Ef in Hk. eauto.
  - destruct (run_handler_jails _ _ _ _ Ht Hp Hr) as [H1 H2].
    destruct (run_handler_spec (msg_body (task_msg t)) d) as (? & ? & E & Ef & _). simplify_eq.
    split; [|split; [done|]].
    + intros k f Hk. rewrite Ef in Hk. eauto.
    + intros r g [Hx|Hx]; simplify_eq. by eapply H2.
  - assert (fs (drop_clunked (msg_body (task_msg t)) d) = fs d) as Ed
      by (by destruct (msg_body (task_msg t))).
    split; [|split; [by rewrite Ed|]].
    + intros k f Hk. rewrite Ed. apply (Ht k).
      destruct (msg_body (task_msg t)); try done. simpl in Hk. by apply lookup_delete_Some in Hk as [_ ?].
    + intros r g [Hx|Hx]; simplify_eq. rewrite Ed. eauto.
  - split; [|split; [by destruct n|(intros r0 g0 [?|?]; simplify_eq)]].
    intros k f Hk. destruct n as [g|]; [|by eapply Ht]. simpl in Hk |- *.
    apply lookup_insert_Some in Hk as [[_ <-]|[_ Hk]]; eauto.
  - split; [done|]. split; [done|]. (intros r0 g0 [?|?]; simplify_eq).
  - split; [done|]. split; [done|]. (intros r0 g0 [?|?]; simplify_eq).
  - split; [done|]. split; [done|]. (intros r0 g0 [?|?]; simplify_eq).
Qed.

Context {R W : Type} `{BL : BytesBufLaws R W} `{FP : FromPrimitive MsgType}.

(** While every request read so far has plain names, every fid of the
    table has a path at or below the served root, in every reachable state. *)
Theorem fids_stay_below_root machine frames (c : conn st nat) k f :
  reachable (R := R) (W := W) {| os := machine; heap := [] |} frames c ->
  Forall plain_task (tasks c) ->
  fsfids (shared c) !! k = Some f -> under (realroot self) (realpath (object f (fs (shared c)))).
Proof.
  intros Hr Hp Hk. cut (conn_jailed c); [intros [Ht _]; by apply (Ht k f)|].
  revert Hp. clear Hk. revert c Hr.
  apply (reachable_ind_case (fun c => Forall plain_task (tasks c) -> conn_jailed c)); [by split|].
  intros l c c' IH Hs Hp.
  destruct Hs as [c Hs Hi|c e rest Hs Hi|c b e rest Hs Hi Hm|c b m rest Hs Hi Hm
    |c i ok t p d fr Hi Hm]; try (by apply IH).
  - simpl in Hp. apply Forall_app in Hp as [Hp _]. destruct (IH Hp) as [Ht Hg].
    split; [done|]. apply Forall_app. split; [done|]. apply Forall_singleton. by intros r g [?|?].
  - simpl in Hp.
    assert (Forall plain_task (tasks c)) as Hp'.
    { apply Forall_lookup_2. intros j u Hj. destruct (decide (i = j)) as [<-|Hij].
      - simplify_eq.
        apply (Forall_lookup_1 _ _ i {| task_msg := task_msg t; task_phase := p |} Hp).
        by eapply list_lookup_insert_eq, lookup_lt_Some.
      - eapply (Forall_lookup_1 _ _ j _ Hp). by rewrite list_lookup_insert_ne. }
    destruct (IH Hp') as [Ht Hg].
    destruct (moves_jailed _ _ _ _ _ _ Hm (Forall_lookup_1 _ _ _ _ Hp' Hi) Ht
      (Forall_lookup_1 _ _ _ _ Hg Hi)) as (Ht' & Hall & Hn).
    split; [done|]. apply Forall_insert; [|done].
    eapply Forall_impl; [exact Hg|]. intros u Hu r g Hx. eauto.
Qed.
End Jail.

(** ** Witness: an attach and a walk on the machine in memory *)

#[local] Existing Instance bitflags_ref.
#[local] Existing Instance from_u8_ref.
#[local] Existing Instance nix_ref.
#[local] Existing Instance bytes_ref.
#[local] Existing Instance bytes_ref_laws.
#[local] Existing Instance mem_os.

Definition srv_root : Unpfs := {| realroot := "/srv" |}.
#[local] Existing Instance jail_fs.

Definition walk_frames : list (result io_error (list byte)) := Ok ∘ wire <$> [
  {| msg_tag := 1; msg_body := Tattach 7 NOFID "u" "/" 0 |};
  {| msg_tag := 2; msg_body := Twalk 7 8 ["etc"] |} ].

Definition walk_labels : list label := [Recv; Run 0 true; Run 0 true; Run 0 true; Run 0 true;
  Recv; Run 1 true; Run 1 true; Run 1 true].

Definition walk_run : option (conn (state machine string) nat) :=
  exec (FS := Unpfs_Filesystem srv_root) (R := list byte) (W := list byte) walk_labels
    (conn_init {| os := tree; heap := [] |} walk_frames).

Lemma fids_stay_below_root_witness :
  exists c f, walk_run = Some c /\ fsfids (shared c) !! (8 : u32) = Some f
    /\ realpath (object f (fs (shared c))) = "/srv/etc"
    /\ under "/srv" (realpath (object f (fs (shared c)))).
Proof.
  eexists _, _. split; [vm_compute; reflexivity|]. split; [vm_compute; reflexivity|].
  split; [vm_compute; reflexivity|].
  eapply (fids_stay_below_root srv_root (R := list byte) (W := list byte) tree walk_frames _ 8).
  - eapply exec_reachable with (ls := walk_labels); [apply rtc_refl|].
    vm_compute. reflexivity.
  - repeat constructor.
  - vm_compute. reflexivity.
Defined.
