(* ===== verification/Proc.v ===== *)
(** * Handlers as processes

    The server spawns a task for each request, and the tasks run on several
    threads, so that between two calls a handler makes any number of calls of
    other handlers may come.  A process is a handler cut into its calls: it
    has returned, or it makes a call (a computation on the shared state that
    nothing comes between) and goes on with its result, or it takes or leaves
    one of the locks of a fid's object. *)

From S2P Require Import Prelude Error.

(** The locks of the object at an address: [realpath] is an [RwLock], [file] a
    [Mutex]. *)
Inductive lock : Set :=
  | PathRead (n : nat)
  | PathWrite (n : nat)
  | FileLock (n : nat).

#[export] Instance lock_eq_dec : EqDecision lock.
Proof. solve_decision. Defined.

(** Whether two tasks cannot hold both. *)
Definition conflict (l l' : lock) : bool :=
  match l, l' with
  | PathWrite m, (PathRead n | PathWrite n) | PathRead m, PathWrite n | FileLock m, FileLock n => (m =? n)%nat
  | _, _ => false
  end.

Section Proc.
Context {S : Type}.

Inductive proc (A : Type) : Type :=
  | Return (r : result Error A)
  | Call {X : Type} (m : M S Error X) (k : result Error X -> proc A)
  | Acquire (l : lock) (k : proc A)
  | Release (l : lock) (k : proc A).
#[global] Arguments Return {A} r.
#[global] Arguments Call {A X} m k.
#[global] Arguments Acquire {A} l k.
#[global] Arguments Release {A} l k.

#[export] Instance proc_ret : MRet proc := fun A a => Return (Ok a).

Fixpoint proc_bind {A B} (f : A -> proc B) (p : proc A) : proc B :=
  match p with
  | Return (Ok a) => f a
  | Return (Err e) => Return (Err e)
  | Call m k => Call m (fun r => proc_bind f (k r))
  | Acquire l k => Acquire l (proc_bind f k)
  | Release l k => Release l (proc_bind f k)
  end.

#[export] Instance proc_mbind : MBind proc := fun A B => proc_bind.

(** A call; its error is the handler's. *)
Definition act {A} (m : M S Error A) : proc A := Call m Return.

(** The error as a value, as in a [match]. *)
Fixpoint attempt {A} (p : proc A) : proc (result Error A) :=
  match p with
  | Return r => Return (Ok r)
  | Call m k => Call m (fun r => attempt (k r))
  | Acquire l k => Acquire l (attempt k)
  | Release l k => Release l (attempt k)
  end.

(** A block that begins by locking: the guard goes when the block is left,
    also by an error. *)
Definition locked {A} (l : lock) (p : proc A) : proc A :=
  Acquire l (r ← attempt p; Release l (Return r)).

(** ** A process on its own *)

Fixpoint alone {A} (p : proc A) : M S Error A :=
  match p with
  | Return r => fun s => (r, s)
  | Call m k => fun s => let '(r, s) := m s in alone (k r) s
  | Acquire _ k | Release _ k => alone k
  end.

Lemma alone_bind {A B} (p : proc A) (f : A -> proc B) s :
  alone (p ≫= f) s = (let '(r, s) := alone p s in
    match r with Ok a => alone (f a) s | Err e => (Err e, s) end).
Proof.
  revert s. unfold mbind, proc_mbind. induction p as [[a|e]|X m k IH|l k IH|l k IH]; intros s; simpl; try done.
  destruct (m s) as [r s']. apply IH.
Qed.

Lemma alone_attempt {A} (p : proc A) s :
  alone (attempt p) s = (let '(r, s) := alone p s in (Ok r, s)).
Proof.
  revert s. induction p as [r|X m k IH|l k IH|l k IH]; intros s; simpl; try done.
  destruct (m s) as [r s']. apply IH.
Qed.

Lemma alone_locked {A} l (p : proc A) s : alone (locked l p) s = alone p s.
Proof.
  unfold locked. simpl. rewrite alone_bind, alone_attempt. by destruct (alone p s) as [[a|e] s'].
Qed.

Lemma alone_act {A} (m : M S Error A) s : alone (act m) s = m s.
Proof. unfold act. simpl. by destruct (m s). Qed.

(** ** A process among others *)

(** What is left of it, and the locks its task holds. *)
Record running (A : Type) := { rest : proc A; locks : list lock }.
#[global] Arguments rest {A}.
#[global] Arguments locks {A}.

(** Whether [l] can be taken when the tasks hold [held]. *)
Definition can_take (l : lock) (held : list lock) : bool := negb (existsb (conflict l) held).

(** Its next move; [None] when it has to wait, or has returned. *)
Definition running_step {A} (held : list lock) (x : running A) (s : S) : option (running A * S) :=
  match rest x with
  | Return _ => None
  | Call m k => let '(r, s) := m s in Some ({| rest := k r; locks := locks x |}, s)
  | Acquire l k => if can_take l held then Some ({| rest := k; locks := l :: locks x |}, s) else None
  | Release l k => Some ({| rest := k; locks := filter (fun l' => l' <> l) (locks x) |}, s)
  end.

(** ** The locks a process takes *)

(** Started with the locks [h] in hand (the last taken first), it takes one at
    a time, leaves those it took, and returns with none. *)
Fixpoint disciplined {A} (h : list lock) (p : proc A) : Prop :=
  match p with
  | Return _ => h = []
  | Call _ k => forall r, disciplined h (k r)
  | Acquire l k => h = [] /\ disciplined [l] k
  | Release l k => h = [l] /\ disciplined [] k
  end.

Lemma disciplined_bind {A B} (p : proc A) (f : A -> proc B) h :
  disciplined h p -> (forall a, disciplined [] (f a)) -> disciplined h (p ≫= f).
Proof.
  unfold mbind, proc_mbind. intros Hp Hf. revert h Hp.
  induction p as [[a|e]|X m k IH|l k IH|l k IH]; intros h Hp; simpl in *; try done.
  - by rewrite Hp.
  - intros r. apply IH, Hp.
  - destruct Hp as [-> Hp]. split; [done|by apply IH].
  - destruct Hp as [-> Hp]. split; [done|by apply IH].
Qed.

(** Calls only. *)
Fixpoint lock_free {A} (p : proc A) : Prop :=
  match p with
  | Return _ => True
  | Call _ k => forall r, lock_free (k r)
  | Acquire _ _ | Release _ _ => False
  end.

Lemma disciplined_block {A B} l (p : proc A) (k : result Error A -> proc B) :
  lock_free p -> (forall r, disciplined [l] (k r)) -> disciplined [l] (r ← attempt p; k r).
Proof.
  unfold mbind, proc_mbind. intros Hp Hk. induction p as [r|X m c IH|l' c IH|l' c IH]; simpl in *; try done.
  intros r. by apply IH.
Qed.

Lemma disciplined_locked {A} l (p : proc A) : lock_free p -> disciplined [] (locked l p).
Proof. intros Hp. split; [done|]. by apply disciplined_block. Qed.

Lemma disciplined_free {A} (p : proc A) : lock_free p -> disciplined [] p.
Proof. induction p as [r|X m k IH|l k IH|l k IH]; simpl; try done. intros Hp r. by apply IH. Qed.

Lemma free_bind {A B} (p : proc A) (f : A -> proc B) :
  lock_free p -> (forall a, lock_free (f a)) -> lock_free (p ≫= f).
Proof.
  unfold mbind, proc_mbind. intros Hp Hf. induction p as [[a|e]|X m k IH|l k IH|l k IH]; simpl in *; try done.
  intros r. by apply IH.
Qed.

Lemma free_attempt {A} (p : proc A) : lock_free p -> lock_free (attempt p).
Proof. induction p as [r|X m k IH|l k IH|l k IH]; simpl; try done. intros Hp r. by apply IH. Qed.

(** ** What it returns, and how it ends *)

(** Whatever the calls give, a result is one of [P]. *)
Fixpoint returns {A} (P : A -> Prop) (p : proc A) : Prop :=
  match p with
  | Return (Ok a) => P a
  | Return (Err _) => True
  | Call _ k => forall r, returns P (k r)
  | Acquire _ k | Release _ k => returns P k
  end.

Lemma returns_bind {A B} (P : B -> Prop) (p : proc A) (f : A -> proc B) :
  (forall a, returns P (f a)) -> returns P (p ≫= f).
Proof. unfold mbind, proc_mbind. intros Hf. induction p as [[a|e]|X m k IH|l k IH|l k IH]; simpl in *; auto. Qed.

(** What is left of a process after a move. *)
Definition after {A} (q p : proc A) : Prop :=
  match p with
  | Return _ => False
  | Call _ k => exists r, q = k r
  | Acquire _ k | Release _ k => q = k
  end.

(** A process makes a finite number of moves. *)
Lemma after_wf {A} (p : proc A) : Acc after p.
Proof.
  induction p as [r|X m k IH|l k IH|l k IH]; constructor; intros q Hq; simpl in Hq.
  - destruct Hq.
  - destruct Hq as [r ->]. apply IH.
  - subst q. exact IH.
  - subst q. exact IH.
Qed.

Lemma running_step_after {A} held (x y : running A) s s' :
  running_step held x s = Some (y, s') -> after (rest y) (rest x).
Proof.
  unfold running_step. destruct (rest x) as [r|X m k|l k|l k]; simpl; [done|..].
  - destruct (m s) as [r s1]. intros [= <- _]. by exists r.
  - destruct (can_take l held); [|done]. by intros [= <- _].
  - by intros [= <- _].
Qed.

Lemma running_step_returns {A} (P : A -> Prop) held (x y : running A) s s' :
  running_step held x s = Some (y, s') -> returns P (rest x) -> returns P (rest y).
Proof.
  intros Hs%running_step_after. destruct (rest x) as [r|X m k|l k|l k]; simpl in Hs |- *; [done|..].
  - destruct Hs as [r ->]. intros Hp. apply Hp.
  - by rewrite Hs.
  - by rewrite Hs.
Qed.

(** ** Its locks *)

Definition well_locked {A} (x : running A) : Prop := disciplined (locks x) (rest x).

Lemma running_step_well_locked {A} held (x y : running A) s s' :
  running_step held x s = Some (y, s') -> well_locked x -> well_locked y.
Proof.
  unfold running_step, well_locked. destruct (rest x) as [r|X m k|l k|l k]; simpl; [done|..].
  - destruct (m s) as [r s1]. intros [= <- _] Hk. apply Hk.
  - destruct (can_take l held); [|done]. intros [= <- _] [E Hk]. simpl. by rewrite E.
  - intros [= <- _] [E Hk]. rewrite E. simpl. rewrite filter_cons_False by auto. done.
Qed.

(** A process that has not returned moves, or waits for a lock that another
    task holds; one that holds a lock moves. *)
Lemma running_stuck {A} held (x : running A) s :
  well_locked x -> running_step held x s = None ->
  (exists r, rest x = Return r /\ locks x = [])
  \/ exists l k l', rest x = Acquire l k /\ locks x = [] /\ l' ∈ held /\ conflict l l' = true.
Proof.
  unfold running_step, well_locked. destruct (rest x) as [r|X m k|l k|l k]; simpl.
  - intros E _. left. by exists r.
  - by destruct (m s).
  - intros [E0 _]. destruct (can_take l held) eqn:E; [done|]. intros _. right. exists l, k.
    unfold can_take in E. apply negb_false_iff, existsb_exists in E as (l' & Hl & Hc). exists l'.
    by rewrite list_elem_of_In.
  - done.
Qed.
End Proc.
Arguments proc : clear implicits.
Arguments running : clear implicits.

(** [proc]: which processes take and leave their locks in turn. *)
Create HintDb proc discriminated.
#[export] Hint Resolve disciplined_locked disciplined_free : proc.
