(* ===== verification/UnpfsSteps.v ===== *)
(** * The file server, call by call (crates/9p/src/unpfs.rs)

    The handlers of Unpfs.v as processes: every call of the operating system
    is a step of its own, and so is every use of a fid's object, under the
    lock the code takes and for as long as the code holds it. *)

From S2P Require Import Prelude Bytes Io Error Fcall Serialize Srv Path Unpfs Proc.

Section UnpfsSteps.
Context {O F D FT : Type} `{OS : OsCalls O F D FT} `{BF : Bitflags}.

Abbreviation st := (state O F).
Abbreviation process := (proc st Fcall).

(** [{ let realpath = fid.aux.realpath.read().await; realpath.clone() }] *)
Definition path_of (fid : Fid nat) : proc st PathBuf := locked (PathRead (aux fid)) (act (get_realpath fid)).

(** [{ let mut realpath = fid.aux.realpath.write().await; *realpath = path }] *)
Definition assign_path (fid : Fid nat) (path : PathBuf) : proc st unit :=
  locked (PathWrite (aux fid)) (act (set_realpath fid path)).

(** [{ let mut file = fid.aux.file.lock().await; *file = Some(..) }] *)
Definition assign_file (fid : Fid nat) (fd : F) : proc st unit :=
  locked (FileLock (aux fid)) (act (set_file fid (Some fd))).

(** A call of the operating system; [?] converts its error. *)
Definition io_act {A} (m : M O io_error A) : proc st A := act (call Error_from_io m).
Definition nix_act {A} (m : M O Errno A) : proc st A := act (call Error_from_nix m).

(** [if c { .. }] *)
Definition when_act (c : bool) (p : proc st unit) : proc st unit := if c then p else mret tt.

Definition p_rattach (self : Unpfs) (fid : Fid nat) : process :=
  _ ← assign_path fid (realroot self);
  qid ← act (get_qid (realroot self));
  mret (Rattach qid).

Fixpoint p_walk_loop (i : nat) (path : PathBuf) (wqids : list Qid) (wnames : list string)
    : proc st (PathBuf * list Qid) :=
  match wnames with
  | [] => mret (path, wqids)
  | name :: wnames =>
      let path := push path name in
      Call (get_qid path) (fun r =>
        match r with
        | Ok qid => p_walk_loop (S i) path (wqids ++ [qid]) wnames
        | Err e => if (i =? 0)%nat then Return (Err e) else mret (path, wqids)
        end)
  end.

Definition p_rwalk (fid newfid : Fid nat) (wnames : list string) : process :=
  path ← path_of fid;
  '(path, wqids) ← p_walk_loop 0 path [] wnames;
  _ ← assign_path newfid path;
  mret (Rwalk wqids).

Definition p_rgetattr (fid : Fid nat) (req_mask : GetattrMask) : process :=
  attr ← locked (PathRead (aux fid))
    (path ← act (get_realpath fid); io_act (look (symlink_metadata path)));
  mret (Rgetattr req_mask (qid_from_attr attr) (Stat_from_metadata attr)).

Definition p_rsetattr (fid : Fid nat) (valid : SetattrMask) (stat : SetAttr) : process :=
  filepath ← path_of fid;
  _ ← when_act (contains valid SetattrMasks.MODE) (io_act (set_permissions filepath (setattr_mode stat)));
  _ ← when_act (intersects valid (Z.lor SetattrMasks.UID SetattrMasks.GID))
    (nix_act (chown filepath
      (if contains valid SetattrMasks.UID then Some (setattr_uid stat) else None)
      (if contains valid SetattrMasks.GID then Some (setattr_gid stat) else None)));
  _ ← when_act (contains valid SetattrMasks.SIZE)
    (f ← io_act (open_for_write filepath); io_act (set_len f (setattr_size stat)));
  _ ← when_act (intersects valid (Z.lor SetattrMasks.ATIME_SET SetattrMasks.MTIME_SET))
    (attr ← io_act (look (metadata filepath));
     let atime :=
       if contains valid SetattrMasks.ATIME_SET
       then from_unix_time (as_i64 (sec (setattr_atime stat))) (wrap 32 (nsec (setattr_atime stat)))
       else from_last_access_time attr in
     let mtime :=
       if contains valid SetattrMasks.MTIME_SET
       then from_unix_time (as_i64 (sec (setattr_mtime stat))) (wrap 32 (nsec (setattr_mtime stat)))
       else from_last_modification_time attr in
     act (ignore (call Error_from_io (set_file_times filepath atime mtime))));
  mret Rsetattr.

Definition p_rreadlink (fid : Fid nat) : process :=
  link ← locked (PathRead (aux fid)) (path ← act (get_realpath fid); io_act (read_link path));
  mret (Rreadlink (to_string_lossy link)).

Fixpoint p_readdir_loop (i : usize) (count : u32) (dirents : DirEntryData)
    (entries : list (result io_error D)) : proc st DirEntryData :=
  match entries with
  | [] => mret dirents
  | Err e :: _ => Return (Err (Error_from_io e))
  | Ok entry :: entries =>
      dirent ← act (get_dirent entry (wrap 64 (2 + i)));
      if count <? wrap 32 (DirEntryData_size dirents + DirEntry_size dirent) then mret dirents
      else p_readdir_loop (i + 1) count (DirEntryData_push dirents dirent) entries
  end.

Definition p_rreaddir (fid : Fid nat) (off : u64) (count : u32) : process :=
  '(dirents, offset) ← (
    if off =? 0 then
      dot ← act (get_dirent_from "." 0);
      dotdot ← act (get_dirent_from ".." 1);
      mret (DirEntryData_push (DirEntryData_push DirEntryData_new dot) dotdot, off)
    else mret (DirEntryData_new, off - 1));
  entries ← locked (PathRead (aux fid)) (path ← act (get_realpath fid); io_act (read_dir path));
  dirents ← p_readdir_loop offset count dirents (drop (Z.to_nat offset) entries);
  mret (Rreaddir dirents).

Definition p_rlopen (fid : Fid nat) (flags : u32) : process :=
  path ← path_of fid;
  qid ← act (get_qid path);
  _ ← when_act (negb (contains (qid_typ qid) QidTypes.DIR))
    (fd ← nix_act (nix_open path (open_flags flags) (from_bits_truncate mode_all 0));
     assign_file fid fd);
  mret (Rlopen qid 0).

Definition p_rlcreate (fid : Fid nat) (name : string) (flags mode : u32) : process :=
  dir ← path_of fid;
  let path := join dir name in
  fd ← nix_act (nix_open path (open_flags flags) (from_bits_truncate mode_all mode));
  qid ← act (get_qid path);
  _ ← assign_path fid path;
  _ ← assign_file fid fd;
  mret (Rlcreate qid 0).

Definition p_rread (fid : Fid nat) (offset : u64) (count : u32) : process :=
  buf ← locked (FileLock (aux fid))
    (f ← act (get_open_file fid);
     _ ← io_act (seek f offset);
     '(bytes, buf) ← io_act (read f (create_buffer (Z.to_nat count)));
     mret (take bytes buf));
  mret (Rread {| data_bytes := buf |}).

Definition p_rwrite (fid : Fid nat) (offset : u64) (data : Data) : process :=
  count ← locked (FileLock (aux fid))
    (f ← act (get_open_file fid);
     _ ← io_act (seek f offset);
     io_act (write f (data_bytes data)));
  mret (Rwrite (wrap 32 count)).

Definition p_rmkdir (dfid : Fid nat) (name : string) : process :=
  dir ← path_of dfid;
  let path := join dir name in
  _ ← io_act (create_dir path);
  qid ← act (get_qid path);
  mret (Rmkdir qid).

Definition p_rrenameat (olddir : Fid nat) (oldname : string) (newdir : Fid nat) (newname : string) : process :=
  old ← path_of olddir;
  new ← path_of newdir;
  _ ← io_act (rename (join old oldname) (join new newname));
  mret Rrenameat.

Definition p_runlinkat (dirfid : Fid nat) (name : string) : process :=
  dir ← path_of dirfid;
  let path := join dir name in
  attr ← io_act (look (symlink_metadata path));
  _ ← (if is_dir (md_file_type attr) then io_act (remove_dir path) else io_act (remove_file path));
  mret Runlinkat.

Definition p_rfsync (fid : Fid nat) : process :=
  _ ← locked (FileLock (aux fid)) (f ← act (get_open_file fid); io_act (sync_all f));
  mret Rfsync.

Definition p_rstatfs (fid : Fid nat) : process :=
  path ← path_of fid;
  fs ← nix_act (statvfs path);
  mret (Rstatfs (Statfs_from_statvfs fs)).

(** ** The call a request stands for *)

Definition lookup_fid (fids : gmap u32 (Fid nat)) (fid : u32) : proc st (Fid nat) :=
  Return (match fids !! fid with Some f => Ok f | None => Err (No EBADF) end).

(** A method [Unpfs] leaves to the trait, on the fids it gets. *)
Fixpoint provided_on (fids : gmap u32 (Fid nat)) (l : list u32) : process :=
  match l with
  | [] => Return (Err (No EOPNOTSUPP))
  | fid :: l => _ ← lookup_fid fids fid; provided_on fids l
  end.

(** [dispatch_once]'s [match msg.body].  The methods [Unpfs] leaves to the
    trait make no call; those that look up a fid first fail when it is not there. *)
Definition call_process (self : Unpfs) (fids : gmap u32 (Fid nat)) (newfid : option (Fid nat)) (body : Fcall)
    : option process :=
  let get_fid := lookup_fid fids in
  let provided_on := provided_on fids in
  match body with
  | Tstatfs fid => Some (f ← get_fid fid; p_rstatfs f)
  | Tlopen fid flags => Some (f ← get_fid fid; p_rlopen f flags)
  | Tlcreate fid name flags mode _ => Some (f ← get_fid fid; p_rlcreate f name flags mode)
  | Tsymlink fid _ _ _ | Tmknod fid _ _ _ _ _ | Txattrcreate fid _ _ _ | Tlock fid _ | Tgetlock fid _
  | Tremove fid => Some (provided_on [fid])
  | Trename fid dfid _ => Some (provided_on [fid; dfid])
  | Tlink dfid fid _ => Some (provided_on [dfid; fid])
  | Txattrwalk fid _ _ => unwrap newfid (fun _ => provided_on [fid])
  | Tauth _ _ _ _ => unwrap newfid (fun _ => provided_on [])
  | Tflush _ => Some (provided_on [])
  | Treadlink fid => Some (f ← get_fid fid; p_rreadlink f)
  | Tgetattr fid req_mask => Some (f ← get_fid fid; p_rgetattr f req_mask)
  | Tsetattr fid valid stat => Some (f ← get_fid fid; p_rsetattr f valid stat)
  | Treaddir fid offset count => Some (f ← get_fid fid; p_rreaddir f offset count)
  | Tfsync fid => Some (f ← get_fid fid; p_rfsync f)
  | Tmkdir dfid name _ _ => Some (f ← get_fid dfid; p_rmkdir f name)
  | Trenameat olddirfid oldname newdirfid newname =>
      Some (o ← get_fid olddirfid; n ← get_fid newdirfid; p_rrenameat o oldname n newname)
  | Tunlinkat dirfd name _ => Some (f ← get_fid dirfd; p_runlinkat f name)
  | Tattach _ _ _ _ _ => unwrap newfid (p_rattach self)
  | Tversion msize version =>
      Some (Return (Ok (Rversion msize (if decide (version = P92000L) then version else VERSION_UNKNOWN))))
  | Twalk fid _ wnames => unwrap newfid (fun n => f ← get_fid fid; p_rwalk f n wnames)
  | Tread fid offset count => Some (f ← get_fid fid; p_rread f offset count)
  | Twrite fid offset data => Some (f ← get_fid fid; p_rwrite f offset data)
  | Tclunk fid => Some (f ← get_fid fid; mret Rclunk)
  | _ => Some (Return (Err (No EOPNOTSUPP)))
  end.
End UnpfsSteps.
