(* ===== verification/UnpfsAlone.v ===== *)
(** * The processes of the file server, on their own

    A handler that nothing comes between is the handler of Unpfs.v: the
    processes are those handlers cut into their calls. *)

From S2P Require Import Prelude Bytes Io Error Fcall Serialize Srv Path Unpfs Proc UnpfsSteps.

(** [same]: processes and the computations they are on their own. *)
Create HintDb same discriminated.

Section Alone.
Context {O F D FT : Type} `{OS : OsCalls O F D FT} `{BF : Bitflags}.

Abbreviation st := (state O F).

Definition same {A} (p : proc st A) (m : M st Error A) : Prop := forall s, alone p s = m s.

Lemma same_bind {A B} (p : proc st A) (m : M st Error A) (f : A -> proc st B) (k : A -> M st Error B) :
  same p m -> (forall a, same (f a) (k a)) -> same (p ≫= f) (m ≫= k).
Proof.
  intros Hp Hf s. rewrite alone_bind, Hp. unfold mbind, M_bind. destruct (m s) as [[a|e] s']; [apply Hf|done].
Qed.

Lemma same_ret {A} (a : A) : same (mret a) (mret a).
Proof. done. Qed.

Lemma same_act {A} (m : M st Error A) : same (act m) m.
Proof. intros s. apply alone_act. Qed.

Lemma same_io {A} (m : M O io_error A) : same (io_act m) (call Error_from_io m).
Proof. apply same_act. Qed.

Lemma same_nix {A} (m : M O Errno A) : same (nix_act m) (call Error_from_nix m).
Proof. apply same_act. Qed.

Lemma same_locked {A} l (p : proc st A) m : same p m -> same (locked l p) m.
Proof. intros Hp s. rewrite alone_locked. apply Hp. Qed.

Lemma same_path_of fid : same (path_of fid) (get_realpath fid).
Proof. apply same_locked, same_act. Qed.

Lemma same_assign_path fid p : same (assign_path fid p) (set_realpath fid p).
Proof. apply same_locked, same_act. Qed.

Lemma same_assign_file fid f : same (assign_file fid f) (set_file fid (Some f)).
Proof. apply same_locked, same_act. Qed.

Lemma same_when c p m : same p m -> same (when_act c p) (when c m).
Proof. by destruct c. Qed.

Lemma same_lookup fids f : same (lookup_fid fids f) (get_fid fids f).
Proof. unfold lookup_fid, get_fid. by destruct (fids !! f). Qed.

#[local] Hint Resolve same_ret same_act same_io same_nix same_locked same_path_of same_assign_path
  same_assign_file same_when same_lookup : same.

(** Call by call. *)
Ltac match_calls :=
  repeat (apply same_bind; [|intros ?]);
  try match goal with
  | |- same (let '(_, _) := ?x in _) _ => destruct x
  | |- same (match ?x with (_, _) => _ end) _ => destruct x
  | |- same (if ?c then _ else _) _ => destruct c
  | |- same (when_act _ _) _ => apply same_when
  | |- same (locked _ _) _ => apply same_locked
  end.

Lemma same_walk_loop names : forall i path qids, same (p_walk_loop i path qids names) (walk_loop i path qids names).
Proof.
  induction names as [|n ns IH]; intros i path qids s; [done|].
  cbn [p_walk_loop walk_loop alone]. unfold mbind, M_bind, try_.
  destruct (get_qid (push path n) s) as [[q|e] s1]; [apply IH|by destruct (i =? 0)%nat].
Qed.

Lemma same_readdir_loop entries : forall i count dirents,
  same (p_readdir_loop i count dirents entries) (readdir_loop i count dirents entries).
Proof.
  induction entries as [|[e|e] es IH]; intros i count ds; cbn [p_readdir_loop readdir_loop]; [done| |done].
  intros s. rewrite (bind_ok _ _ _ e s) by done. revert s.
  apply same_bind; [auto with same|]. intros d. destruct (_ <? _); [done|apply IH].
Qed.

#[local] Hint Resolve same_walk_loop same_readdir_loop : same.

(** A block that makes several calls under a lock. *)
Lemma same_block {A B C} l (p : proc st A) (m : M st Error A) (f : A -> proc st B) (g : B -> proc st C) k :
  same p m -> (forall a, same (locked l (f a) ≫= g) (k a)) -> same (locked l (p ≫= f) ≫= g) (m ≫= k).
Proof.
  intros Hp Hf s. rewrite alone_bind, alone_locked, alone_bind, Hp. unfold mbind, M_bind.
  destruct (m s) as [[a|e] s1]; [|done]. specialize (Hf a s1). by rewrite alone_bind, alone_locked in Hf.
Qed.

Lemma same_block_end {A B} l (a : A) (g : A -> proc st B) m : same (g a) m -> same (locked l (mret a) ≫= g) m.
Proof. intros Hg s. rewrite alone_bind, alone_locked. apply Hg. Qed.

Lemma same_rread fid off count : same (p_rread fid off count) (unpfs_rread fid off count).
Proof.
  apply same_block; [auto with same|intros f]. apply same_block; [auto with same|intros ?].
  apply same_block; [auto with same|intros [n buf]]. by apply same_block_end.
Qed.

Lemma same_rwrite fid off data : same (p_rwrite fid off data) (unpfs_rwrite fid off data).
Proof.
  apply same_block; [auto with same|intros f]. apply same_block; [auto with same|intros ?].
  apply same_bind; auto with same.
Qed.

Lemma same_rfsync fid : same (p_rfsync fid) (unpfs_rfsync fid).
Proof. apply same_block; [auto with same|intros f]. apply same_bind; auto with same. Qed.

Lemma same_rgetattr fid mask : same (p_rgetattr fid mask) (unpfs_rgetattr fid mask).
Proof. apply same_block; [auto with same|intros p]. apply same_bind; auto with same. Qed.

Lemma same_rreadlink fid : same (p_rreadlink fid) (unpfs_rreadlink fid).
Proof. apply same_block; [auto with same|intros p]. apply same_bind; auto with same. Qed.

Lemma same_rreaddir fid off count : same (p_rreaddir fid off count) (unpfs_rreaddir fid off count).
Proof.
  apply same_bind.
  - destruct (off =? 0); [|done]. match_calls; auto with same.
  - intros [ds o]. apply same_block; [auto with same|intros p]. apply same_bind; [auto with same|intros es].
    match_calls; auto with same.
Qed.

Lemma same_rsetattr fid valid stat : same (p_rsetattr fid valid stat) (unpfs_rsetattr fid valid stat).
Proof.
  unfold p_rsetattr, unpfs_rsetattr. apply same_bind; [auto with same|intros p].
  do 4 (apply same_bind; [apply same_when; match_calls; auto with same|intros ?]). done.
Qed.

Lemma same_rattach self fid a u n i : same (p_rattach self fid) (unpfs_rattach self fid a u n i).
Proof. unfold p_rattach, unpfs_rattach. match_calls; auto with same. Qed.

Lemma same_rwalk fid newfid names : same (p_rwalk fid newfid names) (unpfs_rwalk fid newfid names).
Proof.
  unfold p_rwalk, unpfs_rwalk. apply same_bind; [auto with same|intros p]. apply same_bind; [auto with same|].
  intros [q qs]. match_calls; auto with same.
Qed.

Lemma same_rlopen fid flags : same (p_rlopen fid flags) (unpfs_rlopen fid flags).
Proof.
  unfold p_rlopen, unpfs_rlopen. do 2 (apply same_bind; [auto with same|intros ?]).
  apply same_bind; [|done]. apply same_when. match_calls; auto with same.
Qed.

Lemma same_rlcreate fid name flags mode gid : same (p_rlcreate fid name flags mode) (unpfs_rlcreate fid name flags mode gid).
Proof. unfold p_rlcreate, unpfs_rlcreate. match_calls; auto with same. Qed.

Lemma same_rmkdir fid name mode gid : same (p_rmkdir fid name) (unpfs_rmkdir fid name mode gid).
Proof. unfold p_rmkdir, unpfs_rmkdir. match_calls; auto with same. Qed.

Lemma same_rrenameat fid name fid2 name2 :
  same (p_rrenameat fid name fid2 name2) (unpfs_rrenameat fid name fid2 name2).
Proof. unfold p_rrenameat, unpfs_rrenameat. match_calls; auto with same. Qed.

Lemma same_runlinkat fid name flags : same (p_runlinkat fid name) (unpfs_runlinkat fid name flags).
Proof.
  unfold p_runlinkat, unpfs_runlinkat. do 2 (apply same_bind; [auto with same|intros ?]).
  apply same_bind; [|done]. match_calls; auto with same.
Qed.

Lemma same_rstatfs fid : same (p_rstatfs fid) (unpfs_rstatfs fid).
Proof. unfold p_rstatfs, unpfs_rstatfs. match_calls; auto with same. Qed.

#[local] Hint Resolve same_rread same_rwrite same_rfsync same_rgetattr same_rreadlink same_rreaddir
  same_rsetattr same_rattach same_rwalk same_rlopen same_rlcreate same_rmkdir same_rrenameat
  same_runlinkat same_rstatfs : same.

(** ** Every request *)

(** Both there, and the same; or neither. *)
Definition same_call (p : option (proc st Fcall)) (m : option (M st Error Fcall)) : Prop :=
  match p, m with Some p, Some m => same p m | None, None => True | _, _ => False end.

(** The handlers that the interleaved file server runs call by call are
    the handlers of the file server: for every request, the process run with
    nothing in between gives the response and the state that the handler
    gives, and one is there exactly when the other is. *)
Theorem processes_refine_handlers self (fids : gmap u32 (Fid nat)) newfid body :
  same_call (call_process self fids newfid body)
    (call_handler (FS := Unpfs_Filesystem self) fids newfid body).
Proof.
  destruct body; cbn [call_process call_handler same_call provided_on]; try done;
    try (destruct newfid; cbv [unwrap fmap option_fmap option_map]; cbn [same_call provided_on]; [|done]);
    repeat lazymatch goal with
    | |- same (lookup_fid _ _ ≫= _) _ => apply same_bind; [auto with same|intros ?]
    end; first [done|apply same_rlcreate|apply same_rmkdir|apply same_runlinkat|apply same_rattach|auto with same].
Qed.
End Alone.
