(* ===== verification/FsLoop.v ===== *)
(** * The server loop with running handlers (crates/9p/src/srv.rs, unpfs.rs)

    Dispatch.v has a handler as one step.  Here a handler runs as the process
    of UnpfsSteps.v, call by call, next to those of the other requests; it
    keeps the read lock of the fid table until it has returned, and the two
    writers of the table wait until no handler runs.  The reading of requests
    and the sending of replies are those of Dispatch.v.

    The locks are queues in tokio; which of the tasks that wait for one is next
    is left open here, so that every order of theirs is a run. *)

From S2P Require Import Prelude Bytes Io Error Fcall Serialize Srv Dispatch Path Unpfs Proc UnpfsSteps.

Section FsLoop.
Context {O F D FT : Type} `{OS : OsCalls O F D FT} `{Nix} {R W : Type} `{BytesBuf R W}.
Context `{BF : Bitflags} `{FromPrimitive MsgType}.
Context (self : Unpfs).

Abbreviation st := (state O F).
#[local] Instance served_files : Filesystem st nat := Unpfs_Filesystem self.

(** ** Tasks *)

(** A handler that runs, with the fid it makes; or a phase of Dispatch.v. *)
Inductive stage : Type :=
  | Handling (newfid : option (Fid nat)) (x : running st Fcall)
  | At (p : phase nat).

Record fs_task := { ft_msg : Msg; ft_stage : stage }.

Definition locks_of (t : fs_task) : list lock :=
  match ft_stage t with Handling _ x => locks x | At _ => [] end.

(** The task reads the fid table. *)
Definition is_handling (t : fs_task) : bool :=
  match ft_stage t with Handling _ _ => true | At _ => false end.

(** Its next move writes it. *)
Definition writes_table (t : fs_task) : bool :=
  match ft_stage t with
  | At (Handled _ _) => match msg_body (ft_msg t) with Tclunk _ => true | _ => false end
  | At (Clunked _ (Some _)) => true
  | _ => false
  end.

(** ** Moves *)

(** The start of a handler: the new fid, the read lock, the fids it names. *)
Definition start_handler (body : Fcall) (d : served st nat) : stage * served st nat :=
  let '(n, s) := make_newfid body (fs d) in
  (match call_process self (fsfids d) n body with
   | Some p => Handling n {| rest := p; locks := [] |}
   | None => At (Done Panicked)
   end, {| fs := s; fsfids := fsfids d |}).

(** A handler moves; one that has returned leaves the read lock. *)
Definition handler_step (held : list lock) (n : option (Fid nat)) (x : running st Fcall) (d : served st nat)
    : option (stage * served st nat) :=
  match rest x with
  | Return (Ok response) => Some (At (Handled response n), d)
  | Return (Err e) => Some (At (Responding (response_of (Err e))), d)
  | _ =>
      '(x, s) ← running_step held x (fs d);
      Some (Handling n x, {| fs := s; fsfids := fsfids d |})
  end.

(** A move of a task among [ts]. *)
Definition fs_task_step (ts : list fs_task) (sent_ok : bool) (t : fs_task) (d : served st nat)
    : option (stage * served st nat * list (list byte)) :=
  match ft_stage t with
  | At Spawned => let '(g, d) := start_handler (msg_body (ft_msg t)) d in Some (g, d, [])
  | Handling n x => '(g, d) ← handler_step (concat (map locks_of ts)) n x d; Some (g, d, [])
  | At p =>
      if writes_table t && existsb is_handling ts then None else
      '(p, d, frames) ← task_step sent_ok {| task_msg := ft_msg t; task_phase := p |} d;
      Some (At p, d, frames)
  end.

(** ** The connection *)

Record fs_conn := {
  fc_shared : served st nat;
  fc_incoming : list (result io_error (list byte));
  fc_tasks : list fs_task;
  fc_sent : list (list byte);
  fc_status : status
}.

Definition fs_init (s : st) (frames : list (result io_error (list byte))) : fs_conn := {|
  fc_shared := {| fs := s; fsfids := ∅ |};
  fc_incoming := frames; fc_tasks := []; fc_sent := []; fc_status := Reading
|}.

(** The reading loop is that of Dispatch.v: it looks at no task. *)
Definition fs_recv (c : fs_conn) : option fs_conn :=
  c' ← recv {| shared := fc_shared c; incoming := fc_incoming c; tasks := []; sent := []; conn_status := fc_status c |};
  Some {| fc_shared := fc_shared c; fc_incoming := incoming c';
    fc_tasks := fc_tasks c ++ map (fun t => {| ft_msg := task_msg t; ft_stage := At (task_phase t) |}) (tasks c');
    fc_sent := fc_sent c; fc_status := conn_status c' |}.

Definition fs_run_task (i : nat) (sent_ok : bool) (c : fs_conn) : option fs_conn :=
  t ← fc_tasks c !! i;
  '(g, d, frames) ← fs_task_step (fc_tasks c) sent_ok t (fc_shared c);
  Some {| fc_shared := d; fc_incoming := fc_incoming c;
    fc_tasks := <[i := {| ft_msg := ft_msg t; ft_stage := g |}]> (fc_tasks c);
    fc_sent := fc_sent c ++ frames; fc_status := fc_status c |}.

Definition fs_step (l : label) (c : fs_conn) : option fs_conn :=
  match l with
  | Recv => fs_recv c
  | Run i sent_ok => fs_run_task i sent_ok c
  end.

Fixpoint fs_exec (ls : list label) (c : fs_conn) : option fs_conn :=
  match ls with
  | [] => Some c
  | l :: ls => c ← fs_step l c; fs_exec ls c
  end.

Definition fs_conn_step (c c' : fs_conn) : Prop := exists l, fs_step l c = Some c'.

Definition fs_reachable (s : st) (frames : list (result io_error (list byte))) (c : fs_conn) : Prop :=
  rtc fs_conn_step (fs_init s frames) c.
End FsLoop.
Arguments stage : clear implicits.
Arguments fs_task : clear implicits.
Arguments fs_conn : clear implicits.
