(* ===== verification/FsLoopFacts.v ===== *)
(** * Lemmas about the loop with running handlers

    How the handlers of the file server use their locks, what they return, and
    why they come to an end; the cases of a step of the loop. *)

From S2P Require Import Prelude Bytes Io Error Fcall Serialize Wire EncodeFacts Srv Dispatch DispatchFacts.
From S2P Require Import Path Unpfs UnpfsProps Proc UnpfsSteps FsLoop.

(** ** Relations that come to an end *)

(** One element of a list makes a step. *)
Definition list_step {A} (R : A -> A -> Prop) (l' l : list A) : Prop :=
  exists i x y, l !! i = Some x /\ R y x /\ l' = <[i := y]> l.

Lemma acc_cons {A} (R : A -> A -> Prop) x l :
  Acc R x -> Acc (list_step R) l -> Acc (list_step R) (x :: l).
Proof.
  intros Hx. revert l. induction Hx as [x _ IHx]. intros l Hl. induction Hl as [l Hl IHl].
  constructor. intros l' (i & a & b & Hi & Hb & ->). destruct i as [|i]; simplify_eq/=.
  - apply IHx; [done|]. by constructor.
  - apply IHl. by exists i, a, b.
Qed.

Lemma acc_list {A} (R : A -> A -> Prop) l : Forall (Acc R) l -> Acc (list_step R) l.
Proof.
  induction 1 as [|x l Hx _ IH]; [|by apply acc_cons].
  constructor. intros l' (i & x & y & Hi & _). by rewrite lookup_nil in Hi.
Qed.

(** ** The handlers *)
Section Handlers.
Context {O F D FT : Type} `{OS : OsCalls O F D FT} `{BF : Bitflags}.

Abbreviation st := (state O F).

Lemma free_act {A} (m : M st Error A) : lock_free (act m).
Proof. done. Qed.

Lemma disciplined_path fid : disciplined [] (path_of (F := F) (O := O) fid).
Proof. by apply disciplined_locked. Qed.

Lemma disciplined_walk names : forall i p qs, disciplined [] (p_walk_loop i p qs names).
Proof.
  induction names as [|n ns IH]; intros i p qs; simpl; [done|]. intros [q|e]; [apply IH|].
  by destruct (i =? 0)%nat.
Qed.

Lemma disciplined_readdir entries : forall i c ds, disciplined [] (p_readdir_loop i c ds entries).
Proof.
  induction entries as [|[e|e] es IH]; intros i c ds; simpl; [done| |done]. intros [d|e']; [|done].
  simpl. destruct (_ <? _); [done|apply IH].
Qed.


(** Block by block. *)
Ltac blocks :=
  intros; lazymatch goal with
  | |- disciplined [] (lookup_fid _ _) => exact eq_refl
  | |- disciplined [] (Return _) => exact eq_refl
  | |- disciplined [] (mbind _ _) => apply disciplined_bind; [blocks|blocks]
  | |- disciplined [] (locked _ _) => apply disciplined_locked; blocks
  | |- lock_free (mbind _ _) => apply free_bind; [blocks|blocks]
  | |- lock_free (match _ with _ => _ end) => case_match; blocks
  | |- disciplined [] (p_walk_loop _ _ _ _) => apply disciplined_walk
  | |- disciplined [] (p_readdir_loop _ _ _ _) => apply disciplined_readdir
  | |- disciplined [] (when_act _ _) => unfold when_act; case_match; blocks
  | |- disciplined [] (match _ with _ => _ end) => case_match; blocks
  | |- _ => try done
  end.

(** The handlers take one lock at a time and leave it. *)
Lemma disciplined_process self fids n body p :
  call_process self fids n body = Some p -> disciplined [] p.
Proof.
  intros E. destruct body; cbn [call_process] in E; unfold unwrap, fmap, option_fmap, option_map in E; destruct n; simplify_eq;
    cbn [provided_on]; unfold p_rattach, p_rwalk, p_rgetattr, p_rsetattr, p_rreadlink, p_rreaddir, p_rlopen, p_rlcreate, p_rread,
      p_rwrite, p_rmkdir, p_rrenameat, p_runlinkat, p_rfsync, p_rstatfs, path_of, assign_path, assign_file;
    blocks.
Qed.

(** The response of a request that succeeds. *)
Definition proper_response (body resp : Fcall) : Prop :=
  MsgTypes.is_r (MsgType_from resp) = true /\ MsgType_from resp = reply_type (MsgType_from body).

Ltac answered :=
  intros; lazymatch goal with
  | |- returns _ (mbind _ _) => apply returns_bind; answered
  | |- returns _ (match _ with _ => _ end) => case_match; answered
  | |- _ => try done
  end.

(** They answer with the R-message of the request. *)
Lemma returns_process self fids n body p :
  call_process self fids n body = Some p -> returns (proper_response body) p.
Proof.
  intros E. destruct body; cbn [call_process] in E; unfold unwrap, fmap, option_fmap, option_map in E;
    destruct n; simplify_eq;
    cbn [provided_on]; unfold p_rattach, p_rwalk, p_rgetattr, p_rsetattr, p_rreadlink, p_rreaddir, p_rlopen,
      p_rlcreate, p_rread, p_rwrite, p_rmkdir, p_rrenameat, p_runlinkat, p_rfsync, p_rstatfs; answered.
Qed.

(** A request that makes a fid gets one. *)
Lemma process_total self fids (s : st) body :
  exists p, call_process self fids (make_newfid (FS := Unpfs_Filesystem self) body s).1 body = Some p.
Proof. destruct body; by eexists. Qed.
End Handlers.
