(* ===== verification/FsLoopProps.v ===== *)
(** * Properties of the loop with running handlers

    When every handler is run call by call next to the others, no lock is
    waited for in a circle, every run comes to an end, and at the end of it
    every request has been answered with a message of its own type. *)

From Stdlib Require Import Strings.Byte.
From S2P Require Import Prelude Bytes Io Error Fcall Serialize Wire EncodeFacts Srv Dispatch DispatchFacts SrvProps.
From S2P Require Import Path Unpfs UnpfsFacts UnpfsProps MemOs Proc UnpfsSteps FsLoop FsLoopFacts.

Section Props.
Context {O F D FT : Type} `{OS : OsCalls O F D FT} `{NX : Nix} {R W : Type} `{BL : BytesBufLaws R W}.
Context `{BF : Bitflags} `{FP : FromPrimitive MsgType} (self : Unpfs).

Abbreviation st := (state O F).
Abbreviation conn := (fs_conn O F).
Abbreviation task := (fs_task O F).
#[local] Hint Extern 0 (Filesystem _ _) => exact (served_files self) : typeclass_instances.

(** ** The cases of a step *)

(** A task as Dispatch.v has it, in a phase. *)
Definition in_phase (t : task) (p : phase nat) : Dispatch.task nat :=
  {| task_msg := ft_msg t; task_phase := p |}.

Inductive fs_moves (ts : list task) (ok : bool) (t : task) (d : served st nat) :
    stage O F -> served st nat -> list (list byte) -> Prop :=
  | fs_move_start p : ft_stage t = At Spawned ->
      call_process self (fsfids d) (make_newfid (msg_body (ft_msg t)) (fs d)).1 (msg_body (ft_msg t)) = Some p ->
      fs_moves ts ok t d (Handling (make_newfid (msg_body (ft_msg t)) (fs d)).1 {| rest := p; locks := [] |})
        {| fs := (make_newfid (msg_body (ft_msg t)) (fs d)).2; fsfids := fsfids d |} []
  | fs_move_call n x y s : ft_stage t = Handling n x ->
      running_step (concat (map locks_of ts)) x (fs d) = Some (y, s) ->
      fs_moves ts ok t d (Handling n y) {| fs := s; fsfids := fsfids d |} []
  | fs_move_done n x resp : ft_stage t = Handling n x -> rest x = Return (Ok resp) ->
      fs_moves ts ok t d (At (Handled resp n)) d []
  | fs_move_failed n x e : ft_stage t = Handling n x -> rest x = Return (Err e) ->
      fs_moves ts ok t d (At (Responding (response_of (Err e)))) d []
  | fs_move_phase p q d' frames : ft_stage t = At p -> p <> Spawned ->
      writes_table t && existsb is_handling ts = false -> moves ok (in_phase t p) d q d' frames ->
      fs_moves ts ok t d (At q) d' frames.

Lemma fs_task_step_moves ts ok t d g d' frames :
  fs_task_step (R := R) (W := W) self ts ok t d = Some (g, d', frames) <-> fs_moves ts ok t d g d' frames.
Proof.
  unfold fs_task_step. split.
  - destruct (ft_stage t) as [n x|p] eqn:Es.
    + unfold handler_step. destruct (rest x) as [[resp|e]|X m k|l k|l k] eqn:Er;
        [intros [= <- <- <-]; by econstructor|intros [= <- <- <-]; by econstructor|..];
        (destruct (running_step _ x (fs d)) as [[y s]|] eqn:Ey; [|done]); intros [= <- <- <-];
        by eapply fs_move_call.
    + assert (p = Spawned \/ p <> Spawned) as [->|Hp] by (by destruct p; auto).
      * destruct (process_total self (fsfids d) (fs d) (msg_body (ft_msg t))) as [p Hp].
        pose proof (fs_move_start ts ok t d p Es Hp) as Hm. unfold start_handler.
        destruct (make_newfid (msg_body (ft_msg t)) (fs d)) as [m s]. simpl in *. rewrite Hp.
        by intros [= <- <- <-].
      * intros E. assert ((if writes_table t && existsb is_handling ts then None else
          '(p0, d0, frames0) ← task_step (R := R) (W := W) ok (in_phase t p) d; Some (At p0, d0, frames0))
          = Some (g, d', frames)) as E' by (by destruct p). clear E.
        destruct (writes_table t && existsb is_handling ts) eqn:Ew; [done|].
        destruct (task_step ok (in_phase t p) d) as [[[q d1] fr]|] eqn:Et; [|done].
        simpl in E'. simplify_eq. eapply fs_move_phase; [done..|]. by apply task_step_moves in Et.
  - destruct 1 as [p Hs Hp|n x y s Hs Hx|n x resp Hs Hr|n x e Hs Hr|p q d' fr Hs Hp Hw Hm]; rewrite Hs.
    + unfold start_handler. destruct (make_newfid (msg_body (ft_msg t)) (fs d)) as [m s]. simpl in *. by rewrite Hp.
    + unfold handler_step. rewrite Hx. unfold running_step in Hx. by destruct (rest x).
    + unfold handler_step. by rewrite Hr.
    + unfold handler_step. by rewrite Hr.
    + apply task_step_moves in Hm. unfold in_phase in Hm. destruct p; [done|..]; rewrite Hw, Hm; done.
Qed.

Definition stopped (r : result Error unit) rest (c : conn) : conn := {|
  fc_shared := fc_shared c; fc_incoming := rest; fc_tasks := fc_tasks c; fc_sent := fc_sent c;
  fc_status := Returned r |}.

Definition spawned (m : Msg) rest (c : conn) : conn := {|
  fc_shared := fc_shared c; fc_incoming := rest;
  fc_tasks := fc_tasks c ++ [{| ft_msg := m; ft_stage := At Spawned |}];
  fc_sent := fc_sent c; fc_status := Reading |}.

Definition moved (i : nat) (g : stage O F) (d : served st nat) (frames : list (list byte)) (t : task) (c : conn)
    : conn := {|
  fc_shared := d; fc_incoming := fc_incoming c;
  fc_tasks := <[i := {| ft_msg := ft_msg t; ft_stage := g |}]> (fc_tasks c);
  fc_sent := fc_sent c ++ frames; fc_status := fc_status c |}.

(** [stopped] is a loop that has returned: at the end of the input, or by an
    error of it. *)
Inductive fs_case : label -> conn -> conn -> Prop :=
  | fs_case_stop c r rest : fc_status c = Reading -> rest `suffix_of` fc_incoming c ->
      fs_case Recv c (stopped r rest c)
  | fs_case_spawn c b m rest : fc_status c = Reading -> fc_incoming c = Ok b :: rest ->
      (read_msg (R := R) (bytes_reader b)).1 = Ok m -> fs_case Recv c (spawned m rest c)
  | fs_case_run c i ok t g d frames : fc_tasks c !! i = Some t ->
      fs_moves (fc_tasks c) ok t (fc_shared c) g d frames -> fs_case (Run i ok) c (moved i g d frames t c).

Lemma fs_step_case l c c' : fs_step (R := R) (W := W) self l c = Some c' -> fs_case l c c'.
Proof.
  destruct l as [|i ok]; simpl.
  - unfold fs_recv, recv. simpl. destruct (fc_status c) eqn:Es; [|done].
    destruct (fc_incoming c) as [|[b|e] rest] eqn:Ei; simpl.
    + rewrite app_nil_r. intros [= <-]. eapply (fs_case_stop c (Ok tt) []); [done|]. by rewrite Ei.
    + destruct (read_msg (bytes_reader b)).1 as [m|e] eqn:Er; simpl.
      * intros [= <-]. by eapply fs_case_spawn.
      * rewrite app_nil_r. intros [= <-]. eapply (fs_case_stop c (Err (Error_from_io e)) rest); [done|].
        rewrite Ei. by apply suffix_cons_r.
    + rewrite app_nil_r. intros [= <-]. eapply (fs_case_stop c (Err (Error_from_io e)) rest); [done|].
      rewrite Ei. by apply suffix_cons_r.
  - unfold fs_run_task. destruct (fc_tasks c !! i) as [t|] eqn:Ht; [|done]. simpl.
    destruct (fs_task_step self (fc_tasks c) ok t (fc_shared c)) as [[[g d] fr]|] eqn:Et; [|done].
    intros [= <-]. apply fs_task_step_moves in Et. by eapply (fs_case_run c i ok t).
Qed.

Lemma fs_exec_ind (P : conn -> Prop) (Q : label -> Prop) :
  (forall l c c', P c -> Q l -> fs_case l c c' -> P c') ->
  forall ls c c', fs_exec (R := R) (W := W) self ls c = Some c' -> Forall Q ls -> P c -> P c'.
Proof.
  intros Hs ls. induction ls as [|l ls IH]; intros c c' Hx HQ HP; simpl in Hx; [by simplify_eq|].
  apply Forall_cons in HQ as [Hl HQ].
  destruct (fs_step self l c) as [c1|] eqn:E; simpl in Hx; [|done].
  apply (IH c1); [done|done|]. eapply Hs; [done|done|]. by apply fs_step_case.
Qed.

Lemma fs_reachable_ind (P : conn -> Prop) s frames :
  P (fs_init s frames) -> (forall l c c', P c -> fs_case l c c' -> P c') ->
  forall c, fs_reachable (R := R) (W := W) self s frames c -> P c.
Proof.
  intros Hi Hs c Hr. unfold fs_reachable in Hr. revert Hi.
  induction Hr as [c|c1 c2 c3 [l Hl] _ IH]; [done|]. intros HP. apply IH. eapply Hs; [done|].
  by apply fs_step_case.
Qed.

Lemma fs_exec_reachable ls s frames c :
  fs_exec (R := R) (W := W) self ls (fs_init s frames) = Some c -> fs_reachable (R := R) (W := W) self s frames c.
Proof.
  unfold fs_reachable. generalize (fs_init (O := O) (F := F) s frames). induction ls as [|l ls IH]; intros c0 Hx; simpl in Hx.
  - by simplify_eq.
  - destruct (fs_step self l c0) as [c1|] eqn:E; simpl in Hx; [|done]. eapply rtc_l; [by exists l|]. by apply IH.
Qed.

(** ** The state of a task *)

(** Locks in turn, and responses of the right type: every task of a reachable
    connection has them. *)
Definition answer_to (body resp : Fcall) : Prop :=
  proper_response body resp \/ exists ecode, resp = Rlerror ecode.

Definition well_formed (t : task) : Prop :=
  match ft_stage t with
  | Handling _ x => well_locked x /\ returns (proper_response (msg_body (ft_msg t))) (rest x)
  | At (Handled resp _ | Clunked resp _ | Responding resp | Done (Replied resp)) =>
      answer_to (msg_body (ft_msg t)) resp
  | At (Done (Silent _)) => False
  | At (Spawned | Done Panicked) => True
  end.

Lemma answer_is_r body resp : answer_to body resp -> MsgTypes.is_r (MsgType_from resp) = true.
Proof. by intros [[? _]|[e ->]]. Qed.

Lemma moves_well_formed ts ok t d g d' frames :
  fs_moves ts ok t d g d' frames -> well_formed t -> well_formed {| ft_msg := ft_msg t; ft_stage := g |}.
Proof.
  unfold well_formed. destruct 1 as [p Hs Hp|n x y s Hs Hx|n x resp Hs Hr|n x e Hs Hr|p q d' fr Hs Hp Hw Hm];
    rewrite Hs; simpl.
  - intros _. split; [by eapply disciplined_process|by eapply returns_process].
  - intros [Hl Hr]. split; [by eapply running_step_well_locked|by eapply running_step_returns].
  - rewrite Hr. intros [_ H']. by left.
  - intros _. right. by eexists.
  - destruct Hm as [e d' Hq Hr|resp n d' Hq Hr|resp n Hq|resp n Hq|resp Hq Hr Ho|resp Hq Hr Ho|resp Hq Hr];
      simpl in Hq; subst p; try done.
    intros H'%answer_is_r. congruence.
Qed.

Lemma tasks_well_formed s frames c :
  fs_reachable (R := R) (W := W) self s frames c -> Forall well_formed (fc_tasks c).
Proof.
  apply (fs_reachable_ind (fun c => Forall well_formed (fc_tasks c))); [constructor|].
  intros l c0 c1 Hw Hc. destruct Hc as [c0 r rest Hs Hi|c0 b m rest Hs Hi Hr|c0 i ok t g d fr Ht Hm]; simpl; [done|..].
  - apply Forall_app. split; [done|]. by apply Forall_singleton.
  - apply Forall_insert; [done|]. eapply moves_well_formed; [done|]. by eapply Forall_lookup_1.
Qed.

(** ** No circle of locks *)

Definition fs_done (t : task) : Prop := exists o, ft_stage t = At (Done o).

(** A task that runs a handler, in a state where none can move. *)
Lemma stuck_handler (c : conn) i t n x :
  Forall well_formed (fc_tasks c) -> (forall j, fs_step (R := R) (W := W) self (Run j true) c = None) ->
  fc_tasks c !! i = Some t -> ft_stage t = Handling n x -> False.
Proof.
  intros Hw Hstuck.
  assert (forall j u, fc_tasks c !! j = Some u -> forall n x, ft_stage u = Handling n x ->
    locks x = [] /\ exists l k l', rest x = Acquire l k /\ l' ∈ concat (map locks_of (fc_tasks c))) as Hall.
  { clear i t n x. intros j t Hj n x Hs. specialize (Hstuck j). simpl in Hstuck. unfold fs_run_task in Hstuck.
    rewrite Hj in Hstuck. simpl in Hstuck.
    destruct (fs_task_step self (fc_tasks c) true t (fc_shared c)) as [[[g d] fr]|] eqn:Et; [done|].
    assert (forall g d fr, fs_moves (fc_tasks c) true t (fc_shared c) g d fr -> False) as Hno.
    { intros g d fr Hm%fs_task_step_moves. congruence. }
    pose proof (Forall_lookup_1 _ _ _ _ Hw Hj) as Hwt. unfold well_formed in Hwt. rewrite Hs in Hwt.
    destruct (running_step (concat (map locks_of (fc_tasks c))) x (fs (fc_shared c))) as [[y s]|] eqn:Ey.
    { exfalso. eapply Hno. by eapply fs_move_call. }
    destruct (running_stuck _ _ _ (proj1 Hwt) Ey) as [(r & Hr & Hl)|(l & k & l' & Hr & Hl & Hin & _)].
    - exfalso. destruct r as [resp|e]; eapply Hno; [by eapply fs_move_done|by eapply fs_move_failed].
    - split; [done|]. by exists l, k, l'. }
  intros Hi Hs. destruct (Hall _ _ Hi _ _ Hs) as (_ & l & k & l' & _ & Hin).
  apply list_elem_of_In, in_concat in Hin as (held & Hh & Hl).
  apply in_map_iff in Hh as (u & <- & Hu). apply list_elem_of_In, list_elem_of_lookup in Hu as [j Hj].
  unfold locks_of in Hl. destruct (ft_stage u) as [m y|] eqn:Eu; [|done].
  destruct (Hall _ _ Hj _ _ Eu) as [Hy _]. by rewrite Hy in Hl.
Qed.

(** When no task can move, all have ended. *)
Lemma stuck_done (c : conn) :
  Forall well_formed (fc_tasks c) -> (forall j, fs_step (R := R) (W := W) self (Run j true) c = None) ->
  Forall fs_done (fc_tasks c).
Proof.
  intros Hw Hstuck.
  assert (existsb is_handling (fc_tasks c) = false) as Hq.
  { apply not_true_iff_false. intros (t & Ht & Hh)%existsb_exists.
    apply list_elem_of_In, list_elem_of_lookup in Ht as [i Hi]. unfold is_handling in Hh.
    destruct (ft_stage t) as [n x|] eqn:Es; [|done]. by eapply stuck_handler. }
  apply Forall_lookup_2. intros i t Hi. specialize (Hstuck i). simpl in Hstuck. unfold fs_run_task in Hstuck.
  rewrite Hi in Hstuck. simpl in Hstuck.
  destruct (fs_task_step self (fc_tasks c) true t (fc_shared c)) as [[[g d] fr]|] eqn:Et; [done|].
  assert (forall g d fr, fs_moves (fc_tasks c) true t (fc_shared c) g d fr -> False) as Hno.
  { intros g d fr Hm%fs_task_step_moves. congruence. }
  destruct (ft_stage t) as [n x|p] eqn:Es.
  { exfalso. assert (existsb is_handling (fc_tasks c) = true) as E; [|congruence].
    apply existsb_exists. exists t. unfold is_handling. rewrite Es. split; [|done].
    apply list_elem_of_In. by eapply list_elem_of_lookup_2. }
  assert (p = Spawned \/ p <> Spawned) as [->|Hp] by (destruct p; auto).
  - exfalso. destruct (process_total self (fsfids (fc_shared c)) (fs (fc_shared c)) (msg_body (ft_msg t))) as [p Hp].
    eapply Hno. by eapply fs_move_start.
  - destruct (task_can_move (in_phase t p) (fc_shared c)) as [[o Ho]|(q & d & fr & Hm)].
    + exists o. simpl in Ho. by rewrite Es, Ho.
    + exfalso. eapply Hno. eapply fs_move_phase; [done|done| |done]. by rewrite Hq, andb_false_r.
Qed.

(** ** Replies *)

Definition fs_reply (t : task) : option (list byte) :=
  match ft_stage t with At p => reply_frame (in_phase t p) | Handling _ _ => None end.

Lemma fs_moves_reply ts ok t d g d' frames :
  fs_moves ts ok t d g d' frames ->
  fs_reply t = None /\ frames = option_list (fs_reply {| ft_msg := ft_msg t; ft_stage := g |}).
Proof.
  unfold fs_reply. destruct 1 as [p Hs Hp|n x y s Hs Hx|n x resp Hs Hr|n x e Hs Hr|p q d' fr Hs Hp Hw Hm];
    rewrite Hs; simpl; try done.
  split; [|by apply moves_frames in Hm]. apply not_done_no_reply. by eapply moves_not_done.
Qed.

(** The frames sent are the replies of the tasks that have ended, in the order
    in which they ended; the tasks are the requests read, in order. *)
Definition replies (frames : list (result io_error (list byte))) (c : conn) : Prop :=
  fc_sent c ≡ₚ omap fs_reply (fc_tasks c)
  /\ exists bs tail, frames = (Ok <$> bs) ++ tail ++ fc_incoming c
       /\ Forall2 (fun b t => (read_msg (R := R) (bytes_reader b)).1 = Ok (ft_msg t)) bs (fc_tasks c)
       /\ (fc_status c = Reading -> tail = []).

Lemma replies_reachable s frames c : fs_reachable (R := R) (W := W) self s frames c -> replies frames c.
Proof.
  apply (fs_reachable_ind (replies frames)).
  { split; [done|]. exists [], []. by split; [|split; [constructor|]]. }
  intros l c0 c1 [Hp (bs & tail & Hf & Hb & Htail)] Hc.
  destruct Hc as [c0 r rest Hs [skipped Hi]|c0 b m rest Hs Hi Hr|c0 i ok t g d fr Ht Hm]; split; simpl; try done.
  - exists bs, (tail ++ skipped). split; [|by split]. by rewrite Hf, Hi, (assoc_L app tail).
  - rewrite omap_app. simpl. by rewrite app_nil_r.
  - rewrite (Htail Hs), Hi in Hf. exists (bs ++ [b]), []. split; [|split; [|done]].
    + rewrite Hf, fmap_app. by rewrite <- (assoc_L app).
    + apply Forall2_app; [done|]. by repeat constructor.
  - destruct (fs_moves_reply _ _ _ _ _ _ _ Hm) as [Hn ->].
    rewrite (omap_insert_perm fs_reply _ _ _ _ Ht Hn). by rewrite Hp.
  - exists bs, tail. split; [done|]. split; [|done].
    apply Forall2_lookup. intros j. pose proof (proj1 (Forall2_lookup _ _ _) Hb j) as Hj.
    destruct (decide (i = j)) as [<-|Hne].
    + rewrite list_lookup_insert_eq by (by eapply lookup_lt_Some). rewrite Ht in Hj.
      inversion Hj as [b ? Hbt E1 E2|]; subst. by constructor.
    + by rewrite list_lookup_insert_ne.
Qed.

(** With a network that takes every frame no task panics. *)
Definition not_panicked (t : task) : Prop := ft_stage t <> At (Done Panicked).

Lemma never_panicked ls s frames c :
  fs_exec (R := R) (W := W) self ls (fs_init s frames) = Some c -> Forall reliable ls ->
  Forall not_panicked (fc_tasks c).
Proof.
  intros Hx Hl. apply (fs_exec_ind (fun c => Forall not_panicked (fc_tasks c)) reliable) in Hx; [done| |done|constructor].
  clear. intros l c0 c1 Hw Hl Hc.
  destruct Hc as [c0 r rest Hs Hi|c0 b m rest Hs Hi Hr|c0 i ok t g d fr Ht Hm]; simpl; [done|..].
  - apply Forall_app. split; [done|]. by apply Forall_singleton.
  - simpl in Hl. subst ok. apply Forall_insert; [done|].
    destruct Hm as [p Hs Hp|n x y s Hs Hx|n x resp Hs Hr|n x e Hs Hr|p q d' fr Hs Hp _ Hm]; try done.
    unfold not_panicked. simpl. by destruct Hm.
Qed.

(** C4: the server answers every request also when the handlers run side by
    side, call by call: when nothing can move any more, the loop has returned,
    every request that was read has been answered, with the R-message of its
    own type or an Rlerror, and the frames sent are these replies, one for each
    request.  No order of calls and locks leaves a request waiting. *)
Theorem concurrent_requests_answered ls s frames c :
  fs_exec (R := R) (W := W) self ls (fs_init s frames) = Some c -> Forall reliable ls ->
  (forall l, fs_step (R := R) (W := W) self l c = None) ->
  (exists r, fc_status c = Returned r)
  /\ Forall (fun t => exists resp, ft_stage t = At (Done (Replied resp)) /\ answer_to (msg_body (ft_msg t)) resp)
       (fc_tasks c)
  /\ fc_sent c ≡ₚ omap fs_reply (fc_tasks c)
  /\ exists bs tail, frames = (Ok <$> bs) ++ tail
       /\ Forall2 (fun b t => (read_msg (R := R) (bytes_reader b)).1 = Ok (ft_msg t)) bs (fc_tasks c).
Proof.
  intros Hx Hl Hstuck. pose proof (fs_exec_reachable _ _ _ _ Hx) as Hr.
  pose proof (tasks_well_formed _ _ _ Hr) as Hw. pose proof (never_panicked _ _ _ _ Hx Hl) as Hp.
  pose proof (stuck_done c Hw (fun j => Hstuck (Run j true))) as Hd.
  destruct (replies_reachable _ _ _ Hr) as [Hs (bs & tail & Hf & Hb & _)].
  split; [|split; [|split; [done|by exists bs, (tail ++ fc_incoming c)]]].
  - specialize (Hstuck Recv). simpl in Hstuck. unfold fs_recv, recv in Hstuck. simpl in Hstuck.
    destruct (fc_status c) as [|r]; [|by exists r].
    destruct (fc_incoming c) as [|[b|e] rest]; [done| |done]. by destruct (read_msg (bytes_reader b)).1.
  - apply Forall_lookup_2. intros i t Hi.
    pose proof (Forall_lookup_1 _ _ _ _ Hw Hi) as Hwt. pose proof (Forall_lookup_1 _ _ _ _ Hp Hi) as Hpt.
    destruct (Forall_lookup_1 _ _ _ _ Hd Hi) as [o Ho]. unfold well_formed, not_panicked in *. rewrite Ho in *.
    destruct o as [resp|resp|]; [by exists resp|done|done].
Qed.

(** ** Every run ends *)

Definition stage_after (g' g : stage O F) : Prop :=
  match g, g' with
  | Handling _ x, Handling _ y => after (rest y) (rest x)
  | Handling _ _, At p => (phase_rank p < 4)%nat
  | At p, Handling _ _ => p = Spawned
  | At p, At q => (phase_rank q < phase_rank p)%nat
  end.

Lemma late_phase_wf p : (phase_rank p < 4)%nat -> Acc stage_after (At p).
Proof.
  remember (phase_rank p) as r eqn:E. revert p E. induction r as [r IH] using lt_wf_ind.
  intros p E Hr. constructor. intros [n x|q] Hq; simpl in Hq; [subst p; simpl in E; lia|]. eapply IH; [|done|]; lia.
Qed.

Lemma handling_wf n x : Acc stage_after (Handling n x).
Proof.
  remember (rest x) as p eqn:E. revert n x E. induction (after_wf p) as [p _ IH]. intros n x E.
  constructor. intros [m y|q] Hq; simpl in Hq; [|by apply late_phase_wf]. subst p. by eapply IH.
Qed.

Lemma stage_wf g : Acc stage_after g.
Proof.
  destruct g as [n x|p]; [apply handling_wf|]. destruct (decide (phase_rank p < 4)%nat) as [Hp|Hp]; [by apply late_phase_wf|].
  constructor. intros [n x|q] Hq; [apply handling_wf|]. simpl in Hq. apply late_phase_wf. destruct p; simpl in *; lia.
Qed.

Lemma moves_stage_after ts ok t d g d' frames : fs_moves ts ok t d g d' frames -> stage_after g (ft_stage t).
Proof.
  destruct 1 as [p Hs Hp|n x y s Hs Hx|n x resp Hs Hr|n x e Hs Hr|p q d' fr Hs Hp Hw Hm]; rewrite Hs; simpl; try lia.
  - done.
  - by eapply running_step_after.
  - by apply moves_rank in Hm.
Qed.

(** What is left to read. *)
Definition to_read (c : conn) : nat := (2 * length (fc_incoming c) + status_rank (fc_status c))%nat.

(** Every run of the server ends, however the calls of the handlers
    interleave: a connection cannot make moves without end. *)
Theorem concurrent_server_terminates (c : conn) : sn (fs_conn_step (R := R) (W := W) self) c.
Proof.
  remember (to_read c) as r eqn:E. revert c E. induction r as [r IHr] using lt_wf_ind. intros c.
  remember (map ft_stage (fc_tasks c)) as gs eqn:Eg. revert c Eg.
  assert (Acc (list_step stage_after) gs) as Hgs by (apply acc_list, Forall_true; intros; apply stage_wf).
  induction Hgs as [gs _ IHg]. intros c Eg E. constructor. intros c' [l Hl%fs_step_case].
  destruct Hl as [c r' rest Hs Hi|c b m rest Hs Hi Hr|c i ok t g d fr Ht Hm].
  - eapply IHr; [|done]. subst r. unfold to_read. simpl. rewrite Hs. apply suffix_length in Hi. simpl. lia.
  - eapply IHr; [|done]. subst r. unfold to_read. simpl. rewrite Hs, Hi. simpl. lia.
  - eapply IHg; [|done|done]. exists i, (ft_stage t), g. subst gs. split; [by rewrite list_lookup_fmap, Ht|].
    split; [by eapply moves_stage_after|]. simpl. apply (list_fmap_insert ft_stage).
Qed.

(** ** A handler that does not return *)

Lemma blocked_writers_step l c c' i t n x :
  fc_tasks c !! i = Some t -> ft_stage t = Handling n x -> (forall ok, l <> Run i ok) ->
  fs_step (R := R) (W := W) self l c = Some c' ->
  fc_tasks c' !! i = Some t /\ fsfids (fc_shared c') = fsfids (fc_shared c)
  /\ forall j u, fc_tasks c !! j = Some u -> writes_table u = true -> fc_tasks c' !! j = Some u.
Proof.
  intros Hi Hs Hl Hstep%fs_step_case.
  destruct Hstep as [c r rest Hr Hin|c b m rest Hr Hin Hm|c k ok u g d fr Hk Hm]; simpl; [done|..].
  - split; [by apply lookup_app_l_Some|]. split; [done|]. intros j u Hj _. by apply lookup_app_l_Some.
  - assert (k <> i) as Hne by (intros ->; by apply (Hl ok)).
    assert (existsb is_handling (fc_tasks c) = true) as Hh.
    { apply existsb_exists. exists t. unfold is_handling. rewrite Hs. split; [|done].
      apply list_elem_of_In. by eapply list_elem_of_lookup_2. }
    assert (writes_table u = false /\ fsfids d = fsfids (fc_shared c)) as [Hu Hd].
    { unfold writes_table. destruct Hm as [p Hp _|m y z s Hp _|m y resp Hp _|m y e Hp _|p q d' fr Hp Hns Hw Hm];
        rewrite Hp; try done. rewrite Hh, andb_true_r in Hw. unfold writes_table in Hw. rewrite Hp in Hw.
      split; [done|]. destruct Hm as [e d' Hq Hr|resp m' d' Hq Hr|resp m' Hq|resp m' Hq|resp Hq|resp Hq|resp Hq];
        simpl in Hq; subst p; try done; simpl in *.
      - by destruct (msg_body (ft_msg u)).
      - by destruct m'. }
    rewrite list_lookup_insert_ne by done. split; [done|]. split; [done|].
    intros j v Hj Hv. rewrite list_lookup_insert_ne; [done|]. intros <-. congruence.
Qed.

(** C25: one request that the system keeps waiting holds up the table of fids:
    as long as a handler has not returned, whatever the others do, no fid is
    added or dropped, and every walk, attach and clunk that has come so far
    stays where it is, unanswered. *)
Theorem running_handler_blocks_table ls c c' i t n x :
  fs_exec (R := R) (W := W) self ls c = Some c' ->
  fc_tasks c !! i = Some t -> ft_stage t = Handling n x -> (forall ok, Run i ok ∉ ls) ->
  fsfids (fc_shared c') = fsfids (fc_shared c)
  /\ forall j u, fc_tasks c !! j = Some u -> writes_table u = true -> fc_tasks c' !! j = Some u.
Proof.
  revert c. induction ls as [|l ls IH]; intros c Hx Hi Hs Hl; simpl in Hx; [by simplify_eq|].
  destruct (fs_step self l c) as [c1|] eqn:E; simpl in Hx; [|done].
  assert (forall ok, l <> Run i ok /\ Run i ok ∉ ls) as Hn.
  { intros ok. destruct (proj1 (not_elem_of_cons _ _ _) (Hl ok)) as [? ?]. by split. }
  destruct (blocked_writers_step _ _ _ _ _ _ _ Hi Hs (fun ok => proj1 (Hn ok)) E) as (Hi1 & Hf1 & Hj1).
  destruct (IH c1 Hx Hi1 Hs (fun ok => proj2 (Hn ok))) as [Hf Hj].
  split; [congruence|]. auto.
Qed.
End Props.

(** ** Runs on the machine in memory *)

#[local] Existing Instance bitflags_ref.
#[local] Existing Instance from_u8_ref.
#[local] Existing Instance nix_ref.
#[local] Existing Instance bytes_ref.
#[local] Existing Instance bytes_ref_laws.
#[local] Existing Instance mem_os.

Definition served_tree : Unpfs := {| realroot := "/srv" |}.

Abbreviation mem_conn := (fs_conn machine string).
Abbreviation mem_step := (fs_step (R := list byte) (W := list byte) served_tree).
Abbreviation mem_exec := (fs_exec (R := list byte) (W := list byte) served_tree).

(** The labels of a schedule that can be taken. *)
Fixpoint taken (ls : list label) (c : mem_conn) : list label :=
  match ls with
  | [] => []
  | l :: ls => match mem_step l c with Some c => l :: taken ls c | None => taken ls c end
  end.

Definition demo_frames : list (result io_error (list byte)) := Ok ∘ wire <$> [
  {| msg_tag := 1; msg_body := Tattach 7 NOFID "u" "/" 0 |};
  {| msg_tag := 2; msg_body := Twalk 7 8 ["motd"] |};
  {| msg_tag := 3; msg_body := Tlopen 8 2 |};
  {| msg_tag := 4; msg_body := Tread 8 1 5 |};
  {| msg_tag := 5; msg_body := Twrite 8 0 {| data_bytes := [x48] |} |};
  {| msg_tag := 6; msg_body := Twalk 7 9 ["nothing"] |};
  {| msg_tag := 7; msg_body := Tclunk 8 |} ].

(** The file is opened; then a read, a write, a walk and a clunk run side by
    side. *)
Definition demo_wanted : list label :=
  concat (map (fun i => Recv :: replicate 16 (Run i true)) [0; 1; 2]%nat) ++ replicate 4 Recv
  ++ concat (replicate 16 [Run 3 true; Run 4 true; Run 5 true; Run 6 true]) ++ [Recv].

Definition demo_start : mem_conn := fs_init {| os := tree; heap := [] |} demo_frames.
Definition demo_labels : list label := taken demo_wanted demo_start.
Definition demo_end : mem_conn := default demo_start (mem_exec demo_labels demo_start).

Lemma concurrent_requests_answered_witness :
  mem_exec demo_labels demo_start = Some demo_end
  /\ map (fun t => ft_stage t) (fc_tasks demo_end)
     = map (fun resp => At (Done (Replied resp)))
         [Rattach {| qid_typ := QidTypes.DIR; qid_version := 0; qid_path := 4 |};
          Rwalk [{| qid_typ := 0; qid_version := 0; qid_path := 9 |}];
          Rlopen {| qid_typ := 0; qid_version := 0; qid_path := 9 |} 0;
          Rread {| data_bytes := [x69; x21] |}; Rwrite 1; Rlerror 2; Rclunk]
  /\ fc_sent demo_end ≡ₚ omap fs_reply (fc_tasks demo_end).
Proof.
  assert (mem_exec demo_labels demo_start = Some demo_end) as Hx by (vm_compute; reflexivity).
  split; [exact Hx|]. split; [vm_compute; reflexivity|].
  apply (concurrent_requests_answered served_tree demo_labels _ demo_frames demo_end Hx).
  - vm_compute. repeat constructor.
  - intros [|[|[|[|[|[|[|[|i]]]]]]] ok]; vm_compute; reflexivity.
Defined.

(** The read is in the middle of its handler; the clunk has run its own and
    waits, and the walk runs to its end meanwhile. *)
Definition held_wanted : list label :=
  concat (map (fun i => Recv :: replicate 16 (Run i true)) [0; 1; 2]%nat) ++ replicate 4 Recv
  ++ replicate 3 (Run 3 true) ++ replicate 3 (Run 6 true).

Definition held_state : mem_conn :=
  default demo_start (mem_exec (taken held_wanted demo_start) demo_start).

Definition held_labels : list label :=
  taken (concat (replicate 9 [Run 5 true; Run 6 true])) held_state.

Lemma running_handler_blocks_table_witness :
  exists c' u, mem_exec held_labels held_state = Some c'
    /\ fc_tasks held_state !! 6%nat = Some u /\ msg_body (ft_msg u) = Tclunk 8
    /\ fc_tasks c' !! 6%nat = Some u
    /\ option_map ft_stage (fc_tasks c' !! 5%nat) = Some (At (Done (Replied (Rlerror 2)))).
Proof.
  assert ((c ← mem_exec held_labels held_state; ft_stage <$> fc_tasks c !! 5%nat)
    = Some (At (Done (Replied (Rlerror 2))))) as H5 by (vm_compute; reflexivity).
  destruct (mem_exec held_labels held_state) as [c'|] eqn:Hx; [|discriminate H5].
  assert (is_handling <$> fc_tasks held_state !! 3%nat = Some true) as H3 by (vm_compute; reflexivity).
  assert (writes_table <$> fc_tasks held_state !! 6%nat = Some true) as H6 by (vm_compute; reflexivity).
  assert (msg_body ∘ ft_msg <$> fc_tasks held_state !! 6%nat = Some (Tclunk 8)) as H6' by (vm_compute; reflexivity).
  apply fmap_Some in H3 as (t & Ht & Hs), H6 as (u & Hu & Hw). unfold is_handling in Hs.
  destruct (ft_stage t) as [n x|] eqn:Es; [|discriminate Hs].
  assert (msg_body (ft_msg u) = Tclunk 8) as Hb by (rewrite Hu in H6'; by injection H6').
  exists c', u. split; [exact eq_refl|]. split; [exact Hu|]. split; [exact Hb|]. split; [|exact H5].
  refine (proj2 (running_handler_blocks_table served_tree held_labels held_state c' 3%nat t n x Hx Ht Es _) _ _ Hu (eq_sym Hw)).
  intros ok Hin. assert (Forall (fun l => match l with Run i _ => i <> 3%nat | Recv => True end) held_labels) as Hf
    by (vm_compute; repeat constructor; discriminate).
  apply list_elem_of_lookup in Hin as [k Hk]. by apply (Forall_lookup_1 _ _ _ _ Hf Hk).
Defined.
