(* ===== verification/FsLoopJail.v ===== *)
(** * The served root, with running handlers

    UnpfsJail.v shows that no fid leaves the served directory when a handler
    is one step.  The same holds when the calls of handlers interleave: a
    handler that reads a path, and uses it many calls later, reads a path that
    stays below the root. *)

From Stdlib Require Import Strings.Byte.
From S2P Require Import Prelude Bytes Io Error Fcall Serialize Wire EncodeFacts Srv Dispatch DispatchFacts.
From S2P Require Import Path Unpfs UnpfsFacts UnpfsJail MemOs Proc UnpfsSteps FsLoop FsLoopFacts FsLoopProps.

Section Jail.
Context {O F D FT : Type} `{OS : OsCalls O F D FT} `{BF : Bitflags} (self : Unpfs).

Abbreviation st := (state O F).

(** ** What a process does to the jail *)

(** The call leaves every jailed fid jailed, and drops no object. *)
Definition keeps_at {A} (m : M st Error A) (s : st) : Prop :=
  (forall f, jailed self s f -> jailed self (m s).2 f) /\ (length (heap s) <= length (heap (m s).2))%nat.

(** What a task knows: a number of objects that exist, and fids that are
    jailed.  Other tasks do not make it untrue. *)
Definition knows (n : nat) (fids : list (Fid nat)) (s : st) : Prop :=
  (n <= length (heap s))%nat /\ Forall (jailed self s) fids.

(** From a state in which [fids] are known to be jailed the process keeps the
    jail, and it returns [Q]'s values, with more fids known. *)
Fixpoint confined {A} (n : nat) (fids : list (Fid nat)) (Q : list (Fid nat) -> A -> Prop) (p : proc st A) : Prop :=
  match p with
  | Return (Ok a) => Q fids a
  | Return (Err _) => True
  | Call m k => forall s, knows n fids s -> keeps_at m s
      /\ exists fids', knows n fids' (m s).2 /\ confined n fids' Q (k (m s).1)
  | Acquire _ k | Release _ k => confined n fids Q k
  end.

Lemma confined_bind {A B} n fids Q (p : proc st A) (f : A -> proc st B) :
  confined n fids (fun fids a => confined n fids Q (f a)) p -> confined n fids Q (p ≫= f).
Proof.
  unfold mbind, proc_mbind. revert fids. induction p as [[a|e]|X m k IH|l k IH|l k IH]; intros fids; simpl; auto.
  intros Hc s Hk. destruct (Hc s Hk) as (H1 & fids' & H2 & H3). split; [done|]. exists fids'. split; [done|]. by apply IH.
Qed.

Lemma confined_locked {A} n fids Q l (p : proc st A) : confined n fids Q p -> confined n fids Q (locked l p).
Proof.
  unfold locked. simpl. intros Hp. apply confined_bind. revert fids Hp.
  induction p as [[a|e]|X m k IH|l' k IH|l' k IH]; intros fids; simpl; auto.
  intros Hc s Hk. destruct (Hc s Hk) as (H1 & fids' & H2 & H3). split; [done|]. exists fids'. split; [done|]. by apply IH.
Qed.

(** A call that changes no object. *)
Lemma nothing_keeps {A} (m : M st Error A) s : touches nothing m -> keeps_at m s.
Proof.
  intros Ht. split; [intros f; by apply keeps_jail_nothing|]. by rewrite (proj1 (Ht s)).
Qed.

Lemma keeps_knows {A} (m : M st Error A) n fids s : keeps_at m s -> knows n fids s -> knows n fids (m s).2.
Proof.
  intros [Hj Hl] [Hn Hf]. split; [lia|]. eapply Forall_impl; [exact Hf|]. by apply Hj.
Qed.

Lemma confined_act {A} n fids Q (m : M st Error A) :
  touches nothing m -> (forall a, Q fids a) -> confined n fids Q (act m).
Proof.
  intros Ht HQ s Hk. pose proof (nothing_keeps m s Ht) as Hm. split; [done|]. exists fids.
  split; [by apply keeps_knows|]. destruct (m s).1; simpl; auto.
Qed.

Lemma confined_io {A} n fids Q (m : M O io_error A) : (forall a, Q fids a) -> confined n fids Q (io_act m).
Proof. apply confined_act, touches_call. Qed.

Lemma confined_nix {A} n fids Q (m : M O Errno A) : (forall a, Q fids a) -> confined n fids Q (nix_act m).
Proof. apply confined_act, touches_call. Qed.

Lemma confined_qid n fids Q p : (forall q, Q fids q) -> confined n fids Q (act (get_qid p)).
Proof. apply confined_act, touches_get_qid. Qed.

(** The path of a jailed fid is below the root. *)
Lemma confined_path n fids Q fid :
  fid ∈ fids -> (forall p, under (realroot self) p -> Q fids p) -> confined n fids Q (path_of fid).
Proof.
  intros Hf HQ. apply confined_locked. intros s [Hn Hk]. split; [by apply nothing_keeps, touches_get_realpath|].
  exists fids. split; [by split|]. simpl. apply HQ. eapply Forall_forall in Hf; [|exact Hk]. apply Hf.
Qed.

(** A fid that is given a path below the root is jailed from then on. *)
Lemma confined_assign n fids Q fid p :
  (aux fid < n)%nat \/ fid ∈ fids -> under (realroot self) p -> Q (fid :: fids) tt ->
  confined n fids Q (assign_path fid p).
Proof.
  intros Hl Hp HQ. apply confined_locked. intros s Hk.
  assert (keeps_at (set_realpath fid p) s) as Hs.
  { split; [intros f; by apply keeps_jail_set_realpath|]. simpl. by rewrite length_insert. }
  split; [done|]. exists (fid :: fids). split; [|exact HQ].
  destruct (keeps_knows _ _ _ _ Hs Hk) as [H1 H2]. split; [done|]. constructor; [|done].
  apply set_realpath_self; [done|]. destruct Hk as [Hn Hf]. destruct Hl as [Hl|Hl]; [lia|].
  eapply Forall_forall in Hl; [|exact Hf]. apply Hl.
Qed.

Lemma confined_assign_file n fids (Q : list (Fid nat) -> unit -> Prop) fid f :
  Q fids tt -> confined n fids Q (assign_file fid f).
Proof.
  intros HQ. apply confined_locked. intros s Hk.
  assert (keeps_at (set_file fid (Some f)) s) as Hs.
  { split; [intros g; by apply keeps_jail_set_file|]. simpl. by rewrite length_insert. }
  split; [done|]. exists fids. split; [|exact HQ]. by apply keeps_knows.
Qed.

Lemma confined_when n fids (Q : list (Fid nat) -> unit -> Prop) c p :
  Q fids tt -> confined n fids Q p -> confined n fids Q (when_act c p).
Proof. by destruct c. Qed.

Lemma confined_walk n fids Q names : forall i p qs, under (realroot self) p -> Forall (fun n => plain n) names ->
  (forall q qs, under (realroot self) q -> Q fids (q, qs)) -> confined n fids Q (p_walk_loop i p qs names).
Proof.
  induction names as [|m ms IH]; intros i p qs Hp Hn HQ; simpl; [by apply HQ|].
  apply Forall_cons in Hn as [Hm Hms]. pose proof (under_push _ _ _ Hp Hm) as Hpush.
  intros s Hk. pose proof (nothing_keeps _ s (touches_get_qid nothing (push p m))) as Hs. split; [done|].
  exists fids. split; [by apply keeps_knows|]. destruct (get_qid (push p m) s).1; [by apply IH|].
  destruct (i =? 0)%nat; simpl; [done|by apply HQ].
Qed.

Lemma confined_readdir n fids Q entries : forall i c ds,
  (forall ds, Q fids ds) -> confined n fids Q (p_readdir_loop i c ds entries).
Proof.
  induction entries as [|[e|e] es IH]; intros i c ds HQ; simpl; [apply HQ| |done].
  intros s Hk.
  assert (touches (O := O) (F := F) nothing (get_dirent e (wrap 64 (2 + i)))) as Ht
    by (apply touches_bind; [apply touches_call|intros; apply touches_ret]).
  pose proof (nothing_keeps _ s Ht) as Hs. split; [done|]. exists fids. split; [by apply keeps_knows|].
  destruct (get_dirent e (wrap 64 (2 + i)) s).1 as [d|e']; [|done]. simpl.
  destruct (_ <? _); [apply HQ|by apply IH].
Qed.

(** ** The handlers *)

Lemma confined_ret {A} n fids (Q : list (Fid nat) -> A -> Prop) a : Q fids a -> confined n fids Q (mret a).
Proof. done. Qed.

Ltac confine := intros; lazymatch goal with
  | |- confined _ _ _ (path_of _ ≫= _) => apply confined_bind, confined_path; [done|confine]
  | |- confined _ _ _ (mbind _ _) => apply confined_bind; confine
  | |- confined _ _ _ (locked _ _) => apply confined_locked; confine
  | |- confined _ _ _ (io_act _) => apply confined_io; confine
  | |- confined _ _ _ (nix_act _) => apply confined_nix; confine
  | |- confined _ _ _ (act (get_qid _)) => apply confined_qid; confine
  | |- confined _ _ _ (act (get_dirent_from _ _)) =>
      apply confined_act; [apply touches_bind; [apply touches_get_qid|intros; apply touches_ret]|confine]
  | |- confined _ _ _ (act (get_realpath _)) => apply confined_act; [apply touches_get_realpath|confine]
  | |- confined _ _ _ (act (get_open_file _)) => apply confined_act; [apply touches_get_open_file|confine]
  | |- confined _ _ _ (act (ignore _)) => apply confined_act; [apply touches_ignore, touches_call|confine]
  | |- confined _ _ _ (assign_file _ _) => apply confined_assign_file; confine
  | |- confined _ _ _ (when_act _ _) => apply confined_when; confine
  | |- confined _ _ _ (p_readdir_loop _ _ _ _) => apply confined_readdir; confine
  | |- confined _ _ _ (mret _) => apply confined_ret; confine
  | |- confined _ _ _ (match _ with _ => _ end) => case_match; confine
  | |- _ => idtac
  end.

(** What is known when a request with the new fid [g] returns. *)
Definition makes (g : option (Fid nat)) (fids : list (Fid nat)) (_ : Fcall) : Prop :=
  forall f, g = Some f -> f ∈ fids.

Lemma confined_lookup {A} n fids Q (table : gmap u32 (Fid nat)) k (K : Fid nat -> proc st A) :
  (forall f, table !! k = Some f -> f ∈ fids) -> (forall f, f ∈ fids -> confined n fids Q (K f)) ->
  confined n fids Q (lookup_fid table k ≫= K).
Proof.
  intros Ht HK. unfold lookup_fid. destruct (table !! k) as [f|]; [|done]. by apply HK, Ht.
Qed.

Lemma confined_rattach n fids g :
  (aux g < n)%nat -> confined n fids (makes (Some g)) (p_rattach self g).
Proof.
  intros Hg. apply confined_bind, confined_assign; [by left|apply under_root|]. confine.
  intros f [= <-]. by constructor.
Qed.

Lemma confined_rwalk n fids f g names :
  f ∈ fids -> (aux g < n)%nat -> Forall (fun n => plain n) names ->
  confined n fids (makes (Some g)) (p_rwalk f g names).
Proof.
  intros Hf Hg Hn. apply confined_bind, confined_path; [done|]. intros p Hp.
  apply confined_bind, confined_walk; [done|done|]. intros q qs Hq.
  apply confined_bind, confined_assign; [by left|done|]. apply confined_ret. intros h [= <-]. by constructor.
Qed.

Lemma confined_rlcreate n fids f name flags mode :
  f ∈ fids -> plain name -> confined n fids (makes None) (p_rlcreate f name flags mode).
Proof.
  intros Hf Hn. apply confined_bind, confined_path; [done|]. intros p Hp. cbv zeta.
  apply confined_bind, confined_nix. intros fd. apply confined_bind, confined_qid. intros q.
  apply confined_bind, confined_assign; [by right|by apply under_push|]. confine. done.
Qed.

(** A request with plain names keeps the jail, and jails its new fid. *)
Lemma confined_process (table : gmap u32 (Fid nat)) n fids g body p :
  plain_names body -> (forall k f, table !! k = Some f -> f ∈ fids) -> (forall f, g = Some f -> aux f < n)%nat ->
  call_process self table g body = Some p -> (newfid body = None -> g = None) ->
  confined n fids (makes g) p.
Proof.
  intros Hp Ht Hg E Hn.
  destruct body; cbn [call_process] in E; unfold unwrap, fmap, option_fmap, option_map in E;
    try (rewrite (Hn eq_refl) in *); try (destruct g as [g|]; [|discriminate E]); injection E as <-;
    cbn [provided_on]; repeat (apply confined_lookup; [by apply Ht|intros ? ?]); try done;
    unfold p_rgetattr, p_rsetattr, p_rreadlink, p_rreaddir, p_rlopen, p_rread,
      p_rwrite, p_rmkdir, p_rrenameat, p_runlinkat, p_rfsync, p_rstatfs; try (confine; done).
  - by apply confined_rlcreate.
  - apply confined_rattach. by apply Hg.
  - apply confined_rwalk; [done|by apply Hg|done].
Qed.

(** ** The connection *)

Context `{NX : Nix} {R W : Type} `{BL : BytesBufLaws R W} `{FP : FromPrimitive MsgType}.
#[local] Hint Extern 0 (Filesystem _ _) => exact (served_files self) : typeclass_instances.

Abbreviation conn := (fs_conn O F).
Abbreviation task := (fs_task O F).

(** What is true of a task's fids in the state [s]. *)
Definition task_jailed (s : st) (t : task) : Prop :=
  match ft_stage t with
  | Handling g x => exists n fids, knows n fids s /\ confined n fids (makes g) (rest x)
  | At (Handled _ (Some g) | Clunked _ (Some g)) => jailed self s g
  | At _ => True
  end.

Definition fs_table_jailed (d : served st nat) : Prop :=
  forall k f, fsfids d !! k = Some f -> jailed self (fs d) f.

(** From one state to the next: jailed fids stay so, and objects are not dropped. *)
Definition keeps_between (s s' : st) : Prop :=
  (forall f, jailed self s f -> jailed self s' f) /\ (length (heap s) <= length (heap s'))%nat.

Lemma task_jailed_keeps s s' t : keeps_between s s' -> task_jailed s t -> task_jailed s' t.
Proof.
  intros [Hj Hl]. unfold task_jailed. destruct (ft_stage t) as [g x|p].
  - intros (n & fids & [Hn Hf] & Hc). exists n, fids. split; [|done]. split; [lia|]. by eapply Forall_impl.
  - destruct p as [|resp [g|]|resp [g|]| |]; auto.
Qed.

Lemma running_step_confined {A} held n fids Q (x y : running st A) s s' :
  running_step held x s = Some (y, s') -> knows n fids s -> confined n fids Q (rest x) ->
  keeps_between s s' /\ exists fids', knows n fids' s' /\ confined n fids' Q (rest y).
Proof.
  unfold running_step. destruct (rest x) as [r|X m k|l k|l k]; simpl; [done|..].
  - intros Hm Hk Hc. destruct (Hc s Hk) as (H1 & H2). unfold keeps_at in *.
    destruct (m s) as [r s1]. by injection Hm as <- <-.
  - destruct (can_take l held); [|done]. intros [= <- <-] Hk Hc. split; [by split|]. by exists fids.
  - intros [= <- <-] Hk Hc. split; [by split|]. by exists fids.
Qed.

Lemma make_newfid_keeps body (s : st) : keeps_between s (make_newfid body s).2.
Proof.
  split; [intros f; by apply (jailed_make_newfid self)|]. unfold make_newfid.
  destruct (newfid body); [|done]. simpl. rewrite length_app. lia.
Qed.

Lemma moves_keep_jail ts ok t d g d' frames :
  fs_moves self ts ok t d g d' frames -> plain_names (msg_body (ft_msg t)) ->
  fs_table_jailed d -> task_jailed (fs d) t ->
  keeps_between (fs d) (fs d') /\ fs_table_jailed d' /\ task_jailed (fs d') {| ft_msg := ft_msg t; ft_stage := g |}.
Proof.
  intros Hm Hp Ht Hj. unfold task_jailed in *.
  destruct Hm as [p Hs Hc|n x y s Hs Hx|n x resp Hs Hr|n x e Hs Hr|p q d' fr Hs Hns Hw Hm]; rewrite Hs in Hj; simpl.
  - pose proof (make_newfid_keeps (msg_body (ft_msg t)) (fs d)) as Hk. split; [done|]. split.
    { intros k f Hf. simpl in *. eapply (proj1 Hk), Ht, Hf. }
    exists (length (heap (make_newfid (msg_body (ft_msg t)) (fs d)).2)), (map snd (map_to_list (fsfids d))).
    split; [split; [done|]|].
    + apply Forall_forall. intros f Hf. apply list_elem_of_fmap in Hf as ([k f'] & -> & Hf).
      apply elem_of_map_to_list in Hf. by eapply (proj1 Hk), Ht.
    + eapply confined_process; [done| | |done|apply make_newfid_none].
      * intros k f Hf. apply list_elem_of_fmap. exists (k, f). split; [done|]. by apply elem_of_map_to_list.
      * intros f Hf. by apply (make_newfid_fresh self) in Hf.
  - destruct Hj as (m & fids & Hk & Hc).
    destruct (running_step_confined _ _ _ _ _ _ _ _ Hx Hk Hc) as [Hkeep (fids' & Hk' & Hc')].
    split; [done|]. split; [|by exists m, fids']. intros k f Hf. simpl in *. eapply (proj1 Hkeep), Ht, Hf.
  - split; [by split|]. split; [done|]. destruct n as [g|]; [|done].
    destruct Hj as (m & fids & [_ Hk] & Hc). rewrite Hr in Hc. specialize (Hc g eq_refl).
    eapply Forall_forall in Hc; [|done]. exact Hc.
  - split; [by split|]. by split.
  - destruct Hm as [e d' Hq Hr|resp m d' Hq Hr|resp m Hq|resp m Hq|resp Hq|resp Hq|resp Hq];
      simpl in Hq; subst p; try done; simpl in *.
    + assert (fs (drop_clunked (msg_body (ft_msg t)) d) = fs d) as Ed by (by destruct (msg_body (ft_msg t))).
      rewrite Ed. split; [by split|]. split; [|done]. intros k f Hk. rewrite Ed. apply (Ht k).
      destruct (msg_body (ft_msg t)); try done. simpl in Hk. by apply lookup_delete_Some in Hk as [_ ?].
    + destruct m as [g|]; [|done]. split; [by split|]. split; [|done]. intros k f Hk. simpl in *.
      apply lookup_insert_Some in Hk as [[_ <-]|[_ Hk]]; [done|]. by eapply Ht.
Qed.

Definition fs_plain (t : task) : Prop := plain_names (msg_body (ft_msg t)).

(** C11: while every request read so far has plain names, every fid of the
    table has a path at or below the served root, in every state that is
    reached while handlers run side by side, call by call. *)
Theorem concurrent_fids_below_root machine frames (c : conn) k f :
  fs_reachable (R := R) (W := W) self {| os := machine; heap := [] |} frames c ->
  Forall fs_plain (fc_tasks c) -> fsfids (fc_shared c) !! k = Some f ->
  under (realroot self) (realpath (object f (fs (fc_shared c)))).
Proof.
  intros Hr Hp Hk.
  cut (fs_table_jailed (fc_shared c) /\ Forall (task_jailed (fs (fc_shared c))) (fc_tasks c));
    [intros [Ht _]; by apply (Ht k f)|].
  revert Hp. clear Hk. revert c Hr.
  apply (fs_reachable_ind self (fun c => Forall fs_plain (fc_tasks c) ->
    fs_table_jailed (fc_shared c) /\ Forall (task_jailed (fs (fc_shared c))) (fc_tasks c))); [by split|].
  intros l c c' IH Hs Hp. destruct Hs as [c r rest Hs Hi|c b m rest Hs Hi Hr|c i ok t g d fr Ht Hm]; simpl in *.
  - by apply IH.
  - apply Forall_app in Hp as [Hp _]. destruct (IH Hp) as [H1 H2]. split; [done|].
    apply Forall_app. split; [done|]. by apply Forall_singleton.
  - assert (Forall fs_plain (fc_tasks c)) as Hp'.
    { apply Forall_lookup_2. intros j u Hj. destruct (decide (i = j)) as [<-|Hne].
      - simplify_eq. pose proof (Forall_lookup_1 _ _ i {| ft_msg := ft_msg t; ft_stage := g |} Hp) as Hpt.
        apply Hpt. by eapply list_lookup_insert_eq, lookup_lt_Some.
      - eapply (Forall_lookup_1 _ _ j _ Hp). by rewrite list_lookup_insert_ne. }
    destruct (IH Hp') as [H1 H2].
    destruct (moves_keep_jail _ _ _ _ _ _ _ Hm (Forall_lookup_1 _ _ _ _ Hp' Ht) H1 (Forall_lookup_1 _ _ _ _ H2 Ht))
      as (Hk & Ht' & Hj').
    split; [done|]. apply Forall_insert; [|done]. eapply Forall_impl; [exact H2|]. intros u. by apply task_jailed_keeps.
Qed.
End Jail.

(** ** Witness *)

#[local] Existing Instance bitflags_ref.
#[local] Existing Instance from_u8_ref.
#[local] Existing Instance nix_ref.
#[local] Existing Instance bytes_ref.
#[local] Existing Instance bytes_ref_laws.
#[local] Existing Instance mem_os.

Lemma held_reached : mem_exec (taken held_wanted demo_start) demo_start = Some held_state.
Proof.
  assert (bool_decide (is_Some (mem_exec (taken held_wanted demo_start) demo_start)) = true) as H by (vm_compute; reflexivity).
  apply bool_decide_eq_true_1 in H as [c H]. unfold held_state. by rewrite H.
Qed.

Lemma held_bodies : msg_body ∘ ft_msg <$> fc_tasks held_state
  = [Tattach 7 NOFID "u" "/" 0; Twalk 7 8 ["motd"]; Tlopen 8 2; Tread 8 1 5; Twrite 8 0 {| data_bytes := [x48] |};
     Twalk 7 9 ["nothing"]; Tclunk 8].
Proof. vm_compute. reflexivity. Qed.

Lemma held_plain : Forall fs_plain (fc_tasks held_state).
Proof.
  assert (Forall plain_names (msg_body ∘ ft_msg <$> fc_tasks held_state)) as Hf
    by (rewrite held_bodies; repeat constructor).
  rewrite Forall_fmap in Hf. exact Hf.
Qed.

(** In the run of FsLoopProps.v, before the clunk: fid 8 is the file. *)
Lemma concurrent_fids_below_root_witness :
  exists f, fsfids (fc_shared held_state) !! (8 : u32) = Some f
    /\ under "/srv" (realpath (object f (fs (fc_shared held_state))))
    /\ realpath (object f (fs (fc_shared held_state))) = "/srv/motd".
Proof.
  assert (fsfids (fc_shared held_state) !! (8 : u32) = Some {| fid_raw := 8; aux := 1%nat |}) as Hf
    by (vm_compute; reflexivity).
  eexists. split; [exact Hf|]. split; [|vm_compute; reflexivity].
  exact (concurrent_fids_below_root served_tree (R := list byte) (W := list byte) tree demo_frames held_state 8 _
    (fs_exec_reachable served_tree _ _ _ _ held_reached) held_plain Hf).
Defined.
