(* ===== verification/Linear.v ===== *)
(** * Concurrent reads and writes of open files

    The server runs the reads, writes and syncs of its clients side by side,
    and each of them is two calls, a seek and a transfer.  The lock of a fid's
    file keeps the two together: the requests are linearizable.  Whatever the
    order of the calls, the answers and the files are those of the handlers of
    Unpfs.v run one after the other, in the order of the transfers, which is
    between the arrival and the answer of each request. *)

From S2P Require Import Prelude Bytes Io Error Fcall Serialize Srv Path Unpfs Proc UnpfsSteps UnpfsAlone.

(** ** Tasks that run side by side *)
Section Pool.
Context {S A : Type}.

Definition pool_step (i : nat) (c : list (running S A) * S) : option (list (running S A) * S) :=
  let '(xs, s) := c in
  x ← xs !! i;
  '(y, s) ← running_step (concat (map locks xs)) x s;
  Some (<[i := y]> xs, s).

Fixpoint pool_exec (ls : list nat) (c : list (running S A) * S) : option (list (running S A) * S) :=
  match ls with
  | [] => Some c
  | i :: ls => c ← pool_step i c; pool_exec ls c
  end.

(** Computations run one after the other, with what each returns. *)
Fixpoint serial (h : nat -> M S Error A) (order : list nat) (s : S) : list (nat * result Error A) * S :=
  match order with
  | [] => ([], s)
  | i :: order => let '(r, s) := h i s in let '(rs, s) := serial h order s in ((i, r) :: rs, s)
  end.

Lemma serial_app h l k s :
  serial h (l ++ k) s = (let '(rs, s) := serial h l s in let '(qs, s) := serial h k s in (rs ++ qs, s)).
Proof.
  revert s. induction l as [|i l IH]; intros s; simpl; [by destruct (serial h k s)|].
  destruct (h i s) as [r s1]. rewrite IH. destruct (serial h l s1) as [rs s2]. by destruct (serial h k s2).
Qed.

Lemma serial_fst h l s : map fst (serial h l s).1 = l.
Proof.
  revert s. induction l as [|i l IH]; intros s; simpl; [done|]. destruct (h i s) as [r s1]. specialize (IH s1).
  destruct (serial h l s1). simpl in *. by rewrite IH.
Qed.

(** Nothing but the leaving of its lock is left of the process. *)
Definition settled (p : proc S A) : bool :=
  match p with Return _ | Release _ (Return _) => true | _ => false end.

(** The tasks in the order of their last calls. *)
Fixpoint commits (ls : list nat) (c : list (running S A) * S) : list nat :=
  match ls with
  | [] => []
  | i :: ls =>
      match pool_step i c with
      | None => []
      | Some c' =>
          (if from_option (settled ∘ rest) false (c'.1 !! i) && negb (from_option (settled ∘ rest) false (c.1 !! i))
           then [i] else []) ++ commits ls c'
      end
  end.

Lemma pool_exec_app ls ks c : pool_exec (ls ++ ks) c = (c1 ← pool_exec ls c; pool_exec ks c1).
Proof. revert c. induction ls as [|i ls IH]; intros c; simpl; [done|]. destruct (pool_step i c); simpl; [apply IH|done]. Qed.

Lemma commits_app ls ks c c1 : pool_exec ls c = Some c1 -> commits (ls ++ ks) c = commits ls c ++ commits ks c1.
Proof.
  revert c. induction ls as [|i ls IH]; intros c Hx; simpl in *; [by simplify_eq|].
  destruct (pool_step i c) as [c2|]; simpl in Hx; [|done]. by rewrite (IH _ Hx), (assoc_L app).
Qed.

Lemma commits_labels ls c i : i ∈ commits ls c -> i ∈ ls.
Proof.
  revert c. induction ls as [|j ls IH]; intros c; simpl; [done|]. destruct (pool_step j c) as [c1|].
  - intros [Hi|Hi]%elem_of_app; [|by apply list_elem_of_further, (IH c1)].
    case_match; [|by apply elem_of_nil in Hi]. apply list_elem_of_singleton in Hi as ->. apply list_elem_of_here.
  - intros Hi. by apply elem_of_nil in Hi.
Qed.
End Pool.

(** ** Files *)

Section Slides.
Context {O F D FT : Type} `{OS : OsCalls O F D FT}.

(** A seek that succeeds comes after [m] as well as before it. *)
Definition slides (g : F) (off : u64) {X} (m : M O io_error X) : Prop :=
  forall o o1 r o2, seek g off o = (Ok tt, o1) -> m o1 = (r, o2) ->
  exists o', m o = (r, o') /\ seek g off o' = (Ok tt, o2).
End Slides.

(** The offset of an open file is that file's own: seeking in it neither
    changes what the calls on another see and do, nor is changed by them. *)
Class FileLaws (O F D FT : Type) `{OsCalls O F D FT} : Prop := {
  slides_seek : forall (f g : F) off off', f <> g -> slides g off (seek f off');
  slides_read : forall (f g : F) off buf, f <> g -> slides g off (read f buf);
  slides_write : forall (f g : F) off bs, f <> g -> slides g off (write f bs);
  slides_sync : forall (f g : F) off, f <> g -> slides g off (sync_all f)
}.

Section Files.
Context {O F D FT : Type} `{OS : OsCalls O F D FT} `{BF : Bitflags} {FL : FileLaws O F D FT}.

Abbreviation st := (state O F).

(** ** The requests *)

Inductive file_req : Set :=
  | FileRead (fid : Fid nat) (offset : u64) (count : u32)
  | FileWrite (fid : Fid nat) (offset : u64) (data : Data)
  | FileSync (fid : Fid nat).

Definition req_fid (r : file_req) : Fid nat :=
  match r with FileRead fid _ _ | FileWrite fid _ _ | FileSync fid => fid end.

Definition req_process (r : file_req) : proc st Fcall :=
  match r with
  | FileRead fid offset count => p_rread fid offset count
  | FileWrite fid offset data => p_rwrite fid offset data
  | FileSync fid => p_rfsync fid
  end.

Definition req_handler (r : file_req) : M st Error Fcall :=
  match r with
  | FileRead fid offset count => unpfs_rread fid offset count
  | FileWrite fid offset data => unpfs_rwrite fid offset data
  | FileSync fid => unpfs_rfsync fid
  end.

Lemma req_same r : same (req_process r) (req_handler r).
Proof. destruct r; [apply same_rread|apply same_rwrite|apply same_rfsync]. Qed.

(** Two objects with the same open file are one. *)
Definition files_distinct (h : list (UnpfsFid F)) : Prop :=
  forall m n x y f, h !! m = Some x -> h !! n = Some y -> file x = Some f -> file y = Some f -> m = n.

(** ** Their calls *)

Abbreviation process := (proc st Fcall).

(** The transfer is what is left, and it is not disturbed by other files. *)
Definition at_transfer (l : lock) (f : F) (p : process) : Prop :=
  exists X (m : M O io_error X) k fin, p = Call (call Error_from_io m) k
    /\ (forall r, k r = Release l (Return (fin r))) /\ forall g off, f <> g -> slides g off m.

(** The seek, if there is one. *)
Definition at_seek (l : lock) (f : F) (p : process) : Prop :=
  at_transfer l f p
  \/ exists off k, p = Call (call Error_from_io (seek f off)) k
       /\ (forall e, k (Err e) = Release l (Return (Err e))) /\ at_transfer l f (k (Ok tt)).

Definition at_file (l : lock) (fid : Fid nat) (p : process) : Prop :=
  exists k, p = Call (get_open_file fid) k
    /\ (forall e, k (Err e) = Release l (Return (Err e))) /\ forall f, at_seek l f (k (Ok f)).

Lemma req_calls r : exists k, req_process r = Acquire (FileLock (aux (req_fid r))) k
  /\ at_file (FileLock (aux (req_fid r))) (req_fid r) k.
Proof.
  destruct r as [fid off count|fid off data|fid]; (eexists; split; [reflexivity|]);
    (eexists; split; [reflexivity|]); (split; [done|]); intros f.
  - right. eexists off, _. split; [reflexivity|]. split; [done|].
    exists _, (read f (create_buffer (Z.to_nat count))). eexists.
    exists (fun r => match r with Ok (n, buf) => Ok (Rread {| data_bytes := take n buf |}) | Err e => Err e end).
    split; [reflexivity|]. split; [by intros [[n buf]|e]|]. intros g off' Hg. by apply slides_read.
  - right. eexists off, _. split; [reflexivity|]. split; [done|].
    exists _, (write f (data_bytes data)). eexists.
    exists (fun r => match r with Ok n => Ok (Rwrite (wrap 32 n)) | Err e => Err e end).
    split; [reflexivity|]. split; [by intros [n|e]|]. intros g off' Hg. by apply slides_write.
  - left. exists _, (sync_all f). eexists.
    exists (fun r => match r with Ok _ => Ok Rfsync | Err e => Err e end).
    split; [reflexivity|]. split; [by intros [n|e]|]. intros g off' Hg. by apply slides_sync.
Qed.
End Files.
