(* ===== verification/LinearProps.v ===== *)
(** * Linearizability of the requests on open files

    The proof follows two runs: that of the calls as they come, and the serial
    one of the requests that have made their last call.  The states differ by
    the seeks of the tasks between their seek and their transfer, each in a
    file of its own. *)

From Stdlib Require Import Strings.Byte.
From S2P Require Import Prelude Bytes Io Error Fcall Serialize Srv Path Unpfs UnpfsFacts MemOs Proc UnpfsSteps UnpfsAlone Linear.

Section Linear.
Context {O F D FT : Type} `{OS : OsCalls O F D FT} `{BF : Bitflags} {FL : FileLaws O F D FT}.

Abbreviation st := (state O F).
Abbreviation process := (proc st Fcall).
Abbreviation task := (running st Fcall).

(** ** Seeks that have no transfer yet *)

Abbreviation pending := (list (nat * (F * u64))).

Fixpoint seeks (P : pending) (o : O) : option O :=
  match P with
  | [] => Some o
  | (_, (f, off)) :: P => match seek f off o with (Ok _, o) => seeks P o | (Err _, _) => None end
  end.

Lemma seeks_app P Q o : seeks (P ++ Q) o = (o1 ← seeks P o; seeks Q o1).
Proof.
  revert o. induction P as [|[i [f off]] P IH]; intros o; simpl; [done|].
  destruct (seek f off o) as [[[]|e] o1]; [apply IH|done].
Qed.

Lemma slides_all P {X} (m : M O io_error X) o o1 r o2 :
  (forall i g off, (i, (g, off)) ∈ P -> slides g off m) ->
  seeks P o = Some o1 -> m o1 = (r, o2) -> exists o', m o = (r, o') /\ seeks P o' = Some o2.
Proof.
  revert o. induction P as [|[i [g off]] P IH]; intros o Hs Hp Hm; simpl in *; [simplify_eq; by exists o2|].
  destruct (seek g off o) as [[[]|e] oa] eqn:Eg; [|done].
  destruct (IH oa) as (ob & Hob & Hp'); [|done|done|].
  { intros j g' off' Hin. apply (Hs j). by apply list_elem_of_further. }
  destruct (Hs i g off (list_elem_of_here _ _) o oa r ob Eg Hob) as (o' & Ho' & Hg').
  exists o'. split; [done|]. by rewrite Hg'.
Qed.

(** A pending seek can be taken for the last. *)
Lemma seeks_last P i f off Q o o1 :
  (forall j g off', (j, (g, off')) ∈ Q -> g <> f) -> seeks (P ++ (i, (f, off)) :: Q) o = Some o1 ->
  exists o', seeks (P ++ Q) o = Some o' /\ seek f off o' = (Ok tt, o1).
Proof.
  intros Hq. rewrite !seeks_app. destruct (seeks P o) as [oa|]; simpl; [|done]. clear P o.
  destruct (seek f off oa) as [[[]|e] ob] eqn:Ef; [|done].
  revert oa ob Ef. induction Q as [|[j [g off']] Q IH]; intros oa ob Ef Hs; simpl in *.
  { simplify_eq. by exists oa. }
  destruct (seek g off' ob) as [[[]|e] oc] eqn:Eg; [|done].
  assert (g <> f) as Hne by (eapply Hq, list_elem_of_here).
  destruct (slides_seek g f off off' Hne oa ob _ _ Ef Eg) as (od & Hod & Hoc). rewrite Hod.
  apply (IH) with oc; [|done|done]. intros k g' off'' Hin. eapply Hq. by apply list_elem_of_further.
Qed.

(** ** Where a task stands *)

Context (reqs : list file_req) (objects : list (UnpfsFid F)) (Hfiles : files_distinct objects).

Definition req_lock (r : file_req) : lock := FileLock (aux (req_fid r)).

Definition file_of (r : file_req) : option F := file (default UnpfsFid_default (objects !! aux (req_fid r))).

(** Where a request stands, the seek it has pending, and the answer it has. *)
Inductive stage_of (r : file_req) (x : task) : option (F * u64) -> option (result Error Fcall) -> Prop :=
  | stage_new k : rest x = Acquire (req_lock r) k -> locks x = [] -> at_file (req_lock r) (req_fid r) k ->
      same k (req_handler r) -> stage_of r x None None
  | stage_entered : locks x = [req_lock r] -> at_file (req_lock r) (req_fid r) (rest x) ->
      same (rest x) (req_handler r) -> stage_of r x None None
  | stage_file f : locks x = [req_lock r] -> file_of r = Some f -> at_seek (req_lock r) f (rest x) ->
      (forall s, heap s = objects -> alone (rest x) s = req_handler r s) -> stage_of r x None None
  | stage_sought f off : locks x = [req_lock r] -> file_of r = Some f -> at_transfer (req_lock r) f (rest x) ->
      (forall s o, heap s = objects -> seek f off (os s) = (Ok tt, o) ->
        alone (rest x) {| os := o; heap := objects |} = req_handler r s) ->
      stage_of r x (Some (f, off)) None
  | stage_settled a : locks x = [req_lock r] -> rest x = Release (req_lock r) (Return a) -> stage_of r x None (Some a)
  | stage_returned a : locks x = [] -> rest x = Return a -> stage_of r x None (Some a).

(** The requests' handlers, by number. *)
Definition handler_of (i : nat) : M st Error Fcall :=
  match reqs !! i with Some r => req_handler r | None => fun s => (Err (No EBADF), s) end.

Record linear (s1 : st) (L : list nat) (xs : list task) (s s0 : st)
    (rs : list (nat * result Error Fcall)) (P : pending) : Prop := {
  lin_length : length xs = length reqs;
  lin_heap : heap s = objects;
  lin_heap0 : heap s0 = objects;
  lin_seeks : seeks P (os s0) = Some (os s);
  lin_serial : serial handler_of L s1 = (rs, s0);
  lin_nodup : NoDup L;
  lin_pending : NoDup (map fst P);
  lin_stages : forall i x r, xs !! i = Some x -> reqs !! i = Some r -> exists p a, stage_of r x p a
    /\ (forall fo, (i, fo) ∈ P <-> p = Some fo) /\ (forall b, (i, b) ∈ rs <-> a = Some b);
  lin_range : forall i, i ∈ map fst P \/ i ∈ L -> (i < length reqs)%nat;
  lin_locks : forall i j x y l, i <> j -> xs !! i = Some x -> xs !! j = Some y -> l ∈ locks x -> l ∈ locks y -> False
}.

(** A task goes on, and the rest is as before. *)
Lemma linear_update s1 L xs s s0 rs P i x y r p a L' s' s0' rs' P' :
  linear s1 L xs s s0 rs P -> xs !! i = Some x -> reqs !! i = Some r ->
  stage_of r y p a -> heap s' = objects -> heap s0' = objects -> seeks P' (os s0') = Some (os s') ->
  serial handler_of L' s1 = (rs', s0') -> NoDup L' -> NoDup (map fst P') ->
  (forall fo, (i, fo) ∈ P' <-> p = Some fo) -> (forall b, (i, b) ∈ rs' <-> a = Some b) ->
  (forall j fo, j <> i -> (j, fo) ∈ P' <-> (j, fo) ∈ P) -> (forall j b, j <> i -> (j, b) ∈ rs' <-> (j, b) ∈ rs) ->
  (forall j, j ∈ L' -> j = i \/ j ∈ L) ->
  (forall l, l ∈ locks y -> l ∈ locks x \/ forall j z, xs !! j = Some z -> l ∉ locks z) ->
  linear s1 L' (<[i := y]> xs) s' s0' rs' P'.
Proof.
  intros [H1 H2 H3 H4 H5 H6 H7 H8 H9 H10] Hx Hr Hst Hh Hh0 Hse Hser Hnd Hnp Hpi Hai Hpj Haj HL Hl.
  pose proof (lookup_lt_Some _ _ _ Hx) as Hlt.
  split; try done.
  - by rewrite length_insert.
  - intros j z q [(<- & <- & _)|[Hne Hj]]%list_lookup_insert_Some Hq.
    + simplify_eq. by exists p, a.
    + destruct (H8 _ _ _ Hj Hq) as (p' & a' & Hs' & Hp' & Ha'). exists p', a'. split; [done|].
      split; intros ?; [rewrite Hpj by done|rewrite Haj by done]; auto.
  - intros j [Hj|Hj].
    + apply list_elem_of_In, in_map_iff in Hj as ([k fo] & <- & Hj). apply list_elem_of_In in Hj. simpl.
      destruct (decide (k = i)) as [->|Hne]; [lia|]. apply H9. left. apply Hpj in Hj; [|done].
      apply list_elem_of_In, in_map_iff. exists (k, fo). split; [done|]. by apply list_elem_of_In.
    + apply HL in Hj as [->|Hj]; [lia|]. apply H9. by right.
  - intros j k z w l Hne Hj Hk Hz Hw.
    apply list_lookup_insert_Some in Hj as [(<- & <- & _)|[Hnj Hj]];
      apply list_lookup_insert_Some in Hk as [(<- & <- & _)|[Hnk Hk]]; [done|..].
    + destruct (Hl l Hz) as [Hin|Hin]; [by eapply (H10 i k)|]. by eapply Hin.
    + destruct (Hl l Hw) as [Hin|Hin]; [by eapply (H10 j i)|]. by eapply Hin.
    + by eapply (H10 j k).
Qed.

Lemma get_open_file_run r (s : st) : heap s = objects ->
  get_open_file (req_fid r) s
  = (match file_of r with Some f => Ok f | None => Err (Error_from_io INVALID_FID) end, s).
Proof.
  intros Hh. unfold get_open_file, file_of, mbind, M_bind, get_file, object. rewrite Hh.
  by destruct (file _).
Qed.

(** Another task's pending seek is in another file. *)
Lemma pending_apart s1 L xs s s0 rs P i x r f :
  linear s1 L xs s s0 rs P -> xs !! i = Some x -> reqs !! i = Some r ->
  locks x = [req_lock r] -> file_of r = Some f ->
  forall j g off, (j, (g, off)) ∈ P -> j <> i -> g <> f.
Proof.
  intros Hlin Hx Hr Hl Hf j g off Hj Hne ->.
  assert (j < length reqs)%nat as Hlt.
  { apply (lin_range _ _ _ _ _ _ _ Hlin). left. apply list_elem_of_In, in_map_iff. exists (j, (f, off)).
    split; [done|]. by apply list_elem_of_In. }
  destruct (lookup_lt_is_Some_2 reqs j Hlt) as [q Hq].
  rewrite <- (lin_length _ _ _ _ _ _ _ Hlin) in Hlt. destruct (lookup_lt_is_Some_2 xs j Hlt) as [y Hy].
  destruct (lin_stages _ _ _ _ _ _ _ Hlin _ _ _ Hy Hq) as (p & a & Hst & Hp & _). apply Hp in Hj. subst p.
  inversion Hst as [| | |g off' Hly Hfq| |]; subst.
  assert (aux (req_fid q) = aux (req_fid r)) as E.
  { unfold file_of in *. destruct (objects !! aux (req_fid q)) as [ox|] eqn:Ex; [|done].
    destruct (objects !! aux (req_fid r)) as [oy|] eqn:Ey; [|done]. simpl in *. by eapply Hfiles. }
  apply (lin_locks _ _ _ _ _ _ _ Hlin j i y x (req_lock r) Hne Hy Hx); [|rewrite Hl; apply list_elem_of_here].
  rewrite Hly. unfold req_lock. rewrite E. apply list_elem_of_here.
Qed.

(** A task makes its last call: the serial run goes on with its request. *)
Lemma linear_commit s1 L xs s s0 rs P i x y r b s' s0' P' :
  linear s1 L xs s s0 rs P -> xs !! i = Some x -> reqs !! i = Some r ->
  (forall a, (i, a) ∉ rs) -> locks y = locks x -> locks x = [req_lock r] ->
  rest y = Release (req_lock r) (Return b) ->
  heap s' = objects -> heap s0' = objects -> req_handler r s0 = (b, s0') -> seeks P' (os s0') = Some (os s') ->
  NoDup (map fst P') -> (forall fo, (i, fo) ∉ P') -> (forall j fo, j <> i -> (j, fo) ∈ P' <-> (j, fo) ∈ P) ->
  linear s1 (L ++ [i]) (<[i := y]> xs) s' s0' (rs ++ [(i, b)]) P'.
Proof.
  intros Hlin Hx Hr Hnew Hly Hlx Hrest Hh Hh0 Hrun Hse Hnp Hpi Hpj.
  pose proof (lin_serial _ _ _ _ _ _ _ Hlin) as Hser.
  eapply linear_update; try done.
  - apply stage_settled; [congruence|exact Hrest].
  - rewrite serial_app, Hser. simpl. unfold handler_of. rewrite Hr, Hrun. done.
  - apply NoDup_app. split; [apply (lin_nodup _ _ _ _ _ _ _ Hlin)|]. split; [|apply NoDup_singleton].
    intros j Hj ->%list_elem_of_singleton. pose proof (serial_fst handler_of L s1) as Hfst. rewrite Hser in Hfst.
    simpl in Hfst. rewrite <- Hfst in Hj. apply list_elem_of_In, in_map_iff in Hj as ([k a] & <- & Hj).
    eapply Hnew. apply list_elem_of_In. exact Hj.
  - intros fo. split; [|done]. intros Hfo. by apply Hpi in Hfo.
  - intros a. rewrite elem_of_app, list_elem_of_singleton. split; [|intros [= ->]; by right].
    intros [Ha|[= ->]]; [by apply Hnew in Ha|done].
  - intros j a Hne. rewrite elem_of_app, list_elem_of_singleton. split; [|by left]. by intros [?|[= ? ?]].
  - intros j [Hj| ->%list_elem_of_singleton]%elem_of_app; auto.
  - intros l Hl'. left. congruence.
Qed.

(** The last call itself, with its seek pending or not; it slides to before
    the pending seeks of the others. *)
Lemma linear_call s1 L xs s s0 rs P i x y r {X} (m : M O io_error X) e o :
  linear s1 L xs s s0 rs P -> xs !! i = Some x -> reqs !! i = Some r -> (forall a, (i, a) ∉ rs) ->
  (forall fo, (i, fo) ∉ P) -> locks y = locks x -> locks x = [req_lock r] ->
  (forall j g off, (j, (g, off)) ∈ P -> slides g off m) ->
  m (os s) = (e, o) ->
  (forall b o', m (os s0) = (e, o') -> rest y = Release (req_lock r) (Return b) ->
    req_handler r s0 = (b, {| os := o'; heap := objects |})) ->
  (exists b, rest y = Release (req_lock r) (Return b)) ->
  exists s0' rs' P', linear s1 (L ++ [i]) (<[i := y]> xs) {| os := o; heap := objects |} s0' rs' P'.
Proof.
  intros Hlin Hx Hr Hnew Hpi Hly Hlx Hsl Hm Hrun [b Hb].
  destruct (slides_all P m (os s0) (os s) e o Hsl (lin_seeks _ _ _ _ _ _ _ Hlin) Hm) as (o' & Ho' & Hse).
  exists {| os := o'; heap := objects |}, (rs ++ [(i, b)]), P.
  eapply linear_commit; try done; [by apply Hrun|]. apply (lin_pending _ _ _ _ _ _ _ Hlin).
Qed.

Definition io_result {X} (e : result io_error X) : result Error X :=
  match e with Ok a => Ok a | Err e => Err (Error_from_io e) end.

Lemma call_run {X} (m : M O io_error X) (s : st) e o :
  m (os s) = (e, o) -> call Error_from_io m s = (io_result e, {| os := o; heap := heap s |}).
Proof. intros Hm. unfold call. rewrite Hm. by destruct e. Qed.

Lemma alone_call {X} (m : M O io_error X) (k : result Error X -> process) (s : st) e o :
  m (os s) = (e, o) ->
  alone (Call (call Error_from_io m) k) s = alone (k (io_result e)) {| os := o; heap := heap s |}.
Proof. intros Hm. simpl. by rewrite (call_run _ _ _ _ Hm). Qed.

(** What a step of the pool adds to the order. *)
Definition committed (x y : task) (i : nat) : list nat :=
  if settled (rest y) && negb (settled (rest x)) then [i] else [].

Section Step.
Context (s1 : st) (L : list nat) (xs : list task) (s s0 : st) (rs : list (nat * result Error Fcall)) (P : pending).
Context (Hlin : linear s1 L xs s s0 rs P) (i : nat) (x y : task) (r : file_req) (s' : st).
Context (Hx : xs !! i = Some x) (Hr : reqs !! i = Some r).
Context (Hstep : running_step (concat (map locks xs)) x s = Some (y, s')).

Definition goes_on : Prop := exists s0' rs' P', linear s1 (L ++ committed x y i) (<[i := y]> xs) s' s0' rs' P'.

(** A move that makes no call. *)
Lemma quiet_step p a :
  stage_of r y p a -> s' = s -> settled (rest y) = settled (rest x) ->
  (forall fo, (i, fo) ∈ P <-> p = Some fo) -> (forall b, (i, b) ∈ rs <-> a = Some b) ->
  (forall l, l ∈ locks y -> l ∈ locks x \/ forall j z, xs !! j = Some z -> l ∉ locks z) -> goes_on.
Proof.
  intros Hst E Hset Hp Ha Hl. unfold goes_on, committed. rewrite Hset, andb_negb_r, app_nil_r.
  exists s0, rs, P. pose proof Hlin as []. eapply linear_update; rewrite ?E; try done; try (by intros); auto.
Qed.

Lemma held_elsewhere l :
  can_take l (concat (map locks xs)) = true -> conflict l l = true ->
  forall j z, xs !! j = Some z -> l ∉ locks z.
Proof.
  unfold can_take. intros Hc Hl j z Hj Hz. apply negb_true_iff in Hc.
  assert (existsb (conflict l) (concat (map locks xs)) = true) as E; [|congruence].
  apply existsb_exists. exists l. split; [|done]. apply in_concat. exists (locks z).
  split; [|by apply list_elem_of_In]. apply in_map_iff. exists z. split; [done|].
  apply list_elem_of_In. by eapply list_elem_of_lookup_2.
Qed.

(** A call that is the last one, with no seek pending. *)
Lemma last_call {X} f (m : M O io_error X) k e o fin :
  rest x = Call (call Error_from_io m) k -> locks x = [req_lock r] -> file_of r = Some f ->
  (forall fo, (i, fo) ∉ P) -> (forall b, (i, b) ∉ rs) ->
  m (os s) = (e, o) -> k (io_result e) = Release (req_lock r) (Return fin) ->
  (forall g off, f <> g -> slides g off m) ->
  (forall s, heap s = objects -> alone (rest x) s = req_handler r s) -> goes_on.
Proof.
  intros Hrest Hl Hf Hp Ha Hm Hk Hsl Hal. unfold running_step in Hstep. rewrite Hrest, (call_run _ _ _ _ Hm) in Hstep.
  injection Hstep as Ey Es. rewrite Hk in Ey.
  assert (rest y = Release (req_lock r) (Return fin) /\ locks y = locks x) as [Hry Hly] by (by rewrite <- Ey).
  unfold goes_on, committed. rewrite Hrest, Hry. simpl. rewrite <- Es, (lin_heap _ _ _ _ _ _ _ Hlin).
  eapply (linear_call _ _ _ _ _ _ _ _ _ _ _ m e); try done; [| |by exists fin].
  - intros j g off Hj. apply Hsl. apply not_eq_sym. eapply (pending_apart _ _ _ _ _ _ _ i); try done.
    intros ->. by apply Hp in Hj.
  - intros b o' Hm' Hb. rewrite Hry in Hb. injection Hb as <-.
    rewrite <- Hal by apply (lin_heap0 _ _ _ _ _ _ _ Hlin).
    rewrite Hrest, (alone_call _ _ _ _ _ Hm'), Hk. simpl. by rewrite (lin_heap0 _ _ _ _ _ _ _ Hlin).
Qed.

(** A seek that succeeds is pending until the transfer. *)
Lemma seek_step f off k o :
  rest x = Call (call Error_from_io (seek f off)) k -> locks x = [req_lock r] -> file_of r = Some f ->
  (forall fo, (i, fo) ∉ P) -> (forall b, (i, b) ∉ rs) ->
  seek f off (os s) = (Ok tt, o) -> at_transfer (req_lock r) f (k (Ok tt)) ->
  (forall s, heap s = objects -> alone (rest x) s = req_handler r s) -> goes_on.
Proof.
  intros Hrest Hl Hf Hp Ha Hm Ht Hal. unfold running_step in Hstep.
  rewrite Hrest, (call_run _ _ _ _ Hm) in Hstep. injection Hstep as Ey Es.
  assert (rest y = k (Ok tt) /\ locks y = locks x) as [Hry Hly] by (by rewrite <- Ey).
  assert (settled (rest y) = false) as Hset by (destruct Ht as (X & m & k' & fin & Hk & _); by rewrite Hry, Hk).
  unfold goes_on, committed. rewrite Hset, app_nil_r. simpl.
  exists s0, rs, (P ++ [(i, (f, off))]). pose proof Hlin as [].
  eapply (linear_update _ _ _ _ _ _ _ i x y r (Some (f, off)) None); rewrite <- ?Es; try done; simpl.
  - apply stage_sought; [congruence|done|by rewrite Hry|]. rewrite Hry. intros z o' Hz Hs.
    rewrite <- Hal, Hrest, (alone_call _ _ _ _ _ Hs) by done. by rewrite Hz.
  - by rewrite seeks_app, lin_seeks0; simpl; rewrite Hm.
  - rewrite map_app. apply NoDup_app. split; [done|]. split; [|apply NoDup_singleton].
    intros j Hj ->%list_elem_of_singleton. apply list_elem_of_In, in_map_iff in Hj as ([j fo] & Hj & Hin).
    simpl in Hj. subst j. apply list_elem_of_In in Hin. by apply Hp in Hin.
  - intros fo. rewrite elem_of_app, list_elem_of_singleton. split; [intros [Hin|[= ->]]|intros [= ->]; by right].
    + by apply Hp in Hin.
    + done.
  - intros b. split; [|done]. intros Hb. by apply Ha in Hb.
  - intros j fo Hne. rewrite elem_of_app, list_elem_of_singleton. split; [by intros [?|[= ? ?]]|by left].
  - auto.
  - intros l Hl'. left. congruence.
Qed.

(** The transfer of a task whose seek is pending. *)
Lemma transfer_step f off :
  locks x = [req_lock r] -> file_of r = Some f -> at_transfer (req_lock r) f (rest x) ->
  (i, (f, off)) ∈ P -> (forall b, (i, b) ∉ rs) ->
  (forall s o, heap s = objects -> seek f off (os s) = (Ok tt, o) ->
    alone (rest x) {| os := o; heap := objects |} = req_handler r s) -> goes_on.
Proof.
  intros Hl Hf (X & m & k & fin & Hrest & Hk & Hsl) Hin Ha Hal.
  pose proof (pending_apart _ _ _ _ _ _ _ i x r f Hlin Hx Hr Hl Hf) as Hapart.
  apply list_elem_of_split in Hin as (P1 & P2 & EP).
  assert (NoDup (map fst P)) as Hnp by apply (lin_pending _ _ _ _ _ _ _ Hlin).
  assert (forall j g off', (j, (g, off')) ∈ P1 ++ P2 -> j <> i) as Hother.
  { intros j g off' Hj ->. rewrite EP, map_app in Hnp. simpl in Hnp.
    rewrite Permutation_app_comm in Hnp. simpl in Hnp. apply NoDup_cons in Hnp as [Hn _]. apply Hn.
    rewrite <- map_app. apply list_elem_of_In, in_map_iff. exists (i, (g, off')). split; [done|].
    apply list_elem_of_In. rewrite !elem_of_app in *. tauto. }
  assert (forall j g off', (j, (g, off')) ∈ P1 ++ P2 -> g <> f) as Hne.
  { intros j g off' Hj. eapply Hapart; [|by eapply Hother]. rewrite EP. rewrite !elem_of_app in *.
    destruct Hj; [by left|right; by apply list_elem_of_further]. }
  pose proof (lin_seeks _ _ _ _ _ _ _ Hlin) as Hse. rewrite EP in Hse.
  destruct (seeks_last P1 i f off P2 (os s0) (os s)) as (o' & Ho' & Hseek); [|done|].
  { intros j g off' Hj. apply (Hne j g off'). rewrite elem_of_app. by right. }
  destruct (slides_all (P1 ++ P2) (seek f off) (os s0) o' (Ok tt) (os s)) as (oa & Hoa & Hsa); [|done|done|].
  { intros j g off' Hj. apply slides_seek. apply not_eq_sym. by eapply Hne. }
  destruct (m (os s)) as [e o] eqn:Em.
  destruct (slides_all (P1 ++ P2) m oa (os s) e o) as (ob & Hob & Hsb); [|done|done|].
  { intros j g off' Hj. apply Hsl. apply not_eq_sym. by eapply Hne. }
  unfold running_step in Hstep. rewrite Hrest, (call_run _ _ _ _ Em), Hk in Hstep. injection Hstep as Ey Es.
  assert (rest y = Release (req_lock r) (Return (fin (io_result e))) /\ locks y = locks x) as [Hry Hly]
    by (by rewrite <- Ey).
  unfold goes_on, committed. rewrite Hry, Hrest, <- Es, (lin_heap _ _ _ _ _ _ _ Hlin). simpl.
  exists {| os := ob; heap := objects |}, (rs ++ [(i, fin (io_result e))]), (P1 ++ P2).
  eapply (linear_commit _ _ _ _ _ _ P); try done.
  - rewrite <- (Hal s0 oa); [|apply (lin_heap0 _ _ _ _ _ _ _ Hlin)|done].
    by rewrite Hrest, (alone_call m k {| os := oa; heap := objects |} e ob Hob), Hk.
  - rewrite EP, map_app in Hnp. rewrite map_app. simpl in Hnp. rewrite Permutation_app_comm in Hnp. simpl in Hnp.
    apply NoDup_cons in Hnp as [_ Hnp]. by rewrite Permutation_app_comm.
  - intros [g off'] Hj. by apply Hother in Hj.
  - intros j [g off'] Hj. rewrite EP, !elem_of_app, elem_of_cons. split; [tauto|].
    intros [?|[[= -> _ _]|?]]; [by left|done|by right].
Qed.

(** Every move of a request keeps the two runs together. *)
Lemma linear_step : goes_on.
Proof.
  destruct (lin_stages _ _ _ _ _ _ _ Hlin _ _ _ Hx Hr) as (p & a & Hst & Hp & Ha).
  pose proof Hstep as Hstep'. unfold running_step in Hstep'.
  destruct Hst as [k Hrest Hl Hat Hs|Hl Hat Hs|f Hl Hf Hat Hs|f off Hl Hf Hat Hs|b Hl Hrest|b Hl Hrest].
  - rewrite Hrest in Hstep'. destruct (can_take _ _) eqn:Ec; [|done]. injection Hstep' as Ey Es.
    eapply (quiet_step None None); try done.
    + apply stage_entered; rewrite <- ?Ey; simpl; [by rewrite Hl|done|done].
    + rewrite Hrest, <- Ey. simpl. by destruct Hat as (k' & -> & _).
    + rewrite <- Ey. simpl. intros l. rewrite Hl, list_elem_of_singleton. intros ->. right.
      eapply held_elsewhere; [done|]. simpl. apply Nat.eqb_refl.
  - destruct Hat as (k & Hrest & Herr & Hok). rewrite Hrest in Hstep'.
    rewrite (get_open_file_run r) in Hstep' by apply (lin_heap _ _ _ _ _ _ _ Hlin).
    assert (forall z, heap z = objects -> alone (k (match file_of r with Some f => Ok f
      | None => Err (Error_from_io INVALID_FID) end)) z = req_handler r z) as Hk.
    { intros z Hz. rewrite <- Hs, Hrest. simpl. by rewrite (get_open_file_run r z Hz). }
    destruct (file_of r) as [f|] eqn:Ef; injection Hstep' as Ey Es.
    + eapply (quiet_step None None); try done; [by apply (stage_file _ _ f); rewrite <- ?Ey| |rewrite <- ?Ey; auto].
      rewrite Hrest, <- Ey. simpl. destruct (Hok f) as [(X & m & k' & fin & -> & _)|(off & k' & -> & _)]; done.
    + unfold goes_on, committed. rewrite Hrest, <- Ey, <- Es. simpl. rewrite Herr. simpl.
      exists s0, (rs ++ [(i, Err (Error_from_io INVALID_FID))]), P. pose proof Hlin as [].
      eapply linear_commit; try done.
      * intros b Hb. by apply Ha in Hb.
      * rewrite <- Hk, Herr by done. done.
      * intros fo Hfo. by apply Hp in Hfo.
  - assert (forall fo, (i, fo) ∉ P) as Hnp by (intros fo Hfo; by apply Hp in Hfo).
    assert (forall b, (i, b) ∉ rs) as Hna by (intros b Hb; by apply Ha in Hb).
    destruct Hat as [(X & m & k & fin & Hrest & Hk & Hsl)|(off & k & Hrest & Herr & Hok)].
    + destruct (m (os s)) as [e o] eqn:Em. by eapply (last_call f m k e o (fin (io_result e))).
    + destruct (seek f off (os s)) as [[[]|e] o] eqn:Em; [by eapply (seek_step f off k o)|].
      eapply (last_call f (seek f off) k (Err e) o); try done; [apply Herr|]. intros g off' Hg. by apply slides_seek.
  - eapply transfer_step; try done; [by apply Hp|]. intros b Hb. by apply Ha in Hb.
  - rewrite Hrest in Hstep'. injection Hstep' as Ey Es.
    eapply (quiet_step None (Some b)); rewrite <- ?Ey; try done; simpl; [|by rewrite Hrest|].
    + apply stage_returned; [|done]. simpl. by rewrite Hl, filter_cons_False by auto.
    + intros l. rewrite Hl, filter_cons_False by auto. intros Hin. by apply elem_of_nil in Hin.
  - by rewrite Hrest in Hstep'.
Qed.
End Step.

(** ** Runs *)

Lemma pool_step_goes_on s1 L xs s s0 rs P i xs' s' :
  linear s1 L xs s s0 rs P -> pool_step i (xs, s) = Some (xs', s') ->
  exists s0' rs' P', linear s1 (L ++ commits [i] (xs, s)) xs' s' s0' rs' P'.
Proof.
  intros Hlin Hp. cbn [commits]. rewrite Hp. unfold pool_step in Hp.
  destruct (xs !! i) as [x|] eqn:Hx; simpl in Hp; [|done].
  destruct (running_step (concat (map locks xs)) x s) as [[y s2]|] eqn:Hs; simpl in Hp; [|done].
  injection Hp as <- <-. pose proof (lookup_lt_Some _ _ _ Hx) as Hlt.
  rewrite (lin_length _ _ _ _ _ _ _ Hlin) in Hlt. destruct (lookup_lt_is_Some_2 reqs i Hlt) as [r Hr].
  destruct (linear_step _ _ _ _ _ _ _ Hlin _ _ _ _ _ Hx Hr Hs) as (s0' & rs' & P' & H').
  exists s0', rs', P'. unfold committed in H'. rewrite app_nil_r. cbn [fst].
  rewrite Hx, list_lookup_insert_eq by (by eapply lookup_lt_Some). exact H'.
Qed.

Lemma linear_exec ls : forall s1 L xs s s0 rs P xs' s',
  linear s1 L xs s s0 rs P -> pool_exec ls (xs, s) = Some (xs', s') ->
  exists s0' rs' P', linear s1 (L ++ commits ls (xs, s)) xs' s' s0' rs' P'.
Proof.
  induction ls as [|i ls IH]; intros s1 L xs s s0 rs P xs' s' Hlin Hx.
  { simpl in *. simplify_eq. rewrite app_nil_r. by exists s0, rs, P. }
  change (i :: ls) with ([i] ++ ls) in Hx |- *.
  rewrite pool_exec_app in Hx. destruct (pool_exec [i] (xs, s)) as [[xs1 s2]|] eqn:E; simpl in Hx; [|done].
  rewrite (commits_app _ _ _ _ E), (assoc_L app). cbn [pool_exec] in E.
  destruct (pool_step i (xs, s)) as [c1|] eqn:Ep; [|done]. cbn in E. injection E as ->.
  destruct (pool_step_goes_on _ _ _ _ _ _ _ _ _ _ Hlin Ep) as (s0' & rs' & P' & Hlin'). by eapply IH.
Qed.
End Linear.

(** A task that has not begun, and what one that has ended returns. *)
Definition start_of {O F D FT} `{OsCalls O F D FT} `{Bitflags} (r : file_req) : running (state O F) Fcall :=
  {| rest := req_process r; locks := [] |}.

Definition returned {S A} (x : running S A) : option (result Error A) :=
  match rest x with Return a => Some a | _ => None end.

Definition before (i j : nat) (order : list nat) : Prop := exists l1 l2 l3, order = l1 ++ i :: l2 ++ j :: l3.

Section Main.
Context {O F D FT : Type} `{OS : OsCalls O F D FT} `{BF : Bitflags} {FL : FileLaws O F D FT}.

Lemma linear_init reqs (s : state O F) :
  linear reqs (heap s) s [] (map start_of reqs) s s [] [].
Proof.
  split; simpl; try done.
  - apply length_map.
  - constructor.
  - constructor.
  - intros i x r Hx Hr. rewrite list_lookup_fmap, Hr in Hx. simpl in Hx. injection Hx as <-.
    exists None, None. split; [|split; intros ?; (split; [intros Hin; by apply elem_of_nil in Hin|done])].
    destruct (req_calls r) as (k & Hk & Hat).
    eapply stage_new; [exact Hk|done|exact Hat|]. intros z. rewrite <- req_same, Hk. done.
  - intros i [Hi|Hi]; by apply elem_of_nil in Hi.
  - intros i j x y l _ Hx _ Hl. apply list_lookup_fmap_Some in Hx as (r & -> & _). by apply elem_of_nil in Hl.
Qed.

(** What the stages say of a task that has returned, or has not begun. *)
Lemma linear_returned reqs objects s1 L xs (s s0 : state O F) rs P i x a :
  linear reqs objects s1 L xs s s0 rs P -> xs !! i = Some x -> returned x = Some a ->
  (i, a) ∈ rs /\ i ∈ L /\ forall fo, (i, fo) ∉ P.
Proof.
  intros Hlin Hx Ha. pose proof (lookup_lt_Some _ _ _ Hx) as Hlt.
  rewrite (lin_length _ _ _ _ _ _ _ _ _ Hlin) in Hlt. destruct (lookup_lt_is_Some_2 reqs i Hlt) as [r Hr].
  destruct (lin_stages _ _ _ _ _ _ _ _ _ Hlin _ _ _ Hx Hr) as (p & b & Hst & Hp & Hb).
  assert (p = None /\ b = Some a) as [-> ->].
  { unfold returned in Ha. destruct Hst as [k Hrest|? (k & Hrest & _)|f ? ? [(X & m & k & fin & Hrest & _)|(off & k & Hrest & _)]
      |f off ? ? (X & m & k & fin & Hrest & _)|b ? Hrest|b ? Hrest]; rewrite Hrest in Ha; by simplify_eq. }
  assert ((i, a) ∈ rs) as Hin by (by apply Hb). split; [done|]. split; [|intros fo Hfo; by apply Hp in Hfo].
  pose proof (serial_fst (handler_of reqs) L s1) as Hf. rewrite (lin_serial _ _ _ _ _ _ _ _ _ Hlin) in Hf.
  rewrite <- Hf. apply list_elem_of_In, in_map_iff. exists (i, a). split; [done|]. by apply list_elem_of_In.
Qed.

Lemma in_split_before (i j : nat) l1 l2 : i ∈ l1 -> j ∈ l2 -> before i j (l1 ++ l2).
Proof.
  intros (a & b & ->)%list_elem_of_split (c & d & ->)%list_elem_of_split.
  exists a, (b ++ c), d. by rewrite <- !(assoc_L app), <- app_comm_cons.
Qed.

(** Reads, writes and syncs of open files are linearizable.  Let any number
    of them run side by side, on fids that share no open file but their own,
    in any order of their calls, until all have returned.  Then there is an
    order of the requests in which the handlers, each run on its own from its
    beginning to its end, give every request the same answer and leave the same
    state; and a request that had returned before another made its first move
    is before it in this order. *)
Theorem file_requests_linearizable reqs (s : state O F) ls xs s' :
  files_distinct (heap s) -> pool_exec ls (map start_of reqs, s) = Some (xs, s') ->
  Forall (fun x => is_Some (returned x)) xs ->
  exists order rs,
    order ≡ₚ seq 0 (length reqs)
    /\ serial (handler_of reqs) order s = (rs, s')
    /\ (forall i x a, xs !! i = Some x -> returned x = Some a -> (i, a) ∈ rs)
    /\ forall ls1 ls2 xs1 s1 i j x, ls = ls1 ++ ls2 ->
         pool_exec ls1 (map start_of reqs, s) = Some (xs1, s1) ->
         xs1 !! i = Some x -> is_Some (returned x) -> (j < length reqs)%nat -> j ∉ ls1 -> before i j order.
Proof.
  intros Hd Hx Hall.
  destruct (linear_exec reqs (heap s) Hd ls _ _ _ _ _ _ _ _ _ (linear_init reqs s) Hx) as (s0 & rs & P & Hlin).
  simpl in Hlin. set (order := commits ls (map start_of reqs, s)) in *. exists order, rs.
  assert (forall i, (i < length reqs)%nat -> exists x a, xs !! i = Some x /\ returned x = Some a) as Hret.
  { intros i Hi. rewrite <- (lin_length _ _ _ _ _ _ _ _ _ Hlin) in Hi.
    destruct (lookup_lt_is_Some_2 xs i Hi) as [x Hxi]. destruct (Forall_lookup_1 _ _ _ _ Hall Hxi) as [a Ha].
    by exists x, a. }
  assert (forall i, i ∈ order <-> (i < length reqs)%nat) as Hin.
  { intros i. split; [intros Hi; apply (lin_range _ _ _ _ _ _ _ _ _ Hlin); by right|].
    intros Hi. destruct (Hret i Hi) as (x & a & Hxi & Ha). by eapply linear_returned. }
  assert (P = []) as ->.
  { destruct P as [|[i fo] P]; [done|]. exfalso.
    assert (i < length reqs)%nat as Hi
      by (apply (lin_range _ _ _ _ _ _ _ _ _ Hlin); left; apply list_elem_of_here).
    destruct (Hret i Hi) as (x & a & Hxi & Ha).
    destruct (linear_returned _ _ _ _ _ _ _ _ _ _ _ _ Hlin Hxi Ha) as (_ & _ & Hn).
    eapply Hn, list_elem_of_here. }
  split; [|split; [|split]].
  - apply NoDup_Permutation; [apply (lin_nodup _ _ _ _ _ _ _ _ _ Hlin)|apply NoDup_seq|].
    intros i. rewrite Hin, elem_of_seq. lia.
  - rewrite (lin_serial _ _ _ _ _ _ _ _ _ Hlin). f_equal.
    pose proof (lin_seeks _ _ _ _ _ _ _ _ _ Hlin) as Hs. simpl in Hs. injection Hs as Hs.
    rewrite <- (state_eta s0), <- (state_eta s'), Hs, (lin_heap _ _ _ _ _ _ _ _ _ Hlin),
      (lin_heap0 _ _ _ _ _ _ _ _ _ Hlin). done.
  - intros i x a Hxi Ha. by eapply linear_returned.
  - intros ls1 ls2 xs1 s1 i j x -> Hx1 Hi [a Ha] Hj Hnot. subst order. rewrite (commits_app _ _ _ _ Hx1) in *.
    destruct (linear_exec reqs (heap s) Hd ls1 _ _ _ _ _ _ _ _ _ (linear_init reqs s) Hx1) as (s2 & rs1 & P1 & Hlin1).
    apply in_split_before; [by eapply (linear_returned _ _ _ _ _ _ _ _ _ _ _ _ Hlin1)|].
    apply Hin in Hj. apply elem_of_app in Hj as [Hj|Hj]; [|done]. by apply commits_labels in Hj.
Qed.
End Main.

(** ** A run on the machine in memory *)

#[local] Existing Instance bitflags_ref.
#[local] Existing Instance mem_os.

Lemma cursors_swap (m : machine) f g a b : f <> g ->
  {| nodes := nodes m; cursors := <[f := a]> (<[g := b]> (cursors m)) |}
  = {| nodes := nodes m; cursors := <[g := b]> (<[f := a]> (cursors m)) |}.
Proof. intros Hne. f_equal. by apply insert_insert_ne. Qed.

Lemma mem_file_laws : FileLaws machine string (string * string) Z.
Proof.
  split.
  - intros f g off z Hne m m1 r m2 [= <-] [= <- <-]. eexists. split; [reflexivity|].
    cbn [seek mem_os nodes cursors]. f_equal. apply cursors_swap. by apply not_eq_sym.
  - intros f g off z Hne m m1 r m2 [= <-]. cbn [read mem_os]. unfold mem_read, content. cbn [nodes cursors].
    rewrite lookup_insert_ne by (by apply not_eq_sym). intros [= <- <-]. eexists. split; [reflexivity|].
    cbn [seek mem_os nodes cursors]. f_equal. apply cursors_swap. by apply not_eq_sym.
  - intros f g off z Hne m m1 r m2 [= <-]. cbn [write mem_os]. unfold mem_write, content, set_node. cbn [nodes cursors].
    rewrite lookup_insert_ne by (by apply not_eq_sym). intros [= <- <-]. eexists. split; [reflexivity|].
    reflexivity.
  - intros f g off Hne m m1 r m2 [= <-] [= <- <-]. eexists. split; [reflexivity|]. reflexivity.
Qed.

(** Two open files; two reads of the one, and a write and a read of the other. *)
Definition log_fid : Fid nat := {| fid_raw := 4; aux := 2%nat |}.

Definition two_files : state machine string := {|
  os := {| nodes := <["/srv/log" := Regular [x61; x62; x63]]> (nodes tree); cursors := ∅ |};
  heap := [at_path "/srv" None; at_path "/srv/motd" (Some "/srv/motd"); at_path "/srv/log" (Some "/srv/log")]
|}.

Definition four_requests : list file_req :=
  [FileRead motd_fid 1 5; FileWrite log_fid 1 {| data_bytes := [x78] |}; FileRead motd_fid 0 1; FileRead log_fid 0 3].

Abbreviation mem_pool := (list (running (state machine string) Fcall) * state machine string)%type.

Fixpoint pool_taken (ls : list nat) (c : mem_pool) : list nat :=
  match ls with
  | [] => []
  | i :: ls => match pool_step i c with Some c => i :: pool_taken ls c | None => pool_taken ls c end
  end.

Definition four_start : mem_pool := (map start_of four_requests, two_files).
Definition four_moves : list nat := pool_taken (concat (replicate 12 [0; 1; 2; 3]%nat)) four_start.

Definition four_answers : list (result Error Fcall) :=
  [Ok (Rread {| data_bytes := [x69; x21] |}); Ok (Rwrite 1); Ok (Rread {| data_bytes := [x68] |});
   Ok (Rread {| data_bytes := [x61; x78; x63] |})].

Lemma four_run : exists c, pool_exec four_moves four_start = Some c /\ map returned c.1 = Some <$> four_answers.
Proof.
  assert (map returned ∘ fst <$> pool_exec four_moves four_start = Some (Some <$> four_answers)) as H
    by (vm_compute; reflexivity).
  apply fmap_Some in H as (c & Hc & Ha). exists c. split; [exact Hc|exact (eq_sym Ha)].
Qed.

Lemma two_files_distinct : files_distinct (heap two_files).
Proof.
  assert (forall m x f, heap two_files !! m = Some x -> file x = Some f ->
    m = 1%nat /\ f = "/srv/motd" \/ m = 2%nat /\ f = "/srv/log") as H.
  { intros m x f Hm Hf. destruct m as [|[|[|m]]]; cbn in Hm; try discriminate Hm; injection Hm as <-; cbn in Hf;
      try discriminate Hf; injection Hf as <-; auto. }
  intros m n x y f Hm Hn Hx Hy.
  destruct (H _ _ _ Hm Hx) as [[-> E]|[-> E]], (H _ _ _ Hn Hy) as [[-> E']|[-> E']]; congruence.
Qed.

Lemma file_requests_linearizable_witness :
  exists xs s', pool_exec four_moves four_start = Some (xs, s')
    /\ exists order rs, order ≡ₚ seq 0 4 /\ serial (handler_of four_requests) order two_files = (rs, s')
         /\ forall i a, four_answers !! i = Some a -> (i, a) ∈ rs.
Proof.
  destruct four_run as ([xs s'] & Hx & Hr). exists xs, s'. split; [exact Hx|]. cbn [fst] in Hr.
  assert (forall i a, four_answers !! i = Some a -> exists x, xs !! i = Some x /\ returned x = Some a) as Hret.
  { intros i a Hi. assert (map returned xs !! i = Some (Some a)) as Hl by (by rewrite Hr, list_lookup_fmap, Hi).
    apply list_lookup_fmap_Some in Hl as (x & Hl & Hxi). exists x. split; [exact Hxi|exact (eq_sym Hl)]. }
  destruct (file_requests_linearizable (FL := mem_file_laws) four_requests two_files four_moves xs s'
    two_files_distinct Hx) as (order & rs & Ho & Hs & Ha & _).
  - assert (Forall (fun b => is_Some b) (map returned xs)) as Hall by (rewrite Hr; repeat constructor; by eexists).
    rewrite List.Forall_map in Hall. exact Hall.
  - exists order, rs. split; [exact Ho|]. split; [exact Hs|]. intros i a Hi.
    destruct (Hret i a Hi) as (x & Hxi & Hax). exact (Ha i x a Hxi Hax).
Defined.
