(* ===== verification/LinearLoop.v ===== *)
(** * The server is linearizable on open files

    LinearProps.v is about handlers on their own.  Here they are the tasks of a
    connection: requests that read, write and sync open files arrive in the
    server of FsLoop.v, and its replies and its state are those of the server
    that serves one request at a time, in some order of the requests. *)

From Stdlib Require Import Strings.Byte.
From S2P Require Import Prelude Bytes Io Error Fcall Serialize Wire EncodeFacts Srv Dispatch DispatchFacts SrvProps.
From S2P Require Import Path Unpfs UnpfsFacts UnpfsProps MemOs Proc UnpfsSteps UnpfsAlone.
From S2P Require Import FsLoop FsLoopFacts FsLoopProps Linear LinearProps.

Section Loop.
Context {O F D FT : Type} `{OS : OsCalls O F D FT} `{NX : Nix} {R W : Type} `{BL : BytesBufLaws R W}.
Context `{BF : Bitflags} `{FP : FromPrimitive MsgType} {FL : FileLaws O F D FT} (self : Unpfs).

Abbreviation st := (state O F).
Abbreviation conn := (fs_conn O F).
Abbreviation task := (fs_task O F).
#[local] Hint Extern 0 (Filesystem _ _) => exact (served_files self) : typeclass_instances.

(** ** Requests *)

(** What a message asks of an open file, given the fid table. *)
Definition req_of (table : gmap u32 (Fid nat)) (body : Fcall) : option file_req :=
  match body with
  | Tread fid offset count => f ← table !! fid; Some (FileRead f offset count)
  | Twrite fid offset data => f ← table !! fid; Some (FileWrite f offset data)
  | Tfsync fid => f ← table !! fid; Some (FileSync f)
  | _ => None
  end.

Ltac open_req Hr := lazymatch type of Hr with context [?t !! ?f] =>
  let E := fresh "E" in destruct (t !! f) as [?|] eqn:E; simpl in Hr; [|discriminate Hr]; injection Hr as <- end.

Lemma req_newfid table body r (s : st) : req_of table body = Some r -> make_newfid body s = (None, s).
Proof. by destruct body. Qed.

Lemma req_call table body r n : req_of table body = Some r -> call_process self table n body = Some (req_process r).
Proof.
  intros Hr. destruct body; simpl in Hr; try discriminate Hr; open_req Hr; simpl; unfold lookup_fid; by rewrite E.
Qed.

Lemma req_dispatch table m r (s : st) : req_of table (msg_body m) = Some r ->
  dispatch_once m {| fs := s; fsfids := table |}
  = (let '(a, s) := req_handler r s in Some (a, {| fs := s; fsfids := table |})).
Proof.
  intros Hr. unfold dispatch_once, run_handler. cbn [fs]. rewrite (req_newfid _ _ _ _ Hr). cbn [fsfids].
  destruct (msg_body m); simpl in Hr; try discriminate Hr; open_req Hr; simpl;
    rewrite get_fid_bind, E; cbn [req_handler];
    lazymatch goal with |- context [?h s] => destruct (h s) as [[resp|e] s'] end; done.
Qed.

(** ** A connection and its handlers *)

Section Related.
Context (table : gmap u32 (Fid nat)) (olds : list task) (msgs : list Msg) (reqs : list file_req).
Context (Holds : Forall fs_done olds).
Context (Hreqs : Forall2 (fun m r => req_of table (msg_body m) = Some r) msgs reqs).

Abbreviation handler := (running st Fcall).

(** A task and the handler of its request, as the pool has it. *)
Definition at_task (r : file_req) (x : handler) (t : task) : Prop :=
  match ft_stage t with
  | Handling n y => n = None /\ y = x
  | At Spawned => x = start_of r
  | At p => exists a, rest x = Return a /\ locks x = []
      /\ match p with
         | Handled resp n | Clunked resp n => a = Ok resp /\ n = None
         | Responding resp | Done (Replied resp) => resp = response_of a
         | _ => False
         end
  end.

Record related (news : list task) (c : conn) (xs : list handler) (s : st) : Prop := {
  rel_shared : fc_shared c = {| fs := s; fsfids := table |};
  rel_tasks : fc_tasks c = olds ++ news;
  rel_msgs : map ft_msg news = take (length news) msgs;
  rel_length : length xs = length reqs;
  rel_formed : Forall well_formed news;
  rel_at : forall k r x t, reqs !! k = Some r -> xs !! k = Some x -> news !! k = Some t -> at_task r x t;
  rel_after : forall k r, (length news <= k)%nat -> reqs !! k = Some r -> xs !! k = Some (start_of r);
  rel_incoming : Forall2 (fun i m => exists b, i = Ok b /\ (read_msg (R := R) (bytes_reader b)).1 = Ok m)
    (fc_incoming c) (drop (length news) msgs);
  rel_status : fc_status c <> Reading -> (length msgs <= length news)%nat
}.

Lemma related_length news c xs s : related news c xs s -> (length news <= length reqs)%nat.
Proof.
  intros Hrel. pose proof (f_equal length (rel_msgs _ _ _ _ Hrel)) as Hl.
  rewrite length_map, length_take in Hl. rewrite <- (Forall2_length _ _ _ Hreqs). lia.
Qed.

Lemma related_new news c xs s k t : related news c xs s -> news !! k = Some t ->
  exists r x, reqs !! k = Some r /\ xs !! k = Some x /\ req_of table (msg_body (ft_msg t)) = Some r
    /\ msgs !! k = Some (ft_msg t) /\ at_task r x t.
Proof.
  intros Hrel Hk. pose proof (lookup_lt_Some _ _ _ Hk) as Hlt. pose proof (related_length _ _ _ _ Hrel) as Hl.
  assert (k < length reqs)%nat as Hr by lia. destruct (lookup_lt_is_Some_2 reqs k Hr) as [r Er].
  rewrite <- (rel_length _ _ _ _ Hrel) in Hr. destruct (lookup_lt_is_Some_2 xs k Hr) as [x Ex].
  assert (msgs !! k = Some (ft_msg t)) as Hm.
  { pose proof (f_equal (fun l => l !! k) (rel_msgs _ _ _ _ Hrel)) as Hm. cbv beta in Hm.
    rewrite lookup_take_lt in Hm by done. rewrite <- Hm.
    change (map ft_msg news) with (ft_msg <$> news). by rewrite list_lookup_fmap, Hk. }
  exists r, x. split; [done|]. split; [done|]. split; [|split; [done|by eapply rel_at]].
  by eapply (Forall2_lookup_lr _ _ _ _ _ _ Hreqs).
Qed.

(** The same locks are held in both. *)
Lemma held_same news c xs s l : related news c xs s ->
  can_take l (concat (map locks_of (fc_tasks c))) = can_take l (concat (map locks xs)).
Proof.
  intros Hrel. unfold can_take. f_equal. apply eq_true_iff_eq. rewrite !existsb_exists.
  rewrite (rel_tasks _ _ _ _ Hrel), map_app, concat_app.
  assert (concat (map locks_of olds) = []) as ->.
  { clear -Holds. induction Holds as [|t ts [o Ho] _ IH]; [done|].
    simpl. assert (locks_of t = []) as -> by (unfold locks_of; by rewrite Ho). apply IH.
    by apply Forall_cons in Holds as [_ ?]. }
  simpl. split; intros (l' & Hin & Hc); exists l'; (split; [|done]); apply in_concat in Hin as (held & Hh & Hl);
    apply in_map_iff in Hh as (z & <- & Hz); apply list_elem_of_In, list_elem_of_lookup in Hz as [k Hk];
    apply in_concat.
  - destruct (related_new _ _ _ _ _ _ Hrel Hk) as (r & x & Hr & Hx & _ & _ & Hat). exists (locks x). split.
    + apply in_map_iff. exists x. split; [done|]. apply list_elem_of_In. by eapply list_elem_of_lookup_2.
    + unfold locks_of in Hl. unfold at_task in Hat. destruct (ft_stage z) as [n y|p]; [|done].
      by destruct Hat as [_ ->].
  - assert (k < length reqs)%nat as Hlt by (rewrite <- (rel_length _ _ _ _ Hrel); by eapply lookup_lt_Some).
    destruct (lookup_lt_is_Some_2 reqs k Hlt) as [r Hr].
    destruct (decide (k < length news)%nat) as [Hn|Hn].
    + destruct (lookup_lt_is_Some_2 news k Hn) as [t Ht]. pose proof (rel_at _ _ _ _ Hrel _ _ _ _ Hr Hk Ht) as Hat.
      exists (locks_of t). split.
      * apply in_map_iff. exists t. split; [done|]. apply list_elem_of_In. by eapply list_elem_of_lookup_2.
      * unfold at_task in Hat. unfold locks_of. destruct (ft_stage t) as [n y|p]; [by destruct Hat as [_ ->]|].
        destruct p; [by subst z|..]; destruct Hat as (a & _ & E & _); by rewrite E in Hl.
    + pose proof (rel_after _ _ _ _ Hrel k r) as Ha. rewrite Hk in Ha.
      assert (z = start_of r) as -> by (apply (inj Some), Ha; [lia|done]). destruct Hl.
Qed.

(** One task of the new ones goes on, and with it its handler or not. *)
Lemma related_update news c xs s k t g r x y s' frames :
  related news c xs s -> news !! k = Some t -> reqs !! k = Some r -> xs !! k = Some x ->
  well_formed {| ft_msg := ft_msg t; ft_stage := g |} ->
  at_task r y {| ft_msg := ft_msg t; ft_stage := g |} ->
  related (<[k := {| ft_msg := ft_msg t; ft_stage := g |}]> news)
    (moved (length olds + k) g {| fs := s'; fsfids := table |} frames t c) (<[k := y]> xs) s'.
Proof.
  intros [H1 H2 H3 H4 H5 H6 H7 H8 H9] Hk Hr Hx Hw Hat. pose proof (lookup_lt_Some _ _ _ Hk) as Hlt.
  split; simpl; rewrite ?length_insert; try done.
  - by rewrite H2, insert_app_r.
  - rewrite <- H3. change (ft_msg <$> <[k := {| ft_msg := ft_msg t; ft_stage := g |}]> news = ft_msg <$> news).
    rewrite list_fmap_insert. apply list_insert_id. by rewrite list_lookup_fmap, Hk.
  - by apply Forall_insert.
  - intros j q z u Hq Hz Hu. apply list_lookup_insert_Some in Hu as [(<- & <- & _)|[Hne Hu]].
    + rewrite list_lookup_insert_eq in Hz by (by eapply lookup_lt_Some). by simplify_eq.
    + rewrite list_lookup_insert_ne in Hz by done. by eapply H6.
  - intros j q Hj Hq. rewrite list_lookup_insert_ne by lia. by apply H7.
Qed.

Lemma running_step_held {A} h h' (x : running st A) s :
  (forall l, can_take l h = can_take l h') -> running_step h x s = running_step h' x s.
Proof. intros E. unfold running_step. destruct (rest x); try done. by rewrite E. Qed.

(** What a step of the connection is for the handlers: a step of the pool by a
    request that has been read, or none. *)
Definition follows (news : list task) (c' : conn) (xs : list handler) (s : st) : Prop := exists news' ks xs' s',
  pool_exec ks (xs, s) = Some (xs', s') /\ related news' c' xs' s'
  /\ (length news <= length news')%nat /\ forall k, k ∈ ks -> (k < length news)%nat.

Lemma related_recv news c c' xs s :
  related news c xs s -> fs_recv (R := R) c = Some c' -> follows news c' xs s.
Proof.
  intros Hrel. pose proof Hrel as [H1 H2 H3 H4 H5 H6 H7 H8 H9]. unfold fs_recv, recv. simpl.
  destruct (fc_status c) eqn:Es; [|done].
  destruct (fc_incoming c) as [|[b|e] rest] eqn:Ei; simpl.
  - intros [= <-]. exists news, [], xs, s. split; [done|]. split; [|split; [done|by intros k ?%elem_of_nil]].
    destruct (drop (length news) msgs) as [|m ms] eqn:Ed; [|by inversion H8]. split; simpl; try done.
    + by rewrite app_nil_r.
    + by rewrite Ed.
    + intros _. apply (f_equal length) in Ed. rewrite length_drop in Ed. simpl in Ed. lia.
  - destruct (drop (length news) msgs) as [|m ms] eqn:Ed; [by inversion H8|].
    apply Forall2_cons in H8 as [(b' & Hb & Hm) Hrest]. injection Hb as <-. rewrite Hm. simpl. intros [= <-].
    exists (news ++ [{| ft_msg := m; ft_stage := At Spawned |}]), [], xs, s. split; [done|].
    assert (msgs !! length news = Some m) as Hlook by (rewrite <- (Nat.add_0_r (length news)), <- lookup_drop, Ed; done).
    split; [|split; [rewrite length_app; simpl; lia|by intros k ?%elem_of_nil]].
    split; simpl; rewrite ?length_app, ?Nat.add_1_r; try done.
    + by rewrite H2, (assoc_L app).
    + rewrite map_app, H3. simpl. by rewrite (take_S_r _ _ m).
    + apply Forall_app. split; [done|]. by apply Forall_singleton.
    + intros k r x t Hr Hx [Hk|[Hk Ht]]%lookup_app_Some; [by eapply H6|].
      apply list_lookup_singleton_Some in Ht as [Hk0 <-]. unfold at_task. simpl.
      rewrite (H7 k r) in Hx by (done || lia). by simplify_eq.
    + intros k r Hk. apply H7. lia.
    + apply (drop_S) in Hlook. rewrite Ed in Hlook. injection Hlook as <-. exact Hrest.
  - destruct (drop (length news) msgs) as [|m ms]; [by inversion H8|].
    by apply Forall2_cons in H8 as [(b' & ? & _) _].
Qed.

Lemma related_run news c i t g d fr xs s :
  related news c xs s -> fc_tasks c !! i = Some t ->
  fs_moves self (fc_tasks c) true t (fc_shared c) g d fr -> follows news (moved i g d fr t c) xs s.
Proof.
  intros Hrel Ht Hm. rewrite (rel_tasks _ _ _ _ Hrel) in Ht.
  apply lookup_app_Some in Ht as [Ht|[Hi Ht]].
  { destruct (Forall_lookup_1 _ _ _ _ Holds Ht) as [o Ho].
    destruct Hm as [p Hp _|n x y s1 Hp _|n x resp Hp _|n x e Hp _|p q d' fr Hp _ _ Hm]; rewrite Hp in Ho; try discriminate Ho.
    injection Ho as ->. exfalso. eapply moves_not_done; [exact Hm|]. by exists o. }
  remember (i - length olds)%nat as k eqn:Ek. assert (i = (length olds + k)%nat) as -> by lia. clear Ek Hi.
  destruct (related_new _ _ _ _ _ _ Hrel Ht) as (r & x & Hr & Hx & Hreq & Hmsg & Hat).
  pose proof (Forall_lookup_1 _ _ _ _ (rel_formed _ _ _ _ Hrel) Ht) as Hw.
  pose proof (moves_well_formed self _ _ _ _ _ _ _ Hm Hw) as Hw'.
  assert (forall y s' ks, pool_exec ks (xs, s) = Some (<[k := y]> xs, s') -> (forall j, j ∈ ks -> j = k) ->
    d = {| fs := s'; fsfids := table |} -> at_task r y {| ft_msg := ft_msg t; ft_stage := g |} ->
    follows news (moved (length olds + k) g d fr t c) xs s) as Hgo.
  { intros y s' ks Hp Hks -> Hy. do 4 eexists. split; [exact Hp|]. split; [by eapply related_update|].
    split; [by rewrite length_insert|]. intros j Hj%Hks. subst j. by eapply lookup_lt_Some. }
  assert (pool_exec [] (xs, s) = Some (<[k := x]> xs, s)) as Hstay by (by rewrite list_insert_id).
  pose proof (rel_shared _ _ _ _ Hrel) as Hsh. unfold at_task in Hat, Hgo. unfold well_formed in Hw.
  destruct Hm as [p Hp Hc|n z y s1 Hp Hs|n z resp Hp Hz|n z e Hp Hz|p q d' fr Hp Hns Hwr Hm]; rewrite Hp in Hat, Hw.
  - assert (make_newfid (msg_body (ft_msg t)) (fs (fc_shared c)) = (None, s)) as Hn
      by (rewrite Hsh; by eapply req_newfid).
    rewrite Hsh in Hc. cbn [fs fsfids] in Hc. rewrite (req_call _ _ _ _ Hreq) in Hc. injection Hc as <-.
    apply (Hgo x s []); [done|by intros j ?%elem_of_nil|by rewrite Hn, Hsh|]. rewrite Hn. simpl. by subst x.
  - destruct Hat as [-> ->]. rewrite Hsh in Hs. cbn [fs] in Hs.
    rewrite (running_step_held _ (concat (map locks xs))) in Hs by (intros l; by eapply held_same).
    apply (Hgo y s1 [k]); [|by intros j ->%list_elem_of_singleton|by rewrite Hsh|by split].
    simpl. unfold pool_step. rewrite Hx. simpl. by rewrite Hs.
  - destruct Hat as [-> ->]. destruct Hw as [Hw _]. unfold well_locked in Hw. rewrite Hz in Hw.
    apply (Hgo x s []); [done|by intros j ?%elem_of_nil|done|]. by exists (Ok resp).
  - destruct Hat as [-> ->]. destruct Hw as [Hw _]. unfold well_locked in Hw. rewrite Hz in Hw.
    apply (Hgo x s []); [done|by intros j ?%elem_of_nil|done|]. by exists (Err e).
  - destruct Hm as [e d' Hq Hr'|resp n d' Hq Hr'|resp n Hq|resp n Hq|resp Hq His _|resp Hq His Hf|resp Hq His];
      simpl in Hq; subst p; try done; destruct Hat as (a & Ha & Hl & Hres); simpl in Hres.
    + destruct Hres as [-> ->]. apply (Hgo x s []); [done|by intros j ?%elem_of_nil| |by exists (Ok resp)].
      rewrite Hsh. simpl. by destruct (msg_body (ft_msg t)).
    + destruct Hres as [-> ->]. apply (Hgo x s []); [done|by intros j ?%elem_of_nil| |by exists (Ok resp)].
      by rewrite Hsh.
    + apply (Hgo x s []); [done|by intros j ?%elem_of_nil|done|]. by exists a.
Qed.

Lemma related_step l news c c' xs s :
  related news c xs s -> reliable l -> fs_step (R := R) (W := W) self l c = Some c' -> follows news c' xs s.
Proof.
  intros Hrel Hl Hs. destruct l as [|i ok]; [by eapply related_recv|]. simpl in Hl. subst ok.
  apply fs_step_case in Hs. inversion Hs; subst. by eapply related_run.
Qed.

Lemma related_exec ls : forall news c c' xs s,
  related news c xs s -> Forall reliable ls -> fs_exec (R := R) (W := W) self ls c = Some c' ->
  exists news' ks xs' s', pool_exec ks (xs, s) = Some (xs', s') /\ related news' c' xs' s'
    /\ forall ls1 ls2, ls = ls1 ++ ls2 -> exists c1 news1 ks1 ks2 xs1 s1,
         fs_exec (R := R) (W := W) self ls1 c = Some c1 /\ ks = ks1 ++ ks2 /\ pool_exec ks1 (xs, s) = Some (xs1, s1)
         /\ related news1 c1 xs1 s1 /\ (length news <= length news1)%nat
         /\ forall k, k ∈ ks1 -> (k < length news1)%nat.
Proof.
  assert (forall ls1 news c xs s (ks : list nat), related news c xs s -> [] = ls1 \/ ls1 = [] ->
    exists c1 news1 ks1 ks2 xs1 s1,
      fs_exec (R := R) (W := W) self ls1 c = Some c1 /\ ks = ks1 ++ ks2 /\ pool_exec ks1 (xs, s) = Some (xs1, s1)
      /\ related news1 c1 xs1 s1 /\ (length news <= length news1)%nat
      /\ forall k, k ∈ ks1 -> (k < length news1)%nat) as Hnil.
  { intros ls1 news c xs s ks Hrel E. assert (ls1 = []) as -> by (by destruct E).
    exists c, news, [], ks, xs, s. split; [done|]. split; [done|]. split; [done|]. split; [done|]. split; [done|].
    by intros k ?%elem_of_nil. }
  induction ls as [|l ls IH]; intros news c c' xs s Hrel Hg Hx; simpl in Hx.
  { simplify_eq. exists news, [], xs, s. split; [done|]. split; [done|]. intros ls1 ls2 E.
    apply Hnil; [done|]. symmetry in E. apply app_eq_nil in E as [-> _]. by left. }
  apply Forall_cons in Hg as [Hl Hg]. destruct (fs_step self l c) as [c1|] eqn:E; simpl in Hx; [|done].
  destruct (related_step _ _ _ _ _ _ Hrel Hl E) as (n1 & ks1 & xs1 & s1 & Hp1 & Hrel1 & Hn1 & Hk1).
  destruct (IH _ _ _ _ _ Hrel1 Hg Hx) as (n2 & ks2 & xs2 & s2 & Hp2 & Hrel2 & Hsplit).
  exists n2, (ks1 ++ ks2), xs2, s2. split; [by rewrite pool_exec_app, Hp1|]. split; [done|].
  intros [|l' ls1] ls2 E'; [apply Hnil; auto|]. injection E' as <- E'.
  destruct (Hsplit _ _ E') as (c3 & n3 & ks3 & ks4 & xs3 & s3 & Hx3 & -> & Hp3 & Hrel3 & Hn3 & Hk3).
  exists c3, n3, (ks1 ++ ks3), ks4, xs3, s3. simpl. rewrite E. simpl. split; [done|].
  split; [by rewrite (assoc_L app)|]. split; [by rewrite pool_exec_app, Hp1|]. split; [done|]. split; [lia|].
  intros k [Hk|Hk]%elem_of_app; [apply Hk1 in Hk; lia|by apply Hk3].
Qed.
End Related.

(** ** The theorem *)

(** What running the requests in some order answers. *)
Lemma serial_answers {S A} (h : nat -> M S Error A) order s rs s' g :
  serial h order s = (rs, s') -> NoDup order -> (forall i, i ∈ order -> (i, g i) ∈ rs) ->
  rs = map (fun i => (i, g i)) order.
Proof.
  intros Hs Hnd Hg. pose proof (serial_fst h order s) as Hf. rewrite Hs in Hf. simpl in Hf. subst order.
  clear Hs. cut (forall rs', (forall i, i ∈ map fst rs' -> (i, g i) ∈ rs) -> (forall ia, ia ∈ rs' -> ia ∈ rs) ->
    rs' = map (fun i => (i, g i)) (map fst rs')); [intros Hgen; by apply Hgen|].
  clear Hg. induction rs' as [|[i a] rs' IH]; intros Hg Hin; [done|]. simpl. f_equal.
  - f_equal. assert ((i, a) ∈ rs) as H1 by (apply Hin, list_elem_of_here).
    assert ((i, g i) ∈ rs) as H2 by (apply Hg, list_elem_of_here).
    apply list_elem_of_lookup in H1 as [m Hm], H2 as [n Hn].
    assert (m = n) as ->; [|congruence].
    apply (NoDup_lookup (map fst rs) m n i Hnd); change (map fst rs) with (fst <$> rs);
      rewrite list_lookup_fmap; [by rewrite Hm|by rewrite Hn].
  - apply IH; [intros j Hj; apply Hg; by apply list_elem_of_further|].
    intros ia Hia. apply Hin. by apply list_elem_of_further.
Qed.

Lemma omap_numbered {A B} (h : A -> option B) (f : nat -> B) l j :
  (forall k t, l !! k = Some t -> h t = Some (f (j + k)%nat)) -> omap h l = map f (seq j (length l)).
Proof.
  revert j. induction l as [|t l IH]; intros j Hl; [done|]. simpl.
  rewrite (Hl 0%nat t eq_refl), Nat.add_0_r. f_equal. apply IH. intros k u Hk.
  rewrite (Hl (S k) u Hk). by rewrite Nat.add_succ_r.
Qed.

Section Serve.
Context (table : gmap u32 (Fid nat)) (msgs : list Msg) (reqs : list file_req).
Context (Hreqs : Forall2 (fun m r => req_of table (msg_body m) = Some r) msgs reqs).

(** The reply of request [i] when its handler returns [a]. *)
Definition reply_to (i : nat) (a : result Error Fcall) : list byte :=
  match msgs !! i with
  | Some m => wire {| msg_tag := msg_tag m; msg_body := response_of a |}
  | None => []
  end.

Lemma serve_serial order : forall s rs s' out,
  (forall i, i ∈ order -> (i < length msgs)%nat) -> serial (handler_of reqs) order s = (rs, s') ->
  (forall i a, (i, a) ∈ rs -> MsgTypes.is_r (MsgType_from (response_of a)) = true) ->
  fold_left serve (omap (fun i => msgs !! i) order) ({| fs := s; fsfids := table |}, out)
  = ({| fs := s'; fsfids := table |}, out ++ map (fun '(i, a) => reply_to i a) rs).
Proof.
  induction order as [|i order IH]; intros s rs s' out Hlt Hs Hr; simpl in Hs.
  { simplify_eq. simpl. by rewrite app_nil_r. }
  assert (i < length msgs)%nat as Hi by (apply Hlt, list_elem_of_here).
  destruct (lookup_lt_is_Some_2 msgs i Hi) as [m Hm].
  destruct (Forall2_lookup_l _ _ _ _ _ Hreqs Hm) as (r & Hri & Hreq).
  unfold handler_of in Hs at 1. rewrite Hri in Hs. destruct (req_handler r s) as [a s1] eqn:Ea.
  destruct (serial (handler_of reqs) order s1) as [rs1 s2] eqn:Es. injection Hs as <- <-.
  simpl. rewrite Hm. simpl. unfold serve at 2. simpl. rewrite (req_dispatch _ _ _ _ Hreq), Ea.
  rewrite (IH s1 rs1 s2); [|intros j Hj; apply Hlt; by apply list_elem_of_further|done|].
  - unfold emit. rewrite (Hr i a) by apply list_elem_of_here. unfold reply_to at 2. rewrite Hm.
    by rewrite <- (assoc_L app).
  - intros j b Hj. apply (Hr j b). by apply list_elem_of_further.
Qed.
End Serve.

Lemma fs_exec_rtc ls c c' : fs_exec (R := R) (W := W) self ls c = Some c' -> rtc (fs_conn_step (R := R) (W := W) self) c c'.
Proof.
  revert c. induction ls as [|l ls IH]; intros c Hx; simpl in Hx; [by simplify_eq|].
  destruct (fs_step self l c) as [c1|] eqn:E; simpl in Hx; [|done]. eapply rtc_l; [by exists l|]. by apply IH.
Qed.

(** When nothing can move the loop has returned. *)
Lemma stuck_returned (c : conn) : fs_step (R := R) (W := W) self Recv c = None -> fc_status c <> Reading.
Proof.
  simpl. unfold fs_recv, recv. simpl. intros Hs E. rewrite E in Hs.
  destruct (fc_incoming c) as [|[b|e] rest]; [done| |done]. by destruct (read_msg (bytes_reader b)).1.
Qed.

(** The answer of request [i], when all have returned. *)
Definition answer_of (xs : list (running st Fcall)) (i : nat) : result Error Fcall :=
  default (Err (No EBADF)) (x ← xs !! i; returned x).

(** A request that has been answered has returned. *)
Lemma done_returned table olds msgs reqs news (c : conn) xs s k t :
  Forall2 (fun m r => req_of table (msg_body m) = Some r) msgs reqs ->
  related table olds msgs reqs news c xs s -> news !! k = Some t -> fs_done t ->
  exists x a, xs !! k = Some x /\ returned x = Some a
    /\ fs_reply t = Some (reply_to msgs k a) /\ MsgTypes.is_r (MsgType_from (response_of a)) = true.
Proof.
  intros Hreqs Hrel Hk [o Ho]. destruct (related_new _ _ _ _ Hreqs _ _ _ _ _ _ Hrel Hk) as (r & x & Hr & Hx & _ & Hm & Hat).
  pose proof (Forall_lookup_1 _ _ _ _ (rel_formed _ _ _ _ _ _ _ _ Hrel) Hk) as Hw.
  unfold at_task in Hat. unfold well_formed in Hw. rewrite Ho in Hat, Hw.
  destruct Hat as (a & Ha & _ & Hres). destruct o as [resp|resp|]; [|done|done]. subst resp.
  exists x, a. split; [done|]. split; [by unfold returned; rewrite Ha|]. split; [|by eapply answer_is_r].
  unfold fs_reply, reply_to. rewrite Ho, Hm. done.
Qed.

Lemma in_order (order : list nat) n i : order ≡ₚ seq 0 n -> i ∈ order <-> (i < n)%nat.
Proof. intros ->. rewrite elem_of_seq. lia. Qed.

(** ** A batch of requests, all answered *)
Section Answered.
Context (table : gmap u32 (Fid nat)) (olds : list task) (msgs : list Msg) (reqs : list file_req).
Context (Hreqs : Forall2 (fun m r => req_of table (msg_body m) = Some r) msgs reqs).
Context (news : list task) (c : conn) (xs : list (running st Fcall)) (s : st).
Context (Hrel : related table olds msgs reqs news c xs s).
Context (Hlen : length news = length reqs) (Hall : Forall fs_done news).

Lemma answered k : (k < length reqs)%nat -> exists x t, xs !! k = Some x /\ news !! k = Some t
  /\ returned x = Some (answer_of xs k) /\ fs_reply t = Some (reply_to msgs k (answer_of xs k))
  /\ MsgTypes.is_r (MsgType_from (response_of (answer_of xs k))) = true.
Proof.
  intros Hk. rewrite <- Hlen in Hk. destruct (lookup_lt_is_Some_2 news k Hk) as [t Ht].
  destruct (done_returned _ _ _ _ _ _ _ _ _ _ Hreqs Hrel Ht (Forall_lookup_1 _ _ _ _ Hall Ht))
    as (x & a & Hxk & Ha & Hre & Hr).
  assert (answer_of xs k = a) as -> by (unfold answer_of; rewrite Hxk; simpl; by rewrite Ha). by exists x, t.
Qed.

Lemma all_returned : Forall (fun x => is_Some (returned x)) xs.
Proof.
  apply Forall_lookup_2. intros k x Hk. pose proof (lookup_lt_Some _ _ _ Hk) as Hlt.
  rewrite (rel_length _ _ _ _ _ _ _ _ Hrel) in Hlt. destruct (answered k Hlt) as (x' & t & Hx' & _ & Ha & _).
  simplify_eq. by eexists.
Qed.

(** A serial run in which every request gets its answer sends the replies that
    were sent. *)
Context (order : list nat) (rs : list (nat * result Error Fcall)) (s1 : st).
Context (Hperm : order ≡ₚ seq 0 (length reqs)) (Hser : serial (handler_of reqs) order s1 = (rs, s)).
Context (Hans : forall i x a, xs !! i = Some x -> returned x = Some a -> (i, a) ∈ rs).

Lemma order_answers : rs = map (fun i => (i, answer_of xs i)) order.
Proof.
  eapply serial_answers; [exact Hser|rewrite Hperm; apply NoDup_seq|]. intros i Hi%(in_order _ _ i Hperm).
  destruct (answered i Hi) as (x & t & Hxi & _ & Ha & _). by apply (Hans i x).
Qed.

Lemma order_serves :
  fold_left serve (omap (fun i => msgs !! i) order) ({| fs := s1; fsfids := table |}, [])
  = (fc_shared c, map (fun '(i, a) => reply_to msgs i a) rs).
Proof.
  rewrite (serve_serial table msgs reqs Hreqs order _ rs s).
  - by rewrite (rel_shared _ _ _ _ _ _ _ _ Hrel).
  - intros i Hi%(in_order _ _ i Hperm). by rewrite (Forall2_length _ _ _ Hreqs).
  - done.
  - intros i a Hia. rewrite order_answers in Hia. apply list_elem_of_In, in_map_iff in Hia as (j & [= -> <-] & Hj).
    apply list_elem_of_In, (in_order _ _ i Hperm) in Hj. by destruct (answered i Hj) as (x & t & _ & _ & _ & _ & Hr).
Qed.

Lemma order_replies : omap fs_reply news ≡ₚ map (fun '(i, a) => reply_to msgs i a) rs.
Proof.
  rewrite (omap_numbered _ (fun i => reply_to msgs i (answer_of xs i)) news 0).
  - rewrite order_answers, map_map, Hlen. change (map ?f ?l) with (f <$> l). by rewrite Hperm.
  - intros k t Hk. assert (k < length reqs)%nat as Hlt by (rewrite <- Hlen; by eapply lookup_lt_Some).
    destruct (answered k Hlt) as (x & t' & _ & Ht' & _ & Hre & _). by simplify_eq.
Qed.
End Answered.

(** The beginning: no request has been read. *)
Lemma related_start table msgs reqs (c0 : conn) :
  fsfids (fc_shared c0) = table -> fc_status c0 = Reading ->
  Forall2 (fun i m => exists b, i = Ok b /\ (read_msg (R := R) (bytes_reader b)).1 = Ok m) (fc_incoming c0) msgs ->
  related table (fc_tasks c0) msgs reqs [] c0 (map start_of reqs) (fs (fc_shared c0)).
Proof.
  intros <- Hs Hi. split; simpl; try done; [by destruct (fc_shared c0)|by rewrite app_nil_r|apply length_map|].
  intros k r _ Hr. change (map start_of reqs) with (start_of <$> reqs). by rewrite list_lookup_fmap, Hr.
Qed.

(** C5: on open files the server is linearizable.  When the requests that come
    are reads, writes and syncs of fids of the table, which share no open file
    but their own, and all have been answered, then there is an order of them
    such that the server that serves each request at once, in this order,
    comes to the same state and sends the same replies; and a request that had
    been answered before another was read is before it in this order. *)
Theorem file_server_linearizable s0 frames0 (c0 : conn) msgs ls c :
  fs_reachable (R := R) (W := W) self s0 frames0 c0 -> Forall fs_done (fc_tasks c0) -> fc_status c0 = Reading ->
  Forall2 (fun i m => exists b, i = Ok b /\ (read_msg (R := R) (bytes_reader b)).1 = Ok m) (fc_incoming c0) msgs ->
  Forall (fun m => is_Some (req_of (fsfids (fc_shared c0)) (msg_body m))) msgs ->
  files_distinct (heap (fs (fc_shared c0))) ->
  fs_exec (R := R) (W := W) self ls c0 = Some c -> Forall reliable ls ->
  (forall l, fs_step (R := R) (W := W) self l c = None) ->
  exists order replies,
    order ≡ₚ seq 0 (length msgs)
    /\ fold_left serve (omap (fun i => msgs !! i) order) (fc_shared c0, []) = (fc_shared c, replies)
    /\ fc_sent c ≡ₚ fc_sent c0 ++ replies
    /\ forall ls1 ls2 c1 i j t, ls = ls1 ++ ls2 -> fs_exec (R := R) (W := W) self ls1 c0 = Some c1 ->
         fc_tasks c1 !! (length (fc_tasks c0) + i)%nat = Some t -> fs_done t ->
         (length (fc_tasks c1) <= length (fc_tasks c0) + j)%nat -> (j < length msgs)%nat -> before i j order.
Proof.
  intros Hreach Hdone Hread Hinc Hfile Hdist Hx Hg Hstuck.
  apply mapM_is_Some in Hfile as [reqs Hreqs%mapM_Some].
  pose proof (related_start _ msgs reqs c0 eq_refl Hread Hinc) as Hrel0.
  destruct (related_exec _ _ msgs reqs Hdone Hreqs ls _ _ _ _ _ Hrel0 Hg Hx)
    as (news & ks & xs & s & Hpool & Hrel & Hsplit).
  assert (fs_reachable (R := R) (W := W) self s0 frames0 c) as Hreach'
    by (unfold fs_reachable in *; etrans; [exact Hreach|by eapply fs_exec_rtc]).
  pose proof (stuck_done self c (tasks_well_formed self _ _ _ Hreach') (fun j => Hstuck (Run j true))) as Hall.
  rewrite (rel_tasks _ _ _ _ _ _ _ _ Hrel) in Hall. apply Forall_app in Hall as [_ Hall].
  assert (length news = length reqs) as Hlen.
  { pose proof (related_length _ _ _ _ Hreqs _ _ _ _ Hrel).
    pose proof (rel_status _ _ _ _ _ _ _ _ Hrel (stuck_returned c (Hstuck Recv))).
    rewrite (Forall2_length _ _ _ Hreqs) in *. lia. }
  destruct (file_requests_linearizable reqs _ _ _ _ Hdist Hpool (all_returned _ _ _ _ Hreqs _ _ _ _ Hrel Hlen Hall))
    as (order & rs & Hperm & Hser & Hans & Hbef).
  exists order, (map (fun '(i, a) => reply_to msgs i a) rs).
  rewrite (Forall2_length _ _ _ Hreqs). split; [done|]. split; [|split].
  - rewrite <- (order_serves _ _ _ _ Hreqs _ _ _ _ Hrel Hlen Hall _ _ _ Hperm Hser Hans). by destruct (fc_shared c0).
  - rewrite (proj1 (replies_reachable self _ _ _ Hreach')), (proj1 (replies_reachable self _ _ _ Hreach)).
    rewrite (rel_tasks _ _ _ _ _ _ _ _ Hrel), omap_app. f_equiv. by eapply order_replies.
  - intros ls1 ls2 c1 i j t Els Hx1 Ht Hd Hj Hjl.
    destruct (Hsplit _ _ Els) as (c1' & n1 & ks1 & ks2 & xs1 & s1 & Hx1' & -> & Hp1 & Hrel1 & _ & Hk1). simplify_eq.
    rewrite (rel_tasks _ _ _ _ _ _ _ _ Hrel1) in Ht, Hj. rewrite length_app in Hj.
    rewrite lookup_app_r in Ht by lia. replace (length (fc_tasks c0) + i - length (fc_tasks c0))%nat with i in Ht by lia.
    destruct (done_returned _ _ _ _ _ _ _ _ _ _ Hreqs Hrel1 Ht Hd) as (x & a & Hxi & Ha & _).
    eapply (Hbef ks1 ks2 xs1 s1 i j x); [done|done|done|by exists a|done|]. intros Hin1%Hk1. lia.
Qed.
End Loop.

(** ** A run on the machine in memory *)

#[local] Existing Instance bitflags_ref.
#[local] Existing Instance from_u8_ref.
#[local] Existing Instance nix_ref.
#[local] Existing Instance bytes_ref.
#[local] Existing Instance bytes_ref_laws.
#[local] Existing Instance mem_os.

Lemma taken_exec ls c : exists c', mem_exec (taken ls c) c = Some c'.
Proof.
  revert c. induction ls as [|l ls IH]; intros c; simpl; [by exists c|].
  destruct (mem_step l c) as [c1|] eqn:E; [|apply IH]. simpl. rewrite E. apply IH.
Qed.

Lemma files_distinct_same {F} (h h' : list (UnpfsFid F)) :
  map file h = map file h' -> files_distinct h' -> files_distinct h.
Proof.
  intros Hm Hd m n x y f Hx Hy Hfx Hfy.
  assert (forall k z, h !! k = Some z -> file z = Some f -> exists z', h' !! k = Some z' /\ file z' = Some f) as Hsame.
  { intros k z Hk Hz. assert (map file h' !! k = Some (Some f)) as Hl by (by rewrite <- Hm, list_lookup_fmap, Hk, <- Hz).
    apply list_lookup_fmap_Some in Hl as (z' & Hl & Hz'). by exists z'. }
  destruct (Hsame m x Hx Hfx) as (x' & Hx' & Hf1), (Hsame n y Hy Hfy) as (y' & Hy' & Hf2). by eapply Hd.
Qed.

(** Two files are opened; then the requests on them come. *)
Definition opening : list Msg := [
  {| msg_tag := 1; msg_body := Tattach 7 NOFID "u" "/" 0 |};
  {| msg_tag := 2; msg_body := Twalk 7 8 ["motd"] |}; {| msg_tag := 3; msg_body := Tlopen 8 2 |};
  {| msg_tag := 4; msg_body := Twalk 7 9 ["log"] |}; {| msg_tag := 5; msg_body := Tlopen 9 2 |} ].

Definition file_msgs : list Msg := [
  {| msg_tag := 1; msg_body := Tread 8 1 5 |};
  {| msg_tag := 2; msg_body := Twrite 9 1 {| data_bytes := [x78] |} |};
  {| msg_tag := 3; msg_body := Tread 8 0 1 |}; {| msg_tag := 4; msg_body := Tread 9 0 3 |} ].

Definition file_frames : list (result io_error (list byte)) := Ok ∘ wire <$> opening ++ file_msgs.
Definition file_start : mem_conn := fs_init {| os := os two_files; heap := [] |} file_frames.
Definition open_labels : list label :=
  taken (concat (map (fun i => Recv :: replicate 16 (Run i true)) (seq 0 5))) file_start.
Definition open_conn : mem_conn := default file_start (mem_exec open_labels file_start).

(** All four come; the last moves before the others in every round, so that it
    reads the file before it is written. *)
Definition file_labels : list label :=
  taken (replicate 4 Recv ++ concat (replicate 16 [Run 8 true; Run 5 true; Run 6 true; Run 7 true]) ++ [Recv]) open_conn.
Definition file_answers : list Fcall :=
  [Rread {| data_bytes := [x69; x21] |}; Rwrite 1; Rread {| data_bytes := [x68] |};
   Rread {| data_bytes := [x61; x62; x63] |}].

Definition is_none {A} (o : option A) : bool := match o with None => true | Some _ => false end.
Definition is_done (t : fs_task machine string) : bool := match ft_stage t with At (Done _) => true | _ => false end.

(** Nothing can move, and every task is at its end: tests that can be run. *)
Definition quiet (c : mem_conn) : bool :=
  is_none (mem_step Recv c) && forallb (fun i => is_none (mem_step (Run i true) c) && is_none (mem_step (Run i false) c))
    (seq 0 (length (fc_tasks c))).

Lemma is_none_true {A} (o : option A) : is_none o = true -> o = None.
Proof. by destruct o. Qed.

Lemma quiet_stuck c : quiet c = true -> forall l, mem_step l c = None.
Proof.
  intros [Hr Ht]%andb_true_iff. rewrite forallb_forall in Ht. intros [|i ok]; [exact (is_none_true _ Hr)|].
  destruct (fc_tasks c !! i) as [t|] eqn:Ei.
  - apply lookup_lt_Some in Ei. specialize (Ht i ltac:(apply in_seq; lia)). apply andb_true_iff in Ht as [Ht1 Ht2].
    destruct ok; by apply is_none_true.
  - simpl. unfold fs_run_task. by rewrite Ei.
Qed.

Lemma is_done_Forall ts : forallb is_done ts = true -> Forall fs_done ts.
Proof.
  rewrite forallb_forall. intros H. apply Forall_forall. intros t Ht%list_elem_of_In%H. unfold is_done, fs_done in *.
  destruct (ft_stage t) as [|[]]; try discriminate Ht. by eexists.
Qed.

Lemma file_server_linearizable_witness :
  exists c, mem_exec file_labels open_conn = Some c
    /\ map (fun t => ft_stage t) (drop 5 (fc_tasks c)) = map (fun resp => At (Done (Replied resp))) file_answers
    /\ exists order replies, order ≡ₚ seq 0 4
         /\ fold_left (serve (FS := served_files served_tree)) (omap (fun i => file_msgs !! i) order)
              (fc_shared open_conn, []) = (fc_shared c, replies)
         /\ fc_sent c ≡ₚ fc_sent open_conn ++ replies.
Proof.
  assert (exists c0, mem_exec open_labels file_start = Some c0) as [c0 Hc0] by exact (taken_exec _ _).
  assert (exists c, mem_exec file_labels open_conn = Some c) as [c Hc] by exact (taken_exec _ _).
  assert (open_conn = c0) as Ec0 by (unfold open_conn; rewrite Hc0; reflexivity).
  assert (option_map (fun c => (quiet c, map (fun t => ft_stage t) (drop 5 (fc_tasks c)))) (mem_exec file_labels open_conn)
    = Some (true, map (fun resp => At (Done (Replied resp))) file_answers)) as H by (vm_compute; reflexivity).
  rewrite Hc in H. injection H as Hquiet Hstages.
  exists c. split; [exact Hc|]. split; [exact Hstages|].
  destruct (file_server_linearizable (FL := mem_file_laws) served_tree {| os := os two_files; heap := [] |} file_frames
    open_conn file_msgs file_labels c) as (order & replies & Ho & Hs & Hsent & _).
  - rewrite Ec0. exact (fs_exec_reachable served_tree open_labels _ _ _ Hc0).
  - apply is_done_Forall. vm_compute. reflexivity.
  - vm_compute. reflexivity.
  - assert (fc_incoming open_conn = map (fun m => Ok (wire m)) file_msgs) as -> by (vm_compute; reflexivity).
    repeat (apply Forall2_cons; split; [eexists; split; [reflexivity|vm_compute; reflexivity]|]). constructor.
  - assert (forallb (fun m => negb (is_none (req_of (fsfids (fc_shared open_conn)) (msg_body m)))) file_msgs = true) as H
      by (vm_compute; reflexivity).
    apply Forall_forall. intros m Hm. rewrite forallb_forall in H. specialize (H m (proj1 (list_elem_of_In _ _) Hm)).
    destruct (req_of _ _); [by eexists|discriminate H].
  - apply (files_distinct_same _ (heap two_files)); [vm_compute; reflexivity|exact two_files_distinct].
  - exact Hc.
  - vm_compute. repeat constructor.
  - exact (quiet_stuck c Hquiet).
  - exists order, replies. split; [exact Ho|]. split; [exact Hs|exact Hsent].
Defined.
