(* ===== verification/Text.v ===== *)
(** * Text: white space and decimal numbers, as core::str and core::num do them

    [str::split_whitespace], the decimal [Display] of an integer and
    [str::parse::<i32>]. *)

From Stdlib Require Import Ascii Strings.Byte.
From S2P Require Import Prelude Bytes Utils.

(** ** split_whitespace

    The characters with Unicode's White_Space property, by the length of their
    UTF-8 form. *)
Definition is_ws1 (b : byte) : bool := between 0x09 0x0D b || between 0x20 0x20 b.

Definition is_ws2 (b0 b1 : byte) : bool :=
  between 0xC2 0xC2 b0 && (between 0x85 0x85 b1 || between 0xA0 0xA0 b1).

Definition is_ws3 (b0 b1 b2 : byte) : bool :=
  (between 0xE1 0xE1 b0 && between 0x9A 0x9A b1 && between 0x80 0x80 b2)
  || (between 0xE2 0xE2 b0 && between 0x80 0x80 b1
      && (between 0x80 0x8A b2 || between 0xA8 0xA9 b2 || between 0xAF 0xAF b2))
  || (between 0xE2 0xE2 b0 && between 0x81 0x81 b1 && between 0x9F 0x9F b2)
  || (between 0xE3 0xE3 b0 && between 0x80 0x80 b1 && between 0x80 0x80 b2).

Definition flush (cur : list byte) : list string :=
  match cur with [] => [] | _ => [str_of_bytes cur] end.

(** [cur] is the word being read. *)
Fixpoint split_ws (cur : list byte) (l : list byte) : list string :=
  match l with
  | [] => flush cur
  | b0 :: l1 =>
      if is_ws1 b0 then flush cur ++ split_ws [] l1
      else match l1 with
      | b1 :: l2 =>
          if is_ws2 b0 b1 then flush cur ++ split_ws [] l2
          else match l2 with
          | b2 :: l3 =>
              if is_ws3 b0 b1 b2 then flush cur ++ split_ws [] l3
              else split_ws (cur ++ [b0]) l1
          | [] => split_ws (cur ++ [b0]) l1
          end
      | [] => split_ws (cur ++ [b0]) l1
      end
  end.

Definition split_whitespace (s : string) : list string := split_ws [] (as_bytes s).

(** ** Decimal integers *)

Definition digit (d : Z) : byte := byte_of (48 + d).

(** The digits of [n] in front of [acc], for [n] with at most [fuel] digits. *)
Fixpoint digits (fuel : nat) (n : Z) (acc : list byte) : list byte :=
  match fuel with
  | O => acc
  | S fuel =>
      let acc := digit (n mod 10) :: acc in
      if n <? 10 then acc else digits fuel (n / 10) acc
  end.

(** [Display] of an integer of at most 64 bits: 20 digits are enough. *)
Definition show_int (n : Z) : string :=
  str_of_bytes (if n <? 0 then x2d :: digits 20 (- n) [] else digits 20 n []).

(** [std::num::ParseIntError], by its kind. *)
Inductive ParseIntError : Set :=
  | Empty
  | InvalidDigit
  | PosOverflow
  | NegOverflow.

Definition in_i32 (n : Z) : bool := (- 2 ^ 31 <=? n) && (n <? 2 ^ 31).

Definition to_digit (b : byte) : option Z :=
  if between 48 57 b then Some (byte_val b - 48) else None.

(** The digit loop, adding ([sign = 1]) or subtracting ([sign = -1]). *)
Fixpoint parse_digits (sign : Z) (acc : Z) (l : list byte) : result ParseIntError Z :=
  let overflow := if 0 <? sign then PosOverflow else NegOverflow in
  match l with
  | [] => Ok acc
  | b :: l =>
      match to_digit b with
      | None => Err InvalidDigit
      | Some x =>
          if negb (in_i32 (acc * 10)) then Err overflow
          else if negb (in_i32 (acc * 10 + sign * x)) then Err overflow
          else parse_digits sign (acc * 10 + sign * x) l
      end
  end.

(** [str::parse::<i32>] *)
Definition parse_i32 (s : string) : result ParseIntError i32 :=
  match as_bytes s with
  | [] => Err Empty
  | [x2b] | [x2d] => Err InvalidDigit
  | x2b :: l => parse_digits 1 0 l
  | x2d :: l => parse_digits (-1) 0 l
  | l => parse_digits 1 0 l
  end.

(** ** Lemmas *)

(** A word: nothing in it is the start of a white space character.  It is
    enough that no byte is one of the five that start them. *)
Definition word_byte (b : byte) : bool :=
  negb (is_ws1 b || between 0xC2 0xC2 b || between 0xE1 0xE3 b).
Definition word (s : string) : Prop :=
  s <> "" /\ Forall (fun b => word_byte b) (as_bytes s).

Lemma word_byte_ws b : word_byte b -> is_ws1 b = false
  /\ (forall b1, is_ws2 b b1 = false) /\ forall b1 b2, is_ws3 b b1 b2 = false.
Proof.
  unfold word_byte, is_ws2, is_ws3. intros H.
  assert (is_ws1 b = false /\ between 0xC2 0xC2 b = false /\ between 0xE1 0xE3 b = false) as (H1 & H2 & H3).
  { destruct (is_ws1 b), (between 0xC2 0xC2 b), (between 0xE1 0xE3 b); simpl in H; done. }
  assert (between 0xE1 0xE1 b = false /\ between 0xE2 0xE2 b = false /\ between 0xE3 0xE3 b = false)
    as (-> & -> & ->) by (unfold between in *; lia).
  rewrite H2. done.
Qed.

Lemma split_ws_word cur w l :
  Forall (fun b => word_byte b) w -> split_ws cur (w ++ x20 :: l) = flush (cur ++ w) ++ split_ws [] l.
Proof.
  intros Hw. revert cur. induction Hw as [|b w Hb _ IH]; intros cur; [by rewrite app_nil_r|].
  destruct (word_byte_ws b Hb) as (H1 & H2 & H3). cbn [app split_ws]. rewrite H1.
  replace (cur ++ b :: w) with ((cur ++ [b]) ++ w) by (by rewrite <- app_assoc).
  rewrite <- (IH (cur ++ [b])).
  destruct (w ++ x20 :: l) as [|b1 l1]; [done|]. rewrite H2. destruct l1; [done|]. by rewrite H3.
Qed.

Lemma split_ws_end cur w :
  Forall (fun b => word_byte b) w -> split_ws cur w = flush (cur ++ w).
Proof.
  intros Hw. revert cur. induction Hw as [|b w Hb _ IH]; intros cur; [by rewrite app_nil_r|].
  destruct (word_byte_ws b Hb) as (H1 & H2 & H3). cbn [split_ws]. rewrite H1.
  replace (cur ++ b :: w) with ((cur ++ [b]) ++ w) by (by rewrite <- app_assoc).
  rewrite <- (IH (cur ++ [b])).
  destruct w as [|b1 [|b2 w]]; [done| |]; rewrite H2; [done|]. by rewrite H3.
Qed.

Lemma as_bytes_app s t : as_bytes (s +:+ t) = as_bytes s ++ as_bytes t.
Proof.
  induction s as [|a s IH]; [done|]. change (String a s +:+ t) with (String a (s +:+ t)).
  unfold as_bytes, String.list_byte_of_string in *. simpl. f_equal. exact IH.
Qed.

Lemma as_bytes_ne s : s <> "" -> as_bytes s <> [].
Proof. by destruct s. Qed.

Lemma flush_word s : word s -> flush (as_bytes s) = [s].
Proof.
  intros [Hne _]. pose proof (as_bytes_ne s Hne) as Hb. unfold flush.
  destruct (as_bytes s) as [|b l] eqn:E; [done|]. by rewrite <- E, str_of_bytes_as_bytes.
Qed.

(** Words joined by single spaces are split back. *)
Lemma split_whitespace_join ws :
  ws <> [] -> Forall word ws -> split_whitespace (join_char " " ws) = ws.
Proof.
  intros Hne Hw. unfold split_whitespace.
  induction Hw as [|w ws Hwd Hws IH]; [done|]. destruct ws as [|v ws].
  - simpl. rewrite split_ws_end by apply Hwd. simpl. by apply flush_word.
  - change (join_char " " (w :: v :: ws)) with (w +:+ String " " (join_char " " (v :: ws))).
    rewrite as_bytes_app.
    change (as_bytes (String " " (join_char " " (v :: ws)))) with (x20 :: as_bytes (join_char " " (v :: ws))).
    rewrite split_ws_word by apply Hwd. simpl ([] ++ _).
    rewrite flush_word, IH by done. done.
Qed.

Lemma digit_val d : 0 <= d < 10 -> byte_val (digit d) = 48 + d.
Proof. intros H. unfold digit. rewrite byte_val_of. apply wrap_id. unfold fits. lia. Qed.

Lemma to_digit_digit d : 0 <= d < 10 -> to_digit (digit d) = Some d.
Proof.
  intros H. unfold to_digit, between. rewrite digit_val by done.
  replace ((48 <=? 48 + d) && (48 + d <=? 57)) with true by lia. f_equal. lia.
Qed.

(** Reading the digits of [n] brings [acc] to the number written [acc] and
    then [n]. *)
Fixpoint ndigits (fuel : nat) (n : Z) : nat :=
  match fuel with
  | O => 0
  | S fuel => S (if n <? 10 then 0 else ndigits fuel (n / 10))
  end.

Lemma parse_digits_app sign acc l k :
  parse_digits sign acc (l ++ k)
  = match parse_digits sign acc l with Ok a => parse_digits sign a k | Err e => Err e end.
Proof.
  revert acc. induction l as [|b l IH]; intros acc; simpl; [done|].
  destruct (to_digit b); [|done]. destruct (negb _); [done|]. destruct (negb _); [done|]. apply IH.
Qed.

Lemma digits_acc fuel n acc : digits fuel n acc = digits fuel n [] ++ acc.
Proof.
  revert n acc. induction fuel as [|fuel IH]; intros n acc; simpl; [done|].
  destruct (n <? 10); [done|]. rewrite IH, (IH _ [_]). by rewrite <- app_assoc.
Qed.

Lemma parse_digits_show sign n fuel :
  sign = 1 \/ sign = -1 -> 0 <= n < 10 ^ Z.of_nat fuel -> (0 < fuel)%nat -> in_i32 (sign * n) = true ->
  parse_digits sign 0 (digits fuel n []) = Ok (sign * n).
Proof.
  intros Hs. revert n. induction fuel as [|fuel IH]; intros n Hn Hf Hi; [lia|].
  cbn [digits]. pose proof (Z.mod_pos_bound n 10 ltac:(lia)) as Hm.
  pose proof (Z.div_mod n 10 ltac:(lia)) as Hd.
  destruct (Z.ltb_spec n 10) as [Hlt|Hge].
  - rewrite Z.mod_small in * by lia. simpl. rewrite to_digit_digit by lia.
    replace (0 * 10 + sign * n) with (sign * n) by lia. rewrite Hi. done.
  - assert (0 < fuel)%nat as Hf' by (destruct fuel; [simpl in Hn; lia|lia]).
    rewrite digits_acc, parse_digits_app. unfold in_i32 in Hi.
    rewrite IH; [|split; [lia|]|done|].
    + simpl. rewrite to_digit_digit by lia.
      replace (in_i32 (sign * (n / 10) * 10)) with true by (unfold in_i32; destruct Hs; subst; lia).
      replace (sign * (n / 10) * 10 + sign * (n mod 10)) with (sign * n) by (destruct Hs; subst; lia).
      unfold in_i32. by rewrite Hi.
    + rewrite Nat2Z.inj_succ, Z.pow_succ_r in Hn by lia. lia.
    + unfold in_i32. destruct Hs; subst; lia.
Qed.

Lemma digits_nonneg_head fuel n acc :
  0 <= n -> (0 < fuel)%nat ->
  exists b l, digits fuel n acc = b :: l /\ between 48 57 b = true.
Proof.
  revert n acc. induction fuel as [|fuel IH]; intros n acc Hn Hf; [lia|]. cbn [digits].
  pose proof (Z.mod_pos_bound n 10 ltac:(lia)) as Hm.
  assert (between 48 57 (digit (n mod 10)) = true) as Hb.
  { unfold between. rewrite digit_val by lia. lia. }
  destruct (n <? 10); [eauto|]. destruct fuel as [|fuel].
  - simpl. eauto.
  - apply IH; [|lia]. apply Z.div_pos; lia.
Qed.

(** What is printed is read back. *)
Lemma parse_show n : in_i32 n = true -> parse_i32 (show_int n) = Ok n.
Proof.
  intros Hi. unfold parse_i32, show_int. rewrite as_bytes_of_bytes.
  destruct (Z.ltb_spec n 0) as [Hneg|Hpos].
  - pose proof (parse_digits_show (-1) (- n) 20) as Hp.
    destruct (digits_nonneg_head 20 (- n) [] ltac:(lia) ltac:(lia)) as (b & l & E & _).
    rewrite E in *. replace (-1 * - n) with n in Hp by lia. apply Hp; [lia| |lia|done].
    unfold in_i32 in Hi. simpl. lia.
  - pose proof (parse_digits_show 1 n 20) as Hp.
    destruct (digits_nonneg_head 20 n [] ltac:(lia) ltac:(lia)) as (b & l & E & Hb).
    rewrite E in *. replace (1 * n) with n in Hp by lia.
    assert (parse_digits 1 0 (b :: l) = Ok n) as H1.
    { apply Hp; [lia| |lia|done]. unfold in_i32 in Hi. simpl. lia. }
    destruct b; try done; destruct l; done.
Qed.

Lemma digit_word_byte b : between 48 57 b = true -> word_byte b.
Proof. unfold word_byte, is_ws1, between. intros H. apply Is_true_true. lia. Qed.

Lemma digits_range fuel n acc :
  0 <= n -> Forall (fun b => between 48 57 b = true) acc ->
  Forall (fun b => between 48 57 b = true) (digits fuel n acc).
Proof.
  revert n acc. induction fuel as [|fuel IH]; intros n acc Hn Ha; simpl; [done|].
  pose proof (Z.mod_pos_bound n 10 ltac:(lia)) as Hm.
  assert (between 48 57 (digit (n mod 10)) = true) as Hd
    by (unfold between; rewrite digit_val by lia; lia).
  destruct (n <? 10); [by constructor|]. apply IH; [apply Z.div_pos; lia|by constructor].
Qed.

Lemma digits_word fuel n : 0 <= n -> Forall (fun b => word_byte b) (digits fuel n []).
Proof.
  intros Hn. eapply Forall_impl; [by apply digits_range|]. intros b. apply digit_word_byte.
Qed.

Lemma has_char_byte c s : has_char c s = true -> byte_of_ascii c ∈ as_bytes s.
Proof.
  induction s as [|a s IH]; simpl; [done|]. unfold as_bytes, String.list_byte_of_string in *. simpl.
  intros [->%bool_decide_eq_true|H]%orb_prop; [left|right; auto].
Qed.

(** The separators do not occur in a printed number. *)
Lemma show_int_no_char c n :
  0 <= n -> between 48 57 (byte_of_ascii c) = false -> has_char c (show_int n) = false.
Proof.
  intros Hn Hc. destruct (has_char c (show_int n)) eqn:E; [|done].
  apply has_char_byte in E. unfold show_int in E. rewrite as_bytes_of_bytes in E.
  destruct (Z.ltb_spec n 0); [lia|].
  pose proof (digits_range 20 n [] Hn ltac:(constructor)) as Hr.
  rewrite Forall_forall in Hr. specialize (Hr _ E). congruence.
Qed.

(** A printed number is a word. *)
Lemma show_int_word n : word (show_int n).
Proof.
  unfold word, show_int.
  assert (forall l, l <> [] -> str_of_bytes l <> "") as Hne.
  { intros l Hl E. apply Hl. by rewrite <- (as_bytes_of_bytes l), E. }
  rewrite as_bytes_of_bytes. destruct (Z.ltb_spec n 0).
  - split; [by apply Hne|]. constructor; [done|]. apply digits_word. lia.
  - destruct (digits_nonneg_head 20 n [] ltac:(lia) ltac:(lia)) as (b & l & E & _).
    split; [apply Hne; by rewrite E|]. by apply digits_word.
Qed.

(** ASCII text is UTF-8. *)
Lemma ascii_utf8 l : Forall (fun b => between 0 0x7F b = true) l -> utf8_valid l = true.
Proof. induction 1 as [|b l Hb _ IH]; [done|]. cbn [utf8_valid]. by rewrite Hb. Qed.

Lemma show_int_wf n : str_wf (show_int n).
Proof.
  unfold str_wf, show_int. rewrite as_bytes_of_bytes. apply ascii_utf8.
  assert (forall k, 0 <= k -> Forall (fun b => between 0 0x7F b = true) (digits 20 k [])) as Hd.
  { intros k Hk. eapply Forall_impl; [by apply digits_range; [|constructor]|].
    intros b. unfold between. lia. }
  destruct (Z.ltb_spec n 0); [constructor; [done|]|]; apply Hd; lia.
Qed.

Lemma str_wf_app s t : str_wf s -> str_wf t -> str_wf (s +:+ t).
Proof. unfold str_wf. intros Hs Ht. by rewrite as_bytes_app, utf8_valid_app. Qed.
