(* ===== verification/Namespace.v ===== *)
(** * Commands and namespaces (libp9cpu/src/cmd.rs, lib.rs, p9cpu/src/p9cpu.rs)

    The messages of cmd.proto, the fstab lines, the namespace syntax and what
    they become for the mount calls of the launcher (launcher.rs,
    [parse_fstab_opt] and [get_ptr]). *)

From Stdlib Require Import Ascii Strings.Byte.
From S2P Require Import Prelude Bytes Io Fcall Utils Text.

(** ** The messages of cmd.proto *)

Record FsTab : Set := {
  spec : string; fstab_file : string; vfstype : string; mntops : string; freq : i32; passno : i32
}.

Record EnvVar : Set := { key : list byte; val : list byte }.

Record Cmd : Set := {
  program : string; args : list string; envs : list EnvVar; fstab : list FsTab;
  ninep : bool; tty : bool; tmp_mnt : string; uid : u32; gid : u32
}.

(** [Cmd::default()] *)
Definition Cmd_default : Cmd := {|
  program := ""; args := []; envs := []; fstab := []; ninep := false; tty := false;
  tmp_mnt := ""; uid := 0; gid := 0
|}.

#[export] Instance FsTab_eq_dec : EqDecision FsTab.
Proof. unfold i32 in *. solve_decision. Defined.

(** ** impl TryFrom<&str> for FsTab *)

Inductive FsTabError : Set :=
  | NotSixFields
  | InvalidNumber (field : string) (e : ParseIntError).

(** [it.next().ok_or(FsTabError::NotSixFields)?] on the remaining words. *)
Definition next_field : M (list string) FsTabError string := fun it =>
  match it with
  | [] => (Err NotSixFields, [])
  | w :: it => (Ok w, it)
  end.

(** [.parse().map_err(|e| FsTabError::InvalidNumber(name, e))?] *)
Definition parse_number (name w : string) : M (list string) FsTabError i32 := fun it =>
  (match parse_i32 w with Ok n => Ok n | Err e => Err (InvalidNumber name e) end, it).

(** [if it.next().is_some() { return Err(..) }] *)
Definition no_more : M (list string) FsTabError unit := fun it =>
  match it with [] => (Ok tt, []) | _ :: it => (Err NotSixFields, it) end.

Definition FsTab_try_from (line : string) : result FsTabError FsTab :=
  fst ((spec ← next_field;
        file ← next_field;
        vfstype ← next_field;
        mntops ← next_field;
        freq ← (w ← next_field; parse_number "freq" w);
        passno ← (w ← next_field; parse_number "passno" w);
        _ ← no_more;
        mret {| spec := spec; fstab_file := file; vfstype := vfstype; mntops := mntops;
                freq := freq; passno := passno |}) (split_whitespace line)).

(** ** The builder of commands *)

Definition Command_new (p : string) : Cmd := {|
  program := p; args := []; envs := []; fstab := []; ninep := false; tty := false;
  tmp_mnt := ""; uid := 0; gid := 0
|}.

Definition Command_args (a : list string) (c : Cmd) : Cmd := {|
  program := program c; args := args c ++ a; envs := envs c; fstab := fstab c; ninep := ninep c;
  tty := tty c; tmp_mnt := tmp_mnt c; uid := uid c; gid := gid c |}.

Definition Command_envs (vars : list (list byte * list byte)) (c : Cmd) : Cmd := {|
  program := program c; args := args c;
  envs := envs c ++ map (fun '(k, v) => {| key := k; val := v |}) vars;
  fstab := fstab c; ninep := ninep c; tty := tty c; tmp_mnt := tmp_mnt c; uid := uid c; gid := gid c |}.

Definition Command_fstab (tab : list FsTab) (c : Cmd) : Cmd := {|
  program := program c; args := args c; envs := envs c; fstab := fstab c ++ tab; ninep := ninep c;
  tty := tty c; tmp_mnt := tmp_mnt c; uid := uid c; gid := gid c |}.

Definition Command_ninep (enable : bool) (c : Cmd) : Cmd := {|
  program := program c; args := args c; envs := envs c; fstab := fstab c; ninep := enable;
  tty := tty c; tmp_mnt := tmp_mnt c; uid := uid c; gid := gid c |}.

Definition Command_tty (enable : bool) (c : Cmd) : Cmd := {|
  program := program c; args := args c; envs := envs c; fstab := fstab c; ninep := ninep c;
  tty := enable; tmp_mnt := tmp_mnt c; uid := uid c; gid := gid c |}.

Definition Command_tmp_mnt (t : string) (c : Cmd) : Cmd := {|
  program := program c; args := args c; envs := envs c; fstab := fstab c; ninep := ninep c;
  tty := tty c; tmp_mnt := t; uid := uid c; gid := gid c |}.

Definition Command_ugid (u g : u32) (c : Cmd) : Cmd := {|
  program := program c; args := args c; envs := envs c; fstab := fstab c; ninep := ninep c;
  tty := tty c; tmp_mnt := tmp_mnt c; uid := u; gid := g |}.

(** ** parse_namespace *)

Definition NINEP_MOUNT : string := "mnt9p".
Definition LOCAL_ROOT_MOUNT : string := "local".

(** [format!("{}/{}", tmp_mnt, NINEP_MOUNT)] *)
Definition ninep_mount_point (tmp_mnt : string) : string := tmp_mnt +:+ "/" +:+ NINEP_MOUNT.

Definition ninep_tab (tmp_mnt : string) : FsTab := {|
  spec := ""; fstab_file := ninep_mount_point tmp_mnt; vfstype := "9p"; mntops := "";
  freq := 0; passno := 0
|}.

Definition bind_tab (tmp_mnt target source : string) : FsTab := {|
  spec := ninep_mount_point tmp_mnt +:+ source; fstab_file := target; vfstype := "none";
  mntops := "defaults,bind"; freq := 0; passno := 0
|}.

(** The iterator over a part: its target, and the source if the part is valid. *)
Definition parse_part (part : string) : option (string * string) :=
  match split_char "="%char part with
  | [] => None
  | [target] => Some (target, target)
  | [target; source] => Some (target, source)
  | _ => None
  end.

(** The [for] loop; [targets] is the hash set, [result] the vector. *)
Fixpoint namespace_loop (tmp_mnt : string) (parts : list string) (targets : gset string)
    (result : list FsTab) : list FsTab :=
  match parts with
  | [] => result
  | part :: parts =>
      match parse_part part with
      | None => namespace_loop tmp_mnt parts targets result
      | Some (target, source) =>
          if decide (target ∈ targets) then namespace_loop tmp_mnt parts targets result
          else namespace_loop tmp_mnt parts ({[target]} ∪ targets)
                 (result ++ [bind_tab tmp_mnt target source])
      end
  end.

Definition parse_namespace (namespace tmp_mnt : string) : list FsTab :=
  if decide (namespace = "") then []
  else
    let result := namespace_loop tmp_mnt (split_char ":"%char namespace) ∅ [ninep_tab tmp_mnt] in
    if (length result =? 1)%nat then [] else result.

(** ** parse_fstab_opt and get_ptr (launcher.rs) *)

Definition MS_BIND : Z := 0x1000.
Definition MS_REC : Z := 0x4000.
Definition MS_PRIVATE : Z := 0x40000.

Fixpoint fstab_opt_loop `{Bitflags} (fs : list string) (flag : Z) (opts : list string)
    : Z * list string :=
  match fs with
  | [] => (flag, opts)
  | f :: fs =>
      if decide (f = "defaults") then fstab_opt_loop fs flag opts
      else if decide (f = "bind") then fstab_opt_loop fs (insert_flags flag MS_BIND) opts
      else fstab_opt_loop fs flag (opts ++ [f])
  end.

Definition parse_fstab_opt `{Bitflags} (opt : string) : Z * string :=
  let '(flag, opts) := fstab_opt_loop (split_char ","%char opt) 0 [] in (flag, join_char ","%char opts).

Definition get_ptr (s : string) : option string := if decide (s = "") then None else Some s.

(** ** What start fills in (server.rs)

    The first entry that is the 9p mount of the command gets its address and
    the port of the listener. *)
Definition ninep_options (port : u16) : string :=
  "version=9p2000.L,trans=tcp,port=" +:+ show_int port.

Fixpoint fill_ninep (tmp_mnt : string) (port : u16) (tabs : list FsTab) : list FsTab :=
  match tabs with
  | [] => []
  | tab :: tabs =>
      if decide (vfstype tab = "9p" /\ fstab_file tab = ninep_mount_point tmp_mnt)
      then {| spec := "127.0.0.1"; fstab_file := fstab_file tab; vfstype := vfstype tab;
              mntops := ninep_options port; freq := freq tab; passno := passno tab |} :: tabs
      else tab :: fill_ninep tmp_mnt port tabs
  end.

(** ** The command p9cpu builds (p9cpu.rs, [app]) *)

(** The lines of an fstab file, but for comments. *)
Fixpoint read_fstab (lines : list string) (tabs : list FsTab) : result FsTabError (list FsTab) :=
  match lines with
  | [] => Ok tabs
  | line :: lines =>
      match line with
      | String "#"%char _ => read_fstab lines tabs
      | _ =>
          match FsTab_try_from line with
          | Ok tab => read_fstab lines (tabs ++ [tab])
          | Err e => Err e
          end
      end
  end.

Inductive AppError : Set :=
  | EmptyTmpMnt
  | BadFsTab (e : FsTabError).

Record Args : Set := {
  a_namespace : string; a_tty : bool; a_fs_tab : option (list string); a_tmp_mnt : string;
  a_uid : u32; a_gid : u32; a_args : list string
}.

(** The arguments that make up the command; the address is not among them.
    [a_fs_tab] is the content of the file that was named, by lines; [vars] the
    environment.  [None] is the panic of [args.args[0]]. *)
Definition build_command (a : Args) (vars : list (list byte * list byte))
    : option (result AppError Cmd) :=
  if decide (a_tmp_mnt a = "") then Some (Err EmptyTmpMnt)
  else
    let fs_tab_lines := parse_namespace (a_namespace a) (a_tmp_mnt a) in
    let ninep := match fs_tab_lines with [] => false | _ => true end in
    match match a_fs_tab a with None => Ok fs_tab_lines | Some lines => read_fstab lines fs_tab_lines end with
    | Err e => Some (Err (BadFsTab e))
    | Ok tabs =>
        match a_args a with
        | [] => None
        | program :: rest =>
            Some (Ok (Command_ugid (a_uid a) (a_gid a) (Command_tmp_mnt (a_tmp_mnt a)
              (Command_tty (a_tty a) (Command_fstab tabs (Command_ninep ninep
                (Command_envs vars (Command_args rest (Command_new program)))))))))
        end
    end.
