(* ===== verification/NamespaceProps.v ===== *)
(** * Properties of namespaces and fstab lines

    What [parse_namespace] makes of a namespace, which lines [FsTab::try_from]
    accepts, and how mount options are split. *)

From Stdlib Require Import Ascii.
From S2P Require Import Prelude Bytes Io Fcall Utils Text Namespace.

(** ** parse_namespace *)

(** The specification: of the bindings of one target, the first. *)
Fixpoint keep_first (l : list (string * string)) : list (string * string) :=
  match l with
  | [] => []
  | p :: l => p :: filter (fun q => q.1 <> p.1) (keep_first l)
  end.

Lemma namespace_loop_spec tmp parts targets res :
  namespace_loop tmp parts targets res
  = res ++ map (fun p => bind_tab tmp p.1 p.2)
      (filter (fun p => p.1 ∉ targets) (keep_first (omap parse_part parts))).
Proof.
  revert targets res. induction parts as [|part parts IH]; intros targets res; simpl.
  { by rewrite app_nil_r. }
  destruct (parse_part part) as [[t s]|]; [|apply IH]. simpl.
  rewrite filter_cons. simpl. destruct (decide (t ∈ targets)) as [Hin|Hout].
  - rewrite decide_False by (intros H; by apply H). rewrite IH. do 2 f_equal.
    rewrite list_filter_filter_l; [done|]. intros [t' s'] Hn E. simpl in *. subst t'. by apply Hn.
  - rewrite decide_True by done. rewrite IH, <- app_assoc. simpl. do 3 f_equal.
    rewrite list_filter_filter. apply list_filter_iff. intros [t' s']. simpl. set_solver.
Qed.

Lemma keep_first_NoDup l : NoDup (map fst (keep_first l)).
Proof.
  induction l as [|[t s] l IH]; simpl; [constructor|]. constructor.
  - intros (p & -> & Hp)%list_elem_of_fmap. apply list_elem_of_filter in Hp as [Hp _]. done.
  - clear -IH. induction (keep_first l) as [|q k IHk]; [constructor|]. simpl in IH.
    apply NoDup_cons in IH as [Hq Hk]. rewrite filter_cons. destruct (decide _); [|by apply IHk].
    simpl. constructor; [|by apply IHk]. intros (p & E & Hp)%list_elem_of_fmap.
    apply Hq. rewrite E. apply list_elem_of_filter in Hp as [_ Hp]. by apply list_elem_of_fmap_2.
Qed.

Lemma filter_all {A} (P : A -> Prop) `{forall x, Decision (P x)} (l : list A) :
  (forall x, P x) -> filter P l = l.
Proof. intros HP. induction l as [|p l IH]; [done|]. by rewrite filter_cons, decide_True, IH. Qed.

(** The valid bindings of a namespace. *)
Definition bindings (namespace : string) : list (string * string) :=
  keep_first (omap parse_part (split_char ":" namespace)).

Lemma parse_namespace_bindings namespace tmp :
  namespace <> "" ->
  parse_namespace namespace tmp
  = match bindings namespace with
    | [] => []
    | bs => ninep_tab tmp :: map (fun p => bind_tab tmp p.1 p.2) bs
    end.
Proof.
  intros Hne. unfold parse_namespace. rewrite decide_False by done.
  rewrite namespace_loop_spec. unfold bindings.
  rewrite filter_all by (intros p; apply not_elem_of_empty).
  by destruct (keep_first _).
Qed.

(** C34: a namespace becomes nothing when it is empty or has no valid part,
    and otherwise the 9p mount followed by one bind mount for each target of a
    valid part, in order, from the source its first valid part names; no two
    have the same target. *)
Theorem parse_namespace_spec (namespace tmp : string) :
  parse_namespace namespace tmp
  = (if decide (namespace = "") then []
     else match bindings namespace with
          | [] => []
          | bs => ninep_tab tmp :: map (fun p => bind_tab tmp p.1 p.2) bs
          end)
  /\ NoDup (map fst (bindings namespace)).
Proof.
  split; [|apply keep_first_NoDup]. destruct (decide (namespace = "")) as [->|Hne]; [done|].
  by apply parse_namespace_bindings.
Qed.

(** ** Lines of an fstab *)

(** A table entry as a line. *)
Definition FsTab_line (tab : FsTab) : string :=
  join_char " " [spec tab; fstab_file tab; vfstype tab; mntops tab;
    show_int (freq tab); show_int (passno tab)].

(** Takes the words of a line one by one. *)
Ltac run_fields :=
  unfold mbind, M_bind, next_field, parse_number, no_more, mret, M_ret; cbn -[parse_i32 show_int].

(** A table entry whose text fields are words and whose numbers fit is
    read back from its line. *)
Theorem FsTab_read_back (tab : FsTab) :
  Forall word [spec tab; fstab_file tab; vfstype tab; mntops tab] ->
  in_i32 (freq tab) = true -> in_i32 (passno tab) = true ->
  FsTab_try_from (FsTab_line tab) = Ok tab.
Proof.
  intros Hw Hf Hp. unfold FsTab_try_from, FsTab_line.
  rewrite split_whitespace_join; [|done|].
  - run_fields. rewrite parse_show by done. run_fields. rewrite parse_show by done.
    by destruct tab.
  - apply (Forall_app_2 _ _ [show_int (freq tab); show_int (passno tab)]) in Hw; [done|].
    repeat constructor; apply show_int_word.
Qed.

(** The lines accepted are those of exactly six words whose last two are
    numbers of 32 bits. *)
Theorem FsTab_accepts line tab :
  FsTab_try_from line = Ok tab
  <-> exists w5 w6, split_whitespace line
        = [spec tab; fstab_file tab; vfstype tab; mntops tab; w5; w6]
      /\ parse_i32 w5 = Ok (freq tab) /\ parse_i32 w6 = Ok (passno tab).
Proof.
  unfold FsTab_try_from. split.
  - destruct (split_whitespace line) as [|w1 [|w2 [|w3 [|w4 [|w5 ws]]]]]; run_fields; try done.
    destruct (parse_i32 w5) eqn:E5; run_fields; [|done].
    destruct ws as [|w6 ws]; run_fields; [done|]. destruct (parse_i32 w6) eqn:E6; run_fields; [|done].
    destruct ws; run_fields; [|done]. intros [= <-]. by exists w5, w6.
  - intros (w5 & w6 & -> & E5 & E6). run_fields. rewrite E5, E6. by destruct tab.
Qed.

(** ** Mount options *)

(** An option that is neither "defaults" nor "bind". *)
Definition plain_option (f : string) : Prop := f <> "defaults" /\ f <> "bind".

#[export] Instance plain_option_dec f : Decision (plain_option f).
Proof. unfold plain_option. apply _. Defined.

Lemma fstab_opt_loop_spec `{BitflagsLaws} fs flag opts :
  fstab_opt_loop fs flag opts
  = (if decide ("bind" ∈ fs) then Z.lor flag MS_BIND else flag, opts ++ filter plain_option fs).
Proof.
  revert flag opts. induction fs as [|f fs IH]; intros flag opts; simpl; [by rewrite app_nil_r|].
  rewrite filter_cons. destruct (decide (f = "defaults")) as [->|Hd].
  { rewrite IH, (decide_False (P := plain_option _)) by (by intros []).
    f_equal. apply decide_ext. set_solver. }
  destruct (decide (f = "bind")) as [->|Hb].
  - rewrite IH, insert_law, (decide_False (P := plain_option _)) by (by intros []).
    rewrite (decide_True (P := _ ∈ _ :: _)) by set_solver. f_equal.
    destruct (decide _); [|done]. by rewrite <- Z.lor_assoc, Z.lor_diag.
  - rewrite IH, (decide_True (P := plain_option _)) by done. rewrite <- app_assoc. f_equal.
    apply decide_ext. set_solver.
Qed.

(** Mount options: "bind" anywhere in the list sets the bind flag,
    "defaults" is dropped, and the others go to the file system in order. *)
Theorem parse_fstab_opt_spec `{BitflagsLaws} (opt : string) :
  parse_fstab_opt opt
  = (if decide ("bind" ∈ split_char "," opt) then MS_BIND else 0,
     join_char "," (filter plain_option (split_char "," opt))).
Proof.
  unfold parse_fstab_opt. rewrite fstab_opt_loop_spec. simpl. by destruct (decide _).
Qed.

(** ** Witnesses *)

#[local] Existing Instance bitflags_ref.
#[local] Existing Instance bitflags_ref_laws.

Definition tab_example : FsTab := {|
  spec := "proc"; fstab_file := "/proc"; vfstype := "proc"; mntops := "defaults"; freq := -7; passno := 0
|}.

Lemma FsTab_read_back_witness :
  FsTab_try_from "proc /proc proc defaults -7 0" = Ok tab_example.
Proof.
  apply (FsTab_read_back tab_example); [|reflexivity|reflexivity].
  repeat constructor; discriminate.
Defined.

Lemma parse_fstab_opt_spec_witness : parse_fstab_opt "defaults,bind,ro" = (MS_BIND, "ro").
Proof. exact (parse_fstab_opt_spec "defaults,bind,ro"). Defined.
