(* ===== verification/Launcher.v ===== *)
(** * The launcher (libp9cpu/src/launcher.rs)

    [connect] runs in the process the server spawns for a command: it fetches
    the command over a socket, builds its mount namespace, gives up its
    privileges and becomes the program.  The kernel is a parameter; every call
    is recorded with its outcome, so that the order of the calls can be stated. *)

From Stdlib Require Import Strings.Byte.
From S2P Require Import Prelude Bytes Io Error Fcall Path Utils Text Namespace.

(** ** The kernel *)

Inductive syscall : Set :=
  | UnshareNewns
  | ConnectLocalhost (port : u16)
  | ShutdownBoth
  | Mount (source : option string) (target : string) (fstype : option string)
      (flags : Z) (data : option string)
  | CreateDirAll (path : string)
  | SetVar (key val : list byte)
  | Setsid
  | Tiocsctty
  | Setgid (gid : u32)
  | Setuid (uid : u32)
  | Execvp (program : list byte) (argv : list (list byte)).

(** What the peer of a socket sends until it closes it, or until the
    connection fails. *)
Record tcp_stream : Set := { incoming_bytes : list byte; broken : option io_error }.

(** [nix_call] and [std_call] are the calls made through the nix crate and
    through std. *)
Class Kernel (O : Type) := {
  nix_call : syscall -> M O Errno unit;
  std_call : syscall -> M O io_error unit;
  accept_stream : O -> tcp_stream
}.

(** prost's encoding of the messages of cmd.proto. *)
Class Prost (DecodeError : Set) := {
  encode_to_vec : Cmd -> list byte;
  prost_decode : list byte -> result DecodeError Cmd
}.

Definition cmd_wf (c : Cmd) : Prop :=
  str_wf (program c) /\ Forall str_wf (args c) /\ str_wf (tmp_mnt c)
  /\ Forall (fun t => str_wf (spec t) /\ str_wf (fstab_file t) /\ str_wf (vfstype t) /\ str_wf (mntops t)
       /\ in_i32 (freq t) = true /\ in_i32 (passno t) = true) (fstab c)
  /\ fits 32 (uid c) /\ fits 32 (gid c).

(** A message is read back from its encoding. *)
Class ProstLaws (DecodeError : Set) `{Prost DecodeError} : Prop :=
  prost_roundtrip : forall c, cmd_wf c -> prost_decode (encode_to_vec c) = Ok c.

Section Launcher.
Context {O : Type} `{K : Kernel O} {DecodeError : Set} `{PR : Prost DecodeError} `{BF : Bitflags}.

Inductive Launcher_Error : Set :=
  | EUnshare (err : Errno)
  | MountRoot (err : Errno)
  | MountTmp (err : Errno)
  | MountLocal (err : Errno)
  | CreateDir (err : io_error)
  | UnexpectedBytes
  | ShutdownSocket (err : io_error)
  | ConvertCString
  | Exec (err : Errno)
  | ConnectToPort (err : io_error)
  | ReadUds (err : io_error)
  | ProtoDecode (err : DecodeError)
  | SetSid (err : Errno)
  | SetControllingTerminal (err : Errno)
  | SetUid (err : Errno)
  | SetGid (err : Errno).

(** How [connect] stops short: an error it returns, or a panic. *)
Inductive stop : Set :=
  | Fail (e : Launcher_Error)
  | Panic.

Record process := { machine : O; trace : list (syscall * bool) }.

Abbreviation proc := (M process stop).

Definition record {E A} (c : syscall) (m : M O E A) (err : E -> Launcher_Error) : proc A := fun p =>
  match m (machine p) with
  | (Ok a, o) => (Ok a, {| machine := o; trace := trace p ++ [(c, true)] |})
  | (Err e, o) => (Err (Fail (err e)), {| machine := o; trace := trace p ++ [(c, false)] |})
  end.

Definition nix (c : syscall) (err : Errno -> Launcher_Error) : proc unit := record c (nix_call c) err.
Definition std (c : syscall) (err : io_error -> Launcher_Error) : proc unit := record c (std_call c) err.

(** ** Receiving the command *)

(** [stream.read_exact(&mut buf)] *)
Definition stream_read_exact (n : nat) : M tcp_stream io_error (list byte) := fun s =>
  if decide (n <= length (incoming_bytes s))%nat
  then (Ok (take n (incoming_bytes s)),
        {| incoming_bytes := drop n (incoming_bytes s); broken := broken s |})
  else (Err (default eof_error (broken s)), {| incoming_bytes := []; broken := broken s |}).

(** [match stream.read(&mut buf) { Ok(0) => {} .. }]: is the stream at its end? *)
Definition at_end (s : tcp_stream) : bool :=
  match incoming_bytes s, broken s with [], None => true | _, _ => false end.

(** From the reading of the length to the check that nothing follows.  A
    length for which no buffer can be allocated stops the process; here it is
    the end of the stream that comes too early. *)
Definition receive (s : tcp_stream) : result Launcher_Error Cmd :=
  match stream_read_exact 8 s with
  | (Err e, _) => Err (ReadUds e)
  | (Ok buf, s) =>
      match stream_read_exact (Z.to_nat (le_value buf)) s with
      | (Err e, _) => Err (ReadUds e)
      | (Ok buf, s) =>
          match prost_decode buf with
          | Err e => Err (ProtoDecode e)
          | Ok cmd => if at_end s then Ok cmd else Err UnexpectedBytes
          end
      end
  end.

(** ** Mounting *)

(** [if let Err(err) = m { warn!(..) }] *)
Definition warn_on_error (m : proc unit) : proc unit := fun p => (Ok tt, (m p).2).

(** One turn of [for tab in &cmd.fstab]; a mount that fails is only reported. *)
Definition mount_tab (tab : FsTab) : proc unit :=
  let '(flags, data) := parse_fstab_opt (mntops tab) in
  _ ← std (CreateDirAll (fstab_file tab)) CreateDir;
  warn_on_error (nix (Mount (get_ptr (spec tab)) (fstab_file tab) (get_ptr (vfstype tab)) flags
    (get_ptr data)) MountRoot).

Fixpoint mount_tabs (tabs : list FsTab) : proc unit :=
  match tabs with
  | [] => mret tt
  | tab :: tabs => _ ← mount_tab tab; mount_tabs tabs
  end.

(** ** Environment and arguments *)

(** [std::env::set_var] panics on a key that is empty or has a '=' or a NUL,
    and on a value with a NUL. *)
Definition env_ok (e : EnvVar) : bool :=
  match key e with [] => false | _ => true end
  && forallb (fun b => negb (byte_val b =? 61) && negb (byte_val b =? 0)) (key e)
  && forallb (fun b => negb (byte_val b =? 0)) (val e).

Definition set_var (e : EnvVar) : proc unit := fun p =>
  if env_ok e
  then (Ok tt, {| machine := machine p; trace := trace p ++ [(SetVar (key e) (val e), true)] |})
  else (Err Panic, p).

Fixpoint set_vars (es : list EnvVar) : proc unit :=
  match es with
  | [] => mret tt
  | e :: es => _ ← set_var e; set_vars es
  end.

(** [CString::new]: no NUL inside. *)
Definition CString_new (s : string) : proc (list byte) :=
  if forallb (fun b => negb (byte_val b =? 0)) (as_bytes s) then mret (as_bytes s)
  else throw (Fail ConvertCString).

Fixpoint CStrings (l : list string) : proc (list (list byte)) :=
  match l with
  | [] => mret []
  | s :: l => c ← CString_new s; cs ← CStrings l; mret (c :: cs)
  end.

(** ** connect *)

(** The two calls of [if cmd.tty]. *)
Definition take_terminal (cmd : Cmd) : proc unit :=
  if tty cmd then _ ← nix Setsid SetSid; nix Tiocsctty SetControllingTerminal
  else mret tt.

(** From the making of the namespace to just before the privileges go. *)
Definition prepare (cmd : Cmd) : proc (list byte * list (list byte)) :=
  _ ← nix (Mount None "/" None (Z.lor MS_REC MS_PRIVATE) None) MountRoot;
  _ ← std (CreateDirAll (tmp_mnt cmd)) CreateDir;
  _ ← nix (Mount (Some "p9cpu") (tmp_mnt cmd) (Some "tmpfs") 0 None) MountTmp;
  let local_mount := join (tmp_mnt cmd) LOCAL_ROOT_MOUNT in
  _ ← std (CreateDirAll local_mount) CreateDir;
  _ ← nix (Mount (Some "/") local_mount None MS_BIND None) MountLocal;
  _ ← mount_tabs (fstab cmd);
  _ ← set_vars (envs cmd);
  arg0 ← CString_new (program cmd);
  args ← CStrings (args cmd);
  _ ← take_terminal cmd;
  mret (arg0, arg0 :: args).

(** Giving up the privileges and becoming the program; when [execvp] succeeds
    nothing after it runs. *)
Definition become (cmd : Cmd) (arg0 : list byte) (argv : list (list byte)) : proc unit :=
  _ ← nix (Setgid (gid cmd)) SetGid;
  _ ← nix (Setuid (uid cmd)) SetUid;
  nix (Execvp arg0 argv) Exec.

Definition receive_command : proc Cmd := fun p =>
  (match receive (accept_stream (machine p)) with Ok c => Ok c | Err e => Err (Fail e) end, p).

Definition fetch (port : u16) : proc Cmd :=
  _ ← nix UnshareNewns EUnshare;
  _ ← std (ConnectLocalhost port) ConnectToPort;
  cmd ← receive_command;
  _ ← std ShutdownBoth ShutdownSocket;
  mret cmd.

Definition connect (port : u16) : proc unit :=
  cmd ← fetch port;
  '(arg0, argv) ← prepare cmd;
  become cmd arg0 argv.
End Launcher.
Arguments Launcher_Error : clear implicits.
Arguments stop : clear implicits.
Arguments process : clear implicits.

(** ** The sender's side (server.rs, [start])

    [buf.len().to_le_bytes()] and the encoded command. *)
Definition command_frame {DecodeError : Set} `{Prost DecodeError} (cmd : Cmd) : list byte :=
  let buf := encode_to_vec cmd in le_bytes 8 (Z.of_nat (length buf)) ++ buf.
