(* ===== verification/LauncherProps.v ===== *)
(** * Properties of the launcher

    The command arrives as it was sent; a successful launch makes exactly the
    calls of its command, in order; the program is only ever run with the
    command's group and user; and a namespace becomes the mounts it asks for. *)

From Stdlib Require Import Ascii Strings.Byte.
From S2P Require Import Prelude Bytes Io Error Fcall Path Utils Text Namespace NamespaceProps Launcher.

Section Props.
Context {O : Type} `{K : Kernel O} {DecodeError : Set} `{PR : Prost DecodeError}.
Context {PL : ProstLaws DecodeError} `{BF : Bitflags} {BL : BitflagsLaws}.

Abbreviation proc := (M (process O) (stop DecodeError)).

(** ** Receiving *)

Lemma stream_read_exact_app l k br :
  stream_read_exact (length l) {| incoming_bytes := l ++ k; broken := br |}
  = (Ok l, {| incoming_bytes := k; broken := br |}).
Proof.
  unfold stream_read_exact. simpl. rewrite decide_True by (rewrite length_app; lia).
  by rewrite take_app_length, drop_app_length.
Qed.

(** Reading a frame with [extra] behind it. *)
Lemma receive_frame_extra cmd extra :
  cmd_wf cmd -> Z.of_nat (length (encode_to_vec cmd)) < 2 ^ 64 ->
  receive (DecodeError := DecodeError) {| incoming_bytes := command_frame cmd ++ extra; broken := None |}
  = match extra with [] => Ok cmd | _ => Err UnexpectedBytes end.
Proof.
  intros Hwf Hlen. unfold receive, command_frame. rewrite <- app_assoc.
  set (len := Z.of_nat _). pose proof (le_bytes_length 8 len) as L8.
  pose proof (stream_read_exact_app (le_bytes 8 len) (encode_to_vec cmd ++ extra) None) as E.
  rewrite L8 in E. rewrite E, le_value_bytes, wrap_id by (unfold fits; simpl; lia).
  replace (Z.to_nat len) with (length (encode_to_vec cmd)) by lia.
  rewrite stream_read_exact_app, prost_roundtrip by done. by destruct extra.
Qed.

Lemma stream_read_exact_short n l :
  (length l < n)%nat ->
  (stream_read_exact n {| incoming_bytes := l; broken := None |}).1 = Err eof_error.
Proof. intros H. unfold stream_read_exact. simpl. by rewrite decide_False by lia. Qed.

(** What [receive] does with a read that failed. *)
Lemma receive_body_short {B} (x : result io_error (list byte) * tcp_stream) e :
  x.1 = Err e ->
  forall (k : list byte -> tcp_stream -> result (Launcher_Error DecodeError) B),
  (let '(r, s) := x in match r with Ok buf => k buf s | Err e => Err (ReadUds e) end) = Err (ReadUds e).
Proof. destruct x as [[?|?] ?]; simpl; [done|]. by intros [= ->]. Qed.

(** C32: the launcher receives the command the server sent.  A frame followed
    by anything is refused, and so is one that is cut short. *)
Theorem command_received cmd :
  cmd_wf cmd -> Z.of_nat (length (encode_to_vec cmd)) < 2 ^ 64 ->
  receive {| incoming_bytes := command_frame cmd; broken := None |} = Ok cmd
  /\ (forall extra, extra <> [] ->
      receive {| incoming_bytes := command_frame cmd ++ extra; broken := None |} = Err UnexpectedBytes)
  /\ (forall part missing, missing <> [] -> command_frame cmd = part ++ missing ->
      receive {| incoming_bytes := part; broken := None |} = Err (ReadUds eof_error)).
Proof.
  intros Hwf Hlen. split; [|split].
  - pose proof (receive_frame_extra cmd [] Hwf Hlen) as E. by rewrite app_nil_r in E.
  - intros extra Hne. rewrite receive_frame_extra by done. by destruct extra.
  - intros part missing Hne E. unfold receive.
    assert (length part < 8 + length (encode_to_vec cmd))%nat as Hshort.
    { assert (length (command_frame cmd) = length (part ++ missing)) as L by (by rewrite E).
      unfold command_frame in L. rewrite !length_app, le_bytes_length in L.
      destruct missing; [done|]. simpl in L. lia. }
    destruct (decide (8 <= length part)%nat) as [H8|H8].
    + assert (exists p, part = le_bytes 8 (Z.of_nat (length (encode_to_vec cmd))) ++ p) as [p ->].
      { exists (drop 8 part). rewrite <- (take_drop 8 part) at 1. f_equal.
        pose proof (f_equal (take 8) E) as E8. unfold command_frame in E8.
        rewrite take_app_le, (take_ge (le_bytes _ _)) in E8 by (by rewrite le_bytes_length).
        rewrite take_app_le in E8 by done. done. }
      pose proof (stream_read_exact_app (le_bytes 8 (Z.of_nat (length (encode_to_vec cmd)))) p None) as E1.
      rewrite le_bytes_length in E1. rewrite E1, le_value_bytes, wrap_id by (unfold fits; simpl; lia).
      rewrite length_app, le_bytes_length in Hshort.
      pose proof (stream_read_exact_short (Z.to_nat (Z.of_nat (length (encode_to_vec cmd)))) p ltac:(lia)) as E2.
      exact (receive_body_short _ _ E2 _).
    + pose proof (stream_read_exact_short 8 part ltac:(lia)) as E2.
      exact (receive_body_short _ _ E2 _).
Qed.

(** ** The calls of a computation *)

(** A computation that returns [a] has made the calls [cs a]. *)
Definition makes {A} (m : proc A) (cs : A -> list syscall) : Prop :=
  forall p a p', m p = (Ok a, p') -> map fst (trace p') = map fst (trace p) ++ cs a.

Lemma makes_bind {A B} (m : proc A) (k : A -> proc B) cs ds :
  makes m cs -> (forall a, makes (k a) (ds a)) ->
  forall (es : B -> list syscall), (forall a b, cs a ++ ds a b = es b) -> makes (m ≫= k) es.
Proof.
  intros Hm Hk es He p b p' H. apply bind_ok_inv in H as (a & p1 & H1 & H2).
  rewrite (Hk a _ _ _ H2), (Hm _ _ _ H1), <- app_assoc. by rewrite He.
Qed.

(** A call, then the rest. *)
Lemma makes_call {B} (m : proc unit) c (k : unit -> proc B) ds :
  makes m (fun _ => [c]) -> makes (k tt) ds -> makes (m ≫= k) (fun b => c :: ds b).
Proof. intros Hm Hk. by eapply makes_bind; [exact Hm|intros []; exact Hk|]. Qed.

Lemma makes_ret {A} (a : A) : makes (mret a) (fun _ => []).
Proof. intros p b p' [= <- <-]. by rewrite app_nil_r. Qed.

Lemma makes_nix c err : makes (nix c err) (fun _ => [c]).
Proof.
  intros p [] p'. unfold nix, record. destruct (nix_call c (machine p)) as [[?|?] ?]; [|done].
  intros [= ? <-]. simpl. by rewrite map_app.
Qed.

Lemma makes_std c err : makes (std c err) (fun _ => [c]).
Proof.
  intros p [] p'. unfold std, record. destruct (std_call c (machine p)) as [[?|?] ?]; [|done].
  intros [= ? <-]. simpl. by rewrite map_app.
Qed.

(** The calls of a table entry. *)
Definition tab_calls (tab : FsTab) : list syscall :=
  let '(flags, data) := parse_fstab_opt (mntops tab) in
  [CreateDirAll (fstab_file tab);
   Mount (get_ptr (spec tab)) (fstab_file tab) (get_ptr (vfstype tab)) flags (get_ptr data)].

Lemma makes_mount_tab tab : makes (mount_tab tab) (fun _ => tab_calls tab).
Proof.
  unfold mount_tab, tab_calls. destruct (parse_fstab_opt (mntops tab)) as [flags data].
  apply makes_call; [apply makes_std|]. intros p [] p' [= <-].
  unfold nix, record. destruct (nix_call _ (machine p)) as [[?|?] ?]; simpl; by rewrite map_app.
Qed.

Lemma makes_mount_tabs tabs : makes (mount_tabs tabs) (fun _ => concat (map tab_calls tabs)).
Proof.
  induction tabs as [|tab tabs IH]; simpl; [apply makes_ret|].
  apply (makes_bind _ _ (fun _ => tab_calls tab) (fun _ _ => concat (map tab_calls tabs)));
    [apply makes_mount_tab|intros []; exact IH|done].
Qed.

(** A failed entry, whose directory cannot be made, ends the mounting. *)
Lemma mount_tabs_failed tabs (p : process O) e p' :
  mount_tabs (DecodeError := DecodeError) tabs p = (Err e, p') ->
  (exists err, e = Fail (CreateDir err))
  /\ exists l, l `prefix_of` concat (map tab_calls tabs) /\ map fst (trace p') = map fst (trace p) ++ l.
Proof.
  revert p. induction tabs as [|tab tabs IH]; intros p H; [done|]. simpl in H. unfold mbind, M_bind in H.
  destruct (mount_tab tab p) as [[[]|e1] p1] eqn:E1.
  - apply makes_mount_tab in E1. destruct (IH p1 H) as (He & l & Hl & Ht). split; [done|].
    exists (tab_calls tab ++ l). split; [by apply prefix_app|]. by rewrite Ht, E1, <- (assoc_L app).
  - injection H as -> ->. unfold mount_tab, std, record, mbind, M_bind in E1.
    unfold tab_calls. simpl. unfold tab_calls. destruct (parse_fstab_opt (mntops tab)) as [flags data].
    destruct (std_call _ (machine p)) as [[[]|err] o]; [done|]. injection E1 as <- <-.
    split; [by exists err|]. exists [CreateDirAll (fstab_file tab)]. simpl. rewrite map_app. split; [|done].
    by apply (prefix_app_r [_] [_; _]), prefix_cons, prefix_nil.
Qed.

Lemma makes_set_vars es : makes (set_vars es) (fun _ => map (fun e => SetVar (key e) (val e)) es).
Proof.
  induction es as [|e es IH]; simpl; [apply makes_ret|]. apply makes_call; [|exact IH].
  intros p [] p'. unfold set_var. destruct (env_ok e); [|done]. intros [= <-]. simpl. by rewrite map_app.
Qed.

Lemma CString_new_spec s (p : process O) a p' :
  CString_new (DecodeError := DecodeError) s p = (Ok a, p') -> a = as_bytes s /\ p' = p.
Proof. unfold CString_new. destruct (forallb _ _); [|done]. by intros [= <- <-]. Qed.

Lemma CStrings_spec l (p : process O) a p' :
  CStrings (DecodeError := DecodeError) l p = (Ok a, p') -> a = map as_bytes l /\ p' = p.
Proof.
  revert p a p'. induction l as [|s l IH]; intros p a p' H; simpl in H; [by rewrite ret_run in H; simplify_eq|].
  split_bind. apply CString_new_spec in H0 as [-> ->]. apply IH in H1 as [-> ->]. done.
Qed.

Lemma makes_take_terminal cmd :
  makes (take_terminal cmd) (fun _ => if tty cmd then [Setsid; Tiocsctty] else []).
Proof.
  unfold take_terminal. destruct (tty cmd); [|apply makes_ret].
  apply makes_call; apply makes_nix.
Qed.

(** ** A launch *)

Definition namespace_calls (cmd : Cmd) : list syscall :=
  [Mount None "/" None (Z.lor MS_REC MS_PRIVATE) None;
   CreateDirAll (tmp_mnt cmd); Mount (Some "p9cpu") (tmp_mnt cmd) (Some "tmpfs") 0 None;
   CreateDirAll (join (tmp_mnt cmd) LOCAL_ROOT_MOUNT);
   Mount (Some "/") (join (tmp_mnt cmd) LOCAL_ROOT_MOUNT) None MS_BIND None]
  ++ concat (map tab_calls (fstab cmd)).

Definition launch_calls (port : u16) (cmd : Cmd) : list syscall :=
  [UnshareNewns; ConnectLocalhost port; ShutdownBoth] ++ namespace_calls cmd
  ++ map (fun e => SetVar (key e) (val e)) (envs cmd)
  ++ (if tty cmd then [Setsid; Tiocsctty] else [])
  ++ [Setgid (gid cmd); Setuid (uid cmd);
      Execvp (as_bytes (program cmd)) (as_bytes (program cmd) :: map as_bytes (args cmd))].

Lemma fetch_calls port (p : process O) cmd p' :
  fetch port p = (Ok cmd, p') ->
  map fst (trace p') = map fst (trace p) ++ [UnshareNewns; ConnectLocalhost port; ShutdownBoth]
  /\ exists o, receive (accept_stream o) = Ok cmd.
Proof.
  intros H. unfold fetch in H. split_bind.
  apply makes_nix in H0. apply makes_std in H1. apply makes_std in H3.
  unfold receive_command in H2. destruct (receive _) as [c|] eqn:Er; simplify_eq/=.
  split; [|eauto]. by rewrite H3, H1, H0, <- !app_assoc.
Qed.

(** The machine once the launcher has connected. *)
Definition connected (port : u16) (o : O) : O :=
  (std_call (ConnectLocalhost port) (nix_call UnshareNewns o).2).2.

(** The command is what comes over this connection. *)
Lemma fetch_received port (p : process O) cmd p' :
  fetch port p = (Ok cmd, p') ->
  receive (DecodeError := DecodeError) (accept_stream (connected port (machine p))) = Ok cmd.
Proof.
  intros H. unfold fetch in H. apply bind_ok_inv in H as ([] & p1 & H1 & H).
  apply bind_ok_inv in H as ([] & p2 & H2 & H). apply bind_ok_inv in H as (c & p3 & H3 & H).
  apply bind_ok_inv in H as ([] & p4 & _ & [= -> _]). unfold receive_command in H3.
  assert (machine p2 = connected port (machine p)) as <-; [|by destruct (receive _); simplify_eq].
  unfold nix, std, record, connected in *. destruct (nix_call _ (machine p)) as [[[]|] o1]; simplify_eq/=.
  by destruct (std_call _ o1) as [[[]|] o2]; simplify_eq/=.
Qed.

Lemma prepare_calls cmd (p : process O) r p' :
  prepare (DecodeError := DecodeError) cmd p = (Ok r, p') ->
  r = (as_bytes (program cmd), as_bytes (program cmd) :: map as_bytes (args cmd))
  /\ map fst (trace p') = map fst (trace p) ++ namespace_calls cmd
       ++ map (fun e => SetVar (key e) (val e)) (envs cmd)
       ++ (if tty cmd then [Setsid; Tiocsctty] else []).
Proof.
  intros H. unfold prepare in H. split_bind.
  apply CString_new_spec in H7 as [-> ->]. apply CStrings_spec in H8 as [-> ->]. split; [done|].
  rewrite (makes_take_terminal _ _ _ _ H9), (makes_set_vars _ _ _ _ H6), (makes_mount_tabs _ _ _ _ H5),
    (makes_nix _ _ _ _ _ H4), (makes_std _ _ _ _ _ H3), (makes_nix _ _ _ _ _ H2),
    (makes_std _ _ _ _ _ H1), (makes_nix _ _ _ _ _ H0).
  unfold namespace_calls. by rewrite <- !app_assoc.
Qed.

Lemma become_calls cmd arg0 argv (p p' : process O) u :
  become (DecodeError := DecodeError) cmd arg0 argv p = (Ok u, p') ->
  map fst (trace p') = map fst (trace p) ++ [Setgid (gid cmd); Setuid (uid cmd); Execvp arg0 argv].
Proof.
  intros H. unfold become in H. split_bind.
  by rewrite (makes_nix _ _ _ _ _ H), (makes_nix _ _ _ _ _ H1), (makes_nix _ _ _ _ _ H0), <- !app_assoc.
Qed.

(** A launch that succeeds received a command and has made exactly the
    calls that command asks for: a private mount namespace, the temporary file
    system, the local root, the command's mounts in order, its environment,
    the terminal if it wants one, its group and then its user, and the program
    with its arguments. *)
Theorem connect_calls port (p p' : process O) u :
  connect port p = (Ok u, p') ->
  exists cmd o, receive (DecodeError := DecodeError) (accept_stream o) = Ok cmd
    /\ map fst (trace p') = map fst (trace p) ++ launch_calls port cmd.
Proof.
  intros H. unfold connect in H. apply bind_ok_inv in H as (cmd & p1 & H1 & H).
  apply bind_ok_inv in H as ([arg0 argv] & p2 & H2 & H).
  apply fetch_calls in H1 as [E1 [o Ho]]. apply prepare_calls in H2 as [[= -> ->] E2].
  apply become_calls in H. exists cmd, o. split; [done|].
  rewrite H, E2, E1. unfold launch_calls. by rewrite <- !app_assoc.
Qed.

(** ** Who runs the program *)

Definition is_exec (c : syscall) : bool := match c with Execvp _ _ => true | _ => false end.

(** A computation that runs no program, whether it succeeds or not. *)
Definition quiet {A} (m : proc A) : Prop := forall p, exists l,
  trace (m p).2 = trace p ++ l /\ Forall (fun e => is_exec e.1 = false) l.

Lemma quiet_bind {A B} (m : proc A) (k : A -> proc B) :
  quiet m -> (forall a, quiet (k a)) -> quiet (m ≫= k).
Proof.
  intros Hm Hk p. destruct (Hm p) as (l & E & Hl). unfold mbind, M_bind.
  destruct (m p) as [[a|e] p1]; simpl in *; [|by exists l].
  destruct (Hk a p1) as (l' & E' & Hl'). exists (l ++ l').
  rewrite E', E, app_assoc. split; [done|]. by apply Forall_app.
Qed.

Lemma quiet_pure {A} (m : proc A) : (forall p, (m p).2 = p) -> quiet m.
Proof. intros H p. exists []. rewrite H, app_nil_r. by split. Qed.

Lemma quiet_record {E A} c (m : M O E A) err : is_exec c = false -> quiet (record c m err).
Proof.
  intros Hc p. unfold record. destruct (m (machine p)) as [[a|e] o];
    eexists; (split; [reflexivity|]); by apply Forall_singleton.
Qed.

Lemma quiet_mount_tabs tabs : quiet (mount_tabs tabs).
Proof.
  induction tabs as [|tab tabs IH]; simpl; [by apply quiet_pure|].
  apply quiet_bind; [|done]. unfold mount_tab. destruct (parse_fstab_opt _) as [flags data].
  apply quiet_bind; [by apply quiet_record|]. intros _ p.
  unfold warn_on_error. cbn [snd]. by apply quiet_record.
Qed.

Lemma quiet_set_vars es : quiet (set_vars es).
Proof.
  induction es as [|e es IH]; simpl; [by apply quiet_pure|]. apply quiet_bind; [|done].
  intros p. unfold set_var. destruct (env_ok e); simpl; [|exists []; by rewrite app_nil_r].
  eexists. split; [reflexivity|]. by apply Forall_singleton.
Qed.

Lemma quiet_CString s : quiet (CString_new s).
Proof. apply quiet_pure. intros p. unfold CString_new. by destruct (forallb _ _). Qed.

Lemma quiet_CStrings l : quiet (CStrings l).
Proof.
  induction l as [|s l IH]; simpl; [by apply quiet_pure|].
  apply quiet_bind; [apply quiet_CString|]. intros c. apply quiet_bind; [done|].
  intros cs. by apply quiet_pure.
Qed.

Lemma quiet_fetch port : quiet (fetch port).
Proof.
  unfold fetch. repeat (apply quiet_bind; [first [by apply quiet_record|by apply quiet_pure]|intros ?]).
  by apply quiet_pure.
Qed.

Lemma quiet_prepare cmd : quiet (prepare cmd).
Proof.
  unfold prepare. do 5 (apply quiet_bind; [by apply quiet_record|intros _]).
  apply quiet_bind; [apply quiet_mount_tabs|intros _].
  apply quiet_bind; [apply quiet_set_vars|intros _].
  apply quiet_bind; [apply quiet_CString|intros arg0].
  apply quiet_bind; [apply quiet_CStrings|intros argv].
  apply quiet_bind; [|intros _; by apply quiet_pure].
  unfold take_terminal. destruct (tty cmd); [|by apply quiet_pure].
  apply quiet_bind; [by apply quiet_record|intros _; by apply quiet_record].
Qed.

Lemma quiet_no_exec {A} (m : proc A) p prog argv ok :
  quiet m -> Forall (fun e => is_exec e.1 = false) (trace p) ->
  (Execvp prog argv, ok) ∈ trace (m p).2 -> False.
Proof.
  intros Hm Hp Hin. destruct (Hm p) as (l & E & Hl). rewrite E in Hin.
  assert (Forall (fun e => is_exec e.1 = false) (trace p ++ l)) as Hall by (by apply Forall_app).
  rewrite Forall_forall in Hall. by specialize (Hall _ Hin).
Qed.

Lemma quiet_trace {A} (m : proc A) p r p' :
  quiet m -> Forall (fun e => is_exec e.1 = false) (trace p) -> m p = (r, p') ->
  Forall (fun e => is_exec e.1 = false) (trace p').
Proof.
  intros Hm Hp E. destruct (Hm p) as (l & El & Hl). rewrite E in El. simpl in El. rewrite El.
  by apply Forall_app.
Qed.

(** The last three calls. *)
Lemma become_exec cmd arg0 argv0 (p : process O) prog argv ok :
  Forall (fun e => is_exec e.1 = false) (trace p) ->
  (Execvp prog argv, ok) ∈ trace (become (DecodeError := DecodeError) cmd arg0 argv0 p).2 ->
  trace (become (DecodeError := DecodeError) cmd arg0 argv0 p).2
  = trace p ++ [(Setgid (gid cmd), true); (Setuid (uid cmd), true); (Execvp arg0 argv0, ok)]
  /\ prog = arg0 /\ argv = argv0.
Proof.
  intros Hp. unfold become.
  assert (forall l, Forall (fun e => is_exec e.1 = false) l -> (Execvp prog argv, ok) ∈ trace p ++ l -> False)
    as Hno.
  { intros l Hl Hin. assert (Forall (fun e => is_exec e.1 = false) (trace p ++ l)) as Hall
      by (by apply Forall_app). rewrite Forall_forall in Hall. by specialize (Hall _ Hin). }
  unfold mbind, M_bind, nix, record.
  destruct (nix_call (Setgid _) _) as [[?|?] o1]; simpl;
    [|intros Hin; destruct (Hno [(Setgid (gid cmd), false)]); [by apply Forall_singleton|done]].
  destruct (nix_call (Setuid _) _) as [[?|?] o2]; simpl; rewrite <- ?app_assoc; simpl.
  2: { intros Hin. destruct (Hno [(Setgid (gid cmd), true); (Setuid (uid cmd), false)]); [|done].
       by repeat constructor. }
  destruct (nix_call (Execvp _ _) _) as [[?|?] o3]; simpl; rewrite <- ?app_assoc; simpl; intros Hin;
    rewrite cons_middle, app_assoc, (cons_middle (Setuid _, _)), app_assoc in Hin;
    (apply elem_of_app in Hin as [Hin|Hin];
      [rewrite <- ?app_assoc in Hin; 
       destruct (Hno [(Setgid (gid cmd), true); (Setuid (uid cmd), true)]);
         [by repeat constructor|exact Hin]|]);
    apply list_elem_of_singleton in Hin as [= -> -> ->]; done.
Qed.

(** C13: a program is only run at the very end, as the command that came over
    the connection says, after the whole namespace was set up and the group and
    then the user of that command were taken on, both with success; when
    anything fails before, it is not run, and nothing is done after it. *)
Theorem exec_last_and_unprivileged port o r (p' : process O) prog argv ok :
  connect (DecodeError := DecodeError) port {| machine := o; trace := [] |} = (r, p') ->
  (Execvp prog argv, ok) ∈ trace p' ->
  exists cmd before,
    receive (DecodeError := DecodeError) (accept_stream (connected port o)) = Ok cmd
    /\ trace p' = before ++ [(Setgid (gid cmd), true); (Setuid (uid cmd), true); (Execvp prog argv, ok)]
    /\ map fst (trace p') = launch_calls port cmd
    /\ Forall (fun e => is_exec e.1 = false) before.
Proof.
  intros H Hin. unfold connect, mbind, M_bind in H.
  assert (Forall (fun e => is_exec e.1 = false) (trace {| machine := o; trace := [] |})) as H0 by constructor.
  destruct (fetch port _) as [[cmd|e] p1] eqn:E1.
  2: { simplify_eq. pose proof (quiet_trace _ _ _ _ (quiet_fetch port) H0 E1) as Hq.
       rewrite Forall_forall in Hq. by specialize (Hq _ Hin). }
  pose proof (quiet_trace _ _ _ _ (quiet_fetch port) H0 E1) as Hq1.
  pose proof (fetch_calls _ _ _ _ E1) as [F1 _].
  destruct (prepare cmd p1) as [[[arg0 args0]|e] p2] eqn:E2.
  2: { simplify_eq. pose proof (quiet_trace _ _ _ _ (quiet_prepare cmd) Hq1 E2) as Hq.
       rewrite Forall_forall in Hq. by specialize (Hq _ Hin). }
  pose proof (quiet_trace _ _ _ _ (quiet_prepare cmd) Hq1 E2) as Hq2.
  pose proof (prepare_calls _ _ _ _ E2) as [[= -> ->] F2].
  pose proof (f_equal snd H) as Hp'. cbn [snd] in Hp'. subst p'.
  destruct (become_exec _ _ _ _ _ _ _ Hq2 Hin) as (Et & -> & ->).
  exists cmd, (trace p2). split; [exact (fetch_received _ _ _ _ E1)|]. split; [done|]. split; [|done].
  rewrite Et, map_app, F2, F1. unfold launch_calls. simpl. by rewrite <- !app_assoc.
Qed.

(** ** From a namespace to its mounts *)

Lemma ninep_options_split port :
  0 <= port ->
  parse_fstab_opt (ninep_options port) = (0, ninep_options port).
Proof.
  intros Hp. unfold parse_fstab_opt. rewrite fstab_opt_loop_spec.
  assert (split_char "," (ninep_options port)
    = ["version=9p2000.L"; "trans=tcp"; "port=" +:+ show_int port]) as ->.
  { change (ninep_options port) with (join_char "," ["version=9p2000.L"; "trans=tcp"; "port=" +:+ show_int port]).
    apply split_char_unique; [done|]. repeat constructor. rewrite has_char_app.
    by rewrite show_int_no_char. }
  assert (forall f, f <> "defaults" -> f <> "bind" -> plain_option f) as Hplain by done.
  assert ("port=" +:+ show_int port <> "defaults" /\ "port=" +:+ show_int port <> "bind") as [H1 H2] by done.
  rewrite decide_False by set_solver.
  rewrite !filter_cons, !decide_True by done. done.
Qed.

Lemma bind_options_split : parse_fstab_opt "defaults,bind" = (MS_BIND, "").
Proof. unfold parse_fstab_opt. simpl. by rewrite insert_law. Qed.

Lemma mount_point_ne tmp s : ninep_mount_point tmp +:+ s <> "".
Proof. unfold ninep_mount_point. by destruct tmp. Qed.

(** The calls for the bind mount of [source] at [target]. *)
Definition bind_calls (tmp : string) (p : string * string) : list syscall :=
  [CreateDirAll p.1; Mount (Some (ninep_mount_point tmp +:+ p.2)) p.1 (Some "none") MS_BIND None].

Lemma bind_tab_calls tmp p : tab_calls (bind_tab tmp p.1 p.2) = bind_calls tmp p.
Proof.
  unfold tab_calls, bind_tab. cbn [mntops spec fstab_file vfstype].
  rewrite bind_options_split. unfold get_ptr. by rewrite decide_False by apply mount_point_ne.
Qed.

(** The mounts a namespace asks for. *)
Definition namespace_mount_calls (tmp : string) (port : u16) (bs : list (string * string)) : list syscall :=
  [CreateDirAll (ninep_mount_point tmp);
   Mount (Some "127.0.0.1") (ninep_mount_point tmp) (Some "9p") 0 (Some (ninep_options port))]
  ++ concat (map (bind_calls tmp) bs).

Lemma namespace_tab_calls ns tmp port : ns <> "" -> bindings ns <> [] -> 0 <= port ->
  concat (map tab_calls (fill_ninep tmp port (parse_namespace ns tmp))) = namespace_mount_calls tmp port (bindings ns).
Proof.
  intros Hns Hb Hp. rewrite parse_namespace_bindings by done.
  destruct (bindings ns) as [|b bs]; [done|]. generalize (b :: bs) as l. intros l.
  cbn [fill_ninep ninep_tab vfstype fstab_file]. rewrite decide_True by done. cbn [map concat].
  unfold namespace_mount_calls. f_equal.
  - unfold tab_calls. cbn [mntops spec fstab_file vfstype].
    rewrite ninep_options_split by done. done.
  - f_equal. rewrite map_map. apply map_ext. apply bind_tab_calls.
Qed.

(** C23: from the namespace a user writes to the calls the launcher makes when
    it mounts the table: the client's file server is mounted once, at the mount
    point below the temporary directory and on the port the server forwards, and
    then each target gets a bind mount of its source inside that mount, in
    order.  Only a directory that cannot be made ends this, after a part of
    these calls. *)
Theorem namespace_mounts (ns tmp : string) (port : u16) (p : process O) :
  ns <> "" -> bindings ns <> [] -> 0 <= port ->
  match mount_tabs (DecodeError := DecodeError) (fill_ninep tmp port (parse_namespace ns tmp)) p with
  | (Ok _, p') => map fst (trace p') = map fst (trace p) ++ namespace_mount_calls tmp port (bindings ns)
  | (Err e, p') => (exists err, e = Fail (CreateDir err))
      /\ exists l, l `prefix_of` namespace_mount_calls tmp port (bindings ns)
           /\ map fst (trace p') = map fst (trace p) ++ l
  end.
Proof.
  intros Hns Hb Hp. rewrite <- (namespace_tab_calls ns tmp port Hns Hb Hp).
  destruct (mount_tabs _ p) as [[u|e] p'] eqn:E; [by apply makes_mount_tabs in E|by apply mount_tabs_failed].
Qed.
End Props.

(** ** Witnesses: a kernel that lets everything happen *)

#[local] Existing Instance bitflags_ref.
#[local] Existing Instance bitflags_ref_laws.

#[local] Instance byte_countable : Countable byte := inj_countable' byte_val byte_of byte_of_val.
#[local] Instance FsTab_countable : Countable FsTab := inj_countable'
  (fun t => (spec t, fstab_file t, vfstype t, mntops t, freq t : Z, passno t : Z))
  (fun '(a, b, c, d, e, f) => {| spec := a; fstab_file := b; vfstype := c; mntops := d; freq := e; passno := f |})
  ltac:(by intros []).
#[local] Instance EnvVar_eq_dec : EqDecision EnvVar.
Proof. solve_decision. Defined.
#[local] Instance EnvVar_countable : Countable EnvVar := inj_countable'
  (fun e => (key e, val e)) (fun '(a, b) => {| key := a; val := b |}) ltac:(by intros []).
#[local] Instance Cmd_eq_dec : EqDecision Cmd.
Proof. unfold u32 in *. solve_decision. Defined.
#[local] Instance Cmd_countable : Countable Cmd := inj_countable'
  (fun c => (program c, args c, envs c, fstab c, ninep c, tty c, tmp_mnt c, uid c : Z, gid c : Z))
  (fun '(a, b, c, d, e, f, g, h, i) => {| program := a; args := b; envs := c; fstab := d;
     ninep := e; tty := f; tmp_mnt := g; uid := h; gid := i |}) ltac:(by intros []).

(** An encoding that is read back: the bits of a number for the message. *)
Fixpoint bits_of (p : positive) : list byte :=
  match p with xH => [] | xO p => x00 :: bits_of p | xI p => x01 :: bits_of p end.
Fixpoint of_bits (l : list byte) : positive :=
  match l with [] => xH | x00 :: l => xO (of_bits l) | _ :: l => xI (of_bits l) end.

Lemma of_bits_of p : of_bits (bits_of p) = p.
Proof. induction p; simpl; by f_equal. Qed.

#[local] Instance prost_ref : Prost unit := {|
  encode_to_vec c := bits_of (encode c);
  prost_decode l := match decode (of_bits l) with Some c => Ok c | None => Err tt end
|}.

#[local] Instance prost_ref_laws : ProstLaws unit.
Proof. intros c _. simpl. by rewrite of_bits_of, decode_encode. Qed.

Definition sh : Cmd := {|
  program := "/bin/sh"; args := ["-c"]; envs := []; fstab := []; ninep := false; tty := true;
  tmp_mnt := "/tmp"; uid := 1000; gid := 100
|}.

Lemma sh_wf : cmd_wf sh.
Proof. repeat split; try constructor; try (by vm_compute); by constructor. Qed.

#[local] Instance free_kernel : Kernel unit := {|
  nix_call _ o := (Ok tt, o);
  std_call _ o := (Ok tt, o);
  accept_stream _ := {| incoming_bytes := command_frame sh; broken := None |}
|}.

Definition sh_launch : result (stop unit) unit * process unit :=
  connect 4000 {| machine := tt; trace := [] |}.

Lemma command_received_witness :
  receive {| incoming_bytes := command_frame sh; broken := None |} = Ok sh.
Proof. apply command_received; [exact sh_wf|vm_compute; reflexivity]. Defined.

Lemma connect_calls_witness :
  exists cmd o, receive (DecodeError := unit) (accept_stream o) = Ok cmd
    /\ map fst (trace sh_launch.2) = launch_calls 4000 cmd.
Proof.
  apply (connect_calls 4000 {| machine := tt; trace := [] |} sh_launch.2 tt).
  vm_compute. reflexivity.
Defined.

Lemma exec_last_and_unprivileged_witness :
  exists before, trace sh_launch.2
    = before ++ [(Setgid 100, true); (Setuid 1000, true);
        (Execvp (as_bytes "/bin/sh") [as_bytes "/bin/sh"; as_bytes "-c"], true)].
Proof.
  destruct (exec_last_and_unprivileged 4000 tt sh_launch.1 sh_launch.2
    (as_bytes "/bin/sh") [as_bytes "/bin/sh"; as_bytes "-c"] true) as (cmd & before & Hr & E & _).
  - unfold sh_launch. apply surjective_pairing.
  - vm_compute. repeat (first [left | right]).
  - assert (receive (DecodeError := unit) (accept_stream (connected 4000 tt)) = Ok sh) as Hs by (vm_compute; reflexivity).
    rewrite Hs in Hr. injection Hr as <-. by exists before.
Defined.

Lemma namespace_mounts_witness :
  map fst (trace (mount_tabs (DecodeError := unit)
    (fill_ninep "/tmp" 17 (parse_namespace "/lib:/home=/root:/lib" "/tmp")) {| machine := tt; trace := [] |}).2)
  = [CreateDirAll "/tmp/mnt9p";
     Mount (Some "127.0.0.1") "/tmp/mnt9p" (Some "9p") 0 (Some "version=9p2000.L,trans=tcp,port=17");
     CreateDirAll "/lib"; Mount (Some "/tmp/mnt9p/lib") "/lib" (Some "none") MS_BIND None;
     CreateDirAll "/home"; Mount (Some "/tmp/mnt9p/root") "/home" (Some "none") MS_BIND None].
Proof.
  exact (namespace_mounts (DecodeError := unit) "/lib:/home=/root:/lib" "/tmp" 17 {| machine := tt; trace := [] |}
    ltac:(discriminate) ltac:(vm_compute; discriminate) ltac:(discriminate)).
Defined.
