(* ===== verification/Server.v ===== *)
(** * The session server (libp9cpu/src/server.rs)

    [Server] keeps two tables, the sessions that were dialled and those that
    were started.  The operations are computations on the tables and on the
    host (sockets, pipes, processes), which is a parameter; one operation is
    one step, as the write lock each takes on its table makes it. *)

From Stdlib Require Import Strings.Byte.
From S2P Require Import Prelude Bytes Io Error Fcall Utils Text Namespace Launcher.

(** [MkDir], [InvalidFsTab] and [StringContainsNull] are never given. *)
Inductive ServerError : Set :=
  | SpawnFail (e : io_error)
  | SessionNotExist
  | IoErr (e : io_error)
  | DuplicateId
  | NoReturnCode
  | CommandError (e : io_error)
  | OpenPtyFail (e : Errno)
  | FdCloneFail (e : io_error)
  | MkDir (e : io_error)
  | InvalidFsTab (msg : string)
  | BindFail (e : io_error)
  | No9pPort
  | StringContainsNull
  | ChannelClosed.

(** A status as [wait] reports it: the exit code, unless a signal ended it. *)
Definition exit_status : Set := option i32.

(** The host's calls.  [Fd] is a file descriptor, [Child] a process, [Sock] a
    listener or a connection, [Handle] a spawned task. *)
Class Host (O Fd Child Sock Handle : Type) := {
  bind_local : M O io_error Sock;
  local_port : Sock -> M O io_error u16;
  openpty : M O Errno (Fd * Fd);
  pipe2 : M O Errno (Fd * Fd);
  try_clone : Fd -> M O io_error Fd;
  (** [AsyncFd::try_from] *)
  async_fd : Fd -> M O io_error Fd;
  (** spawning the launcher for a port, with its three standard descriptors *)
  spawn : u16 -> Fd -> Fd -> Fd -> M O io_error Child;
  accept : Sock -> M O io_error Sock;
  sock_write_all : Sock -> list byte -> M O io_error unit;
  sock_shutdown : Sock -> M O io_error unit;
  fd_write_all : Fd -> list byte -> M O io_error unit;
  wait_child : Child -> M O io_error exit_status;
  (** [tokio::spawn] of the copying of a descriptor to a channel, of the
      reply to a stderr request without one, and of a 9p forwarder *)
  spawn_copy : option Fd -> O -> Handle * O;
  spawn_forward : Sock -> O -> Handle * O;
  join : Handle -> M O io_error unit
}.

(** What was written to a socket: nothing on a fresh connection; [write_all]
    appends when it succeeds and closing writes nothing. *)
Class HostLaws (O Fd Child Sock Handle : Type) `{Host O Fd Child Sock Handle} := {
  sock_written : O -> Sock -> list byte;
  accept_fresh : forall l o c o', accept l o = (Ok c, o') -> sock_written o' c = [];
  write_all_appends : forall c bs o u o',
    sock_write_all c bs o = (Ok u, o') -> sock_written o' c = sock_written o c ++ bs;
  shutdown_writes_nothing : forall c o u o',
    sock_shutdown c o = (Ok u, o') -> sock_written o' c = sock_written o c
}.

Section Server.
Context {I : Type} `{Countable I}.
Context {O Fd Child Sock Handle : Type} `{HO : Host O Fd Child Sock Handle}.
Context {DecodeError : Set} `{PR : Prost DecodeError}.

Record Session := {
  s_stdin : Fd; s_stdout : Fd; s_stderr : option Fd; s_child : Child; s_handles : list Handle
}.

(** The port and the task of the 9p forwarder, once there is one. *)
Record PendingSession := { p_ninep : option (u16 * Handle) }.

Record server := { host : O; sessions : gmap I Session; pending : gmap I PendingSession }.

Definition server_new (o : O) : server := {| host := o; sessions := ∅; pending := ∅ |}.

Abbreviation srv := (M server ServerError).

Definition call {E A} (err : E -> ServerError) (m : M O E A) : srv A := fun s =>
  match m (host s) with
  | (Ok a, o) => (Ok a, {| host := o; sessions := sessions s; pending := pending s |})
  | (Err e, o) => (Err (err e), {| host := o; sessions := sessions s; pending := pending s |})
  end.

(** A call that cannot fail, or whose failure is only reported. *)
Definition try_call {E A} (m : M O E A) : srv (result E A) := fun s =>
  let '(r, o) := m (host s) in (Ok r, {| host := o; sessions := sessions s; pending := pending s |}).

Definition spawn_task {A} (m : O -> A * O) : srv A := fun s =>
  let '(a, o) := m (host s) in (Ok a, {| host := o; sessions := sessions s; pending := pending s |}).

Definition of_result {A} (r : result ServerError A) : srv A := fun s => (r, s).

(** ** The tables *)

Definition get_session (sid : I) : srv Session := fun s =>
  (match sessions s !! sid with Some i => Ok i | None => Err SessionNotExist end, s).

Definition put_session (sid : I) (i : Session) : srv unit := fun s =>
  (Ok tt, {| host := host s; sessions := <[sid := i]> (sessions s); pending := pending s |}).

Definition remove_session (sid : I) : srv unit := fun s =>
  (Ok tt, {| host := host s; sessions := delete sid (sessions s); pending := pending s |}).

(** [self.pending.write().await.remove(&sid)] *)
Definition take_pending (sid : I) : srv PendingSession := fun s =>
  match pending s !! sid with
  | None => (Err SessionNotExist, s)
  | Some p => (Ok p, {| host := host s; sessions := sessions s; pending := delete sid (pending s) |})
  end.

Definition put_pending (sid : I) (p : PendingSession) : srv unit := fun s =>
  (Ok tt, {| host := host s; sessions := sessions s; pending := <[sid := p]> (pending s) |}).

(** ** dial *)
Definition dial (sid : I) : srv unit := fun s =>
  match pending s !! sid with
  | Some _ => (Err DuplicateId, s)
  | None => put_pending sid {| p_ninep := None |} s
  end.

(** ** start *)

Definition check_not_started (sid : I) : srv unit := fun s =>
  match sessions s !! sid with Some _ => (Err DuplicateId, s) | None => (Ok tt, s) end.

(** The command with its 9p entries on the port of the session's forwarder. *)
Definition on_port (cmd : Cmd) (port : u16) : Cmd := {|
  program := program cmd; args := args cmd; envs := envs cmd;
  fstab := fill_ninep (tmp_mnt cmd) port (fstab cmd);
  ninep := ninep cmd; tty := tty cmd; tmp_mnt := tmp_mnt cmd; uid := uid cmd; gid := gid cmd
|}.

Definition with_ninep (cmd : Cmd) (ninep_port : option u16) : srv Cmd :=
  if ninep cmd then
    match ninep_port with
    | None => throw No9pPort
    | Some port => mret (on_port cmd port)
    end
  else mret cmd.

(** The descriptors of the command, and those the server keeps. *)
Definition stdio (tty : bool) : srv ((Fd * Fd * Fd) * (Fd * Fd * option Fd)) :=
  if tty then
    '(master, slave) ← call OpenPtyFail openpty;
    stdout ← call FdCloneFail (try_clone slave);
    stderr ← call FdCloneFail (try_clone slave);
    master_copy ← call FdCloneFail (try_clone master);
    w ← call IoErr (async_fd master);
    r ← call IoErr (async_fd master_copy);
    mret ((slave, stdout, stderr), (w, r, None))
  else
    '(stdin_rd, stdin_wr) ← call OpenPtyFail pipe2;
    '(stdout_rd, stdout_wr) ← call OpenPtyFail pipe2;
    '(stderr_rd, stderr_wr) ← call OpenPtyFail pipe2;
    w ← call IoErr (async_fd stdin_wr);
    r ← call IoErr (async_fd stdout_rd);
    e ← call IoErr (async_fd stderr_rd);
    mret ((stdin_rd, stdout_wr, stderr_wr), (w, r, Some e)).

(** [buf.len().to_le_bytes()], the buffer, and the end of the stream. *)
Definition send_command (stream : Sock) (cmd : Cmd) : srv unit :=
  let buf := encode_to_vec cmd in
  _ ← call IoErr (sock_write_all stream (le_bytes 8 (Z.of_nat (length buf))));
  _ ← call IoErr (sock_write_all stream buf);
  call IoErr (sock_shutdown stream).

(** From the binding of the listener to the spawning of the launcher. *)
Definition spawn_command (cmd : Cmd) (ninep_port : option u16)
    : srv (Sock * Cmd * (Fd * Fd * option Fd) * Child) :=
  listener ← call BindFail bind_local;
  port ← call BindFail (local_port listener);
  cmd ← with_ninep cmd ninep_port;
  '((c_in, c_out, c_err), kept) ← stdio (tty cmd);
  child ← call SpawnFail (spawn port c_in c_out c_err);
  mret (listener, cmd, kept, child).

(** The launcher connects and is sent the command. *)
Definition hand_over (listener : Sock) (cmd : Cmd) : srv unit :=
  stream ← call IoErr (accept listener);
  send_command stream cmd.

(** [Session { .. }] *)
Definition new_session (p : PendingSession) (kept : Fd * Fd * option Fd) (child : Child) : Session :=
  {| s_stdin := kept.1.1; s_stdout := kept.1.2; s_stderr := kept.2; s_child := child;
     s_handles := option_list (snd <$> p_ninep p) |}.

Definition start (cmd : Cmd) (sid : I) : srv unit :=
  p ← take_pending sid;
  _ ← check_not_started sid;
  '(listener, cmd, kept, child) ← spawn_command cmd (fst <$> p_ninep p);
  _ ← hand_over listener cmd;
  put_session sid (new_session p kept child).

(** ** The streams of a session *)

(** [while let Some(item) = in_stream.next().await] *)
Fixpoint write_items (fd : Fd) (items : list (list byte)) : srv unit :=
  match items with
  | [] => mret tt
  | item :: items => _ ← call IoErr (fd_write_all fd item); write_items fd items
  end.

Definition stdin (sid : I) (items : list (list byte)) : srv unit :=
  i ← get_session sid; write_items (s_stdin i) items.

Definition push_handle (sid : I) (h : Handle) : srv unit :=
  i ← get_session sid;
  put_session sid {| s_stdin := s_stdin i; s_stdout := s_stdout i; s_stderr := s_stderr i;
    s_child := s_child i; s_handles := s_handles i ++ [h] |}.

Definition stdout (sid : I) : srv unit :=
  i ← get_session sid;
  h ← spawn_task (spawn_copy (Some (s_stdout i)));
  push_handle sid h.

Definition stderr (sid : I) : srv unit :=
  i ← get_session sid;
  h ← spawn_task (spawn_copy (s_stderr i));
  push_handle sid h.

(** ** ninep_forward *)

(** The listener of the forwarder, its port and its task. *)
Definition open_forward : srv (u16 * Handle) :=
  listener ← call BindFail bind_local;
  port ← call BindFail (local_port listener);
  h ← spawn_task (spawn_forward listener);
  mret (port, h).

Definition ninep_forward (sid : I) : srv unit := fun s =>
  match pending s !! sid with
  | None => (Err SessionNotExist, s)
  | Some _ => (q ← open_forward; put_pending sid {| p_ninep := Some q |}) s
  end.

(** ** wait *)

Fixpoint join_all (hs : list Handle) : srv unit :=
  match hs with
  | [] => mret tt
  | h :: hs => _ ← try_call (join h); join_all hs
  end.

Definition wait (sid : I) : srv i32 :=
  i ← get_session sid;
  status ← try_call (wait_child (s_child i));
  let ret := match status with
    | Ok (Some code) => Ok code
    | Ok None => Err NoReturnCode
    | Err e => Err (CommandError e)
    end in
  i ← get_session sid;
  _ ← join_all (s_handles i);
  _ ← remove_session sid;
  of_result ret.

(** ** The requests a server gets *)
Inductive request : Type :=
  | Dial (sid : I)
  | Start (cmd : Cmd) (sid : I)
  | Stdin (sid : I) (items : list (list byte))
  | Stdout (sid : I)
  | Stderr (sid : I)
  | NinepForward (sid : I)
  | Wait (sid : I).

Definition request_sid (r : request) : I :=
  match r with
  | Dial sid | Start _ sid | Stdin sid _ | Stdout sid | Stderr sid | NinepForward sid | Wait sid => sid
  end.

Definition is_success {E A} (x : result E A * server) : bool * server := (is_ok x.1, x.2).

Definition serve_request (r : request) (s : server) : bool * server :=
  match r with
  | Dial sid => is_success (dial sid s)
  | Start cmd sid => is_success (start cmd sid s)
  | Stdin sid items => is_success (stdin sid items s)
  | Stdout sid => is_success (stdout sid s)
  | Stderr sid => is_success (stderr sid s)
  | NinepForward sid => is_success (ninep_forward sid s)
  | Wait sid => is_success (wait sid s)
  end.
End Server.
Arguments Session : clear implicits.
Arguments PendingSession : clear implicits.
Arguments server I {_ _} O Fd Child Handle.
Arguments request : clear implicits.

(** ** Copying a descriptor to a channel *)

(** [copy_to]: [reads] is what the reads of at most 128 bytes give; the
    channel takes [room] items before its receiver is dropped ([None]: it
    never is).  The result, and the items sent. *)
Fixpoint copy_to (reads : list (result io_error (list byte))) (room : option nat)
    (sent : list (list byte)) : option (result ServerError unit) * list (list byte) :=
  match reads with
  | [] => (None, sent)
  | Err e :: _ => (Some (Err (IoErr e)), sent)
  | Ok buf :: reads =>
      match buf with
      | [] => (Some (Ok tt), sent)
      | _ =>
          match room with
          | Some 0%nat => (Some (Err ChannelClosed), sent)
          | _ => copy_to reads (pred <$> room) (sent ++ [buf])
          end
      end
  end.

(** ** The 9p forwarder

    What wakes the [select!]: a read from the socket, with whether the channel
    still has its receiver when what was read is sent; or an item of the
    client's stream, with what [write] makes of it: how many of its bytes the
    socket took. *)
Inductive forward_event : Set :=
  | FromSocket (r : result io_error (list byte)) (open : bool)
  | FromClient (item : list byte) (written : result io_error nat)
  | ClientClosed.

Record forwarded : Set := { to_client : list (list byte); to_socket : list byte }.

(** The loop: [None] while it is running. *)
Fixpoint forward_loop (evs : list forward_event) (f : forwarded)
    : option (result ServerError unit) * forwarded :=
  match evs with
  | [] => (None, f)
  | FromSocket (Err e) _ :: _ => (Some (Err (IoErr e)), f)
  | FromSocket (Ok buf) open :: evs =>
      match buf with
      | [] => (Some (Ok tt), f)
      | _ =>
          if open then forward_loop evs {| to_client := to_client f ++ [buf]; to_socket := to_socket f |}
          else (Some (Err ChannelClosed), f)
      end
  | ClientClosed :: _ => (Some (Ok tt), f)
  | FromClient item (Err e) :: _ => (Some (Err (IoErr e)), f)
  | FromClient item (Ok len) :: evs =>
      if (len =? 0)%nat then (Some (Ok tt), f)
      else forward_loop evs {| to_client := to_client f; to_socket := to_socket f ++ take len item |}
  end.
