(* ===== verification/ServerProps.v ===== *)
(** * Properties of the session server

    Which requests move a session between the tables, that a started command
    reaches its launcher, and what the copying loops deliver. *)

From Stdlib Require Import Ascii Strings.Byte.
From S2P Require Import Prelude Bytes Io Error Fcall Utils Text Namespace NamespaceProps.
From S2P Require Import Launcher LauncherProps Server.

Section Props.
Context {I : Type} `{CI : Countable I}.
Context {O Fd Child Sock Handle : Type} `{HO : Host O Fd Child Sock Handle}.
Context {DecodeError : Set} `{PR : Prost DecodeError}.

Abbreviation srv := (M (server I O Fd Child Handle) ServerError).

(** ** The two tables *)

(** The session's entries: is it dialled, is it running? *)
Definition entries (sid : I) (s : server I O Fd Child Handle) : bool * bool :=
  (bool_decide (is_Some (pending s !! sid)), bool_decide (is_Some (sessions s !! sid))).

(** What a request does to its session's entries. *)
Definition moves (r : request I) (ok : bool) (before after : bool * bool) : Prop :=
  match r, ok with
  | Dial _, true => before.1 = false /\ after = (true, before.2)
  | Dial _, false => before.1 = true /\ after = before
  | Start _ _, true => before = (true, false) /\ after = (false, true)
  | Start _ _, false => after = (false, before.2)
  | NinepForward _, true => before.1 = true /\ after = before
  | Wait _, true => before.2 = true /\ after = (before.1, false)
  | Wait _, false => after = (before.1, false)
  | (Stdin _ _ | Stdout _ | Stderr _), true => before.2 = true /\ after = before
  | (Stdin _ _ | Stdout _ | Stderr _ | NinepForward _), false => after = before
  end.

(** Computations that leave both tables as they are. *)
Definition keeps_tables {A} (m : srv A) : Prop := forall s,
  sessions (m s).2 = sessions s /\ pending (m s).2 = pending s.

Lemma keeps_tables_bind {A B} (m : srv A) (k : A -> srv B) :
  keeps_tables m -> (forall a, keeps_tables (k a)) -> keeps_tables (m ≫= k).
Proof.
  intros Hm Hk s. destruct (Hm s) as [E1 E2]. unfold mbind, M_bind.
  destruct (m s) as [[a|e] s1]; [|done]. simpl in *. destruct (Hk a s1) as [-> ->]. done.
Qed.

Lemma keeps_ret {A} (a : A) : keeps_tables (mret a).
Proof. by intros s. Qed.

Lemma keeps_call {E A} (err : E -> ServerError) (m : M O E A) : keeps_tables (call err m).
Proof. intros s. unfold call. by destruct (m (host s)) as [[?|?] ?]. Qed.

Lemma keeps_try_call {E A} (m : M O E A) : keeps_tables (try_call m).
Proof. intros s. unfold try_call. by destruct (m (host s)). Qed.

Lemma keeps_spawn_task {A} (m : O -> A * O) : keeps_tables (spawn_task m).
Proof. intros s. unfold spawn_task. by destruct (m (host s)). Qed.

Lemma keeps_get_session sid : keeps_tables (get_session sid).
Proof. by intros s. Qed.

Lemma keeps_check sid : keeps_tables (check_not_started sid).
Proof. intros s. unfold check_not_started. by destruct (sessions s !! sid). Qed.

Lemma keeps_with_ninep cmd p : keeps_tables (with_ninep cmd p).
Proof. intros s. unfold with_ninep. destruct (Namespace.ninep cmd); [|done]. by destruct p. Qed.

Lemma keeps_stdio t : keeps_tables (stdio t).
Proof.
  unfold stdio. destruct t; repeat (apply keeps_tables_bind; [apply keeps_call|intros ?]; repeat case_match);
    apply keeps_ret.
Qed.

Lemma keeps_send stream cmd : keeps_tables (send_command stream cmd).
Proof.
  unfold send_command. apply keeps_tables_bind; [apply keeps_call|intros _].
  apply keeps_tables_bind; [apply keeps_call|intros _]. apply keeps_call.
Qed.

Lemma keeps_spawn_command cmd p : keeps_tables (spawn_command cmd p).
Proof.
  unfold spawn_command. apply keeps_tables_bind; [apply keeps_call|intros l].
  apply keeps_tables_bind; [apply keeps_call|intros port].
  apply keeps_tables_bind; [apply keeps_with_ninep|intros c].
  apply keeps_tables_bind; [apply keeps_stdio|intros [[[i o] e] kept]].
  apply keeps_tables_bind; [apply keeps_call|intros child]. apply keeps_ret.
Qed.

Lemma keeps_hand_over listener cmd : keeps_tables (hand_over listener cmd).
Proof. unfold hand_over. apply keeps_tables_bind; [apply keeps_call|intros s]. apply keeps_send. Qed.

Lemma keeps_open_forward : keeps_tables open_forward.
Proof.
  unfold open_forward. apply keeps_tables_bind; [apply keeps_call|intros l].
  apply keeps_tables_bind; [apply keeps_call|intros port].
  apply keeps_tables_bind; [apply keeps_spawn_task|intros h]. apply keeps_ret.
Qed.

Lemma keeps_write_items fd items : keeps_tables (write_items fd items).
Proof.
  induction items as [|i items IH]; simpl; [apply keeps_ret|].
  apply keeps_tables_bind; [apply keeps_call|done].
Qed.

Lemma keeps_join_all hs : keeps_tables (join_all hs).
Proof.
  induction hs as [|h hs IH]; simpl; [apply keeps_ret|].
  apply keeps_tables_bind; [apply keeps_try_call|done].
Qed.

(** ** start, step by step *)

(** A computation that leaves the tables alone but for the session it records
    when it succeeds. *)
Definition records (sid : I) (m : srv unit) : Prop := forall s,
  pending (m s).2 = pending s
  /\ match (m s).1 with
     | Err _ => sessions (m s).2 = sessions s
     | Ok _ => exists i, sessions (m s).2 = <[sid := i]> (sessions s)
     end.

Lemma records_bind {A} sid (m : srv A) (k : A -> srv unit) :
  keeps_tables m -> (forall a, records sid (k a)) -> records sid (m ≫= k).
Proof.
  intros Hm Hk s. destruct (Hm s) as [E1 E2]. unfold mbind, M_bind.
  destruct (m s) as [[a|e] s1]; simpl in *; [|done].
  destruct (Hk a s1) as [-> Hr]. rewrite E1, E2 in *. done.
Qed.

Lemma records_put sid i : records sid (put_session sid i).
Proof. intros s. split; [done|]. by exists i. Qed.

(** [start] after the check that the session is not running. *)
Lemma start_cases cmd sid (s : server I O Fd Child Handle) :
  match pending s !! sid with
  | None => start cmd sid s = (Err SessionNotExist, s)
  | Some p =>
      pending (start cmd sid s).2 = delete sid (pending s)
      /\ match (start cmd sid s).1 with
         | Err _ => sessions (start cmd sid s).2 = sessions s
         | Ok _ => sessions s !! sid = None
                   /\ exists i, sessions (start cmd sid s).2 = <[sid := i]> (sessions s)
         end
  end.
Proof.
  destruct (pending s !! sid) as [p|] eqn:Ep.
  2: { apply bind_err. unfold take_pending. by rewrite Ep. }
  set (s0 := {| host := host s; sessions := sessions s; pending := delete sid (pending s) |}).
  unfold start. rewrite (bind_ok _ _ _ p s0) by (unfold take_pending; by rewrite Ep).
  destruct (sessions s !! sid) as [i|] eqn:Es.
  { rewrite (bind_err _ _ _ DuplicateId s0); [done|]. unfold check_not_started. simpl. by rewrite Es. }
  rewrite (bind_ok _ _ _ tt s0) by (unfold check_not_started; simpl; by rewrite Es).
  lazymatch goal with |- context [(?m s0).2] =>
    assert (records sid m) as Hm; [|destruct (Hm s0) as [Hp Hr]; revert Hp Hr; by destruct (m s0).1] end.
  apply records_bind; [apply keeps_spawn_command|intros [[[l c] kept] child]].
  apply records_bind; [apply keeps_hand_over|intros _].
  apply records_put.
Qed.

(** ** The effect of a request *)

(** The entries of the other sessions are as they were. *)
Definition only_own (sid : I) (s s' : server I O Fd Child Handle) : Prop := forall k, k <> sid ->
  sessions s' !! k = sessions s !! k /\ pending s' !! k = pending s !! k.

(** The effect of one request. *)
Definition effect (r : request I) (x : bool * server I O Fd Child Handle)
    (s : server I O Fd Child Handle) : Prop :=
  moves r x.1 (entries (request_sid r) s) (entries (request_sid r) x.2)
  /\ only_own (request_sid r) s x.2.

Lemma only_own_tables sid s s' :
  sessions s' = sessions s -> pending s' = pending s -> only_own sid s s'.
Proof. by intros E1 E2 k _; rewrite E1, E2. Qed.

Lemma entries_tables sid (s s' : server I O Fd Child Handle) :
  sessions s' = sessions s -> pending s' = pending s -> entries sid s' = entries sid s.
Proof. unfold entries. by intros -> ->. Qed.

Lemma dial_effect sid s : effect (Dial sid) (is_success (dial sid s)) s.
Proof.
  unfold effect, is_success, dial, entries, only_own. simpl.
  destruct (pending s !! sid) as [p|] eqn:Ep; simpl; [by rewrite Ep|].
  rewrite lookup_insert_eq. split; [done|]. intros k Hk. by rewrite lookup_insert_ne.
Qed.

Lemma start_effect cmd sid s : effect (Start cmd sid) (is_success (start cmd sid s)) s.
Proof.
  unfold effect, is_success. simpl. pose proof (start_cases cmd sid s) as Hc.
  destruct (pending s !! sid) as [p|] eqn:Ep.
  2: { rewrite Hc. simpl. split; [|done]. unfold entries. by rewrite Ep. }
  destruct (start cmd sid s) as [[[]|e] s']; simpl in *.
  - destruct Hc as (Hp & Hno & i & Hi). unfold entries, only_own. rewrite Hp, Hi, Ep, Hno.
    rewrite lookup_delete_eq, lookup_insert_eq. split; [done|]. intros k Hk.
    by rewrite lookup_insert_ne, lookup_delete_ne.
  - destruct Hc as [Hp Hs]. unfold entries, only_own. rewrite Hp, Hs, lookup_delete_eq.
    split; [done|]. intros k Hk. by rewrite lookup_delete_ne.
Qed.

Lemma stdin_effect sid items s : effect (Stdin sid items) (is_success (stdin sid items s)) s.
Proof.
  assert (keeps_tables (stdin sid items)) as Hk
    by (apply keeps_tables_bind; [apply keeps_get_session|intros; apply keeps_write_items]).
  destruct (Hk s) as [E1 E2]. unfold effect, is_success. simpl.
  rewrite (entries_tables sid _ _ E1 E2). split; [|by apply only_own_tables].
  destruct (is_ok (stdin sid items s).1) eqn:Eo; [|done]. split; [|done].
  unfold stdin, get_session, mbind, M_bind in Eo. unfold entries.
  destruct (sessions s !! sid) eqn:Es; [|done]. simpl. done.
Qed.

(** The two requests that record a copying task in the session. *)
Lemma copy_effect (f : Session Fd Child Handle -> option Fd) sid s :
  let x := is_success ((i ← get_session sid; h ← spawn_task (spawn_copy (f i)); push_handle sid h) s) in
  (if x.1 then (entries sid s).2 = true else True)
  /\ entries sid x.2 = entries sid s /\ only_own sid s x.2.
Proof.
  unfold is_success, get_session, spawn_task, push_handle, mbind, M_bind. simpl.
  destruct (sessions s !! sid) as [i|] eqn:Es; simpl; [|done].
  destruct (spawn_copy (f i) (host s)) as [h o]. unfold get_session. simpl. rewrite Es. simpl.
  unfold entries, only_own. simpl. rewrite Es, lookup_insert_eq.
  split; [done|]. split; [done|].
  intros k Hk. by rewrite lookup_insert_ne.
Qed.

Lemma stdout_effect sid s : effect (Stdout sid) (is_success (stdout sid s)) s.
Proof.
  destruct (copy_effect (fun i => Some (s_stdout i)) sid s) as (H1 & H2 & H3).
  unfold effect. split; [|exact H3]. cbn [request_sid]. unfold stdout in *. rewrite H2.
  revert H1. simpl. by destruct (is_ok _).
Qed.

Lemma stderr_effect sid s : effect (Stderr sid) (is_success (stderr sid s)) s.
Proof.
  destruct (copy_effect s_stderr sid s) as (H1 & H2 & H3).
  unfold effect. split; [|exact H3]. cbn [request_sid]. unfold stderr in *. rewrite H2.
  revert H1. simpl. by destruct (is_ok _).
Qed.

Lemma ninep_forward_effect sid s : effect (NinepForward sid) (is_success (ninep_forward sid s)) s.
Proof.
  unfold effect, is_success, ninep_forward, mbind, M_bind. simpl.
  destruct (pending s !! sid) as [p|] eqn:Ep; simpl; [|by split; [|apply only_own_tables]].
  destruct (keeps_open_forward s) as [E1 E2]. destruct (open_forward s) as [[q|e] s1]; simpl in *;
    [|split; [unfold entries; by rewrite E1, E2|by apply only_own_tables]].
  unfold entries, only_own. simpl. rewrite E1, E2, Ep, lookup_insert_eq.
  split; [done|]. intros k Hk. by rewrite lookup_insert_ne.
Qed.

Lemma join_all_ok hs (s : server I O Fd Child Handle) : exists s', join_all hs s = (Ok tt, s').
Proof.
  revert s. induction hs as [|h hs IH]; intros s; [by eexists|]. simpl.
  unfold try_call at 1, mbind, M_bind. destruct (join h (host s)). apply IH.
Qed.

Lemma wait_effect sid s : effect (Wait sid) (is_success (wait sid s)) s.
Proof.
  unfold effect, is_success, wait. cbn [request_sid].
  destruct (sessions s !! sid) as [i|] eqn:Es.
  2: { rewrite (bind_err _ _ _ SessionNotExist s) by (unfold get_session; by rewrite Es).
       unfold entries, only_own. simpl. by rewrite Es. }
  rewrite (bind_ok _ _ _ i s) by (unfold get_session; by rewrite Es).
  destruct (try_call (wait_child (s_child i)) s) as [x s1] eqn:E1.
  pose proof (keeps_try_call (wait_child (s_child i)) s) as [K1 K2]. rewrite E1 in K1, K2. simpl in K1, K2.
  assert (exists st, x = Ok st) as [st ->]
    by (unfold try_call in E1; destruct (wait_child _ _); simplify_eq; by eexists).
  rewrite (bind_ok _ _ _ st s1) by done.
  rewrite (bind_ok _ _ _ i s1) by (unfold get_session; by rewrite K1, Es).
  assert (exists s2, join_all (s_handles i) s1 = (Ok tt, s2)) as [s2 E2].
  { apply join_all_ok. }
  pose proof (keeps_join_all (s_handles i) s1) as [K3 K4]. rewrite E2 in K3, K4. simpl in K3, K4.
  rewrite (bind_ok _ _ _ tt s2) by done. unfold entries, only_own, remove_session, of_result, mbind, M_bind.
  destruct st as [[code|]|e]; simpl; rewrite K3, K4, K1, K2, ?Es, lookup_delete_eq; simpl;
    (split; [done|intros k Hk; by rewrite lookup_delete_ne]).
Qed.

(** C19: what each request does to the tables.  A session must be dialled and
    not yet dialled again, is started once, and a start takes it from the
    dialled ones whether or not it succeeds; the streams need a running
    session; waiting ends it whatever the outcome.  No request changes
    another session. *)
Theorem request_effect r (s : server I O Fd Child Handle) : effect r (serve_request r s) s.
Proof.
  destruct r; [apply dial_effect|apply start_effect|apply stdin_effect|apply stdout_effect
    |apply stderr_effect|apply ninep_forward_effect|apply wait_effect].
Qed.


(** ** The command reaches its launcher *)

Context {HL : HostLaws O Fd Child Sock Handle}.

Lemma call_ok {E A} (err : E -> ServerError) (m : M O E A) (s : server I O Fd Child Handle) a s' :
  call err m s = (Ok a, s') -> m (host s) = (Ok a, host s').
Proof. unfold call. destruct (m (host s)) as [[?|?] ?]; [|done]. by intros [= -> <-]. Qed.

Lemma send_command_written c cmd (s : server I O Fd Child Handle) u s' :
  send_command c cmd s = (Ok u, s') ->
  sock_written (host s') c = sock_written (host s) c ++ command_frame cmd.
Proof.
  intros H. unfold send_command in H. split_bind.
  apply call_ok in H, H0, H1.
  apply write_all_appends in H0, H1. apply shutdown_writes_nothing in H.
  rewrite H, H1, H0, <- app_assoc. done.
Qed.

Lemma with_ninep_wf cmd p (s : server I O Fd Child Handle) cmd' s' :
  cmd_wf cmd -> with_ninep cmd p s = (Ok cmd', s') -> cmd_wf cmd'.
Proof.
  intros Hwf. unfold with_ninep. destruct (Namespace.ninep cmd); [|by intros [= <- <-]].
  destruct p as [port|]; [|done]. intros [= <- <-].
  destruct Hwf as (H1 & H2 & H3 & H4 & H5). split; [done|]. split; [done|]. split; [done|].
  split; [|done]. unfold on_port. cbn [fstab]. generalize (tmp_mnt cmd). intros t. clear -H4.
  induction H4 as [|tab tabs Ht Hts IH]; simpl; [constructor|].
  destruct (decide _) as [[Hv Hf]|_]; [|by constructor]. constructor; [|done].
  destruct Ht as (_ & Hf' & Hv' & _ & Hn). split; [by vm_compute|]. split; [done|]. split; [done|].
  split; [|done]. apply str_wf_app; [by vm_compute|apply show_int_wf].
Qed.

(** The command and the process a spawning gives. *)
Lemma spawn_command_spec cmd p (s s' : server I O Fd Child Handle) listener cmd' kept child :
  spawn_command cmd p s = (Ok (listener, cmd', kept, child), s') ->
  (exists s1 s2 : server I O Fd Child Handle, with_ninep cmd p s1 = (Ok cmd', s2))
  /\ exists port cin cout cerr o, (spawn port cin cout cerr o).1 = Ok child.
Proof.
  intros H. unfold spawn_command in H. do 3 (apply bind_ok_inv in H as (? & ? & ? & H)).
  apply bind_ok_inv in H as ([[[cin cout] cerr] kept'] & s4 & H4 & H).
  apply bind_ok_inv in H as (ch & s5 & H5 & H). rewrite ret_run in H. simplify_eq.
  split; [eauto|]. apply call_ok in H5. eexists _, _, _, _, _. by rewrite H5.
Qed.

(** The command that is sent for [cmd] in a session. *)
Definition sent_command (cmd : Cmd) (p : PendingSession Handle) (cmd' : Cmd) : Prop :=
  if Namespace.ninep cmd
  then exists port h, p_ninep p = Some (port, h) /\ cmd' = on_port cmd port
  else cmd' = cmd.

Lemma with_ninep_sent cmd (p : PendingSession Handle) (s : server I O Fd Child Handle) cmd' s' :
  with_ninep cmd (fst <$> p_ninep p) s = (Ok cmd', s') -> sent_command cmd p cmd'.
Proof.
  unfold with_ninep, sent_command. destruct (Namespace.ninep cmd); [|by intros [= <- _]].
  destruct (p_ninep p) as [[port h]|]; [|done]. intros [= <- _]. by exists port, h.
Qed.

(** What a start that succeeds has done, call by call: it binds a listener and
    asks for its port, makes the descriptors, spawns the process with this port,
    accepts the launcher on this very listener and writes the command to it; the
    session has the process and the descriptors kept. *)
Definition starts_process (cmd : Cmd) (sid : I) (s s' : server I O Fd Child Handle) (cmd' : Cmd) (child : Child) : Prop :=
  exists p listener port stream cin cout cerr kept o1 o3 o4 (s2 s3 : server I O Fd Child Handle),
    pending s !! sid = Some p /\ sent_command cmd p cmd'
    /\ bind_local (host s) = (Ok listener, o1)
    /\ local_port listener o1 = (Ok port, host s2)
    /\ stdio (tty cmd') s2 = (Ok ((cin, cout, cerr), kept), s3)
    /\ spawn port cin cout cerr (host s3) = (Ok child, o3)
    /\ accept listener o3 = (Ok stream, o4)
    /\ sock_written (host s') stream = command_frame cmd'
    /\ sessions s' !! sid = Some (new_session p kept child).

Lemma with_ninep_host cmd p (s : server I O Fd Child Handle) cmd' s' :
  with_ninep cmd p s = (Ok cmd', s') -> s' = s.
Proof.
  unfold with_ninep. destruct (Namespace.ninep cmd); [|by intros [= _ <-]]. destruct p; [|done]. by intros [= _ <-].
Qed.

Lemma start_sends cmd sid (s s' : server I O Fd Child Handle) u :
  cmd_wf cmd -> start cmd sid s = (Ok u, s') ->
  exists cmd' child, starts_process cmd sid s s' cmd' child /\ cmd_wf cmd'.
Proof.
  intros Hwf H. unfold start in H.
  apply bind_ok_inv in H as (p & s1 & Hp & H). apply bind_ok_inv in H as (v & s2 & Hv & H).
  apply bind_ok_inv in H as ([[[listener cmd'] kept] child] & s3 & H3 & H).
  apply bind_ok_inv in H as (v' & s4 & H4 & H).
  assert (host s2 = host s /\ pending s !! sid = Some p) as [Hh Hp'].
  { unfold take_pending in Hp. destruct (pending s !! sid); [|done]. injection Hp as -> <-.
    unfold check_not_started in Hv. simpl in Hv. destruct (sessions s !! sid); [done|]. by injection Hv as _ <-. }
  unfold spawn_command in H3. apply bind_ok_inv in H3 as (l & t1 & Hb%call_ok & H3).
  apply bind_ok_inv in H3 as (port & t2 & Hport%call_ok & H3). apply bind_ok_inv in H3 as (c & t3 & Hn & H3).
  apply bind_ok_inv in H3 as ([[[cin cout] cerr] kept'] & t4 & Hio & H3).
  apply bind_ok_inv in H3 as (ch & t5 & Hsp%call_ok & H3). rewrite ret_run in H3. simplify_eq.
  unfold hand_over in H4. apply bind_ok_inv in H4 as (stream & t6 & Ha%call_ok & H4).
  pose proof (accept_fresh _ _ _ _ Ha) as Hf. apply send_command_written in H4. rewrite Hf in H4. simpl in H4.
  pose proof (with_ninep_host _ _ _ _ _ Hn) as ->. rewrite Hh in Hb.
  unfold put_session in H. simplify_eq. exists cmd', child. split; [|by eapply with_ninep_wf].
  exists p, listener, port, stream, cin, cout, cerr, kept, (host t1), (host s3), (host t6), t2, t4.
  do 8 (split; [first [done|by eapply with_ninep_sent]|]). apply lookup_insert_eq.
Qed.

(** A start that succeeds has sent the launcher the command it was given,
    with the port of the session's 9p forwarder filled in when the command
    asks for 9p (which needs a forwarder), and that is the command the
    launcher receives. *)
Theorem start_delivers_command {PL : ProstLaws DecodeError} cmd sid (s s' : server I O Fd Child Handle) u :
  cmd_wf cmd -> start cmd sid s = (Ok u, s') ->
  exists cmd' p stream,
    pending s !! sid = Some p
    /\ (if Namespace.ninep cmd
        then exists port h, p_ninep p = Some (port, h) /\ cmd' = on_port cmd port
        else cmd' = cmd)
    /\ sock_written (host s') stream = command_frame cmd'
    /\ (Z.of_nat (length (encode_to_vec cmd')) < 2 ^ 64 ->
        receive {| incoming_bytes := sock_written (host s') stream; broken := None |} = Ok cmd').
Proof.
  intros Hwf H. destruct (start_sends _ _ _ _ _ Hwf H) as (cmd' & child & Hs & Hwf').
  destruct Hs as (p & l & port & stream & cin & cout & cerr & kept & o1 & o3 & o4 & s2 & s3 & Hp & Hc & Hs).
  destruct Hs as (_ & _ & _ & _ & _ & Hw & _). exists cmd', p, stream. split; [done|]. split; [exact Hc|]. split; [done|].
  intros Hlen. rewrite Hw, <- (app_nil_r (command_frame cmd')).
  exact (receive_frame_extra cmd' [] Hwf' Hlen).
Qed.
End Props.

(** ** Witnesses: a host whose calls succeed and that keeps what is written to
    its connections *)

#[local] Existing Instance prost_ref.
#[local] Existing Instance prost_ref_laws.

#[local] Instance mem_host : Host (list (list byte)) nat nat nat nat := {|
  bind_local o := (Ok (length o), o ++ [[]]);
  local_port l o := (Ok (1024 + Z.of_nat l), o);
  openpty o := (Ok (3, 4)%nat, o);
  pipe2 o := (Ok (5, 6)%nat, o);
  try_clone fd o := (Ok (S fd), o);
  async_fd fd o := (Ok fd, o);
  spawn _ _ _ _ o := (Ok 9%nat, o);
  accept _ o := (Ok (length o), o ++ [[]]);
  sock_write_all c bs o :=
    match o !! c with
    | Some l => (Ok tt, <[c := l ++ bs]> o)
    | None => (Err eof_error, o)
    end;
  sock_shutdown _ o := (Ok tt, o);
  fd_write_all _ _ o := (Ok tt, o);
  wait_child _ o := (Ok (Some 0), o);
  spawn_copy _ o := (7%nat, o);
  spawn_forward _ o := (8%nat, o);
  join _ o := (Ok tt, o)
|}.

#[local] Instance mem_host_laws : HostLaws (list (list byte)) nat nat nat nat.
Proof.
  refine {| sock_written o c := default [] (o !! c) |}.
  - intros l o c o' [= <- <-]. by rewrite list_lookup_middle.
  - intros c bs o u o'. simpl. destruct (o !! c) as [k|] eqn:E; [|done]. intros [= _ <-].
    by rewrite list_lookup_insert_eq by (by eapply lookup_lt_Some).
  - by intros c o u o' [= _ <-].
Defined.

(** A session with a 9p forwarder, and a command that mounts the client's
    files. *)
Definition mount_sh : Cmd := {|
  program := "/bin/sh"; args := ["-c"]; envs := []; fstab := parse_namespace "/lib" "/tmp";
  ninep := true; tty := true; tmp_mnt := "/tmp"; uid := 1000; gid := 100
|}.

Lemma mount_sh_wf : cmd_wf mount_sh.
Proof.
  split; [by vm_compute|]. split; [by repeat constructor|]. split; [by vm_compute|].
  split; [|by vm_compute]. repeat constructor; by vm_compute.
Qed.

Definition dialled : server nat (list (list byte)) nat nat nat :=
  (ninep_forward 1%nat (dial 1%nat (server_new [])).2).2.

Definition started : result ServerError unit * server nat (list (list byte)) nat nat nat :=
  start (HO := mem_host) mount_sh 1%nat dialled.

Lemma start_delivers_command_witness :
  exists cmd' p stream,
    pending dialled !! 1%nat = Some p
    /\ (exists port h, p_ninep p = Some (port, h) /\ cmd' = on_port mount_sh port)
    /\ sock_written (host started.2) stream = command_frame cmd'.
Proof.
  assert (start (HO := mem_host) mount_sh 1%nat dialled = (Ok tt, started.2)) as E.
  { assert (started.1 = Ok tt) as E1 by (vm_compute; reflexivity). fold started.
    rewrite <- E1. apply surjective_pairing. }
  destruct (start_delivers_command (HO := mem_host) (HL := mem_host_laws) (PR := prost_ref) (PL := prost_ref_laws) mount_sh 1%nat dialled started.2 tt mount_sh_wf E)
    as (cmd' & p & stream & H1 & H2 & H3 & _).
  exists cmd', p, stream. split; [exact H1|split; [exact H2|exact H3]].
Defined.
