(* ===== verification/Steps.v ===== *)
(** * The session server, await by await (libp9cpu/src/server.rs)

    Server.v has each operation as one computation.  Here an operation is a
    thread that moves from one await to the next, and the threads of all the
    requests move in any order, over shared tables, session objects that
    several threads may hold, and the locks the code takes.  The write lock of
    [pending] is never held over an await that can block, and a read of
    [sessions] copies an [Arc] and lets go, so that these are single moves; a
    start holds the write lock of [sessions] while its launcher connects, and
    the locks within a session are held for as long as the code holds them. *)

From Stdlib Require Import Strings.Byte.
From S2P Require Import Prelude Bytes Io Error Fcall Utils Text Namespace Launcher Server.

(** What a thread can wait for: a launcher's connection, the end of a command,
    the next item of a client's stream (or its end, when nothing is left of it),
    room for an item in the standard input of a command, and the end of a task.
    The first four are outside of the server; of a task only the handle is here,
    and Copying.v has those that copy the output of a command. *)
Inductive event (Sock Child Handle Fd : Type) : Type :=
  | Connected (listener : Sock)
  | Exited (child : Child)
  | Finished (task : Handle)
  | Received (rest : list (list byte))
  | Writable (fd : Fd).
Arguments Connected {Sock Child Handle Fd} listener.
Arguments Exited {Sock Child Handle Fd} child.
Arguments Finished {Sock Child Handle Fd} task.
Arguments Received {Sock Child Handle Fd} rest.
Arguments Writable {Sock Child Handle Fd} fd.

(** Whether it has happened. *)
Class World (O Sock Child Handle Fd : Type) := happened : event Sock Child Handle Fd -> O -> bool.

Section Steps.
Context {I : Type} `{Countable I}.
Context {O Fd Child Sock Handle : Type} `{HO : Host O Fd Child Sock Handle}.
Context `{WO : World O Sock Child Handle Fd}.
Context {DecodeError : Set} `{PR : Prost DecodeError}.

(** ** The shared state *)

(** The object behind the [Arc]s of a [Session], its locks, and for each task
    whether it has been joined. *)
Record object := {
  o_stdin : Fd; o_stdout : Fd; o_stderr : option Fd; o_child : Child;
  o_handles : list (Handle * bool);
  stdin_locked : bool; child_locked : bool; handles_locked : bool
}.

(** [sh_objects] are all sessions there have been, [sh_sessions] the table, by
    their index; [sh_starting] is the write lock of the table. *)
Record shared := {
  sh_host : O;
  sh_sessions : gmap I nat;
  sh_pending : gmap I (PendingSession Handle);
  sh_objects : list object;
  sh_starting : bool
}.

Definition with_host (o : O) (sh : shared) : shared := {|
  sh_host := o; sh_sessions := sh_sessions sh; sh_pending := sh_pending sh;
  sh_objects := sh_objects sh; sh_starting := sh_starting sh |}.

Definition with_pending (p : gmap I (PendingSession Handle)) (sh : shared) : shared := {|
  sh_host := sh_host sh; sh_sessions := sh_sessions sh; sh_pending := p;
  sh_objects := sh_objects sh; sh_starting := sh_starting sh |}.

Definition with_starting (b : bool) (sh : shared) : shared := {|
  sh_host := sh_host sh; sh_sessions := sh_sessions sh; sh_pending := sh_pending sh;
  sh_objects := sh_objects sh; sh_starting := b |}.

Definition with_sessions (m : gmap I nat) (sh : shared) : shared := {|
  sh_host := sh_host sh; sh_sessions := m; sh_pending := sh_pending sh;
  sh_objects := sh_objects sh; sh_starting := sh_starting sh |}.

Definition with_objects (l : list object) (sh : shared) : shared := {|
  sh_host := sh_host sh; sh_sessions := sh_sessions sh; sh_pending := sh_pending sh;
  sh_objects := l; sh_starting := sh_starting sh |}.

Definition update (n : nat) (f : object -> object) (sh : shared) : shared :=
  with_objects (alter f n (sh_objects sh)) sh.

Definition lock_stdin (b : bool) (x : object) : object := {|
  o_stdin := o_stdin x; o_stdout := o_stdout x; o_stderr := o_stderr x; o_child := o_child x;
  o_handles := o_handles x; stdin_locked := b; child_locked := child_locked x;
  handles_locked := handles_locked x |}.

Definition lock_child (b : bool) (x : object) : object := {|
  o_stdin := o_stdin x; o_stdout := o_stdout x; o_stderr := o_stderr x; o_child := o_child x;
  o_handles := o_handles x; stdin_locked := stdin_locked x; child_locked := b;
  handles_locked := handles_locked x |}.

Definition lock_handles (b : bool) (x : object) : object := {|
  o_stdin := o_stdin x; o_stdout := o_stdout x; o_stderr := o_stderr x; o_child := o_child x;
  o_handles := o_handles x; stdin_locked := stdin_locked x; child_locked := child_locked x;
  handles_locked := b |}.

Definition set_handles (l : list (Handle * bool)) (x : object) : object := {|
  o_stdin := o_stdin x; o_stdout := o_stdout x; o_stderr := o_stderr x; o_child := o_child x;
  o_handles := l; stdin_locked := stdin_locked x; child_locked := child_locked x;
  handles_locked := handles_locked x |}.

Definition new_object (s : Session Fd Child Handle) : object := {|
  o_stdin := s_stdin s; o_stdout := s_stdout s; o_stderr := s_stderr s; o_child := s_child s;
  o_handles := map (fun h => (h, false)) (s_handles s);
  stdin_locked := false; child_locked := false; handles_locked := false |}.

(** The part of Server.v that only calls the host, on the shared state. *)
Definition on_host {A} (m : M (server I O Fd Child Handle) ServerError A) (sh : shared)
    : result ServerError A * shared :=
  let '(r, s) := m (server_new (sh_host sh)) in (r, with_host (host s) sh).

(** [self.get_session(sid, ..)] when the table can be read *)
Definition find_session (sid : I) (sh : shared) : option (nat * object) :=
  n ← sh_sessions sh !! sid; x ← sh_objects sh !! n; Some (n, x).

(** ** Threads *)

(** What an operation returns; a wait returns a code. *)
Definition answer : Set := result ServerError (option i32).

Definition Answer (r : result ServerError unit) : answer :=
  match r with Ok _ => Ok None | Err e => Err e end.

Inductive thread : Type :=
  | Called (r : request I)
  | StartTaken (cmd : Cmd) (sid : I) (p : PendingSession Handle)
  | Accepting (listener : Sock) (cmd : Cmd) (sid : I) (session : Session Fd Child Handle)
  | StdinLocking (n : nat) (items : list (list byte))
  | StdinReading (n : nat) (items : list (list byte))
  | StdinWriting (n : nat) (item : list byte) (items : list (list byte))
  | Pushing (sid : I) (h : Handle)
  | PushLocking (n : nat) (h : Handle)
  | WaitLocking (n : nat) (sid : I)
  | WaitChild (n : nat) (sid : I)
  | WaitExited (sid : I) (ret : result ServerError i32)
  | WaitHandles (n : nat) (sid : I) (ret : result ServerError i32)
  | Joining (n : nat) (k : nat) (sid : I) (ret : result ServerError i32)
  | Removing (sid : I) (ret : result ServerError i32)
  | Answered (a : answer)
  | Panicked.

(** [child.write().await.wait().await], as [wait] reports it *)
Definition exit_ret (status : result io_error exit_status) : result ServerError i32 :=
  match status with
  | Ok (Some code) => Ok code
  | Ok None => Err NoReturnCode
  | Err e => Err (CommandError e)
  end.

(** [sessions.read()] or [sessions.write()]: not while a start holds it. *)
Definition table_free (sh : shared) (k : option (thread * shared)) : option (thread * shared) :=
  if sh_starting sh then None else k.

(** A move of a thread that has been waiting for [e]. *)
Definition after_event (e : event Sock Child Handle Fd) (sh : shared) (k : option (thread * shared))
    : option (thread * shared) :=
  if happened e (sh_host sh) then k else None.

(** The first move of an operation. *)
Definition begin (r : request I) (sh : shared) : option (thread * shared) :=
  match r with
  | Dial sid =>
      match sh_pending sh !! sid with
      | Some _ => Some (Answered (Err DuplicateId), sh)
      | None => Some (Answered (Ok None), with_pending (<[sid := {| p_ninep := None |}]> (sh_pending sh)) sh)
      end
  | Start cmd sid =>
      match sh_pending sh !! sid with
      | None => Some (Answered (Err SessionNotExist), sh)
      | Some p => Some (StartTaken cmd sid p, with_pending (delete sid (sh_pending sh)) sh)
      end
  | Stdin sid items =>
      table_free sh (match find_session sid sh with
        | None => Some (Answered (Err SessionNotExist), sh)
        | Some (n, _) => Some (StdinLocking n items, sh)
        end)
  | Stdout sid =>
      table_free sh (match find_session sid sh with
        | None => Some (Answered (Err SessionNotExist), sh)
        | Some (_, x) =>
            let '(h, o) := spawn_copy (Some (o_stdout x)) (sh_host sh) in
            Some (Pushing sid h, with_host o sh)
        end)
  | Stderr sid =>
      table_free sh (match find_session sid sh with
        | None => Some (Answered (Err SessionNotExist), sh)
        | Some (_, x) =>
            let '(h, o) := spawn_copy (o_stderr x) (sh_host sh) in
            Some (Pushing sid h, with_host o sh)
        end)
  | NinepForward sid =>
      match sh_pending sh !! sid with
      | None => Some (Answered (Err SessionNotExist), sh)
      | Some _ =>
          match on_host open_forward sh with
          | (Err e, sh) => Some (Answered (Err e), sh)
          | (Ok q, sh) => Some (Answered (Ok None),
              with_pending (<[sid := {| p_ninep := Some q |}]> (sh_pending sh)) sh)
          end
      end
  | Wait sid =>
      table_free sh (match find_session sid sh with
        | None => Some (Answered (Err SessionNotExist), sh)
        | Some (n, _) => Some (WaitLocking n sid, sh)
        end)
  end.

(** A start once it may write the table: a session of this name is refused;
    otherwise the launcher is spawned, and the lock is kept. *)
Definition begin_start (cmd : Cmd) (sid : I) (p : PendingSession Handle) (sh : shared) : thread * shared :=
  match sh_sessions sh !! sid with
  | Some _ => (Answered (Err DuplicateId), sh)
  | None =>
      match on_host (spawn_command cmd (fst <$> p_ninep p)) sh with
      | (Err e, sh) => (Answered (Err e), sh)
      | (Ok (listener, cmd, kept, child), sh) =>
          (Accepting listener cmd sid (new_session p kept child), with_starting true sh)
      end
  end.

(** The launcher has connected: it gets its command, and the session is
    recorded; the lock goes in any case. *)
Definition finish_start (listener : Sock) (cmd : Cmd) (sid : I) (session : Session Fd Child Handle)
    (sh : shared) : thread * shared :=
  match on_host (hand_over listener cmd) sh with
  | (Err e, sh) => (Answered (Err e), with_starting false sh)
  | (Ok _, sh) =>
      (Answered (Ok None), with_starting false
        (with_sessions (<[sid := length (sh_objects sh)]> (sh_sessions sh))
          (with_objects (sh_objects sh ++ [new_object session]) sh)))
  end.

(** [in_stream.next().await]: the lock is held meanwhile. *)
Definition read_item (n : nat) (items : list (list byte)) (sh : shared) : option (thread * shared) :=
  after_event (Received items) sh
    match items with
    | [] => Some (Answered (Ok None), update n (lock_stdin false) sh)
    | item :: items => Some (StdinWriting n item items, sh)
    end.

(** [cmd_stdin.write_all(&item).await] *)
Definition write_item (n : nat) (x : object) (item : list byte) (items : list (list byte)) (sh : shared)
    : option (thread * shared) :=
  after_event (Writable (o_stdin x)) sh
    match on_host (call IoErr (fd_write_all (o_stdin x) item)) sh with
    | (Err e, sh) => Some (Answered (Err e), update n (lock_stdin false) sh)
    | (Ok _, sh) => Some (StdinReading n items, sh)
    end.

(** [for handle in handles.write().await.iter_mut()]: joining a task twice
    panics, and lets go of the lock. *)
Definition join_next (n k : nat) (x : object) (sid : I) (ret : result ServerError i32) (sh : shared)
    : option (thread * shared) :=
  match o_handles x !! k with
  | None => Some (Removing sid ret, update n (lock_handles false) sh)
  | Some (h, true) => Some (Panicked, update n (lock_handles false) sh)
  | Some (h, false) =>
      after_event (Finished h) sh (
        let '(_, sh) := on_host (try_call (join h)) sh in
        Some (Joining n (S k) sid ret, update n (set_handles (<[k := (h, true)]> (o_handles x))) sh))
  end.

(** One move of a thread: [None] when it has to wait. *)
Definition move (t : thread) (sh : shared) : option (thread * shared) :=
  match t with
  | Called r => begin r sh
  | StartTaken cmd sid p => table_free sh (Some (begin_start cmd sid p sh))
  | Accepting listener cmd sid session =>
      after_event (Connected listener) sh (Some (finish_start listener cmd sid session sh))
  | StdinLocking n items =>
      x ← sh_objects sh !! n;
      if stdin_locked x then None else Some (StdinReading n items, update n (lock_stdin true) sh)
  | StdinReading n items => read_item n items sh
  | StdinWriting n item items => x ← sh_objects sh !! n; write_item n x item items sh
  | Pushing sid h =>
      table_free sh (match find_session sid sh with
        | None => Some (Answered (Err SessionNotExist), sh)
        | Some (n, _) => Some (PushLocking n h, sh)
        end)
  | PushLocking n h =>
      x ← sh_objects sh !! n;
      if handles_locked x then None
      else Some (Answered (Ok None), update n (set_handles (o_handles x ++ [(h, false)])) sh)
  | WaitLocking n sid =>
      x ← sh_objects sh !! n;
      if child_locked x then None else Some (WaitChild n sid, update n (lock_child true) sh)
  | WaitChild n sid =>
      x ← sh_objects sh !! n;
      after_event (Exited (o_child x)) sh (
        let '(status, o) := wait_child (o_child x) (sh_host sh) in
        Some (WaitExited sid (exit_ret status), update n (lock_child false) (with_host o sh)))
  | WaitExited sid ret =>
      table_free sh (match find_session sid sh with
        | None => Some (Answered (Err SessionNotExist), sh)
        | Some (n, _) => Some (WaitHandles n sid ret, sh)
        end)
  | WaitHandles n sid ret =>
      x ← sh_objects sh !! n;
      if handles_locked x then None else Some (Joining n 0 sid ret, update n (lock_handles true) sh)
  | Joining n k sid ret => x ← sh_objects sh !! n; join_next n k x sid ret sh
  | Removing sid ret =>
      table_free sh (Some (Answered (match ret with Ok c => Ok (Some c) | Err e => Err e end),
        with_sessions (delete sid (sh_sessions sh)) sh))
  | Answered _ | Panicked => None
  end.

(** ** Runs *)

Record server_state := { st_shared : shared; st_threads : list thread }.

Inductive server_label : Type :=
  | Arrive (r : request I)
  | Move (i : nat)
  | Outside (o : O).

(** A request arrives, a thread moves, or the world outside changes. *)
Definition server_step (l : server_label) (c : server_state) : option server_state :=
  match l with
  | Arrive r => Some {| st_shared := st_shared c; st_threads := st_threads c ++ [Called r] |}
  | Move i =>
      t ← st_threads c !! i;
      '(t', sh) ← move t (st_shared c);
      Some {| st_shared := sh; st_threads := <[i := t']> (st_threads c) |}
  | Outside o => Some {| st_shared := with_host o (st_shared c); st_threads := st_threads c |}
  end.

Fixpoint server_run (ls : list server_label) (c : server_state) : option server_state :=
  match ls with
  | [] => Some c
  | l :: ls => c ← server_step l c; server_run ls c
  end.

Definition server_init (o : O) : server_state := {|
  st_shared := {| sh_host := o; sh_sessions := ∅; sh_pending := ∅; sh_objects := []; sh_starting := false |};
  st_threads := []
|}.

Definition server_reachable (c : server_state) : Prop := exists o ls, server_run ls (server_init o) = Some c.
End Steps.
Arguments object : clear implicits.
Arguments shared I {_ _} O Fd Child Handle.
Arguments thread : clear implicits.
Arguments server_state I {_ _} O Fd Child Sock Handle.
Arguments server_label : clear implicits.
