(* ===== verification/StepsProps.v ===== *)
(** * Properties of the interleaved session server

    Which thread holds which lock in every reachable state; why a thread cannot
    move; and what a start that waits for its launcher does to the other
    requests. *)

From Stdlib Require Import Strings.Byte.
From S2P Require Import Prelude Bytes Io Error Fcall Utils Text Namespace Launcher LauncherProps.
From S2P Require Import Server ServerProps Steps.

Section Props.
Context {I : Type} `{CI : Countable I}.
Context {O Fd Child Sock Handle : Type} `{HO : Host O Fd Child Sock Handle}.
Context {WO : World O Sock Child Handle Fd}.
Context {DecodeError : Set} `{PR : Prost DecodeError}.

Abbreviation shared := (Steps.shared I O Fd Child Handle).
Abbreviation thread := (Steps.thread I Fd Child Sock Handle).
Abbreviation state := (Steps.server_state I O Fd Child Sock Handle).

(** ** Locks *)

Inductive lock : Set :=
  | TableLock
  | StdinLock (n : nat)
  | ChildLock (n : nat)
  | HandlesLock (n : nat).

Definition locked (l : lock) (sh : shared) : bool :=
  match l with
  | TableLock => sh_starting sh
  | StdinLock n => from_option stdin_locked false (sh_objects sh !! n)
  | ChildLock n => from_option child_locked false (sh_objects sh !! n)
  | HandlesLock n => from_option handles_locked false (sh_objects sh !! n)
  end.

(** The locks a thread holds between two of its moves. *)
Definition holds (l : lock) (t : thread) : bool :=
  match l, t with
  | TableLock, Accepting _ _ _ _ => true
  | StdinLock n, (StdinReading m _ | StdinWriting m _ _) => (n =? m)%nat
  | ChildLock n, WaitChild m _ => (n =? m)%nat
  | HandlesLock n, Joining m _ _ _ => (n =? m)%nat
  | _, _ => false
  end.

(** The lock a thread is about to take. *)
Definition wants (t : thread) : option lock :=
  match t with
  | Called (Stdin _ _ | Stdout _ | Stderr _ | Wait _) | StartTaken _ _ _
  | Pushing _ _ | WaitExited _ _ | Removing _ _ => Some TableLock
  | StdinLocking n _ => Some (StdinLock n)
  | WaitLocking n _ => Some (ChildLock n)
  | PushLocking n _ | WaitHandles n _ _ => Some (HandlesLock n)
  | _ => None
  end.

(** The event a thread is waiting for. *)
Definition waits_for (t : thread) (sh : shared) : option (event Sock Child Handle Fd) :=
  match t with
  | Accepting listener _ _ _ => Some (Connected listener)
  | StdinReading _ items => Some (Received items)
  | StdinWriting n _ _ => x ← sh_objects sh !! n; Some (Writable (o_stdin x))
  | WaitChild n _ => x ← sh_objects sh !! n; Some (Exited (o_child x))
  | Joining n k _ _ =>
      x ← sh_objects sh !! n;
      match o_handles x !! k with Some (h, false) => Some (Finished h) | _ => None end
  | _ => None
  end.

Definition finished (t : thread) : bool :=
  match t with Answered _ | Panicked => true | _ => false end.

(** The session object a thread has in hand. *)
Definition object_of (t : thread) : option nat :=
  match t with
  | StdinLocking n _ | StdinReading n _ | StdinWriting n _ _ | PushLocking n _ | WaitLocking n _ | WaitChild n _
  | WaitHandles n _ _ | Joining n _ _ _ => Some n
  | _ => None
  end.

Definition valid_object (sh : shared) (o : option nat) : Prop :=
  match o with Some n => (n < length (sh_objects sh))%nat | None => True end.

(** ** The number of the threads with a property *)

Definition count {A} (f : A -> bool) (l : list A) : nat := sum_list_with (fun t => Nat.b2n (f t)) l.

Lemma sum_insert {A} (f : A -> nat) l i x y : l !! i = Some x ->
  (sum_list_with f (<[i := y]> l) + f x = sum_list_with f l + f y)%nat.
Proof.
  revert i. induction l as [|z l IH]; intros [|i] Hi; simplify_eq/=; [lia|].
  specialize (IH i Hi). lia.
Qed.

Lemma sum_lookup {A} (f : A -> nat) l i x : l !! i = Some x -> (f x <= sum_list_with f l)%nat.
Proof. revert i. induction l as [|z l IH]; intros [|i] Hi; simplify_eq/=; [lia|]. specialize (IH i Hi). lia. Qed.

Lemma count_pos {A} (f : A -> bool) l : (0 < count f l)%nat -> exists i x, l !! i = Some x /\ f x = true.
Proof.
  unfold count. induction l as [|z l IH]; simpl; [lia|]. destruct (f z) eqn:E.
  - intros _. by exists 0%nat, z.
  - intros (i & x & Hi & Hx)%IH. by exists (S i), x.
Qed.

(** ** What a move does to the locks *)

Lemma on_host_shared {A} (m : M (server I O Fd Child Handle) ServerError A) (sh : shared) :
  exists o, (on_host m sh).2 = with_host o sh.
Proof. unfold on_host. destruct (m _) as [r s]. by eexists. Qed.

Lemma locked_with_host l o (sh : shared) : locked l (with_host o sh) = locked l sh.
Proof. by destruct l. Qed.

Lemma objects_update n f (sh : shared) m :
  sh_objects (update n f sh) !! m = if decide (n = m) then f <$> sh_objects sh !! m else sh_objects sh !! m.
Proof.
  unfold update. cbn [sh_objects with_objects]. destruct (decide (n = m)) as [->|Hne].
  - apply list_lookup_alter_eq.
  - by apply list_lookup_alter_ne.
Qed.

(** The locks after a move, when the thread held those it was said to. *)
Definition hands_over (t t' : thread) (sh sh' : shared) : Prop := forall l,
  (Nat.b2n (locked l sh') + Nat.b2n (holds l t) = Nat.b2n (locked l sh) + Nat.b2n (holds l t'))%nat.

Lemma locked_app l (sh : shared) x :
  stdin_locked x = false -> child_locked x = false -> handles_locked x = false ->
  locked l (with_objects (sh_objects sh ++ [x]) sh) = locked l sh.
Proof.
  intros H1 H2 H3. destruct l as [|n|n|n]; simpl; [done|..];
    (destruct (decide (n < length (sh_objects sh))%nat);
      [by rewrite lookup_app_l|rewrite lookup_app_r, (lookup_ge_None_2 (sh_objects sh)) by lia];
      destruct (n - length (sh_objects sh))%nat as [|k]; simpl; by rewrite ?lookup_nil).
Qed.

(** A move that takes or leaves no lock. *)
Lemma hands_over_none (t t' : thread) (sh sh' : shared) :
  (forall l, locked l sh' = locked l sh) -> (forall l, holds l t = holds l t') -> hands_over t t' sh sh'.
Proof. intros H1 H2 l. rewrite H1, H2. lia. Qed.

(** Changing one lock of one object. *)
Lemma hands_over_update (t t' : thread) (sh : shared) n x (f : object Fd Child Handle -> object Fd Child Handle) :
  sh_objects sh !! n = Some x ->
  (Nat.b2n (stdin_locked (f x)) + Nat.b2n (holds (StdinLock n) t)
   = Nat.b2n (stdin_locked x) + Nat.b2n (holds (StdinLock n) t'))%nat ->
  (Nat.b2n (child_locked (f x)) + Nat.b2n (holds (ChildLock n) t)
   = Nat.b2n (child_locked x) + Nat.b2n (holds (ChildLock n) t'))%nat ->
  (Nat.b2n (handles_locked (f x)) + Nat.b2n (holds (HandlesLock n) t)
   = Nat.b2n (handles_locked x) + Nat.b2n (holds (HandlesLock n) t'))%nat ->
  holds TableLock t = holds TableLock t' ->
  (forall m, m <> n -> holds (StdinLock m) t = holds (StdinLock m) t'
     /\ holds (ChildLock m) t = holds (ChildLock m) t' /\ holds (HandlesLock m) t = holds (HandlesLock m) t') ->
  hands_over t t' sh (update n f sh).
Proof.
  intros Hx H1 H2 H3 H4 Hne [|m|m|m]; unfold locked; rewrite ?objects_update.
  { unfold update, with_objects. cbn [sh_starting]. rewrite H4. lia. }
  all: destruct (decide (n = m)) as [<-|Hm]; [rewrite Hx; cbn [fmap option_fmap option_map from_option]; done|].
  all: destruct (Hne m) as (E1 & E2 & E3); [done|]; rewrite ?E1, ?E2, ?E3; lia.
Qed.

(** The locks of the threads are those that are locked. *)
Definition holds_only (t : thread) (sh : shared) : Prop := forall l, holds l t = true -> locked l sh = true.

Lemma holds_locked_object n (sh : shared) x (lk : object Fd Child Handle -> bool) :
  sh_objects sh !! n = Some x -> from_option lk false (sh_objects sh !! n) = true -> lk x = true.
Proof. by intros ->. Qed.

Lemma neqb_ne m n : m <> n -> (m =? n)%nat = false.
Proof. apply Nat.eqb_neq. Qed.

(** ** Every move *)

Ltac unlock_update x Hx :=
  eapply (hands_over_update _ _ _ _ x); [exact Hx|..]; simpl;
    rewrite ?Nat.eqb_refl; simpl; try lia; try done;
    try (intros m Hm; rewrite ?(neqb_ne m _ Hm); done).

Lemma begin_hands_over r (sh : shared) t' sh' :
  begin r sh = Some (t', sh') -> hands_over (Called r) t' sh sh'.
Proof.
  destruct r; simpl; unfold table_free; intros Hb;
    repeat (case_match; simplify_eq/=; try done);
    try (apply hands_over_none; [by intros []|by intros []]).
  all: lazymatch goal with H : on_host ?m ?sh1 = (_, ?sh2) |- _ =>
         destruct (on_host_shared m sh1) as [o' E]; rewrite H in E; simpl in E; subst sh2;
         apply hands_over_none; [by intros []|by intros []] end.
Qed.

Lemma begin_start_hands_over cmd sid p (sh : shared) t' sh' :
  sh_starting sh = false -> begin_start cmd sid p sh = (t', sh') ->
  hands_over (StartTaken cmd sid p) t' sh sh'.
Proof.
  unfold begin_start. intros Hfree. destruct (sh_sessions sh !! sid).
  { intros [= <- <-]. apply hands_over_none; by intros []. }
  destruct (on_host_shared (spawn_command cmd (fst <$> p_ninep p)) sh) as [o E].
  destruct (on_host _ sh) as [[[[[l c] k] ch]|e] sh2]; simpl in E; subst sh2; intros [= <- <-].
  - intros [| | |]; simpl; rewrite ?Hfree; simpl; lia.
  - apply hands_over_none; by intros [].
Qed.

Lemma finish_start_hands_over listener cmd sid i (sh : shared) t' sh' :
  sh_starting sh = true -> finish_start listener cmd sid i sh = (t', sh') ->
  hands_over (Accepting listener cmd sid i) t' sh sh'.
Proof.
  unfold finish_start. intros Hheld.
  destruct (on_host_shared (hand_over listener cmd) sh) as [o E].
  destruct (on_host _ sh) as [[[]|e] sh2]; simpl in E; subst sh2; intros [= <- <-].
  2: { intros [| | |]; simpl; rewrite ?Hheld; simpl; lia. }
  intros [|n|n|n]; [simpl; rewrite Hheld; simpl; lia|..];
    lazymatch goal with |- context [locked ?l _] =>
      pose proof (locked_app l sh (new_object i) eq_refl eq_refl eq_refl) as Ha end;
    simpl in *; rewrite Ha; lia.
Qed.

Lemma read_item_hands_over n x items (sh : shared) t' sh' :
  sh_objects sh !! n = Some x -> stdin_locked x = true -> read_item n items sh = Some (t', sh') ->
  hands_over (StdinReading n items) t' sh sh'.
Proof.
  intros Hx Hl. unfold read_item, after_event. destruct (happened _ _); [|done].
  destruct items as [|i items]; intros [= <- <-]; [|apply hands_over_none; by intros []].
  unlock_update x Hx; rewrite Hl; simpl; lia.
Qed.

Lemma write_item_hands_over n x item items (sh : shared) t' sh' :
  sh_objects sh !! n = Some x -> stdin_locked x = true -> write_item n x item items sh = Some (t', sh') ->
  hands_over (StdinWriting n item items) t' sh sh'.
Proof.
  intros Hx Hl. unfold write_item, after_event. destruct (happened _ _); [|done].
  destruct (on_host_shared (call IoErr (fd_write_all (o_stdin x) item)) sh) as [o E].
  destruct (on_host _ sh) as [[[]|e] sh2]; simpl in E; subst sh2; intros [= <- <-].
  - apply hands_over_none; by intros [].
  - assert (sh_objects (with_host o sh) !! n = Some x) as Hx' by done.
    intros l. rewrite <- (locked_with_host l o sh). revert l.
    change (hands_over (StdinWriting n item items) (Answered (Err e)) (with_host o sh)
      (update n (lock_stdin false) (with_host o sh))).
    unlock_update x Hx'; rewrite Hl; simpl; lia.
Qed.

Lemma join_next_hands_over n k x sid ret (sh : shared) t' sh' :
  sh_objects sh !! n = Some x -> handles_locked x = true -> join_next n k x sid ret sh = Some (t', sh') ->
  hands_over (Joining n k sid ret) t' sh sh'.
Proof.
  intros Hx Hl. unfold join_next, after_event. destruct (o_handles x !! k) as [[h [|]]|].
  - intros [= <- <-]. unlock_update x Hx; rewrite Hl; simpl; lia.
  - destruct (happened _ _); [|done].
    destruct (on_host_shared (try_call (join h)) sh) as [o E].
    destruct (on_host _ sh) as [r sh2]; simpl in E; subst sh2; intros [= <- <-].
    assert (sh_objects (with_host o sh) !! n = Some x) as Hx' by done.
    intros l. rewrite <- (locked_with_host l o sh). revert l.
    change (hands_over (Joining n k sid ret) (Joining n (S k) sid ret) (with_host o sh)
      (update n (set_handles (<[k:=(h, true)]> (o_handles x))) (with_host o sh))).
    unlock_update x Hx'; rewrite Hl; simpl; lia.
  - intros [= <- <-]. unlock_update x Hx; rewrite Hl; simpl; lia.
Qed.

Lemma move_hands_over t (sh : shared) t' sh' :
  holds_only t sh -> move t sh = Some (t', sh') -> hands_over t t' sh sh'.
Proof.
  intros Hh Hm. destruct t; simpl in Hm; unfold table_free, after_event in Hm; try done.
  - by apply begin_hands_over.
  - destruct (sh_starting sh) eqn:Hs; [done|]. injection Hm as Hm. by apply begin_start_hands_over.
  - destruct (happened _ _); [|done]. injection Hm as Hm. apply finish_start_hands_over; [|done]. by apply (Hh TableLock).
  - destruct (sh_objects sh !! n) as [x|] eqn:Hx; simpl in Hm; [|done].
    destruct (stdin_locked x) eqn:El; simplify_eq. unlock_update x Hx; rewrite El; simpl; lia.
  - pose proof (Hh (StdinLock n) (Nat.eqb_refl n)) as Hl. simpl in Hl.
    destruct (sh_objects sh !! n) as [x|] eqn:Hx; [|done]. by eapply read_item_hands_over.
  - destruct (sh_objects sh !! n) as [x|] eqn:Hx; simpl in Hm; [|done].
    eapply write_item_hands_over; [done| |done].
    eapply holds_locked_object; [exact Hx|]. apply (Hh (StdinLock n)). simpl. apply Nat.eqb_refl.
  - destruct (sh_starting sh) eqn:Hs; [done|].
    destruct (find_session sid sh) as [[m x]|]; simplify_eq; apply hands_over_none; by intros [].
  - destruct (sh_objects sh !! n) as [x|] eqn:Hx; simpl in Hm; [|done].
    destruct (handles_locked x) eqn:El; simplify_eq. unlock_update x Hx.
  - destruct (sh_objects sh !! n) as [x|] eqn:Hx; simpl in Hm; [|done].
    destruct (child_locked x) eqn:El; simplify_eq. unlock_update x Hx; rewrite El; simpl; lia.
  - destruct (sh_objects sh !! n) as [x|] eqn:Hx; simpl in Hm; [|done].
    destruct (happened _ _); [|done]. destruct (wait_child _ _) as [st o]. simplify_eq.
    assert (child_locked x = true) as El.
    { eapply holds_locked_object; [exact Hx|]. apply (Hh (ChildLock n)). simpl. apply Nat.eqb_refl. }
    assert (sh_objects (with_host o sh) !! n = Some x) as Hx' by done.
    intros l. rewrite <- (locked_with_host l o sh). revert l.
    change (hands_over (WaitChild n sid) (WaitExited sid (exit_ret st)) (with_host o sh)
      (update n (lock_child false) (with_host o sh))).
    unlock_update x Hx'; rewrite El; simpl; lia.
  - destruct (sh_starting sh) eqn:Hs; [done|].
    destruct (find_session sid sh) as [[m x]|]; simplify_eq; apply hands_over_none; by intros [].
  - destruct (sh_objects sh !! n) as [x|] eqn:Hx; simpl in Hm; [|done].
    destruct (handles_locked x) eqn:El; simplify_eq. unlock_update x Hx; rewrite El; simpl; lia.
  - destruct (sh_objects sh !! n) as [x|] eqn:Hx; simpl in Hm; [|done].
    eapply join_next_hands_over; [done| |done].
    eapply holds_locked_object; [exact Hx|]. apply (Hh (HandlesLock n)). simpl. apply Nat.eqb_refl.
  - destruct (sh_starting sh) eqn:Hs; simplify_eq. apply hands_over_none; by intros [].
Qed.

(** ** Session objects are never dropped *)

Lemma on_host_objects {A} (m : M (server I O Fd Child Handle) ServerError A) (sh sh' : shared) r :
  on_host m sh = (r, sh') -> sh_objects sh' = sh_objects sh /\ sh_sessions sh' = sh_sessions sh
    /\ sh_pending sh' = sh_pending sh /\ sh_starting sh' = sh_starting sh.
Proof. intros E. destruct (on_host_shared m sh) as [o Eo]. rewrite E in Eo. simpl in Eo. by subst sh'. Qed.

Definition sessions_valid (sh : shared) : Prop :=
  forall sid n, sh_sessions sh !! sid = Some n -> (n < length (sh_objects sh))%nat.

Lemma find_session_valid sid (sh : shared) n x :
  find_session sid sh = Some (n, x) -> sh_objects sh !! n = Some x /\ sh_sessions sh !! sid = Some n.
Proof.
  unfold find_session. destruct (sh_sessions sh !! sid) as [m|] eqn:E; simpl; [|done].
  destruct (sh_objects sh !! m) as [y|] eqn:Ey; simpl; [|done]. by intros [= <- <-].
Qed.

(** What a move leaves valid. *)
Definition grows (sh sh' : shared) : Prop :=
  (length (sh_objects sh) <= length (sh_objects sh'))%nat /\ (sessions_valid sh -> sessions_valid sh').

Lemma grows_same (sh sh' : shared) :
  length (sh_objects sh') = length (sh_objects sh) -> sh_sessions sh' = sh_sessions sh -> grows sh sh'.
Proof. intros E1 E2. unfold grows, sessions_valid. by rewrite E1, E2. Qed.

Lemma grows_update n f (sh : shared) : grows sh (update n f sh).
Proof. apply grows_same; [|done]. unfold update. cbn. apply length_alter. Qed.

Lemma valid_grows (sh sh' : shared) o : grows sh sh' -> valid_object sh o -> valid_object sh' o.
Proof. intros [Hl _]. destruct o; simpl; [lia|done]. Qed.

Lemma finish_start_valid listener cmd sid i (sh : shared) t' sh' :
  finish_start listener cmd sid i sh = (t', sh') -> object_of t' = None /\ grows sh sh'.
Proof.
  unfold finish_start. destruct (on_host _ sh) as [r sh2] eqn:E.
  apply on_host_objects in E as (E1 & E2 & _). destruct r as [[]|e]; intros [= <- <-]; (split; [done|]).
  - split; simpl; [rewrite E1, length_app; lia|]. intros Hv k n. simpl.
    rewrite E1, E2, length_app. simpl. destruct (decide (k = sid)) as [->|Hne].
    + rewrite lookup_insert_eq. intros [= <-]. lia.
    + rewrite lookup_insert_ne by done. intros Hn%Hv. lia.
  - apply grows_same; simpl; by rewrite ?E1, ?E2.
Qed.

Lemma begin_valid r (sh : shared) t' sh' :
  sessions_valid sh -> begin r sh = Some (t', sh') -> valid_object sh (object_of t') /\ grows sh sh'.
Proof.
  intros Hv. destruct r; simpl; unfold table_free; intros Hb;
    repeat (case_match; simplify_eq/=; try done);
    repeat match goal with
    | H : find_session _ _ = Some _ |- _ => apply find_session_valid in H as [_ ?%Hv]
    | H : on_host _ _ = _ |- _ => apply on_host_objects in H as (E1 & E2 & _)
    end; (split; [done|apply grows_same; simpl; by rewrite ?E1, ?E2]).
Qed.

Lemma begin_start_valid cmd sid p (sh : shared) t' sh' :
  begin_start cmd sid p sh = (t', sh') -> object_of t' = None /\ grows sh sh'.
Proof.
  unfold begin_start. destruct (sh_sessions sh !! sid); [intros [= <- <-]; split; [done|by apply grows_same]|].
  destruct (on_host _ sh) as [r sh2] eqn:E. apply on_host_objects in E as (E1 & E2 & _).
  destruct r as [[[[l c] k] ch]|e]; intros [= <- <-]; (split; [done|apply grows_same; simpl; by rewrite ?E1, ?E2]).
Qed.

Lemma grows_trans (sh1 sh2 sh3 : shared) : grows sh1 sh2 -> grows sh2 sh3 -> grows sh1 sh3.
Proof. intros [? ?] [? ?]. split; [lia|auto]. Qed.

Lemma on_host_grows {A} (m : M (server I O Fd Child Handle) ServerError A) (sh sh' : shared) r :
  on_host m sh = (r, sh') -> grows sh sh'.
Proof. intros (E1 & E2 & _)%on_host_objects. apply grows_same; by rewrite ?E1, ?E2. Qed.

Lemma move_valid t (sh : shared) t' sh' :
  sessions_valid sh -> valid_object sh (object_of t) -> move t sh = Some (t', sh') ->
  valid_object sh (object_of t') /\ grows sh sh'.
Proof.
  intros Hv Ho Hm. destruct t; simpl in Hm; unfold table_free, after_event, read_item, write_item, join_next, after_event in Hm;
    try done; try (by eapply begin_valid).
  - destruct (sh_starting sh); [done|]. injection Hm as Hm. apply begin_start_valid in Hm as [-> ?]. by split.
  - destruct (happened _ _); [|done]. injection Hm as Hm. apply finish_start_valid in Hm as [-> ?]. by split.
  - destruct (sh_objects sh !! n) as [x|] eqn:Hx; simpl in Hm; [|done].
    destruct (stdin_locked x); simplify_eq. split; [done|apply grows_update].
  - destruct (happened _ _); [|done]. destruct items as [|i items]; simplify_eq; (split; [done|]);
      [apply grows_update|by apply grows_same].
  - destruct (sh_objects sh !! n) as [x|] eqn:Hx; simpl in Hm; [|done].
    destruct (happened _ _); [|done]. destruct (on_host _ sh) as [r sh2] eqn:E. apply on_host_grows in E.
    destruct r; simplify_eq; (split; [done|]); [done|]. eapply grows_trans; [done|apply grows_update].
  - destruct (sh_starting sh); [done|].
    destruct (find_session sid sh) as [[m x]|] eqn:E; simplify_eq; (split; [|by apply grows_same]); [|done].
    apply find_session_valid in E as [_ E]. by apply Hv in E.
  - destruct (sh_objects sh !! n) as [x|] eqn:Hx; simpl in Hm; [|done].
    destruct (handles_locked x); simplify_eq. split; [done|apply grows_update].
  - destruct (sh_objects sh !! n) as [x|] eqn:Hx; simpl in Hm; [|done].
    destruct (child_locked x); simplify_eq. split; [done|apply grows_update].
  - destruct (sh_objects sh !! n) as [x|] eqn:Hx; simpl in Hm; [|done].
    destruct (happened _ _); [|done]. destruct (wait_child _ _) as [st o]. simplify_eq.
    split; [done|]. eapply grows_trans; [|apply grows_update]. by apply grows_same.
  - destruct (sh_starting sh); [done|].
    destruct (find_session sid sh) as [[m x]|] eqn:E; simplify_eq; (split; [|by apply grows_same]); [|done].
    apply find_session_valid in E as [_ E]. by apply Hv in E.
  - destruct (sh_objects sh !! n) as [x|] eqn:Hx; simpl in Hm; [|done].
    destruct (handles_locked x); simplify_eq. split; [done|apply grows_update].
  - destruct (sh_objects sh !! n) as [x|] eqn:Hx; simpl in Hm; [|done].
    destruct (o_handles x !! k) as [[h [|]]|]; [simplify_eq; split; [done|apply grows_update]| |
      simplify_eq; split; [done|apply grows_update]].
    destruct (happened _ _); [|done]. destruct (on_host _ sh) as [r sh2] eqn:E. apply on_host_grows in E.
    simplify_eq. split; [done|]. eapply grows_trans; [done|apply grows_update].
  - destruct (sh_starting sh); simplify_eq. split; [done|]. split; [done|].
    intros Hs k n. simpl. intros [_ Hn]%lookup_delete_Some. by apply Hs in Hn.
Qed.

(** ** The invariant *)

Definition owners (c : state) : Prop := forall l,
  count (holds l) (st_threads c) = Nat.b2n (locked l (st_shared c)).

Definition valid (c : state) : Prop :=
  sessions_valid (st_shared c)
  /\ forall i t, st_threads c !! i = Some t -> valid_object (st_shared c) (object_of t).

Lemma owners_hold c i t : owners c -> st_threads c !! i = Some t -> holds_only t (st_shared c).
Proof.
  intros Ho Hi l Hl. specialize (Ho l).
  pose proof (sum_lookup (fun t => Nat.b2n (holds l t)) _ _ _ Hi) as Hc. simpl in Hc. rewrite Hl in Hc.
  fold (count (holds l) (st_threads c)) in Hc. rewrite Ho in Hc. simpl in Hc.
  destruct (locked l (st_shared c)); simpl in Hc; [done|lia].
Qed.

Lemma step_inv l c c' : owners c -> valid c -> server_step l c = Some c' -> owners c' /\ valid c'.
Proof.
  intros Ho [Hs Ht]. destruct l as [r|i|o]; simpl.
  - intros [= <-]. split.
    + intros l. simpl. unfold count. rewrite sum_list_with_app. simpl. fold (count (holds l) (st_threads c)).
      rewrite Ho. by destruct l; simpl; lia.
    + split; [done|]. intros i t [Hi|[_ Hi]]%lookup_app_Some; [by eapply Ht|].
      apply list_lookup_singleton_Some in Hi as [_ <-]. done.
  - destruct (st_threads c !! i) as [t|] eqn:Hi; simpl; [|done].
    destruct (move t (st_shared c)) as [[t' sh]|] eqn:Hm; simpl; [|done]. intros [= <-].
    pose proof (move_hands_over _ _ _ _ (owners_hold _ _ _ Ho Hi) Hm) as Hh.
    destruct (move_valid _ _ _ _ Hs (Ht _ _ Hi) Hm) as [Hv Hg]. split; [|split].
    + intros l. simpl. specialize (Hh l). specialize (Ho l).
      pose proof (sum_insert (fun t => Nat.b2n (holds l t)) _ _ _ t' Hi) as Hc. simpl in Hc.
      unfold count in *. lia.
    + by apply Hg.
    + intros j tj. simpl. destruct (decide (i = j)) as [<-|Hne].
      * rewrite list_lookup_insert_eq by (by eapply lookup_lt_Some). intros [= <-]. by eapply valid_grows.
      * rewrite list_lookup_insert_ne by done. intros Hj. eapply valid_grows; [done|by eapply Ht].
  - intros [= <-]. split; [|done]. intros l. simpl. rewrite Ho. by rewrite locked_with_host.
Qed.

Lemma server_run_app ls ls' (c : state) : server_run (ls ++ ls') c = server_run ls c ≫= server_run ls'.
Proof.
  revert c. induction ls as [|l ls IH]; intros c; simpl; [done|].
  destruct (server_step l c); simpl; [apply IH|done].
Qed.

Lemma run_inv ls c c' : owners c -> valid c -> server_run ls c = Some c' -> owners c' /\ valid c'.
Proof.
  revert c. induction ls as [|l ls IH]; intros c Ho Hv; simpl; [by intros [= <-]|].
  destruct (server_step l c) as [c1|] eqn:E; simpl; [|done].
  destruct (step_inv _ _ _ Ho Hv E). by apply IH.
Qed.

Lemma reachable_inv c : server_reachable c -> owners c /\ valid c.
Proof.
  intros (o & ls & H). apply (run_inv _ _ _) in H; [done| |].
  - intros l. by destruct l.
  - split; [intros sid n; simpl; by rewrite lookup_empty|]. intros i t. simpl. by rewrite lookup_nil.
Qed.

(** A lock has one holder. *)
Lemma owner_unique c l i j t t' : owners c ->
  st_threads c !! i = Some t -> holds l t = true -> st_threads c !! j = Some t' -> holds l t' = true -> i = j.
Proof.
  intros Ho Hi Ht Hj Ht'. destruct (decide (i = j)) as [|Hne]; [done|exfalso].
  pose proof (sum_insert (fun t => Nat.b2n (holds l t)) _ _ _ Panicked Hi) as Hs.
  pose proof (sum_lookup (fun t => Nat.b2n (holds l t)) (<[i:=Panicked]> (st_threads c)) j t') as Hl.
  rewrite list_lookup_insert_ne in Hl by done. specialize (Hl Hj).
  assert (holds l (Panicked : thread) = false) as Hp by (by destruct l).
  specialize (Ho l). unfold count in Ho. simpl in *. rewrite Ht, Hp in Hs. rewrite Ht' in Hl. simpl in *.
  destruct (locked l (st_shared c)); simpl in Ho; lia.
Qed.

(** ** Waiting *)

(** Why a thread cannot move. *)
Lemma stuck_thread t (sh : shared) :
  valid_object sh (object_of t) -> move t sh = None ->
  finished t = true
  \/ (exists e, waits_for t sh = Some e /\ happened e (sh_host sh) = false)
  \/ exists l, wants t = Some l /\ locked l sh = true.
Proof.
  intros Ho Hm.
  assert (forall n, object_of t = Some n -> exists x, sh_objects sh !! n = Some x) as Hx.
  { intros n E. rewrite E in Ho. simpl in Ho. by apply lookup_lt_is_Some_2 in Ho. }
  destruct t; simpl in *; unfold table_free, after_event, read_item, write_item, join_next, after_event in Hm;
    try (destruct (Hx _ eq_refl) as [x Ex]; rewrite Ex in Hm; simpl in *; rewrite ?Ex; simpl).
  all: try (by left).
  - right. right. destruct r; simpl in *; unfold table_free in Hm; exists TableLock; simpl;
      repeat (case_match; simplify_eq/=; try done).
  - right. right. exists TableLock. simpl. by destruct (sh_starting sh).
  - right. left. eexists. split; [done|]. by destruct (happened _ _).
  - right. right. eexists. split; [done|]. simpl. rewrite Ex. simpl. by destruct (stdin_locked x).
  - right. left. eexists. split; [done|]. destruct (happened _ _); [|done]. by destruct items.
  - right. left. eexists. split; [done|].
    destruct (happened _ _); [|done]. by destruct (on_host _ _) as [[]].
  - right. right. exists TableLock. simpl. split; [done|]. destruct (sh_starting sh); [done|].
    by destruct (find_session sid sh) as [[]|].
  - right. right. eexists. split; [done|]. simpl. rewrite Ex. simpl. by destruct (handles_locked x).
  - right. right. eexists. split; [done|]. simpl. rewrite Ex. simpl. by destruct (child_locked x).
  - right. left. eexists. split; [done|]. destruct (happened _ _); [|done]. by destruct (wait_child _ _).
  - right. right. exists TableLock. simpl. split; [done|]. destruct (sh_starting sh); [done|].
    by destruct (find_session sid sh) as [[]|].
  - right. right. eexists. split; [done|]. simpl. rewrite Ex. simpl. by destruct (handles_locked x).
  - right. left. destruct (o_handles x !! k) as [[h [|]]|]; try done. eexists. split; [done|].
    destruct (happened _ _); [|done]. by destruct (on_host _ _).
  - right. right. exists TableLock. simpl. by destruct (sh_starting sh).
Qed.

(** A thread that holds a lock does not wait for one. *)
Lemma holder_wants_none l t : holds l t = true -> wants t = None /\ finished t = false.
Proof. by destruct l, t; simpl. Qed.

(** ** A start that waits for its launcher *)

(** A request for a session that has not been looked up yet, or a start that
    has not got to the table. *)
Definition needs_table (t : thread) : bool :=
  match wants t with Some TableLock => true | _ => false end.

(** What other threads can do meanwhile. *)
Lemma move_while_starting t (sh : shared) t' sh' :
  sh_starting sh = true -> holds TableLock t = false -> move t sh = Some (t', sh') ->
  needs_table t = false /\ sh_sessions sh' = sh_sessions sh.
Proof.
  intros Hs Ht Em. destruct t; simpl in Em; try done;
    try (destruct r; simpl in Em);
    unfold table_free, after_event, read_item, write_item, join_next, after_event, mbind, option_bind in Em;
    rewrite ?Hs in Em; try done;
    repeat (case_match; simplify_eq/=; try done);
    repeat match goal with H : on_host _ _ = _ |- _ => apply on_host_objects in H as (_ & ? & _) end;
    by split.
Qed.

Lemma blocked_step l c c' i a b s k :
  owners c -> st_threads c !! i = Some (Accepting a b s k) -> l <> Move i ->
  server_step l c = Some c' ->
  st_threads c' !! i = Some (Accepting a b s k)
  /\ sh_sessions (st_shared c') = sh_sessions (st_shared c)
  /\ forall j t, st_threads c !! j = Some t -> needs_table t = true -> st_threads c' !! j = Some t.
Proof.
  intros Ho Hi Hl. assert (sh_starting (st_shared c) = true) as Hs
    by (apply (owners_hold _ _ _ Ho Hi TableLock); done).
  destruct l as [r|m|o]; simpl.
  - intros [= <-]. simpl. split; [by apply lookup_app_l_Some|]. split; [done|].
    intros j t Hj _. by apply lookup_app_l_Some.
  - destruct (st_threads c !! m) as [t|] eqn:Hm; simpl; [|done].
    destruct (move t (st_shared c)) as [[t' sh]|] eqn:Em; simpl; [|done]. intros [= <-]. simpl.
    assert (m <> i) as Hne by congruence. rewrite list_lookup_insert_ne by done.
    assert (holds TableLock t = false) as Ht.
    { destruct (holds TableLock t) eqn:Et; [|done]. exfalso. apply Hne. by eapply (owner_unique c TableLock). }
    destruct (move_while_starting _ _ _ _ Hs Ht Em) as [Hn Hse].
    split; [done|]. split; [done|]. intros j tj Hj Hnj.
    rewrite list_lookup_insert_ne; [done|]. intros <-. congruence.
  - intros [= <-]. simpl. done.
Qed.

(** C27: a start that waits for its launcher holds up the whole server.  As
    long as it has not moved, the table of sessions is as it was, and every
    request that needs it, for whatever session, is where it was. *)
Theorem start_blocks_sessions c ls c' i listener cmd sid session :
  server_reachable c -> st_threads c !! i = Some (Accepting listener cmd sid session) ->
  server_run ls c = Some c' -> Move i ∉ ls ->
  sh_sessions (st_shared c') = sh_sessions (st_shared c)
  /\ forall j t, st_threads c !! j = Some t -> needs_table t = true -> st_threads c' !! j = Some t.
Proof.
  intros [Ho Hv]%reachable_inv. revert c Ho Hv. induction ls as [|l ls IH]; intros c Ho Hv Hi Hrun Hl; simpl in Hrun.
  { by simplify_eq. }
  destruct (server_step l c) as [c1|] eqn:E; simpl in Hrun; [|done].
  apply not_elem_of_cons in Hl as [Hne Hl].
  destruct (blocked_step _ _ _ _ _ _ _ _ Ho Hi (not_eq_sym Hne) E) as (Hi1 & Hs1 & Hj1).
  destruct (step_inv _ _ _ Ho Hv E) as [Ho1 Hv1].
  destruct (IH c1 Ho1 Hv1 Hi1 Hrun Hl) as [Hs Hj]. split; [congruence|]. auto.
Qed.
End Props.

(** ** Runs *)

#[local] Existing Instance mem_host.
#[local] Existing Instance prost_ref.

(** A world in which everything has happened, and one in which nothing has. *)
Definition prompt_world : World (list (list byte)) nat nat nat nat := fun _ _ => true.
Definition still_world : World (list (list byte)) nat nat nat nat := fun _ _ => false.

Abbreviation mem_state := (server_state nat (list (list byte)) nat nat nat nat).

(** Session 1 waits for its launcher, and with it a request for the output of
    session 2. *)
Definition held_up_run : list (server_label nat (list (list byte))) :=
  [Arrive (Dial 1%nat); Move 0; Arrive (Start sh 1%nat); Move 1; Move 1; Arrive (Stdout 2%nat)].

Definition held_up : mem_state :=
  default (server_init []) (server_run (WO := still_world) held_up_run (server_init [])).

Lemma held_up_reached : server_run (WO := still_world) held_up_run (server_init []) = Some held_up.
Proof. vm_compute. reflexivity. Qed.

Lemma start_blocks_sessions_witness :
  exists c', server_run (WO := still_world) [Arrive (Wait 2%nat); Arrive (Dial 3%nat); Move 4] held_up = Some c'
    /\ st_threads c' !! 4%nat = Some (Answered (Ok None))
    /\ sh_sessions (st_shared c') = ∅
    /\ st_threads c' !! 2%nat = Some (Called (Stdout 2%nat)).
Proof.
  set (c' := default (server_init []) (server_run (WO := still_world)
    [Arrive (Wait 2%nat); Arrive (Dial 3%nat); Move 4] held_up)).
  assert (server_run (WO := still_world) [Arrive (Wait 2%nat); Arrive (Dial 3%nat); Move 4] held_up = Some c') as Hr
    by (vm_compute; reflexivity).
  assert (exists l cmd sid i, st_threads held_up !! 1%nat = Some (Accepting l cmd sid i)) as (l & cmd & sid & i & H1)
    by (vm_compute; by do 4 eexists).
  assert ((Move 1 : server_label nat (list (list byte))) ∉ [Arrive (Wait 2%nat); Arrive (Dial 3%nat); (Move 4 : server_label nat (list (list byte)))]) as Hn.
  { intros H. repeat (apply elem_of_cons in H as [H|H]; [discriminate H|]). by apply elem_of_nil in H. }
  exists c'. split; [exact Hr|]. split; [vm_compute; reflexivity|].
  destruct (start_blocks_sessions (WO := still_world) held_up _ c' 1%nat l cmd sid i
    (ex_intro _ [] (ex_intro _ held_up_run held_up_reached)) H1 Hr Hn) as [Hse Hj].
  split; [rewrite Hse; vm_compute; reflexivity|]. apply Hj; vm_compute; reflexivity.
Defined.
