(* ===== verification/StepsTasks.v ===== *)
(** * The tasks of a session

    How the list of a session's tasks changes as the threads of Steps.v move:
    a request pushes one, the wait marks one as joined, a new session begins
    with those of its 9p forwarder, and nothing else.  It follows that a second
    wait for a session, once the first has begun to join, can only panic. *)

From Stdlib Require Import Strings.Byte.
From S2P Require Import Prelude Bytes Io Error Fcall Utils Text Namespace Launcher LauncherProps.
From S2P Require Import Server ServerProps Steps StepsProps.

Section Tasks.
Context {I : Type} `{CI : Countable I}.
Context {O Fd Child Sock Handle : Type} `{HO : Host O Fd Child Sock Handle}.
Context {WO : World O Sock Child Handle Fd}.
Context {DecodeError : Set} `{PR : Prost DecodeError}.

Abbreviation shared := (Steps.shared I O Fd Child Handle).
Abbreviation thread := (Steps.thread I Fd Child Sock Handle).
Abbreviation state := (Steps.server_state I O Fd Child Sock Handle).
Abbreviation label := (Steps.server_label I O).

(** The tasks of object [m], none when there is no such object. *)
Definition tasks_of (sh : shared) (m : nat) : list (Handle * bool) :=
  from_option o_handles [] (sh_objects sh !! m).

Inductive tasks_move (t t' : thread) (sh sh' : shared) (m : nat) : Prop :=
  | tasks_same : tasks_of sh' m = tasks_of sh m -> tasks_move t t' sh sh' m
  | tasks_pushed h : t = PushLocking m h -> t' = Answered (Ok None) ->
      tasks_of sh' m = tasks_of sh m ++ [(h, false)] -> tasks_move t t' sh sh' m
  | tasks_joined k s ret h : t = Joining m k s ret -> t' = Joining m (S k) s ret ->
      tasks_of sh m !! k = Some (h, false) -> happened (Finished h) (sh_host sh) = true ->
      tasks_of sh' m = <[k := (h, true)]> (tasks_of sh m) -> tasks_move t t' sh sh' m
  | tasks_new l c s session : t = Accepting l c s session -> m = length (sh_objects sh) ->
      tasks_of sh' m = map (fun h => (h, false)) (s_handles session) -> tasks_move t t' sh sh' m.

Lemma tasks_of_update n f (sh : shared) m x : sh_objects sh !! n = Some x ->
  tasks_of (update n f sh) m = if decide (n = m) then o_handles (f x) else tasks_of sh m.
Proof.
  intros Hx. unfold tasks_of. rewrite objects_update. destruct (decide (n = m)) as [<-|]; [by rewrite Hx|done].
Qed.

(** A lock of an object is not one of its tasks. *)
Lemma tasks_of_lock n f (sh : shared) m :
  (forall x, o_handles (f x) = o_handles x) -> tasks_of (update n f sh) m = tasks_of sh m.
Proof.
  intros Hf. unfold tasks_of. rewrite objects_update. destruct (decide (n = m)) as [<-|]; [|done].
  destruct (sh_objects sh !! n) as [x|]; simpl; [apply Hf|done].
Qed.

Lemma tasks_of_on_host {A} (m : M (server I O Fd Child Handle) ServerError A) (sh sh' : shared) r n :
  on_host m sh = (r, sh') -> tasks_of sh' n = tasks_of sh n.
Proof. intros (E & _)%on_host_objects. unfold tasks_of. by rewrite E. Qed.

Lemma finish_start_tasks listener cmd sid session (sh : shared) t' sh' m :
  finish_start listener cmd sid session sh = (t', sh') ->
  tasks_move (Accepting listener cmd sid session) t' sh sh' m.
Proof.
  unfold finish_start. destruct (on_host _ sh) as [[[]|e] sh2] eqn:E; intros [= <- <-];
    [|apply tasks_same; change (tasks_of sh2 m = tasks_of sh m); by eapply tasks_of_on_host].
  apply on_host_objects in E as (E & _). destruct (decide (m = length (sh_objects sh))) as [->|Hm].
  - eapply tasks_new; [done|done|]. unfold tasks_of. simpl. rewrite E, list_lookup_middle; done.
  - apply tasks_same. unfold tasks_of. simpl. rewrite E. destruct (decide (m < length (sh_objects sh))%nat).
    + by rewrite lookup_app_l.
    + rewrite lookup_app_r, (lookup_ge_None_2 (sh_objects sh)) by lia.
      destruct (m - length (sh_objects sh))%nat as [|j] eqn:Ej; [lia|]. done.
Qed.

Lemma join_next_tasks n k x sid ret (sh : shared) t' sh' m :
  sh_objects sh !! n = Some x -> join_next n k x sid ret sh = Some (t', sh') ->
  tasks_move (Joining n k sid ret) t' sh sh' m.
Proof.
  intros Hx. unfold join_next, after_event. destruct (o_handles x !! k) as [[h [|]]|] eqn:Hk.
  - intros [= <- <-]. apply tasks_same. by apply tasks_of_lock.
  - destruct (happened _ _) eqn:Hh; [|done]. destruct (on_host _ sh) as [r sh2] eqn:E.
    apply on_host_objects in E as (E & _). intros [= <- <-]. rewrite <- E in Hx.
    pose proof (tasks_of_update n (set_handles (<[k := (h, true)]> (o_handles x))) sh2 m x Hx) as Hu.
    destruct (decide (n = m)) as [<-|].
    + assert (tasks_of sh n = o_handles x) as Ho by (unfold tasks_of; by rewrite <- E, Hx).
      eapply tasks_joined; [done|done| |exact Hh|]; by rewrite Ho.
    + apply tasks_same. rewrite Hu. unfold tasks_of. by rewrite E.
  - intros [= <- <-]. apply tasks_same. by apply tasks_of_lock.
Qed.

Lemma move_tasks t (sh : shared) t' sh' m : move t sh = Some (t', sh') -> tasks_move t t' sh sh' m.
Proof.
  intros Hm. destruct t; simpl in Hm; unfold table_free, begin_start, read_item, write_item, after_event in Hm; try done.
  - destruct r; simpl in Hm; unfold table_free in Hm; repeat (case_match; simplify_eq/=; try done);
      apply tasks_same; try done; lazymatch goal with H : on_host _ _ = _ |- _ =>
        apply (tasks_of_on_host _ _ _ _ m) in H end; done.
  - repeat (case_match; simplify_eq/=; try done);
      apply tasks_same; try done; lazymatch goal with H : on_host _ _ = _ |- _ =>
        apply (tasks_of_on_host _ _ _ _ m) in H end; done.
  - destruct (happened _ _); [|done]. injection Hm as Hm. by apply finish_start_tasks.
  - destruct (sh_objects sh !! n) as [x|]; simpl in Hm; [|done].
    destruct (stdin_locked x); simplify_eq. apply tasks_same. by apply tasks_of_lock.
  - destruct (happened _ _); [|done]. destruct items; simplify_eq; apply tasks_same; [by apply tasks_of_lock|done].
  - destruct (sh_objects sh !! n) as [x|]; simpl in Hm; [|done]. destruct (happened _ _); [|done].
    destruct (on_host _ sh) as [[[]|e] sh2] eqn:E; apply (tasks_of_on_host _ _ _ _ m) in E;
      simplify_eq; apply tasks_same; [done|]. rewrite <- E. by apply tasks_of_lock.
  - destruct (sh_starting sh); [done|].
    destruct (find_session sid sh) as [[? ?]|]; simplify_eq; by apply tasks_same.
  - destruct (sh_objects sh !! n) as [x|] eqn:Hx; simpl in Hm; [|done].
    destruct (handles_locked x); simplify_eq.
    pose proof (tasks_of_update n (set_handles (o_handles x ++ [(h, false)])) sh m x Hx) as Hu.
    destruct (decide (n = m)) as [<-|]; [|by apply tasks_same].
    eapply tasks_pushed; [done|done|]. rewrite Hu. unfold tasks_of. by rewrite Hx.
  - destruct (sh_objects sh !! n) as [x|]; simpl in Hm; [|done].
    destruct (child_locked x); simplify_eq. apply tasks_same. by apply tasks_of_lock.
  - destruct (sh_objects sh !! n) as [x|]; simpl in Hm; [|done]. destruct (happened _ _); [|done].
    destruct (wait_child _ _) as [st o]. simplify_eq. apply tasks_same.
    by apply (tasks_of_lock n (lock_child false) (with_host o sh)).
  - destruct (sh_starting sh); [done|].
    destruct (find_session sid sh) as [[? ?]|]; simplify_eq; by apply tasks_same.
  - destruct (sh_objects sh !! n) as [x|]; simpl in Hm; [|done].
    destruct (handles_locked x); simplify_eq. apply tasks_same. by apply tasks_of_lock.
  - destruct (sh_objects sh !! n) as [x|] eqn:Hx; simpl in Hm; [|done]. by eapply join_next_tasks.
  - destruct (sh_starting sh); simplify_eq. by apply tasks_same.
Qed.

(** A task that was joined stays in its place. *)
Lemma move_keeps_joined t (sh : shared) t' sh' m k h :
  move t sh = Some (t', sh') -> tasks_of sh m !! k = Some (h, true) -> tasks_of sh' m !! k = Some (h, true).
Proof.
  intros Hm Hk. destruct (move_tasks _ _ _ _ m Hm) as [E|h' _ _ E|j s ret h' _ _ Hj _ E|l c s session _ -> _].
  - by rewrite E.
  - rewrite E. by apply lookup_app_l_Some.
  - rewrite E, list_lookup_insert_ne; [done|]. intros ->. congruence.
  - unfold tasks_of in Hk. by rewrite (lookup_ge_None_2 (sh_objects sh)) in Hk by lia.
Qed.

Lemma step_keeps_joined l (c c' : state) m k h :
  server_step l c = Some c' -> tasks_of (st_shared c) m !! k = Some (h, true) ->
  tasks_of (st_shared c') m !! k = Some (h, true).
Proof.
  destruct l as [r|i|o]; simpl; [by intros [= <-]| |by intros [= <-]].
  destruct (st_threads c !! i) as [t|]; simpl; [|done].
  destruct (move t (st_shared c)) as [[t' sh]|] eqn:Em; simpl; [|done]. intros [= <-]. by apply (move_keeps_joined t _ t').
Qed.

(** ** A second wait *)

(** Where a wait for a session whose first task has been joined can be. *)
Definition second_wait (n : nat) (sid : I) (ret : result ServerError i32) (t : thread) : Prop :=
  t = WaitHandles n sid ret \/ t = Joining n 0 sid ret \/ t = Panicked.

Lemma joining_panics n sid ret (sh : shared) h :
  tasks_of sh n !! 0%nat = Some (h, true) -> exists sh', move (Joining n 0 sid ret) sh = Some (Panicked, sh').
Proof.
  unfold tasks_of. simpl. destruct (sh_objects sh !! n) as [x|]; simpl; [|done].
  intros Hk. unfold join_next. rewrite Hk. by eexists.
Qed.

Lemma second_wait_step l (c c' : state) n sid ret h j t :
  server_step l c = Some c' -> tasks_of (st_shared c) n !! 0%nat = Some (h, true) ->
  st_threads c !! j = Some t -> second_wait n sid ret t ->
  exists t', st_threads c' !! j = Some t' /\ second_wait n sid ret t'.
Proof.
  intros Hl Hk Hj Ht. destruct l as [r|i|o]; simpl in Hl; [|destruct (decide (i = j)) as [->|Hne]|].
  - simplify_eq. exists t. split; [by apply lookup_app_l_Some|done].
  - rewrite Hj in Hl. simpl in Hl. destruct (move t (st_shared c)) as [[t' sh]|] eqn:Em; simpl in Hl; [|done].
    simplify_eq. exists t'. simpl. rewrite list_lookup_insert_eq by (by eapply lookup_lt_Some). split; [done|].
    destruct Ht as [->|[->| ->]]; [|destruct (joining_panics _ sid ret _ _ Hk) as [sh' E]; rewrite E in Em; simplify_eq; by right; right|done].
    simpl in Em. destruct (sh_objects (st_shared c) !! n) as [x|]; simpl in Em; [|done].
    destruct (handles_locked x); simplify_eq. by right; left.
  - destruct (st_threads c !! i) as [ti|]; simpl in Hl; [|done].
    destruct (move ti (st_shared c)) as [[ti' sh]|]; simpl in Hl; [|done]. simplify_eq. exists t. simpl.
    by rewrite list_lookup_insert_ne.
  - simplify_eq. by exists t.
Qed.

(** C28: a second wait for a session panics.  Once a wait has joined the first
    of the session's tasks, another that has found the session never answers,
    whatever the other threads do: it waits for the lock of the tasks, takes it
    as soon as it is free, and panics at its next move. *)
Theorem second_wait_panics ls (c c' : state) n sid ret h j :
  st_threads c !! j = Some (WaitHandles n sid ret) -> tasks_of (st_shared c) n !! 0%nat = Some (h, true) ->
  server_run ls c = Some c' ->
  exists t, st_threads c' !! j = Some t /\ second_wait n sid ret t
    /\ (t = WaitHandles n sid ret -> locked (HandlesLock n) (st_shared c') = false ->
         exists c2, server_step (Move j) c' = Some c2 /\ st_threads c2 !! j = Some (Joining n 0 sid ret))
    /\ (t = Joining n 0 sid ret -> exists c2, server_step (Move j) c' = Some c2 /\ st_threads c2 !! j = Some Panicked).
Proof.
  intros Hj Hk Hrun.
  assert (exists t, st_threads c' !! j = Some t /\ second_wait n sid ret t
    /\ tasks_of (st_shared c') n !! 0%nat = Some (h, true)) as (t & Hj' & Ht & Hk').
  { assert (exists t, st_threads c !! j = Some t /\ second_wait n sid ret t) as (t & Ht & Hs) by (eexists; split; [done|by left]).
    clear Hj. revert c t Ht Hs Hk Hrun. induction ls as [|l ls IH]; intros c t Ht Hs Hk Hrun; simpl in Hrun.
    { simplify_eq. by exists t. }
    destruct (server_step l c) as [c1|] eqn:E; simpl in Hrun; [|done].
    destruct (second_wait_step _ _ _ _ _ _ _ _ _ E Hk Ht Hs) as (t1 & Ht1 & Hs1).
    by apply (IH c1 t1); [| |eapply step_keeps_joined|]. }
  pose proof (lookup_lt_Some _ _ _ Hj') as Hlt.
  exists t. split; [done|]. split; [done|]. split; intros ->.
  - intros Hl. simpl in Hl. simpl. rewrite Hj'. unfold tasks_of in Hk'. simpl.
    destruct (sh_objects (st_shared c') !! n) as [x|]; simpl in *; [|done]. rewrite Hl.
    eexists. split; [done|]. by apply list_lookup_insert_eq.
  - destruct (joining_panics _ sid ret _ _ Hk') as [sh E]. cbn [server_step]. rewrite Hj'. cbn [mbind option_bind].
    rewrite E. eexists. split; [done|]. by apply list_lookup_insert_eq.
Qed.
End Tasks.

(** ** A run with two waits for one session *)

#[local] Existing Instance mem_host.
#[local] Existing Instance prost_ref.

(** A session with one task; both waits have found it, and the first has joined
    the task. *)
Definition two_waits : mem_state := default (server_init []) (server_run (WO := prompt_world)
  ([Arrive (Dial 1%nat); Move 0; Arrive (Start sh 1%nat)] ++ replicate 3 (Move 1)
   ++ [Arrive (Stdout 1%nat)] ++ replicate 3 (Move 2)
   ++ [Arrive (Wait 1%nat); Arrive (Wait 1%nat)] ++ replicate 4 (Move 3) ++ replicate 4 (Move 4)
   ++ replicate 2 (Move 3)) (server_init [])).

Lemma second_wait_panics_witness :
  exists c', server_run (WO := prompt_world) (replicate 2 (Move 3) ++ replicate 2 (Move 4)) two_waits = Some c'
    /\ st_threads c' !! 3%nat = Some (Answered (Ok (Some 0)))
    /\ exists t, st_threads c' !! 4%nat = Some t /\ second_wait 0 1%nat (Ok 0) t /\ t = Panicked.
Proof.
  set (c' := default (server_init []) (server_run (WO := prompt_world) (replicate 2 (Move 3) ++ replicate 2 (Move 4)) two_waits)).
  assert (server_run (WO := prompt_world) (replicate 2 (Move 3) ++ replicate 2 (Move 4)) two_waits = Some c') as Hr
    by (vm_compute; reflexivity).
  exists c'. split; [exact Hr|]. split; [vm_compute; reflexivity|].
  destruct (second_wait_panics (WO := prompt_world) (replicate 2 (Move 3) ++ replicate 2 (Move 4)) two_waits c' 0%nat 1%nat (Ok 0) 7%nat 4%nat) as (t & Ht & Hs & _);
    [vm_compute; reflexivity|vm_compute; reflexivity|exact Hr|].
  exists t. split; [exact Ht|]. split; [exact Hs|].
  assert (st_threads c' !! 4%nat = Some Panicked) as Hp by (vm_compute; reflexivity). congruence.
Defined.
