(* ===== verification/StepsWaits.v ===== *)
(** * One wait for each session

    A second wait for a session can panic (StepsProps.v).  Here is the other
    half: as long as no session is waited for twice, no thread of the
    interleaved server ever panics, whatever else arrives and in whatever
    order the threads move. *)

From Stdlib Require Import Strings.Byte.
From S2P Require Import Prelude Bytes Io Error Fcall Utils Text Namespace Launcher LauncherProps.
From S2P Require Import Server ServerProps Steps StepsProps.

Section Waits.
Context {I : Type} `{CI : Countable I}.
Context {O Fd Child Sock Handle : Type} `{HO : Host O Fd Child Sock Handle}.
Context {WO : World O Sock Child Handle Fd}.
Context {DecodeError : Set} `{PR : Prost DecodeError}.

Abbreviation shared := (Steps.shared I O Fd Child Handle).
Abbreviation thread := (Steps.thread I Fd Child Sock Handle).
Abbreviation state := (Steps.server_state I O Fd Child Sock Handle).
Abbreviation label := (Steps.server_label I O).

(** ** The waits for a session *)

(** A wait for [sid] that has not come to the tasks yet. *)
Definition waits_on (sid : I) (t : thread) : bool :=
  match t with
  | Called (Wait s) | WaitLocking _ s | WaitChild _ s | WaitExited s _ | WaitHandles _ s _ => bool_decide (s = sid)
  | _ => false
  end.

(** One that is joining them. *)
Definition joins (sid : I) (t : thread) : bool :=
  match t with Joining _ _ s _ => bool_decide (s = sid) | _ => false end.

(** One that is still to come. *)
Definition asks (sid : I) (l : label) : bool :=
  match l with Arrive (Wait s) => bool_decide (s = sid) | _ => false end.

(** Task [k] of object [n] has been joined. *)
Definition joined (sh : shared) (n k : nat) : Prop :=
  exists x h, sh_objects sh !! n = Some x /\ o_handles x !! k = Some (h, true).

(** The object whose tasks a thread is going to join, and for which session. *)
Definition target (t : thread) : option (nat * I) :=
  match t with WaitHandles n s _ | Joining n _ s _ => Some (n, s) | _ => None end.

(** ** What a move does to them *)

Record wait_move (t t' : thread) (sh sh' : shared) (news : list I) : Prop := {
  wm_length : length (sh_objects sh') = (length (sh_objects sh) + length news)%nat;
  wm_sessions : forall s n, sh_sessions sh' !! s = Some n ->
    sh_sessions sh !! s = Some n \/ (n = length (sh_objects sh) /\ news = [s]);
  wm_joined : forall n k, joined sh' n k ->
    joined sh n k \/ exists s ret, t = Joining n k s ret /\ t' = Joining n (S k) s ret;
  wm_waits : forall s, (Nat.b2n (waits_on s t') + Nat.b2n (joins s t') <= Nat.b2n (waits_on s t) + Nat.b2n (joins s t)
    /\ Nat.b2n (waits_on s t') <= Nat.b2n (waits_on s t))%nat;
  wm_target : forall n s, target t' = Some (n, s) -> target t = Some (n, s) \/ sh_sessions sh !! s = Some n;
  wm_joining : forall n k s ret, t' = Joining n k s ret ->
    t = WaitHandles n s ret \/ exists k', k = S k' /\ t = Joining n k' s ret;
  wm_panicked : t' = Panicked -> exists n k s ret, t = Joining n k s ret /\ joined sh n k
}.

(** Most moves leave the tasks, the table and the number of objects alone. *)
Lemma wait_move_same (t t' : thread) (sh sh' : shared) :
  (forall n k, joined sh' n k -> joined sh n k) ->
  length (sh_objects sh') = length (sh_objects sh) -> sh_sessions sh' = sh_sessions sh ->
  (forall s, (Nat.b2n (waits_on s t') + Nat.b2n (joins s t') <= Nat.b2n (waits_on s t) + Nat.b2n (joins s t)
    /\ Nat.b2n (waits_on s t') <= Nat.b2n (waits_on s t))%nat) ->
  (forall n s, target t' = Some (n, s) -> target t = Some (n, s) \/ sh_sessions sh !! s = Some n) ->
  (forall n k s ret, t' = Joining n k s ret -> t = WaitHandles n s ret) -> t' <> Panicked ->
  wait_move t t' sh sh' [].
Proof.
  intros Hj Hl Hs Hw Ht Hr Hp. split; try done.
  - simpl. lia.
  - intros s n. rewrite Hs. by left.
  - intros n k H. left. by apply Hj.
  - intros n k s ret E. left. by apply (Hr n k s ret).
Qed.

Lemma joined_objects (sh sh' : shared) n k : sh_objects sh' = sh_objects sh -> joined sh' n k -> joined sh n k.
Proof. unfold joined. by intros ->. Qed.

(** Changing the tasks of an object. *)
Lemma joined_update (sh : shared) m f n k :
  joined (update m f sh) n k ->
  joined sh n k \/ (n = m /\ exists x h, sh_objects sh !! n = Some x /\ o_handles (f x) !! k = Some (h, true)).
Proof.
  intros (x & h & Hx & Hk). rewrite objects_update in Hx. destruct (decide (m = n)) as [<-|]; [|by left; exists x, h].
  destruct (sh_objects sh !! m) as [y|] eqn:Ey; simplify_eq/=. right. split; [done|]. by exists y, h.
Qed.

(** Changing only a lock. *)
Lemma joined_lock (sh : shared) m f n k :
  (forall x, o_handles (f x) = o_handles x) -> joined (update m f sh) n k -> joined sh n k.
Proof.
  intros Hf [H|(-> & x & h & Hx & Hk)]%joined_update; [done|]. rewrite Hf in Hk. by exists x, h.
Qed.

Lemma length_update n f (sh : shared) : length (sh_objects (update n f sh)) = length (sh_objects sh).
Proof. unfold update. cbn. apply length_alter. Qed.

(** A move that changes one lock. *)
Lemma wait_move_lock (t t' : thread) (sh : shared) m f :
  (forall x, o_handles (f x) = o_handles x) ->
  (forall s, (Nat.b2n (waits_on s t') + Nat.b2n (joins s t') <= Nat.b2n (waits_on s t) + Nat.b2n (joins s t)
    /\ Nat.b2n (waits_on s t') <= Nat.b2n (waits_on s t))%nat) ->
  (forall n s, target t' = Some (n, s) -> target t = Some (n, s) \/ sh_sessions sh !! s = Some n) ->
  (forall n k s ret, t' = Joining n k s ret -> t = WaitHandles n s ret) -> t' <> Panicked ->
  wait_move t t' sh (update m f sh) [].
Proof.
  intros Hf. apply wait_move_same; [|by rewrite length_update|done].
  intros n k. by apply joined_lock.
Qed.

(** A move that calls the host first. *)
Lemma wait_move_from (t t' : thread) (sh sh2 sh' : shared) news :
  sh_objects sh2 = sh_objects sh -> sh_sessions sh2 = sh_sessions sh ->
  wait_move t t' sh2 sh' news -> wait_move t t' sh sh' news.
Proof.
  intros Eo Es [H1 H2 H3 H4 H5 H6 H7]. unfold joined in *. rewrite Eo in *. rewrite Es in *. by split.
Qed.

Lemma begin_waits r (sh : shared) t' sh' : begin r sh = Some (t', sh') -> wait_move (Called r) t' sh sh' [].
Proof.
  destruct r; simpl; unfold table_free; intros Hb;
    repeat (case_match; simplify_eq/=; try done);
    repeat match goal with H : on_host _ _ = _ |- _ => apply on_host_objects in H as (? & ? & _) end;
    (apply wait_move_same; [intros ? ?; by apply joined_objects| | |intros ?; simpl; lia|done|done|done]);
    simpl; congruence.
Qed.

Lemma begin_start_waits cmd sid p (sh : shared) t' sh' :
  begin_start cmd sid p sh = (t', sh') -> wait_move (StartTaken cmd sid p) t' sh sh' [].
Proof.
  unfold begin_start. intros Hb. repeat (case_match; simplify_eq/=; try done);
    repeat match goal with H : on_host _ _ = _ |- _ => apply on_host_objects in H as (? & ? & _) end;
    (apply wait_move_same; [intros ? ?; by apply joined_objects| | |intros ?; simpl; lia|done|done|done]);
    simpl; congruence.
Qed.

(** No task of a new session has been joined. *)
Lemma joined_new (sh : shared) session n k :
  joined (with_objects (sh_objects sh ++ [new_object session]) sh) n k -> joined sh n k.
Proof.
  intros (x & h & [Hx|[_ Hx]]%lookup_app_Some & Hk); [by exists x, h|].
  apply list_lookup_singleton_Some in Hx as [_ <-]. simpl in Hk.
  apply list_lookup_fmap_Some in Hk as (? & ? & _). congruence.
Qed.

Lemma finish_start_waits listener cmd sid session (sh : shared) t' sh' :
  finish_start listener cmd sid session sh = (t', sh') ->
  exists news, wait_move (Accepting listener cmd sid session) t' sh sh' news.
Proof.
  unfold finish_start. destruct (on_host _ sh) as [[[]|e] sh2] eqn:E;
    apply on_host_objects in E as (E1 & E2 & _); intros [= <- <-].
  - exists [sid]. eapply wait_move_from; [exact E1|exact E2|]. split; try done.
    + simpl. by rewrite length_app.
    + intros s n. simpl. intros [[<- <-]|[_ ?]]%lookup_insert_Some; [by right|by left].
    + intros n k Hj. left. exact (joined_new sh2 session n k Hj).
  - exists []. apply wait_move_same; try done; [intros ? ?; by apply joined_objects|simpl; congruence].
Qed.

(** Joining one task after the other. *)
Lemma join_next_waits n k x sid ret (sh : shared) t' sh' :
  sh_objects sh !! n = Some x -> join_next n k x sid ret sh = Some (t', sh') ->
  wait_move (Joining n k sid ret) t' sh sh' [].
Proof.
  intros Hx. unfold join_next, after_event. destruct (o_handles x !! k) as [[h [|]]|] eqn:Hk.
  - intros [= <- <-]. split; try done; try (rewrite length_update; simpl; lia).
    + intros s m. simpl. by left.
    + intros m j Hj. left. by apply (joined_lock sh n (lock_handles false)).
    + simpl. lia.
    + intros _. exists n, k, sid, ret. split; [done|]. by exists x, h.
  - destruct (happened _ _); [|done]. destruct (on_host _ sh) as [r sh2] eqn:E.
    apply on_host_objects in E as (E1 & E2 & _). intros [= <- <-].
    eapply wait_move_from; [exact E1|exact E2|].
    split; try done; try (rewrite length_update; simpl; lia).
    + intros s m. simpl. by left.
    + intros m j [H|(-> & y & h' & Hy & Hj)]%joined_update; [by left|]. simpl in Hj.
      apply list_lookup_insert_Some in Hj as [(<- & _)|[_ Hj]]; [right; by exists sid, ret|].
      left. rewrite E1, Hx in Hy. simplify_eq. exists y, h'. by rewrite E1.
    + intros m s [= -> ->]. by left.
    + intros m j s r' [= <- <- <- <-]. right. by exists k.
  - intros [= <- <-]. apply wait_move_lock; try done. simpl. lia.
Qed.

Lemma move_waits t (sh : shared) t' sh' :
  move t sh = Some (t', sh') -> exists news, wait_move t t' sh sh' news.
Proof.
  intros Hm. destruct t; simpl in Hm; unfold table_free, read_item, write_item, after_event in Hm; try done.
  - exists []. by apply begin_waits.
  - destruct (sh_starting sh); [done|]. injection Hm as Hm. exists []. by apply begin_start_waits.
  - destruct (happened _ _); [|done]. injection Hm as Hm. by apply finish_start_waits.
  - exists []. destruct (sh_objects sh !! n) as [x|] eqn:Hx; simpl in Hm; [|done].
    destruct (stdin_locked x); simplify_eq. by apply wait_move_lock.
  - exists []. destruct (happened _ _); [|done]. destruct items; simplify_eq; [by apply wait_move_lock|].
    by apply wait_move_same.
  - exists []. destruct (sh_objects sh !! n) as [x|] eqn:Hx; simpl in Hm; [|done].
    destruct (happened _ _); [|done]. destruct (on_host _ sh) as [[[]|e] sh2] eqn:E;
      apply on_host_objects in E as (E1 & E2 & _); simplify_eq; eapply wait_move_from; [done|done| |done|done|].
    + by apply wait_move_same.
    + by apply wait_move_lock.
  - exists []. destruct (sh_starting sh); [done|].
    destruct (find_session sid sh) as [[m x]|]; simplify_eq; by apply wait_move_same.
  - exists []. destruct (sh_objects sh !! n) as [x|] eqn:Hx; simpl in Hm; [|done].
    destruct (handles_locked x); simplify_eq. apply wait_move_same; try done; [|by rewrite length_update].
    intros m k [H|(-> & y & h' & Hy & [Hk|[_ Hk]]%lookup_app_Some)]%joined_update; [done| |].
    + exists y, h'. rewrite Hx in Hy. by simplify_eq.
    + apply list_lookup_singleton_Some in Hk as [_ [=]].
  - exists []. destruct (sh_objects sh !! n) as [x|] eqn:Hx; simpl in Hm; [|done].
    destruct (child_locked x); simplify_eq. apply wait_move_lock; try done.
  - exists []. destruct (sh_objects sh !! n) as [x|] eqn:Hx; simpl in Hm; [|done].
    destruct (happened _ _); [|done]. destruct (wait_child _ _) as [st o]. simplify_eq.
    apply (wait_move_from _ _ _ (with_host o sh)); [done|done|]. apply wait_move_lock; try done.
  - exists []. destruct (sh_starting sh); [done|].
    destruct (find_session sid sh) as [[m x]|] eqn:E; simplify_eq; apply wait_move_same; try done; simpl; try lia.
    apply find_session_valid in E as [_ E]. intros m' s [= <- <-]. by right.
  - exists []. destruct (sh_objects sh !! n) as [x|] eqn:Hx; simpl in Hm; [|done].
    destruct (handles_locked x); simplify_eq. apply wait_move_lock; try done; simpl; [lia| |].
    + intros m s [= <- <-]. by left.
    + by intros m k s r [= <- <- <- <-].
  - exists []. destruct (sh_objects sh !! n) as [x|] eqn:Hx; simpl in Hm; [|done]. by eapply join_next_waits.
  - exists []. destruct (sh_starting sh); simplify_eq. apply wait_move_from with sh; [done|done|].
    split; try done.
    + intros s n. simpl. intros [_ ?]%lookup_delete_Some. by left.
    + intros n k H. by left.
Qed.

(** ** The invariant *)

(** No session is waited for twice, now or later. *)
Definition single_waits (ls : list label) (c : state) : Prop := forall s,
  (count (asks s) ls + count (waits_on s) (st_threads c) + count (joins s) (st_threads c) <= 1)%nat.

(** [made] gives for each session object the name it was made for.  Once a task
    has been joined there is no other wait for its session, and the wait that
    joins the tasks is past it. *)
Record once (ls : list label) (made : list I) (c : state) : Prop := {
  once_single : single_waits ls c;
  once_length : length made = length (sh_objects (st_shared c));
  once_sessions : forall s n, sh_sessions (st_shared c) !! s = Some n -> made !! n = Some s;
  once_targets : forall i t n s, st_threads c !! i = Some t -> target t = Some (n, s) -> made !! n = Some s;
  once_joined : forall n k s, joined (st_shared c) n k -> made !! n = Some s ->
    (count (asks s) ls + count (waits_on s) (st_threads c) = 0)%nat
    /\ forall i m j ret, st_threads c !! i = Some (Joining m j s ret) -> (k < j)%nat;
  once_calm : forall i, st_threads c !! i <> Some Panicked
}.

Lemma waits_app {A} (f : A -> bool) l x : count f (l ++ [x]) = (count f l + Nat.b2n (f x))%nat.
Proof. unfold count. rewrite sum_list_with_app. simpl. lia. Qed.

Lemma waits_insert {A} (f : A -> bool) l i x y : l !! i = Some x ->
  (count f (<[i := y]> l) + Nat.b2n (f x) = count f l + Nat.b2n (f y))%nat.
Proof. apply (sum_insert (fun t => Nat.b2n (f t))). Qed.

(** Two threads that count are counted. *)
Lemma count_pair {A} (f : A -> bool) l i j x y :
  l !! i = Some x -> l !! j = Some y -> f x = true -> f y = true -> i <> j -> (2 <= count f l)%nat.
Proof.
  intros Hi Hj Hx Hy Hne. unfold count. revert i j Hi Hj Hne.
  induction l as [|z l IH]; intros [|i] [|j] Hi Hj Hne; simplify_eq/=; try done.
  - rewrite Hx. pose proof (sum_lookup (fun t => Nat.b2n (f t)) _ _ _ Hj) as H. simpl in H. rewrite Hy in H. simpl in *. lia.
  - rewrite Hy. pose proof (sum_lookup (fun t => Nat.b2n (f t)) _ _ _ Hi) as H. simpl in H. rewrite Hx in H. simpl in *. lia.
  - assert (i <> j) as Hij by congruence. specialize (IH i j Hi Hj Hij). lia.
Qed.

Lemma count_one {A} (f : A -> bool) l i x : l !! i = Some x -> f x = true -> (1 <= count f l)%nat.
Proof. intros Hi Hx. pose proof (sum_lookup (fun t => Nat.b2n (f t)) _ _ _ Hi) as H. simpl in H. by rewrite Hx in H. Qed.

Lemma joins_self n k s ret : joins s (Joining n k s ret) = true.
Proof. simpl. by rewrite bool_decide_true. Qed.

(** A request arrives. *)
Lemma once_arrive r ls made c :
  once (Arrive r :: ls) made c ->
  once ls made {| st_shared := st_shared c; st_threads := st_threads c ++ [Called r] |}.
Proof.
  intros [H1 H2 H3 H4 H5 H6].
  assert (forall s, (Nat.b2n (waits_on s (Called r)) = Nat.b2n (asks s (Arrive r)))%nat) as Hr by (by intros s; destruct r).
  assert (forall i t, (st_threads c ++ [Called r]) !! i = Some t -> st_threads c !! i = Some t \/ t = Called r) as Hi.
  { intros i t [Hi|[_ Hi]]%lookup_app_Some; [by left|]. apply list_lookup_singleton_Some in Hi as [_ <-]. by right. }
  split; simpl; try done.
  - intros s. simpl. rewrite !waits_app. specialize (H1 s). specialize (Hr s). unfold count in *. simpl in *. lia.
  - intros i t n s Ht Hn. destruct (Hi _ _ Ht) as [Ht'| ->]; [by eapply H4|]. done.
  - intros n k s Hj Hm. destruct (H5 n k s Hj Hm) as [Hc Hk]. rewrite waits_app. specialize (Hr s).
    unfold count in *. simpl in *. split; [lia|]. intros i m j ret Ht. destruct (Hi _ _ Ht) as [Ht'|?]; [|done].
    by eapply Hk.
  - intros i Ht. destruct (Hi _ _ Ht) as [Ht'|?]; [|done]. by eapply H6.
Qed.

Lemma once_single_move ls made c i t t' sh news :
  once ls made c -> st_threads c !! i = Some t -> wait_move t t' (st_shared c) sh news ->
  forall s, (count (asks s) ls + count (waits_on s) (<[i := t']> (st_threads c))
             + count (joins s) (<[i := t']> (st_threads c)) <= 1)%nat
         /\ (count (waits_on s) (<[i := t']> (st_threads c)) <= count (waits_on s) (st_threads c))%nat.
Proof.
  intros Ho Hi Hw s. pose proof (once_single _ _ _ Ho s) as H1. destruct (wm_waits _ _ _ _ _ Hw s) as [Ha Hb].
  pose proof (waits_insert (waits_on s) _ _ _ t' Hi). pose proof (waits_insert (joins s) _ _ _ t' Hi). lia.
Qed.

(** The thread that joins the tasks of a session is past those joined before. *)
Lemma once_joined_move ls made c i t t' sh news n k s :
  once ls made c -> st_threads c !! i = Some t -> wait_move t t' (st_shared c) sh news ->
  joined sh n k -> made !! n = Some s ->
  (count (asks s) ls + count (waits_on s) (<[i := t']> (st_threads c)) = 0)%nat
  /\ forall i' m j ret, <[i := t']> (st_threads c) !! i' = Some (Joining m j s ret) -> (k < j)%nat.
Proof.
  intros Ho Hi Hw Hj Hm. destruct (once_single_move _ _ _ _ _ _ _ _ Ho Hi Hw s) as [Hs Hle].
  pose proof (lookup_lt_Some _ _ _ Hi) as Hlt.
  destruct (wm_joined _ _ _ _ _ Hw n k Hj) as [Hold|(s' & ret & Et & Et')].
  - destruct (once_joined _ _ _ Ho n k s Hold Hm) as [H0 Hk]. split; [lia|].
    intros i' m j ret [(<- & E & _)|[_ Hi']]%list_lookup_insert_Some; [|by eapply Hk].
    destruct (wm_joining _ _ _ _ _ Hw m j s ret E) as [->|(j' & -> & ->)].
    + assert (waits_on s (WaitHandles m s ret) = true) as Hd by (simpl; by rewrite bool_decide_true).
      pose proof (count_one _ _ _ _ Hi Hd). lia.
    + apply Hk in Hi. lia.
  - subst t t'. assert (s' = s) as ->.
    { pose proof (once_targets _ _ _ Ho i _ n s' Hi eq_refl). congruence. }
    assert (<[i := Joining n (S k) s ret]> (st_threads c) !! i = Some (Joining n (S k) s ret)) as Hii
      by (by apply list_lookup_insert_eq).
    pose proof (count_one _ _ _ _ Hii (joins_self n (S k) s ret)). split; [lia|].
    intros i' m j ret' Hi'. destruct (decide (i = i')) as [<-|Hne]; [rewrite Hii in Hi'; simplify_eq; lia|].
    pose proof (count_pair _ _ _ _ _ _ Hii Hi' (joins_self _ _ _ _) (joins_self _ _ _ _) Hne). lia.
Qed.

(** A thread moves. *)
Lemma once_move i ls made c t t' sh :
  once ls made c -> st_threads c !! i = Some t -> move t (st_shared c) = Some (t', sh) ->
  exists made', once ls made' {| st_shared := sh; st_threads := <[i := t']> (st_threads c) |}.
Proof.
  intros Ho Hi Hm. destruct (move_waits _ _ _ _ Hm) as [news Hw]. exists (made ++ news).
  pose proof Ho as [H1 H2 H3 H4 H5 H6]. pose proof (wm_length _ _ _ _ _ Hw) as Hl.
  assert (forall n s, made !! n = Some s -> (made ++ news) !! n = Some s) as Happ by (intros; by apply lookup_app_l_Some).
  assert (forall n k, joined sh n k -> (n < length made)%nat) as Hin.
  { intros n k Hj. destruct (wm_joined _ _ _ _ _ Hw n k Hj) as [(x & h & Hx & _)|(s & ret & -> & _)].
    - apply lookup_lt_Some in Hx. lia.
    - by eapply lookup_lt_Some, (H4 i). }
  split; simpl.
  - intros s. by apply (once_single_move _ _ _ _ _ _ _ _ Ho Hi Hw).
  - rewrite length_app. lia.
  - intros s n Hs. destruct (wm_sessions _ _ _ _ _ Hw s n Hs) as [Hs'|[-> ->]]; [by apply Happ, H3|].
    rewrite lookup_app_r, H2, Nat.sub_diag by lia. done.
  - intros j tj n s [(<- & <- & _)|[_ Hj]]%list_lookup_insert_Some Ht; [|by eapply Happ, H4].
    destruct (wm_target _ _ _ _ _ Hw n s Ht); [by eapply Happ, H4|by apply Happ, H3].
  - intros n k s Hj Hs. rewrite lookup_app_l in Hs by (by eapply Hin).
    by eapply once_joined_move.
  - intros j [(<- & E & _)|[_ Hj]]%list_lookup_insert_Some; [|by apply (H6 j)].
    destruct (wm_panicked _ _ _ _ _ Hw E) as (n & k & s & ret & -> & Hj).
    destruct (H5 n k s Hj (H4 i _ n s Hi eq_refl)) as [_ Hk]. specialize (Hk i n k ret Hi). lia.
Qed.

Lemma once_step l ls made c c' :
  once (l :: ls) made c -> server_step l c = Some c' -> exists made', once ls made' c'.
Proof.
  intros Ho. destruct l as [r|i|o]; simpl.
  - intros [= <-]. exists made. by apply once_arrive.
  - assert (once ls made c) as Ho' by (destruct Ho; by split).
    destruct (st_threads c !! i) as [t|] eqn:Hi; simpl; [|done].
    destruct (move t (st_shared c)) as [[t' sh]|] eqn:Hm; simpl; [|done]. intros [= <-].
    by eapply once_move.
  - intros [= <-]. exists made. destruct Ho. by split.
Qed.

(** C29: as long as no session is waited for twice the server does not panic:
    whatever requests arrive, in whatever order the threads move and whatever
    the world outside does, no thread joins a task that was joined before. *)
Theorem no_panic_single_wait ls c o :
  (forall s, (count (asks s) ls <= 1)%nat) -> server_run ls (server_init o) = Some c ->
  forall i, st_threads c !! i <> Some Panicked.
Proof.
  intros Hw Hrun.
  assert (once ls [] (server_init o)) as Ho.
  { split; simpl; try done.
    intros s. simpl. specialize (Hw s). unfold count in *. simpl. lia. }
  clear Hw. revert Ho Hrun. generalize ([] : list I). generalize (server_init o : state).
  induction ls as [|l ls IH]; intros c0 made Ho Hrun; simpl in Hrun; [simplify_eq; apply Ho|].
  destruct (server_step l c0) as [c1|] eqn:E; simpl in Hrun; [|done].
  destruct (once_step _ _ _ _ _ Ho E) as [made' Ho']. by apply (IH c1 made').
Qed.
End Waits.

(** ** A run *)

#[local] Existing Instance mem_host.
#[local] Existing Instance prost_ref.

(** Two sessions run, each is waited for once, and the waits overlap. *)
Definition two_waits_run : list (server_label nat (list (list byte))) :=
  [Arrive (Dial 1%nat); Move 0; Arrive (Start sh 1%nat)] ++ replicate 3 (Move 1)
  ++ [Arrive (Stdout 1%nat)] ++ replicate 3 (Move 2)
  ++ [Arrive (Dial 2%nat); Move 3; Arrive (Start sh 2%nat)] ++ replicate 3 (Move 4)
  ++ [Arrive (Wait 1%nat); Arrive (Wait 2%nat)] ++ replicate 4 (Move 5) ++ replicate 4 (Move 6)
  ++ replicate 4 (Move 5) ++ replicate 3 (Move 6).

Lemma no_panic_single_wait_witness :
  exists c, server_run (WO := prompt_world) two_waits_run (server_init []) = Some c
    /\ st_threads c !! 5%nat = Some (Answered (Ok (Some 0)))
    /\ st_threads c !! 6%nat = Some (Answered (Ok (Some 0)))
    /\ forall i, st_threads c !! i <> Some Panicked.
Proof.
  set (c := default (server_init []) (server_run (WO := prompt_world) two_waits_run (server_init []))).
  assert (server_run (WO := prompt_world) two_waits_run (server_init []) = Some c) as Hr by (vm_compute; reflexivity).
  exists c. split; [exact Hr|]. split; [vm_compute; reflexivity|]. split; [vm_compute; reflexivity|].
  apply (no_panic_single_wait (WO := prompt_world) two_waits_run c []); [|exact Hr].
  intros [|[|[|s]]]; vm_compute; lia.
Defined.
