(* ===== verification/Copying.v ===== *)
(** * The server with its copying tasks (libp9cpu/src/server.rs)

    In Steps.v a task is a handle, and that it has finished an event.  Here the
    tasks that a request for the output of a command spawns run next to the
    threads of the requests: they take the lock of the stream they read, and
    send what they read through a channel of ten items, whose receiver is in
    the hands of the request until it has pushed the task's handle, and of the
    client after that.  The threads are those of Steps.v, on a host that has
    the tasks; the task of a 9p forwarder takes no lock of the server and its
    receiver goes to the client without a wait, so that it stays an event. *)

From Stdlib Require Import Strings.Byte.
From S2P Require Import Prelude Bytes Io Error Fcall Utils Text Namespace Launcher Server Steps.

(** [src.read(&mut buf).await] with a buffer of a length: nothing while the
    stream has neither bytes nor an end. *)
Class Reads (O Fd : Type) := fd_read : nat -> Fd -> O -> option (result io_error (list byte) * O).

(** ** Tasks *)

(** Where [copy_to] is: [cmd_stdout.write().await] first, then the loop. *)
Inductive copy_stage : Set :=
  | CopyLocking
  | CopyReading
  | CopySending (buf : list byte)
  | CopyDone (r : result ServerError unit).

(** [job_src] is [None] for the errors of a command on a terminal; [job_queue]
    is what is in the channel, [job_open] whether it still has its receiver. *)
Record job (Fd : Type) := {
  job_src : option Fd; job_stage : copy_stage; job_queue : list (list byte); job_open : bool
}.
Arguments job_src {Fd}.
Arguments job_stage {Fd}.
Arguments job_queue {Fd}.
Arguments job_open {Fd}.

Definition job_done {Fd} (j : job Fd) : bool := match job_stage j with CopyDone _ => true | _ => false end.

(** [mpsc::channel(10)] *)
Definition CHANNEL_SIZE : nat := 10.
(** [vec![0; 128]] *)
Definition COPY_BUF_SIZE : nat := 128.

Definition new_job {Fd} (src : option Fd) : job Fd :=
  {| job_src := src; job_stage := CopyLocking; job_queue := []; job_open := true |}.

Definition at_stage {Fd} (g : copy_stage) (j : job Fd) : job Fd :=
  {| job_src := job_src j; job_stage := g; job_queue := job_queue j; job_open := job_open j |}.

Definition set_queue {Fd} (q : list (list byte)) (j : job Fd) : job Fd :=
  {| job_src := job_src j; job_stage := job_stage j; job_queue := q; job_open := job_open j |}.

Definition drop_receiver {Fd} (j : job Fd) : job Fd :=
  {| job_src := job_src j; job_stage := job_stage j; job_queue := []; job_open := false |}.

Section Copying.
Context {I : Type} `{Countable I}.
Context {O Fd Child Sock Handle : Type} `{HO : Host O Fd Child Sock Handle}.
Context `{WO : World O Sock Child Handle Fd} `{RO : Reads O Fd} `{FE : EqDecision Fd}.
Context {DecodeError : Set} `{PR : Prost DecodeError}.

(** ** The host with the tasks *)

Record machine := { m_os : O; m_jobs : list (job Fd) }.

Definition with_os (o : O) (w : machine) : machine := {| m_os := o; m_jobs := m_jobs w |}.
Definition with_jobs (js : list (job Fd)) (w : machine) : machine := {| m_os := m_os w; m_jobs := js |}.

Definition on_os {E A} (m : M O E A) : M machine E A := fun w =>
  let '(r, o) := m (m_os w) in (r, with_os o w).

(** A task is known by its number, a forwarder by what the host gave. *)
Abbreviation task := (Handle + nat)%type.

(** [tokio::spawn] of the copying. *)
Definition spawn_job (src : option Fd) (w : machine) : task * machine :=
  (inr (length (m_jobs w)), with_jobs (m_jobs w ++ [new_job src]) w).

Definition spawn_forwarder (listener : Sock) (w : machine) : task * machine :=
  let '(h, o) := spawn_forward listener (m_os w) in (inl h, with_os o w).

#[global] Instance copying_host : Host machine Fd Child Sock task := {|
  bind_local := on_os bind_local;
  local_port l := on_os (local_port l);
  openpty := on_os openpty;
  pipe2 := on_os pipe2;
  try_clone fd := on_os (try_clone fd);
  async_fd fd := on_os (async_fd fd);
  spawn port cin cout cerr := on_os (spawn port cin cout cerr);
  accept l := on_os (accept l);
  sock_write_all c bs := on_os (sock_write_all c bs);
  sock_shutdown c := on_os (sock_shutdown c);
  fd_write_all fd bs := on_os (fd_write_all fd bs);
  wait_child c := on_os (wait_child c);
  spawn_copy := spawn_job;
  spawn_forward := spawn_forwarder;
  join h := match h with inl h => on_os (join h) | inr _ => fun w => (Ok tt, w) end
|}.

#[global] Instance copying_world : World machine Sock Child task Fd := fun e w =>
  match e with
  | Connected l => happened (Connected l) (m_os w)
  | Exited c => happened (Exited c) (m_os w)
  | Received items => happened (Received items) (m_os w)
  | Writable fd => happened (Writable fd) (m_os w)
  | Finished (inl h) => happened (Finished h) (m_os w)
  | Finished (inr k) => from_option job_done false (m_jobs w !! k)
  end.

(** ** The moves of a task *)

(** The task has the lock of the stream [fd]. *)
Definition has_stream (fd : Fd) (j : job Fd) : bool :=
  match job_stage j with
  | CopyReading | CopySending _ => bool_decide (job_src j = Some fd)
  | _ => false
  end.

(** The room for an item in its channel. *)
Definition has_room (j : job Fd) : bool := (length (job_queue j) <? CHANNEL_SIZE)%nat.

(** A move of task [j] among [js]: [None] when it has to wait. *)
Definition job_move (js : list (job Fd)) (j : job Fd) (o : O) : option (job Fd * O) :=
  match job_stage j, job_src j with
  | CopyLocking, None => Some (at_stage (CopyDone (Ok tt)) j, o)
  | CopyLocking, Some fd => if existsb (has_stream fd) js then None else Some (at_stage CopyReading j, o)
  | CopyReading, Some fd =>
      match fd_read COPY_BUF_SIZE fd o with
      | None => None
      | Some (Err e, o) => Some (at_stage (CopyDone (Err (IoErr e))) j, o)
      | Some (Ok [], o) => Some (at_stage (CopyDone (Ok tt)) j, o)
      | Some (Ok buf, o) => Some (at_stage (CopySending buf) j, o)
      end
  | CopySending buf, _ =>
      if job_open j then
        if has_room j then Some (at_stage CopyReading (set_queue (job_queue j ++ [buf]) j), o) else None
      else Some (at_stage (CopyDone (Err ChannelClosed)) j, o)
  | _, _ => None
  end.

(** ** The whole server *)

Abbreviation state := (server_state I machine Fd Child Sock task).
Abbreviation thread := (Steps.thread I Fd Child Sock task).

(** The task whose handle a thread is pushing: it has the receiver. *)
Definition pushes (t : thread) : option task :=
  match t with Pushing _ h | PushLocking _ h => Some h | _ => None end.

Definition in_request (k : nat) (c : state) : bool :=
  existsb (fun t => match pushes t with Some (inr k') => (k =? k')%nat | _ => false end) (st_threads c).

Definition machine_of (c : state) : machine := sh_host (st_shared c).
Definition jobs (c : state) : list (job Fd) := m_jobs (machine_of c).

Definition with_machine (w : machine) (c : state) : state :=
  {| st_shared := with_host w (st_shared c); st_threads := st_threads c |}.

Definition set_job (k : nat) (j : job Fd) (c : state) : state :=
  with_machine (with_jobs (<[k := j]> (jobs c)) (machine_of c)) c.

(** A request that ends with an error before it has pushed its task drops the
    receiver. *)
Definition lost_receiver (t t' : thread) : option nat :=
  match pushes t, t' with Some (inr k), Answered (Err _) => Some k | _, _ => None end.

Inductive copying_label : Type :=
  | Arrives (r : request I)
  | MoveThread (i : nat)
  | MoveJob (k : nat)
  | Take (k : nat)
  | Leave (k : nat)
  | Elsewhere (o : O).

Definition move_thread (i : nat) (c : state) : option state :=
  t ← st_threads c !! i;
  c' ← server_step (Move i) c;
  t' ← st_threads c' !! i;
  Some match lost_receiver t t' with
       | Some k => match jobs c' !! k with Some j => set_job k (drop_receiver j) c' | None => c' end
       | None => c'
       end.

Definition move_job (k : nat) (c : state) : option state :=
  j ← jobs c !! k;
  '(j', o) ← job_move (jobs c) j (m_os (machine_of c));
  Some (set_job k j' (with_machine (with_os o (machine_of c)) c)).

(** The client takes the next item of the channel of task [k], or goes away. *)
Definition take_item (k : nat) (c : state) : option state :=
  j ← jobs c !! k;
  if in_request k c || negb (job_open j) then None
  else match job_queue j with [] => None | _ :: q => Some (set_job k (set_queue q j) c) end.

Definition leave (k : nat) (c : state) : option state :=
  j ← jobs c !! k;
  if in_request k c then None else Some (set_job k (drop_receiver j) c).

Definition copying_step (l : copying_label) (c : state) : option state :=
  match l with
  | Arrives r => server_step (Arrive r) c
  | MoveThread i => move_thread i c
  | MoveJob k => move_job k c
  | Take k => take_item k c
  | Leave k => leave k c
  | Elsewhere o => Some (with_machine (with_os o (machine_of c)) c)
  end.

Fixpoint copying_run (ls : list copying_label) (c : state) : option state :=
  match ls with
  | [] => Some c
  | l :: ls => c ← copying_step l c; copying_run ls c
  end.

Definition copying_init (o : O) : state := server_init {| m_os := o; m_jobs := [] |}.

Definition copying_reachable (c : state) : Prop := exists o ls, copying_run ls (copying_init o) = Some c.
End Copying.

(** The host is looked up once it is known which. *)
#[export] Hint Mode Host ! - - - - : typeclass_instances.
#[export] Hint Mode World ! - - - - : typeclass_instances.

Arguments machine : clear implicits.
Arguments copying_label : clear implicits.
