(* ===== verification/CopyingFacts.v ===== *)
(** * What the moves of a server with copying tasks do

    Copying.v is a server of Steps.v, on a host that has the tasks.  Here are
    the moves of a thread seen from the tasks: which make one, who goes on to
    push its handle, and which tasks a new session begins with. *)

From Stdlib Require Import Strings.Byte.
From S2P Require Import Prelude Bytes Io Error Fcall Utils Text Namespace Launcher LauncherProps.
From S2P Require Import Server ServerProps Steps StepsProps StepsTasks Copying.

Section Props.
Context {I : Type} `{CI : Countable I}.
Context {O Fd Child Sock Handle : Type} `{HO : Host O Fd Child Sock Handle}.
Context {WO : World O Sock Child Handle Fd} {RO : Reads O Fd} {FE : EqDecision Fd}.
Context {DecodeError : Set} `{PR : Prost DecodeError}.

Abbreviation machine := (Copying.machine O Fd).
Abbreviation task := (Handle + nat)%type.
Abbreviation shared := (Steps.shared I machine Fd Child task).
Abbreviation thread := (Steps.thread I Fd Child Sock task).
Abbreviation state := (Steps.server_state I machine Fd Child Sock task).
Abbreviation computation := (M (server I machine Fd Child task) ServerError).

(** ** It is a server of Steps.v *)

Lemma copying_step_run l (c c' : state) : copying_step l c = Some c' -> exists ls, server_run ls c = Some c'.
Proof.
  assert (forall (w : machine) (c0 : state), server_run [Outside w] c0 = Some (with_machine w c0)) as Hw by reflexivity.
  destruct l as [r|i|k|k|k|o]; cbn [copying_step].
  - intros Hl. exists [Arrive r]. cbn [server_run]. by rewrite Hl.
  - unfold move_thread. destruct (st_threads c !! i) as [t|]; simpl; [|done].
    destruct (server_step (Move i) c) as [c1|] eqn:E; simpl in E; [|by rewrite E]. simpl. rewrite E. simpl.
    destruct (st_threads c1 !! i) as [t'|]; simpl; [|done]. intros [= <-].
    destruct (lost_receiver t t') as [k|]; [destruct (jobs c1 !! k) as [j|]|].
    + eexists [Move i; Outside _]. simpl. rewrite E. simpl. unfold set_job. by rewrite <- Hw.
    + exists [Move i]. simpl. by rewrite E.
    + exists [Move i]. simpl. by rewrite E.
  - unfold move_job. destruct (jobs c !! k) as [j|]; simpl; [|done].
    destruct (job_move _ _ _) as [[j' o]|]; simpl; [|done]. intros [= <-]. eexists [Outside _; Outside _].
    simpl. unfold set_job. by rewrite <- Hw.
  - unfold take_item. destruct (jobs c !! k) as [j|]; simpl; [|done]. destruct (_ || _); [done|].
    destruct (job_queue j) as [|b q]; [done|]. intros [= <-]. eexists [Outside _]. unfold set_job. by rewrite <- Hw.
  - unfold leave. destruct (jobs c !! k) as [j|]; simpl; [|done]. destruct (in_request k c); [done|].
    intros [= <-]. eexists [Outside _]. unfold set_job. by rewrite <- Hw.
  - intros [= <-]. eexists [Outside _]. by rewrite <- Hw.
Qed.

Lemma copying_run_run ls (c c' : state) : copying_run ls c = Some c' -> exists ks, server_run ks c = Some c'.
Proof.
  revert c. induction ls as [|l ls IH]; intros c; simpl; [intros [= <-]; by exists []|].
  destruct (copying_step l c) as [c1|] eqn:E; simpl; [|done]. intros [ks Hk]%IH.
  apply copying_step_run in E as [ks' Hk']. exists (ks' ++ ks). by rewrite server_run_app, Hk'.
Qed.

(** So the locks of the threads are those of StepsProps.v. *)
Lemma copying_reachable_inv (c : state) : copying_reachable c -> owners c /\ valid c.
Proof. intros (o & ls & [ks H]%copying_run_run). apply reachable_inv. by eexists _, ks. Qed.

(** ** What a thread's move does to the tasks *)

Definition keeps_jobs {A} (m : computation A) : Prop := forall s, m_jobs (host (m s).2) = m_jobs (host s).

Lemma jobs_kept_bind {A B} (m : computation A) (k : A -> computation B) :
  keeps_jobs m -> (forall a, keeps_jobs (k a)) -> keeps_jobs (m ≫= k).
Proof.
  intros Hm Hk s. unfold mbind, M_bind. specialize (Hm s). destruct (m s) as [[a|e] s1]; simpl in *; [|done].
  by rewrite Hk.
Qed.

Lemma jobs_kept_pure {A} (m : computation A) : (forall s, (m s).2 = s) -> keeps_jobs m.
Proof. intros Hm s. by rewrite Hm. Qed.

Lemma jobs_kept_on_os {E A} (m : M O E A) (w : machine) : m_jobs (on_os m w).2 = m_jobs w.
Proof. unfold on_os. by destruct (m (m_os w)). Qed.

Lemma on_os_jobs {E A} (m : M O E A) (w w' : machine) r : on_os m w = (r, w') -> m_jobs w' = m_jobs w.
Proof. intros E1. pose proof (jobs_kept_on_os m w) as H. by rewrite E1 in H. Qed.

Lemma jobs_kept_call {E A} (err : E -> ServerError) (m : M machine E A) :
  (forall w, m_jobs (m w).2 = m_jobs w) -> keeps_jobs (call err m).
Proof. intros Hm s. unfold call. specialize (Hm (host s)). by destruct (m (host s)) as [[a|e] w]. Qed.

Lemma jobs_kept_spawn_forward l : keeps_jobs (spawn_task (spawn_forward l)).
Proof.
  intros s. unfold spawn_task. simpl. unfold spawn_forwarder. by destruct (spawn_forward l (m_os (host s))).
Qed.

Lemma jobs_kept_try_call {E A} (m : M machine E A) :
  (forall w, m_jobs (m w).2 = m_jobs w) -> keeps_jobs (try_call m).
Proof. intros Hm s. unfold try_call. specialize (Hm (host s)). by destruct (m (host s)). Qed.

Ltac keep_jobs := repeat first
  [ apply jobs_kept_bind; [|intros ?]
  | apply jobs_kept_call; intros ?; apply jobs_kept_on_os
  | apply jobs_kept_spawn_forward
  | apply jobs_kept_pure; done
  | lazymatch goal with |- keeps_jobs (match ?x with _ => _ end) => destruct x end ].

Lemma jobs_kept_open_forward : keeps_jobs open_forward.
Proof. unfold open_forward. keep_jobs. Qed.

Lemma jobs_kept_spawn_command cmd p : keeps_jobs (spawn_command cmd p).
Proof. unfold spawn_command, with_ninep, stdio. keep_jobs. Qed.

Lemma jobs_kept_hand_over l cmd : keeps_jobs (hand_over l cmd).
Proof. unfold hand_over, send_command. keep_jobs. Qed.

Lemma on_host_jobs {A} (m : computation A) (sh sh' : shared) r :
  keeps_jobs m -> on_host m sh = (r, sh') -> m_jobs (sh_host sh') = m_jobs (sh_host sh).
Proof.
  intros Hm. unfold on_host. specialize (Hm (server_new (sh_host sh))). destruct (m _) as [a s]. by intros [= _ <-].
Qed.

(** A move makes no task, or one whose handle it goes on to push. *)
Inductive jobs_move (t t' : thread) (sh sh' : shared) : Prop :=
  | jobs_same : m_jobs (sh_host sh') = m_jobs (sh_host sh) -> (forall h, pushes t' = Some h -> pushes t = Some h) ->
      jobs_move t t' sh sh'
  | jobs_new src : pushes t = None -> pushes t' = Some (inr (length (m_jobs (sh_host sh)))) ->
      m_jobs (sh_host sh') = m_jobs (sh_host sh) ++ [new_job src] -> jobs_move t t' sh sh'.

Ltac host_jobs := repeat lazymatch goal with
  | H : on_host ?m _ = _ |- _ => apply on_host_jobs in H;
      [|first [apply jobs_kept_open_forward|apply jobs_kept_spawn_command|apply jobs_kept_hand_over
              |apply jobs_kept_try_call; intros ?; first [apply jobs_kept_on_os|reflexivity]
              |apply jobs_kept_call; intros ?; apply jobs_kept_on_os]]
  | H : on_os _ _ = _ |- _ => apply on_os_jobs in H
  end.

Lemma begin_jobs r (sh : shared) t' sh' : begin r sh = Some (t', sh') -> jobs_move (Called r) t' sh sh'.
Proof.
  destruct r; cbn [begin]; unfold table_free; intros Hb;
    repeat (case_match; simplify_eq/=; try done); host_jobs;
    try (by apply jobs_same); by eapply jobs_new.
Qed.

Lemma move_jobs t (sh : shared) t' sh' : move t sh = Some (t', sh') -> jobs_move t t' sh sh'.
Proof.
  intros Hm. destruct t; cbn [move] in Hm;
    unfold table_free, begin_start, finish_start, read_item, write_item, join_next, after_event in Hm; try done;
    try (by apply begin_jobs);
    try (destruct (sh_objects sh !! n) as [x|] eqn:Hx; cbn [mbind option_bind] in Hm; [|done]).
  all: repeat (case_match; simplify_eq/=; try done); host_jobs; apply jobs_same; try done; simpl; try congruence.
Qed.
(** ** The tasks of a 9p forwarder

    A session begins with those only. *)

Definition plain (h : task) : Prop := match h with inl _ => True | inr _ => False end.
Definition plain_pending (p : PendingSession task) : Prop := forall q, p_ninep p = Some q -> plain q.2.
Definition plain_table (sh : shared) : Prop := forall sid p, sh_pending sh !! sid = Some p -> plain_pending p.
Definition plain_thread (t : thread) : Prop :=
  match t with
  | StartTaken _ _ p => plain_pending p
  | Accepting _ _ _ session => Forall plain (s_handles session)
  | _ => True
  end.

Lemma open_forward_plain (s s' : server I machine Fd Child task) q : open_forward s = (Ok q, s') -> plain q.2.
Proof.
  intros (l & s1 & _ & H)%bind_ok_inv. apply bind_ok_inv in H as (port & s2 & _ & H).
  apply bind_ok_inv in H as (h & s3 & H & Hq). injection Hq as <- <-. unfold spawn_task in H. simpl in H.
  unfold spawn_forwarder in H. destruct (spawn_forward l _). by simplify_eq/=.
Qed.

Lemma on_host_open_plain (sh sh' : shared) q : on_host open_forward sh = (Ok q, sh') -> plain q.2.
Proof.
  unfold on_host. destruct (open_forward _) as [r s] eqn:E. intros [= -> _]. by eapply open_forward_plain.
Qed.

(** The table of pending sessions only changes in the first move. *)
Lemma move_pending t (sh : shared) t' sh' : move t sh = Some (t', sh') ->
  (exists r, t = Called r) \/ (forall r, t <> Called r) /\ sh_pending sh' = sh_pending sh.
Proof.
  intros Hm. destruct t; cbn [move] in Hm;
    unfold table_free, begin_start, finish_start, read_item, write_item, join_next, after_event in Hm; try done;
    try (by left; eexists); right; (split; [done|]);
    try (destruct (sh_objects sh !! n) as [x|] eqn:Hx; cbn [mbind option_bind] in Hm; [|done]).
  all: repeat (case_match; simplify_eq/=; try done);
    repeat match goal with H : on_host _ _ = _ |- _ => apply on_host_objects in H as (_ & _ & ? & _) end; done.
Qed.

Lemma forwarder_plain (p : PendingSession task) : plain_pending p -> Forall plain (option_list (snd <$> p_ninep p)).
Proof.
  unfold plain_pending. destruct (p_ninep p) as [q|]; simpl; [|constructor].
  intros Hp. constructor; [by apply Hp|constructor].
Qed.

Lemma move_plain t (sh : shared) t' sh' : plain_table sh -> plain_thread t -> move t sh = Some (t', sh') ->
  plain_table sh' /\ plain_thread t'.
Proof.
  intros Hp Ht Hm. destruct (move_pending _ _ _ _ Hm) as [[r ->]|[Hc E]].
  - cbn [move] in Hm. destruct r; cbn [begin] in Hm; unfold table_free in Hm;
      repeat (case_match; simplify_eq/=; try done); (split; [|try done; by eapply Hp]);
      intros sid1 pp; simpl;
      try (intros [[<- <-]|[_ ?]]%lookup_insert_Some; [|by eapply Hp]);
      try (intros [_ ?]%lookup_delete_Some; by eapply Hp); try (by apply Hp).
    + by intros q [=].
    + lazymatch goal with H : on_host _ _ = (Ok ?q, _) |- _ =>
        pose proof (on_host_open_plain _ _ q H) as Hq; apply on_host_objects in H as (_ & _ & E & _) end.
      rewrite E. intros [[<- <-]|[_ ?]]%lookup_insert_Some; [by intros q [= <-]|by eapply Hp].
    + lazymatch goal with H : on_host _ _ = _ |- _ => apply on_host_objects in H as (_ & _ & E & _) end.
      rewrite E. apply Hp.
  - split; [intros s p; rewrite E; apply Hp|]. destruct t; cbn [move] in Hm;
      unfold table_free, begin_start, finish_start, read_item, write_item, join_next, after_event in Hm; try done;
      try (destruct (sh_objects sh !! n) as [x|] eqn:Hx; cbn [mbind option_bind] in Hm; [|done]).
    all: repeat (case_match; simplify_eq/=; try done); try (by destruct (Hc r)).
    by apply forwarder_plain.
Qed.
End Props.
