(* ===== verification/CopyingProps.v ===== *)
(** * Properties of the server with its copying tasks

    The threads, the tasks, the locks and the channels together: what waits for
    what in every reachable state.  With one reader for each stream nothing in
    the server waits in a circle; with two, the requests of one session can stop
    each other for ever. *)

From Stdlib Require Import Strings.Byte.
From S2P Require Import Prelude Bytes Io Error Fcall Utils Text Namespace Launcher LauncherProps.
From S2P Require Import Server ServerProps Steps StepsProps StepsTasks Copying CopyingFacts.

Section Props.
Context {I : Type} `{CI : Countable I}.
Context {O Fd Child Sock Handle : Type} `{HO : Host O Fd Child Sock Handle}.
Context {WO : World O Sock Child Handle Fd} {RO : Reads O Fd} {FE : EqDecision Fd}.
Context {DecodeError : Set} `{PR : Prost DecodeError}.

Abbreviation machine := (Copying.machine O Fd).
Abbreviation task := (Handle + nat)%type.
Abbreviation shared := (Steps.shared I machine Fd Child task).
Abbreviation thread := (Steps.thread I Fd Child Sock task).
Abbreviation state := (Steps.server_state I machine Fd Child Sock task).

(** ** The invariant *)

(** A task that reads or sends has a stream. *)
Definition sourced (j : job Fd) : Prop :=
  match job_stage j with CopyReading | CopySending _ => is_Some (job_src j) | _ => True end.

(** A task's handle is pushed by one request, and is in no session before. *)
Record jobs_inv (c : state) : Prop := {
  ji_pushed : forall i t k, st_threads c !! i = Some t -> pushes t = Some (inr k) -> (k < length (jobs c))%nat;
  ji_once : forall i j t u k, st_threads c !! i = Some t -> st_threads c !! j = Some u ->
    pushes t = Some (inr k) -> pushes u = Some (inr k) -> i = j;
  ji_tasks : forall m p k b, tasks_of (st_shared c) m !! p = Some (inr k, b) ->
    (k < length (jobs c))%nat /\ forall i t, st_threads c !! i = Some t -> pushes t <> Some (inr k);
  ji_sourced : Forall sourced (jobs c);
  ji_table : plain_table (st_shared c);
  ji_threads : forall i t, st_threads c !! i = Some t -> plain_thread t
}.

Lemma inv_with_machine w (c : state) :
  length (m_jobs w) = length (jobs c) -> Forall sourced (m_jobs w) -> jobs_inv c -> jobs_inv (with_machine w c).
Proof.
  intros Hl Hs [H1 H2 H3 H4 H5 H6]. split; try done; unfold jobs, machine_of in *; simpl; rewrite Hl; done.
Qed.

Lemma inv_set_job k j (c : state) : sourced j -> jobs_inv c -> jobs_inv (set_job k j c).
Proof.
  intros Hj Hc. unfold set_job. apply inv_with_machine; [apply length_insert| |done].
  simpl. apply Forall_insert; [apply (ji_sourced _ Hc)|done].
Qed.

Lemma inv_arrive r (c : state) :
  jobs_inv c -> jobs_inv {| st_shared := st_shared c; st_threads := st_threads c ++ [Called r] |}.
Proof.
  intros [H1 H2 H3 H4 H5 H6].
  assert (forall i t, (st_threads c ++ [Called r]) !! i = Some t -> st_threads c !! i = Some t \/ t = Called r) as Hi.
  { intros i t [Hi|[_ Hi]]%lookup_app_Some; [by left|]. apply list_lookup_singleton_Some in Hi as [_ <-]. by right. }
  split; simpl; try done.
  - intros i t k [Ht| ->]%Hi Hp; [by eapply H1|done].
  - intros i j t u k [Ht| ->]%Hi [Hu| ->]%Hi Hp Hq; [by eapply H2|done..].
  - intros m p k b Hm. destruct (H3 _ _ _ _ Hm) as [Hk Hn]. split; [done|].
    intros i t [Ht| ->]%Hi; [by eapply Hn|done].
  - intros i t [Ht| ->]%Hi; [by eapply H6|done].
Qed.

(** The number of tasks grows, and a thread that comes to push one made it. *)
Lemma jobs_move_pushes (t t' : thread) (sh sh' : shared) :
  jobs_move t t' sh sh' ->
  (length (m_jobs (sh_host sh)) <= length (m_jobs (sh_host sh')))%nat
  /\ forall k, pushes t' = Some (inr k) ->
     pushes t = Some (inr k) \/ k = length (m_jobs (sh_host sh)) /\ (k < length (m_jobs (sh_host sh')))%nat.
Proof.
  intros [E Hp|src _ Hp E]; rewrite E.
  - split; [done|]. intros k Hk. left. by apply Hp.
  - rewrite length_app. simpl. split; [lia|]. intros k Hk. right. rewrite Hp in Hk. injection Hk as <-. lia.
Qed.

Lemma jobs_move_sourced (t t' : thread) (sh sh' : shared) :
  jobs_move t t' sh sh' -> Forall sourced (m_jobs (sh_host sh)) -> Forall sourced (m_jobs (sh_host sh')).
Proof. intros [E _|src _ _ E] Hf; rewrite E; [done|]. apply Forall_app. split; [done|]. by repeat constructor. Qed.

Lemma inv_tasks_move i t t' (c : state) (sh : shared) m p k b :
  jobs_inv c -> st_threads c !! i = Some t -> tasks_move t t' (st_shared c) sh m ->
  tasks_of sh m !! p = Some (inr k, b) ->
  (k < length (jobs c))%nat /\ (forall j u, j <> i -> st_threads c !! j = Some u -> pushes u <> Some (inr k))
  /\ (pushes t = Some (inr k) -> pushes t' = None).
Proof.
  intros Hc Hi Hm Hp.
  assert (forall b', tasks_of (st_shared c) m !! p = Some (inr k, b') ->
    (k < length (jobs c))%nat /\ (forall j u, j <> i -> st_threads c !! j = Some u -> pushes u <> Some (inr k))
    /\ (pushes t = Some (inr k) -> pushes t' = None)) as Hold.
  { intros b' [Hk Hn]%(ji_tasks _ Hc). split; [done|]. split; [intros j u _; apply Hn|]. intros E. by destruct (Hn i t Hi). }
  destruct Hm as [E|h -> -> E|k' s ret h -> -> Hk' _ E|l cmd s session -> _ E]; rewrite E in Hp.
  - by eapply Hold.
  - apply lookup_app_Some in Hp as [Hp|[_ Hp]]; [by eapply Hold|].
    apply list_lookup_singleton_Some in Hp as [_ [= -> _]].
    split; [by eapply (ji_pushed _ Hc i)|]. split; [|done]. intros j u Hj Hu Hpu. apply Hj.
    by eapply (ji_once _ Hc j i).
  - apply list_lookup_insert_Some in Hp as [(<- & [= -> _] & _)|[_ Hp]]; by eapply Hold.
  - apply list_lookup_fmap_Some in Hp as (h & [= <- _] & Hh).
    pose proof (ji_threads _ Hc _ _ Hi) as Hpl. simpl in Hpl. by apply (Forall_lookup_1 _ _ _ _ Hpl) in Hh.
Qed.

Lemma inv_move i (c c' : state) : server_step (Move i) c = Some c' -> jobs_inv c -> jobs_inv c'.
Proof.
  intros Hs Hc. cbn [server_step] in Hs. destruct (st_threads c !! i) as [t|] eqn:Hi; cbn [mbind option_bind] in Hs; [|done].
  destruct (move t (st_shared c)) as [[t' sh]|] eqn:Em; cbn [mbind option_bind] in Hs; [|done]. injection Hs as <-.
  pose proof (move_jobs _ _ _ _ Em) as Hj. destruct (jobs_move_pushes _ _ _ _ Hj) as [Hl Hp].
  destruct (move_plain _ _ _ _ (ji_table _ Hc) (ji_threads _ Hc _ _ Hi) Em) as [Hpt Hpl].
  assert (forall j u, <[i := t']> (st_threads c) !! j = Some u -> j = i /\ u = t' \/ j <> i /\ st_threads c !! j = Some u) as Hth.
  { intros j u [(-> & -> & _)|[? ?]]%list_lookup_insert_Some; [by left|by right]. }
  assert (forall j u k, j <> i -> st_threads c !! j = Some u -> pushes u = Some (inr k) -> pushes t' = Some (inr k) -> False) as Hd.
  { intros j u k Hne Hu Hpu [Ht|[-> _]]%Hp; [by apply Hne, (ji_once _ Hc j i u t k)|].
    pose proof (ji_pushed _ Hc j u _ Hu Hpu) as Hlt. unfold jobs, machine_of in Hlt. lia. }
  split; cbn [st_shared st_threads]; unfold jobs, machine_of; cbn [st_shared].
  - intros j u k [[-> ->]|[_ Hu]]%Hth Hpu.
    + apply Hp in Hpu as [Hpu|[_ Hk]]; [|done]. pose proof (ji_pushed _ Hc i t k Hi Hpu) as H. unfold jobs, machine_of in H. lia.
    + pose proof (ji_pushed _ Hc j u k Hu Hpu) as H. unfold jobs, machine_of in H. lia.
  - intros j j' u u' k [[-> ->]|[Hne Hu]]%Hth [[-> ->]|[Hne' Hu']]%Hth Hpu Hpu'; [done|exfalso; eauto..|].
    by eapply (ji_once _ Hc).
  - intros m p k b Hm. destruct (inv_tasks_move _ _ _ _ _ _ _ _ _ Hc Hi (move_tasks _ _ _ _ m Em) Hm) as (Hk & Hn & Hsame).
    unfold jobs, machine_of in Hk. split; [lia|]. intros j u [[-> ->]|[Hne Hu]]%Hth; [|by eapply Hn].
    intros Hpu. destruct (Hp k Hpu) as [Ht|[-> _]]; [by rewrite (Hsame Ht) in Hpu|lia].
  - eapply jobs_move_sourced; [exact Hj|apply (ji_sourced _ Hc)].
  - done.
  - intros j u [[-> ->]|[_ Hu]]%Hth; [done|by eapply (ji_threads _ Hc)].
Qed.

Lemma job_move_sourced js j o j' o' : job_move js j o = Some (j', o') -> sourced j -> sourced j'.
Proof.
  unfold job_move, sourced. intros Hm Hj. destruct (job_stage j) as [| |buf|r] eqn:Eg, (job_src j) as [fd|] eqn:Es;
    repeat (case_match; simplify_eq/=; try done).
Qed.

Lemma copying_step_inv l (c c' : state) : copying_step l c = Some c' -> jobs_inv c -> jobs_inv c'.
Proof.
  intros Hs Hc. destruct l as [r|i|k|k|k|o]; cbn [copying_step] in Hs.
  - injection Hs as <-. by apply inv_arrive.
  - unfold move_thread in Hs. destruct (st_threads c !! i) as [t|] eqn:Hi; cbn [mbind option_bind] in Hs; [|done].
    destruct (server_step (Move i) c) as [c1|] eqn:E; cbn [mbind option_bind] in Hs; [|done].
    apply inv_move in E; [|done]. destruct (st_threads c1 !! i) as [t'|]; cbn [mbind option_bind] in Hs; [|done].
    injection Hs as <-. destruct (lost_receiver t t') as [k|]; [|done]. destruct (jobs c1 !! k) as [j|] eqn:Hk; [|done].
    apply inv_set_job; [|done]. exact (Forall_lookup_1 _ _ _ _ (ji_sourced _ E) Hk).
  - unfold move_job in Hs. destruct (jobs c !! k) as [j|] eqn:Hk; cbn [mbind option_bind] in Hs; [|done].
    destruct (job_move _ j _) as [[j' o]|] eqn:E; cbn [mbind option_bind] in Hs; [|done]. injection Hs as <-.
    apply inv_set_job; [|by apply inv_with_machine; [..|apply (ji_sourced _ Hc)|]].
    eapply job_move_sourced; [exact E|]. exact (Forall_lookup_1 _ _ _ _ (ji_sourced _ Hc) Hk).
  - unfold take_item in Hs. destruct (jobs c !! k) as [j|] eqn:Hk; cbn [mbind option_bind] in Hs; [|done].
    destruct (_ || _); [done|]. destruct (job_queue j); [done|]. injection Hs as <-. apply inv_set_job; [|done].
    exact (Forall_lookup_1 _ _ _ _ (ji_sourced _ Hc) Hk).
  - unfold leave in Hs. destruct (jobs c !! k) as [j|] eqn:Hk; cbn [mbind option_bind] in Hs; [|done].
    destruct (in_request k c); [done|]. injection Hs as <-. apply inv_set_job; [|done].
    exact (Forall_lookup_1 _ _ _ _ (ji_sourced _ Hc) Hk).
  - injection Hs as <-. apply inv_with_machine; [done|apply (ji_sourced _ Hc)|done].
Qed.

Lemma copying_run_inv ls (c c' : state) : copying_run ls c = Some c' -> jobs_inv c -> jobs_inv c'.
Proof.
  revert c. induction ls as [|l ls IH]; intros c; simpl; [by intros [= <-]|].
  destruct (copying_step l c) as [c1|] eqn:E; simpl; [|done]. intros Hr Hc. by eapply IH, copying_step_inv.
Qed.

Lemma copying_reachable_jobs (c : state) : copying_reachable c -> jobs_inv c.
Proof.
  intros (o & ls & Hr). apply copying_run_inv in Hr; [done|]. by split.
Qed.

(** ** What waits for what *)

(** A thread, or a copying task. *)
Inductive agent : Set := Thr (i : nat) | Copy (k : nat).

(** There is nothing left for it to do. *)
Definition at_end (c : state) (a : agent) : bool :=
  match a with
  | Thr i => from_option finished true (st_threads c !! i)
  | Copy k => from_option job_done true (jobs c !! k)
  end.

(** [a] waits for [b]: for a lock that it has, for a task to finish, for a
    stream that it reads, or for a request to give the receiver of a full
    channel to the client. *)
Inductive waits_on (c : state) : agent -> agent -> Prop :=
  | wait_lock i j t u l : st_threads c !! i = Some t -> st_threads c !! j = Some u ->
      wants t = Some l -> holds l u = true -> waits_on c (Thr i) (Thr j)
  | wait_join i k t : st_threads c !! i = Some t -> waits_for t (st_shared c) = Some (Finished (inr k)) ->
      at_end c (Copy k) = false -> waits_on c (Thr i) (Copy k)
  | wait_stream k k' j j' fd : jobs c !! k = Some j -> jobs c !! k' = Some j' ->
      job_stage j = CopyLocking -> job_src j = Some fd -> has_stream fd j' = true -> waits_on c (Copy k) (Copy k')
  | wait_request k i j t buf : jobs c !! k = Some j -> job_stage j = CopySending buf -> job_open j = true ->
      has_room j = false -> st_threads c !! i = Some t -> pushes t = Some (inr k) -> waits_on c (Copy k) (Thr i).

(** It waits for what is outside of the server: an event that is not the end
    of a copying task, output of a command, or a client that does not take the
    items of its stream. *)
Inductive waits_outside (c : state) : agent -> Prop :=
  | outside_event i t e : st_threads c !! i = Some t -> waits_for t (st_shared c) = Some e ->
      (forall k, e <> Finished (inr k)) -> happened e (machine_of c) = false -> waits_outside c (Thr i)
  | outside_output k j fd : jobs c !! k = Some j -> job_stage j = CopyReading -> job_src j = Some fd ->
      fd_read COPY_BUF_SIZE fd (m_os (machine_of c)) = None -> waits_outside c (Copy k)
  | outside_client k j buf : jobs c !! k = Some j -> job_stage j = CopySending buf -> job_open j = true ->
      has_room j = false -> in_request k c = false -> waits_outside c (Copy k).

(** Neither a thread nor a task can move. *)
Definition idle (c : state) : Prop :=
  (forall i, copying_step (MoveThread i) c = None) /\ forall k, copying_step (MoveJob k) c = None.

(** No two tasks are for the same stream. *)
Definition one_reader (c : state) : Prop := forall k k' j j' fd,
  jobs c !! k = Some j -> jobs c !! k' = Some j' -> job_src j = Some fd -> job_src j' = Some fd -> k = k'.

Lemma in_request_true k (c : state) : in_request k c = true <->
  exists i t, st_threads c !! i = Some t /\ pushes t = Some (inr k).
Proof.
  unfold in_request. rewrite existsb_exists. split.
  - intros (t & [i Hi]%list_elem_of_In%list_elem_of_lookup & Hp). exists i, t. split; [done|].
    destruct (pushes t) as [[h|k']|]; try done. by apply Nat.eqb_eq in Hp as ->.
  - intros (i & t & Hi & Hp). exists t. split; [by eapply list_elem_of_In, list_elem_of_lookup_2|].
    rewrite Hp. apply Nat.eqb_refl.
Qed.

Lemma idle_thread (c : state) i t : idle c -> st_threads c !! i = Some t -> move t (st_shared c) = None.
Proof.
  intros [Hi _] Ht. specialize (Hi i). cbn [copying_step] in Hi. unfold move_thread in Hi. rewrite Ht in Hi.
  cbn [server_step mbind option_bind] in Hi. rewrite Ht in Hi. cbn [mbind option_bind] in Hi.
  destruct (move t (st_shared c)) as [[t' sh]|]; [|done]. cbn [mbind option_bind st_threads] in Hi.
  by rewrite list_lookup_insert_eq in Hi by (by eapply lookup_lt_Some).
Qed.

(** Why a task cannot move. *)
Lemma stuck_job (c : state) k j : jobs_inv c -> one_reader c -> idle c ->
  jobs c !! k = Some j -> job_done j = false ->
  waits_outside c (Copy k) \/ exists i, waits_on c (Copy k) (Thr i).
Proof.
  intros Hc Hone [_ Hidle] Hj Hd. specialize (Hidle k). cbn [copying_step] in Hidle. unfold move_job in Hidle.
  rewrite Hj in Hidle. cbn [mbind option_bind] in Hidle.
  destruct (job_move (jobs c) j (m_os (machine_of c))) as [[j' o]|] eqn:Em; [done|]. clear Hidle.
  pose proof (Forall_lookup_1 _ _ _ _ (ji_sourced _ Hc) Hj) as Hs. unfold job_move in Em. unfold sourced in Hs. unfold job_done in Hd.
  destruct (job_stage j) as [| |buf|r] eqn:Eg; [| | |done].
  - destruct (job_src j) as [fd|] eqn:Es; [|done]. destruct (existsb (has_stream fd) (jobs c)) eqn:Ex; [exfalso|done].
    apply existsb_exists in Ex as (j' & [k' Hk']%list_elem_of_In%list_elem_of_lookup & Hh).
    assert (job_src j' = Some fd) as Es'.
    { unfold has_stream in Hh. destruct (job_stage j'); try done; by apply bool_decide_eq_true in Hh. }
    assert (k = k') as <- by (by eapply Hone). simplify_eq. unfold has_stream in Hh. by rewrite Eg in Hh.
  - destruct Hs as [fd Es]. rewrite Es in Em. left. eapply outside_output; [done..|].
    destruct (fd_read _ _ _) as [[[[|b l]|e] o]|]; done.
  - destruct (job_open j) eqn:Eo; [|done]. destruct (has_room j) eqn:Er; [done|].
    destruct (in_request k c) eqn:Ei; [right|left; by eapply outside_client].
    apply in_request_true in Ei as (i & t & Hi & Hp). exists i. by eapply wait_request.
Qed.

(** A thread that waits for an event, waits for the outside in the end. *)
Lemma waiting_outside (c : state) i t e : jobs_inv c -> one_reader c -> idle c ->
  st_threads c !! i = Some t -> waits_for t (st_shared c) = Some e -> happened e (machine_of c) = false ->
  exists b, rtc (waits_on c) (Thr i) b /\ waits_outside c b.
Proof.
  intros Hc Hone Hidle Hi He Hh.
  assert ((exists k, e = Finished (inr k)) \/ forall k, e <> Finished (inr k)) as [[k ->]|Hne].
  { destruct e as [| |[h|k]| |]; first [by left; eexists|by right]. }
  2: { exists (Thr i). split; [done|]. by eapply outside_event. }
  assert (exists m p, tasks_of (st_shared c) m !! p = Some (inr k, false)) as (m & p & Hm).
  { destruct t; simpl in He; try done; try (destruct (sh_objects (st_shared c) !! n) as [x|]; simplify_eq/=; done).
    destruct (sh_objects (st_shared c) !! n) as [x|] eqn:Hx; simpl in He; [|done]. exists n, k0. unfold tasks_of.
    rewrite Hx. simpl. destruct (o_handles x !! k0) as [[h [|]]|]; by simplify_eq. }
  destruct (ji_tasks _ Hc _ _ _ _ Hm) as [Hk Hn]. destruct (lookup_lt_is_Some_2 _ _ Hk) as [j Hj].
  assert (job_done j = false) as Hd.
  { change (from_option job_done false (jobs c !! k) = false) in Hh. by rewrite Hj in Hh. }
  assert (waits_on c (Thr i) (Copy k)) as Hw by (eapply wait_join; [done|done|]; simpl; by rewrite Hj).
  destruct (stuck_job c k j Hc Hone Hidle Hj Hd) as [Ho|[i' Hr]]; [exists (Copy k); by split; [apply rtc_once|]|].
  exfalso. inversion Hr as [| | |? ? ? ? ? ? ? ? ? Hi' Hp]; subst. by destruct (Hn _ _ Hi').
Qed.

(** Any other that is not at its end waits for one that does. *)
Lemma unfinished_outside (c : state) i t : owners c -> valid c -> jobs_inv c -> one_reader c -> idle c ->
  st_threads c !! i = Some t -> finished t = false ->
  exists b, rtc (waits_on c) (Thr i) b /\ waits_outside c b.
Proof.
  intros Ho [_ Hv] Hc Hone Hidle Hi Hf.
  destruct (stuck_thread t _ (Hv _ _ Hi) (idle_thread _ _ _ Hidle Hi)) as [?|[(e & He & Hh)|(l & Hw & Hl)]]; [congruence| |].
  - by eapply waiting_outside.
  - destruct (count_pos (holds l) (st_threads c)) as (j & u & Hj & Hu); [rewrite Ho, Hl; simpl; lia|].
    destruct (holder_wants_none _ _ Hu) as [Hn Hfu].
    destruct (stuck_thread u _ (Hv _ _ Hj) (idle_thread _ _ _ Hidle Hj)) as [?|[(e & He & Hh)|(l' & ? & _)]]; [congruence| |congruence].
    destruct (waiting_outside c j u e Hc Hone Hidle Hj He Hh) as (b & Hb & Hob).
    exists b. split; [|done]. eapply rtc_l; [by eapply wait_lock|done].
Qed.

(** C7: the server cannot deadlock while each stream has one reader.  When no
    thread and no copying task can move, every one that is not at its end waits,
    over the locks, the joins, the streams and the full channels of others, for
    something outside of the server that has not happened: a launcher to
    connect, a command to exit or to write, a client to send or to take an item,
    room in a pipe, a 9p forwarder to finish. *)
Theorem server_no_deadlock (c : state) :
  copying_reachable c -> one_reader c -> idle c ->
  forall a, at_end c a = false -> exists b, rtc (waits_on c) a b /\ waits_outside c b.
Proof.
  intros Hr Hone Hidle. destruct (copying_reachable_inv c Hr) as [Ho Hv]. pose proof (copying_reachable_jobs c Hr) as Hc.
  intros [i|k] Ha; simpl in Ha.
  - destruct (st_threads c !! i) as [t|] eqn:Hi; [|done]. by eapply unfinished_outside.
  - destruct (jobs c !! k) as [j|] eqn:Hj; [|done].
    destruct (stuck_job c k j Hc Hone Hidle Hj Ha) as [Hout|[i Hw]]; [by exists (Copy k)|].
    inversion Hw as [| | |? ? ? t ? ? ? ? ? Hi Hp]; subst.
    assert (finished t = false) as Hf by (by destruct t).
    destruct (unfinished_outside c i t Ho Hv Hc Hone Hidle Hi Hf) as (b & Hb & Hob).
    exists b. split; [|done]. by eapply rtc_l.
Qed.

(** ** Two readers of one stream *)

(** Thread [j], a wait, joins task [ka], which waits for the stream [fd]; task
    [kb] has it, and waits for room in its channel; the receiver is with thread
    [i], a request that waits for the lock of the tasks, which the wait has. *)
Record deadlocked (n k0 : nat) (sid : I) (ret : result ServerError i32) (fd : Fd) (i j ka kb : nat) (buf : list byte)
    (c : state) : Prop := {
  dl_joining : st_threads c !! j = Some (Joining n k0 sid ret);
  dl_task : tasks_of (st_shared c) n !! k0 = Some (inr ka, false);
  dl_pushing : st_threads c !! i = Some (PushLocking n (inr kb));
  dl_first : exists a, jobs c !! ka = Some a /\ job_src a = Some fd /\ job_stage a = CopyLocking;
  dl_second : exists b, jobs c !! kb = Some b /\ job_src b = Some fd /\ job_stage b = CopySending buf
    /\ job_open b = true /\ has_room b = false
}.

Section Deadlock.
Context (n k0 : nat) (sid : I) (ret : result ServerError i32) (fd : Fd) (i j ka kb : nat) (buf : list byte).
Abbreviation deadlock := (deadlocked n k0 sid ret fd i j ka kb buf).

(** Changes of a task that leave the deadlock. *)
Definition harmless (k : nat) (x y : job Fd) : Prop :=
  k <> kb /\ (k = ka -> job_src y = job_src x /\ job_stage y = job_stage x).

Lemma deadlock_set_job k x y (c : state) :
  jobs c !! k = Some x -> harmless k x y -> deadlock c -> deadlock (set_job k y c).
Proof.
  intros Hk [Hkb Hka] [H1 H2 H3 (a & Ha & Has & Hag) (b & Hb & Hbs)]. split; try done; cbn.
  - destruct (decide (k = ka)) as [->|Hne].
    + destruct (Hka eq_refl) as [Es Eg]. exists y. change (m_jobs (sh_host (st_shared c))) with (jobs c).
      rewrite list_lookup_insert_eq by (by eapply lookup_lt_Some). simplify_eq. by rewrite Es, Eg.
    + exists a. rewrite list_lookup_insert_ne by done. done.
  - exists b. rewrite list_lookup_insert_ne by done. done.
Qed.

Lemma deadlock_in_request (c : state) : deadlock c -> in_request kb c = true.
Proof. intros H. apply in_request_true. exists i. eexists. split; [apply (dl_pushing _ _ _ _ _ _ _ _ _ _ _ H)|done]. Qed.

(** Nothing moves the two threads, *)
Lemma deadlock_threads (c : state) : owners c -> deadlock c ->
  move (Joining n k0 sid ret) (st_shared c) = None /\ move (PushLocking n (inr kb)) (st_shared c) = None.
Proof.
  intros Ho [H1 H2 H3 (a & Ha & _ & Hag) _].
  pose proof (owners_hold _ _ _ Ho H1 (HandlesLock n) (Nat.eqb_refl n)) as Hl.
  unfold tasks_of in H2. simpl in Hl. cbn [move].
  destruct (sh_objects (st_shared c) !! n) as [x|]; simpl in *; [|done]. rewrite Hl. split; [|done].
  unfold join_next, after_event. rewrite H2.
  change (happened (Finished (inr ka)) (sh_host (st_shared c))) with (from_option job_done false (jobs c !! ka)).
  rewrite Ha. simpl. unfold job_done. by rewrite Hag.
Qed.

(** nor the two tasks. *)
Lemma deadlock_jobs (c : state) k : deadlock c -> k = ka \/ k = kb -> copying_step (MoveJob k) c = None.
Proof.
  intros [H1 H2 H3 (a & Ha & Has & Hag) (b & Hb & Hbs & Hbg & Hbo & Hbr)]. cbn [copying_step]. unfold move_job.
  intros [->| ->]; [rewrite Ha|rewrite Hb]; cbn [mbind option_bind]; unfold job_move.
  - rewrite Has, Hag. replace (existsb (has_stream fd) (jobs c)) with true; [done|]. symmetry. apply existsb_exists.
    exists b. split; [by eapply list_elem_of_In, list_elem_of_lookup_2|]. unfold has_stream. rewrite Hbg.
    by apply bool_decide_eq_true.
  - by rewrite Hbg, Hbo, Hbr.
Qed.

Lemma deadlock_move m t t' (c : state) (sh : shared) :
  owners c -> jobs_inv c -> deadlock c -> m <> i -> m <> j ->
  st_threads c !! m = Some t -> move t (st_shared c) = Some (t', sh) ->
  deadlock {| st_shared := sh; st_threads := <[m := t']> (st_threads c) |}.
Proof.
  intros Ho Hc [H1 H2 H3 (a & Ha & Has) (b & Hb & Hbs)] Hmi Hmj Hm Em.
  assert (forall k x, jobs c !! k = Some x -> m_jobs (sh_host sh) !! k = Some x) as Hkeep.
  { intros k x Hk. unfold jobs, machine_of in Hk.
    destruct (move_jobs _ _ _ _ Em) as [E _|src _ _ E]; rewrite E; [done|by apply lookup_app_l_Some]. }
  split; cbn [st_shared st_threads].
  - by rewrite list_lookup_insert_ne.
  - destruct (move_tasks _ _ _ _ n Em) as [E|h _ _ E|k s r h -> _ Hk _ E|l cmd s session _ -> _].
    + by rewrite E.
    + rewrite E. by apply lookup_app_l_Some.
    + exfalso. apply Hmj. eapply (owner_unique c (HandlesLock n)); [done|exact Hm| |exact H1|]; simpl; apply Nat.eqb_refl.
    + unfold tasks_of in H2. by rewrite (lookup_ge_None_2 (sh_objects _)) in H2 by lia.
  - by rewrite list_lookup_insert_ne.
  - exists a. split; [by apply Hkeep|done].
  - exists b. split; [by apply Hkeep|done].
Qed.

Lemma deadlock_step l (c c' : state) :
  owners c -> jobs_inv c -> deadlock c -> copying_step l c = Some c' -> deadlock c'.
Proof.
  intros Ho Hc Hd Hs. pose proof (deadlock_in_request c Hd) as Hreq. destruct l as [r|m|k|k|k|o].
  - cbn [copying_step server_step] in Hs. injection Hs as <-. destruct Hd as [H1 H2 H3 H4 H5].
    split; cbn [st_shared st_threads]; [by apply lookup_app_l_Some|done|by apply lookup_app_l_Some|done..].
  - cbn [copying_step] in Hs. unfold move_thread in Hs.
    destruct (st_threads c !! m) as [t|] eqn:Hm; cbn [mbind option_bind server_step] in Hs; [|done].
    rewrite Hm in Hs. cbn [mbind option_bind] in Hs.
    destruct (move t (st_shared c)) as [[t' sh]|] eqn:Em; cbn [mbind option_bind st_threads] in Hs; [|done].
    destruct (deadlock_threads c Ho Hd) as [Hj Hi].
    assert (m <> i) as Hmi by (intros ->; rewrite (dl_pushing _ _ _ _ _ _ _ _ _ _ _ Hd) in Hm; simplify_eq).
    assert (m <> j) as Hmj by (intros ->; rewrite (dl_joining _ _ _ _ _ _ _ _ _ _ _ Hd) in Hm; simplify_eq).
    rewrite list_lookup_insert_eq in Hs by (by eapply lookup_lt_Some). cbn [mbind option_bind] in Hs. injection Hs as <-.
    pose proof (deadlock_move m t t' c sh Ho Hc Hd Hmi Hmj Hm Em) as Hd'.
    destruct (lost_receiver t t') as [k|] eqn:El; [|done]. case_match eqn:Hk; [|done].
    eapply deadlock_set_job; [exact Hk| |exact Hd']. split; [|done]. intros ->. apply Hmi.
    unfold lost_receiver in El. destruct (pushes t) as [[h|k]|] eqn:Ep; [done| |done].
    assert (k = kb) as -> by (repeat (case_match; try done); congruence).
    eapply (ji_once _ Hc m i); [exact Hm|apply (dl_pushing _ _ _ _ _ _ _ _ _ _ _ Hd)|exact Ep|done].
  - assert (k <> ka /\ k <> kb) as [Hka Hkb].
    { split; intros ->; by rewrite (deadlock_jobs c _ Hd) in Hs by auto. }
    cbn [copying_step] in Hs. unfold move_job in Hs.
    destruct (jobs c !! k) as [x|] eqn:Hk; cbn [mbind option_bind] in Hs; [|done].
    destruct (job_move _ _ _) as [[y o]|]; cbn [mbind option_bind] in Hs; [|done]. injection Hs as <-.
    apply (deadlock_set_job k x); [done|done|]. by destruct Hd.
  - cbn [copying_step] in Hs. unfold take_item in Hs.
    destruct (jobs c !! k) as [x|] eqn:Hk; cbn [mbind option_bind] in Hs; [|done].
    destruct (in_request k c || _) eqn:Er; [done|]. destruct (job_queue x); [done|]. injection Hs as <-.
    apply (deadlock_set_job k x); [done| |done]. split; [|done]. intros ->. by rewrite Hreq in Er.
  - cbn [copying_step] in Hs. unfold leave in Hs.
    destruct (jobs c !! k) as [x|] eqn:Hk; cbn [mbind option_bind] in Hs; [|done].
    destruct (in_request k c) eqn:Er; [done|]. injection Hs as <-.
    apply (deadlock_set_job k x); [done| |done]. split; [|done]. intros ->. congruence.
  - cbn [copying_step] in Hs. injection Hs as <-. by destruct Hd.
Qed.

(** C8: two requests for one output stream of a session and a wait for it can
    stop each other for ever, inside the server: from such a state on, whatever
    arrives, whoever moves and whatever the clients and the commands do, neither
    the wait nor the later of the two requests is answered. *)
Theorem two_readers_deadlock ls (c c' : state) :
  copying_reachable c -> deadlock c -> copying_run ls c = Some c' ->
  deadlock c' /\ st_threads c' !! j = Some (Joining n k0 sid ret) /\ st_threads c' !! i = Some (PushLocking n (inr kb)).
Proof.
  intros Hr Hd Hrun. destruct (copying_reachable_inv c Hr) as [Ho Hv]. pose proof (copying_reachable_jobs c Hr) as Hc.
  assert (deadlock c') as Hd'; [|split; [done|split; apply Hd']]. clear Hr.
  revert c Ho Hv Hc Hd Hrun. induction ls as [|l ls IH]; intros c Ho Hv Hc Hd Hrun; simpl in Hrun; [by simplify_eq|].
  destruct (copying_step l c) as [c1|] eqn:E; simpl in Hrun; [|done].
  destruct (copying_step_run _ _ _ E) as [ks Hks]. destruct (run_inv _ _ _ Ho Hv Hks) as [Ho1 Hv1].
  apply (IH c1); [done|done|exact (copying_step_inv _ _ _ E Hc)|exact (deadlock_step l c c1 Ho Hc Hd E)|done].
Qed.
End Deadlock.
End Props.

(** ** Runs *)

#[local] Existing Instance mem_host.
#[local] Existing Instance prost_ref.
#[local] Existing Instance prompt_world.

Abbreviation mem_os := (list (list byte)).
Abbreviation mem_machine := (Copying.machine mem_os nat).
Abbreviation mem_copying := (Steps.server_state nat mem_machine nat nat nat (nat + nat)).
Abbreviation mem_label := (copying_label nat mem_os).

(** A command that has written nothing, and one that never stops writing. *)
Definition mute : Reads mem_os nat := fun _ _ _ => None.
Definition talking : Reads mem_os nat := fun _ _ o => Some (Ok [x61], o).

Definition start_run : list mem_label :=
  [Arrives (Dial 1%nat); MoveThread 0; Arrives (Start sh 1%nat)] ++ replicate 3 (MoveThread 1)
  ++ [Arrives (Stdout 1%nat)] ++ replicate 3 (MoveThread 2).

(** The wait joins the task of the one request for output, which has the
    stream and waits for the command. *)
Definition mute_run : list mem_label :=
  start_run ++ [MoveJob 0; Arrives (Wait 1%nat)] ++ replicate 5 (MoveThread 3).

Definition mute_state : mem_copying :=
  default (copying_init []) (copying_run (RO := mute) mute_run (copying_init [])).

Lemma server_no_deadlock_witness :
  at_end mute_state (Thr 3) = false
  /\ exists b, rtc (waits_on mute_state) (Thr 3) b /\ waits_outside (RO := mute) mute_state b.
Proof.
  assert (copying_run (RO := mute) mute_run (copying_init []) = Some mute_state) as Hr by (vm_compute; reflexivity).
  assert (at_end mute_state (Thr 3) = false) as He by (vm_compute; reflexivity).
  split; [exact He|].
  apply (server_no_deadlock (RO := mute) mute_state); [exists [], mute_run; exact Hr| | |exact He].
  - intros k k' j j' fd Hj Hj' _ _. assert (length (jobs mute_state) = 1%nat) as Hl by (vm_compute; reflexivity).
    apply lookup_lt_Some in Hj, Hj'. lia.
  - split; [intros [|[|[|[|i]]]]|intros [|k]]; vm_compute; reflexivity.
Defined.

(** A second request for the output: its task has the stream, and its channel
    is full when the request waits for the lock that the wait has. *)
Definition two_readers_run : list mem_label :=
  start_run ++ [Arrives (Stdout 1%nat)] ++ replicate 2 (MoveThread 3) ++ replicate 22 (MoveJob 1)
  ++ [Arrives (Wait 1%nat)] ++ replicate 5 (MoveThread 4).

Definition two_readers : mem_copying :=
  default (copying_init []) (copying_run (RO := talking) two_readers_run (copying_init [])).

Definition later_run : list mem_label := [Arrives (Dial 2%nat); MoveThread 5; Elsewhere []].

Lemma two_readers_deadlock_witness :
  exists c', copying_run (RO := talking) later_run two_readers = Some c'
    /\ st_threads c' !! 5%nat = Some (Answered (Ok None))
    /\ st_threads c' !! 4%nat = Some (Joining 0 0 1%nat (Ok 0))
    /\ st_threads c' !! 3%nat = Some (PushLocking 0 (inr 1%nat)).
Proof.
  assert (copying_run (RO := talking) two_readers_run (copying_init []) = Some two_readers) as Hr by (vm_compute; reflexivity).
  set (c' := default two_readers (copying_run (RO := talking) later_run two_readers)).
  assert (copying_run (RO := talking) later_run two_readers = Some c') as Hr' by (vm_compute; reflexivity).
  exists c'. split; [exact Hr'|]. split; [vm_compute; reflexivity|].
  refine (proj2 (two_readers_deadlock (RO := talking) 0 0 1%nat (Ok 0) 4%nat 3 4 0 1 [x61] later_run two_readers c'
    (ex_intro _ [] (ex_intro _ two_readers_run Hr)) _ Hr')).
  split; [vm_compute; reflexivity|vm_compute; reflexivity|vm_compute; reflexivity| |].
  - eexists. split; [vm_compute; reflexivity|]. split; vm_compute; reflexivity.
  - eexists. split; [vm_compute; reflexivity|]. split; [vm_compute; reflexivity|].
    split; [vm_compute; reflexivity|]. split; vm_compute; reflexivity.
Defined.
