(* ===== verification/StepsTerm.v ===== *)
(** * The interleaved session server comes to an end

    Between two requests the threads can only make a bounded number of moves,
    whatever their order and whatever the world outside does. *)

From Stdlib Require Import Strings.Byte.
From S2P Require Import Prelude Bytes Io Error Fcall Utils Text Namespace Launcher LauncherProps.
From S2P Require Import Server ServerProps Steps StepsProps.

Section Term.
Context {I : Type} `{CI : Countable I}.
Context {O Fd Child Sock Handle : Type} `{HO : Host O Fd Child Sock Handle}.
Context {WO : World O Sock Child Handle Fd}.
Context {DecodeError : Set} `{PR : Prost DecodeError}.

Abbreviation shared := (Steps.shared I O Fd Child Handle).
Abbreviation thread := (Steps.thread I Fd Child Sock Handle).
Abbreviation state := (Steps.server_state I O Fd Child Sock Handle).

(** ** Tasks *)

Definition object_tasks (l : list (object Fd Child Handle)) : nat :=
  sum_list_with (fun x => length (o_handles x)) l.

(** The tasks a thread may still add to a session. *)
Definition future (t : thread) : nat :=
  match t with
  | Called (Start _ _ | Stdout _ | Stderr _) | StartTaken _ _ _ | Pushing _ _ | PushLocking _ _ => 1
  | Accepting _ _ _ s => length (s_handles s)
  | _ => 0
  end.

(** All tasks that are or will be in a session. *)
Definition tasks (c : state) : nat :=
  (object_tasks (sh_objects (st_shared c)) + sum_list_with future (st_threads c))%nat.

(** ** Moves *)

(** A bound on the moves a thread can make when there are [h] tasks. *)
Definition work (h : nat) (t : thread) : nat :=
  match t with
  | Called (Dial _ | NinepForward _) => 1
  | Called (Start _ _) => 3
  | Called (Stdin _ items) => 3 + 2 * length items
  | Called (Stdout _ | Stderr _) => 3
  | Called (Wait _) => 7 + h
  | StartTaken _ _ _ => 2
  | Accepting _ _ _ _ => 1
  | StdinLocking _ items => 2 + 2 * length items
  | StdinReading _ items => 1 + 2 * length items
  | StdinWriting _ _ items => 2 + 2 * length items
  | Pushing _ _ => 2
  | PushLocking _ _ => 1
  | WaitLocking _ _ => 6 + h
  | WaitChild _ _ => 5 + h
  | WaitExited _ _ => 4 + h
  | WaitHandles _ _ _ => 3 + h
  | Joining _ k _ _ => 2 + (h - k)
  | Removing _ _ => 1
  | Answered _ | Panicked => 0
  end.

Definition measure (c : state) : nat := sum_list_with (work (tasks c)) (st_threads c).

Lemma work_mono h h' t : (h <= h')%nat -> (work h t <= work h' t)%nat.
Proof. intros. destruct t as [[]| | | | | | | | | | | | | | |]; simpl; lia. Qed.

Lemma sum_mono {A} (f g : A -> nat) l : (forall x, f x <= g x)%nat -> (sum_list_with f l <= sum_list_with g l)%nat.
Proof. intros H. induction l as [|x l IH]; simpl; [lia|]. specialize (H x). lia. Qed.

Lemma sum_alter {A} (g : A -> nat) (f : A -> A) l n x : l !! n = Some x ->
  (sum_list_with g (alter f n l) + g x = sum_list_with g l + g (f x))%nat.
Proof.
  revert n. induction l as [|y l IH]; intros [|n] Hn; simplify_eq/=; [lia|]. specialize (IH n Hn). lia.
Qed.

Lemma tasks_update n f (sh : shared) x : sh_objects sh !! n = Some x ->
  (object_tasks (sh_objects (update n f sh)) + length (o_handles x)
   = object_tasks (sh_objects sh) + length (o_handles (f x)))%nat.
Proof.
  intros Hx. unfold object_tasks, update. cbn [sh_objects with_objects].
  exact (sum_alter (fun x => length (o_handles x)) f _ n x Hx).
Qed.

Lemma tasks_lock_stdin n b (l : list (object Fd Child Handle)) :
  object_tasks (alter (lock_stdin b) n l) = object_tasks l.
Proof. unfold object_tasks. revert n. induction l as [|x l IH]; intros [|n]; [done..|]. simpl. by rewrite <- (IH n). Qed.

Lemma tasks_object n x (sh : shared) : sh_objects sh !! n = Some x ->
  (length (o_handles x) <= object_tasks (sh_objects sh))%nat.
Proof. apply (sum_lookup (fun x => length (o_handles x))). Qed.

(** A move makes no task out of nothing, and gets on. *)
Definition gets_on (t t' : thread) (sh sh' : shared) : Prop :=
  (object_tasks (sh_objects sh') + future t' <= object_tasks (sh_objects sh) + future t)%nat
  /\ forall h, (object_tasks (sh_objects sh) <= h)%nat -> (work h t' < work h t)%nat.

Lemma gets_on_same t t' (sh sh' : shared) :
  sh_objects sh' = sh_objects sh -> (future t' <= future t)%nat -> (forall h, work h t' < work h t)%nat ->
  gets_on t t' sh sh'.
Proof. intros E Hf Hw. split; [rewrite E; lia|auto]. Qed.

Lemma gets_on_update t t' (sh sh1 : shared) n f x :
  sh_objects sh1 = sh_objects sh -> sh_objects sh !! n = Some x ->
  (length (o_handles (f x)) + future t' <= length (o_handles x) + future t)%nat ->
  (forall h, length (o_handles x) <= h -> work h t' < work h t)%nat ->
  gets_on t t' sh (update n f sh1).
Proof.
  intros E Hx Hl Hw. rewrite <- E in Hx. pose proof (tasks_update n f _ _ Hx) as Ht. rewrite E in Ht, Hx.
  split; [lia|]. intros h Hh. apply Hw. pose proof (tasks_object _ _ _ Hx). lia.
Qed.

Lemma new_session_tasks (p : PendingSession Handle) (kept : Fd * Fd * option Fd) (child : Child) :
  (length (s_handles (new_session p kept child)) <= 1)%nat.
Proof. unfold new_session. simpl. destruct (p_ninep p); simpl; lia. Qed.

Lemma begin_gets_on r (sh : shared) t' sh' : begin r sh = Some (t', sh') -> gets_on (Called r) t' sh sh'.
Proof.
  destruct r; simpl; unfold table_free; intros Hb;
    repeat (case_match; simplify_eq/=; try done);
    repeat match goal with H : on_host _ _ = _ |- _ => apply on_host_objects in H as (? & _) end;
    (apply gets_on_same; simpl; [done|lia|intros; lia]).
Qed.

Lemma begin_start_gets_on cmd sid p (sh : shared) t' sh' :
  begin_start cmd sid p sh = (t', sh') -> gets_on (StartTaken cmd sid p) t' sh sh'.
Proof.
  unfold begin_start. destruct (sh_sessions sh !! sid);
    [intros [= <- <-]; apply gets_on_same; simpl; [done|lia|intros; lia]|].
  destruct (on_host _ sh) as [r sh2] eqn:E. apply on_host_objects in E as (E & _).
  destruct r as [[[[l c] k] ch]|e]; intros [= <- <-]; (apply gets_on_same; [done|simpl|simpl; intros; lia]);
    [|lia]. apply (new_session_tasks p k ch).
Qed.

Lemma finish_start_gets_on listener cmd sid i (sh : shared) t' sh' :
  finish_start listener cmd sid i sh = (t', sh') -> gets_on (Accepting listener cmd sid i) t' sh sh'.
Proof.
  unfold finish_start. destruct (on_host _ sh) as [r sh2] eqn:E. apply on_host_objects in E as (E & _).
  destruct r as [[]|e]; intros [= <- <-].
  - split; [|simpl; intros; lia]. unfold object_tasks. simpl. rewrite E, sum_list_with_app. simpl.
    rewrite length_map. lia.
  - apply gets_on_same; [done|simpl; lia|simpl; intros; lia].
Qed.

Lemma move_gets_on t (sh : shared) t' sh' : move t sh = Some (t', sh') -> gets_on t t' sh sh'.
Proof.
  intros Hm. destruct t; simpl in Hm; unfold table_free, after_event, read_item, write_item, join_next, after_event in Hm;
    try done; try (by apply begin_gets_on);
    try (destruct (sh_objects sh !! n) as [x|] eqn:Hx; simpl in Hm; [|done]).
  - destruct (sh_starting sh); [done|]. injection Hm as Hm. by apply begin_start_gets_on.
  - destruct (happened _ _); [|done]. injection Hm as Hm. by apply finish_start_gets_on.
  - destruct (stdin_locked x); simplify_eq. eapply gets_on_update; [done|done|simpl; lia|simpl; intros; lia].
  - destruct (happened _ _); [|done]. destruct items as [|i items]; simplify_eq;
      [|apply gets_on_same; [done|simpl; lia|simpl; intros; lia]].
    split; [simpl; by rewrite tasks_lock_stdin|simpl; intros; lia].
  - destruct (happened _ _); [|done]. destruct (on_host _ sh) as [r sh2] eqn:E.
    apply on_host_objects in E as (E & _). destruct r; simplify_eq;
      [apply gets_on_same|eapply gets_on_update]; simpl; try done; try lia; intros; lia.
  - destruct (sh_starting sh); [done|].
    destruct (find_session sid sh) as [[m x]|]; simplify_eq; (apply gets_on_same; simpl; [done|lia|intros; lia]).
  - destruct (handles_locked x); simplify_eq. eapply gets_on_update; [done|done| |simpl; intros; lia].
    simpl. rewrite length_app. simpl. lia.
  - destruct (child_locked x); simplify_eq. eapply gets_on_update; [done|done|simpl; lia|simpl; intros; lia].
  - destruct (happened _ _); [|done]. destruct (wait_child _ _) as [st o]. simplify_eq.
    eapply gets_on_update; [done|done|simpl; lia|simpl; intros; lia].
  - destruct (sh_starting sh); [done|].
    destruct (find_session sid sh) as [[m x]|]; simplify_eq; (apply gets_on_same; simpl; [done|lia|intros; lia]).
  - destruct (handles_locked x); simplify_eq. eapply gets_on_update; [done|done|simpl; lia|simpl; intros; lia].
  - destruct (o_handles x !! k) as [[h [|]]|] eqn:Hk.
    + simplify_eq. eapply gets_on_update; [done|done|simpl; lia|simpl; intros; lia].
    + destruct (happened _ _); [|done]. destruct (on_host _ sh) as [r sh2] eqn:E.
      apply on_host_objects in E as (E & _). simplify_eq. apply lookup_lt_Some in Hk.
      eapply gets_on_update; [done|done|simpl; by rewrite length_insert|simpl; intros; lia].
    + simplify_eq. eapply gets_on_update; [done|done|simpl; lia|simpl; intros; lia].
  - destruct (sh_starting sh); simplify_eq. apply gets_on_same; [done|simpl; lia|simpl; intros; lia].
Qed.

(** ** Runs *)

Definition is_move (l : server_label I O) : bool := match l with Move _ => true | _ => false end.
Definition is_arrival (l : server_label I O) : bool := match l with Arrive _ => true | _ => false end.

Lemma step_measure l c c' : is_arrival l = false -> server_step l c = Some c' ->
  (Nat.b2n (is_move l) + measure c' <= measure c)%nat.
Proof.
  destruct l as [r|i|o]; simpl; [done| |by intros _ [= <-]]. intros _.
  destruct (st_threads c !! i) as [t|] eqn:Hi; simpl; [|done].
  destruct (move t (st_shared c)) as [[t' sh]|] eqn:Hm; simpl; [|done]. intros [= <-].
  destruct (move_gets_on _ _ _ _ Hm) as [Ht Hw]. unfold measure, tasks. simpl.
  pose proof (sum_insert future _ _ _ t' Hi) as Hf.
  set (h := (object_tasks (sh_objects (st_shared c)) + sum_list_with future (st_threads c))%nat).
  set (h' := (object_tasks (sh_objects sh) + sum_list_with future (<[i:=t']> (st_threads c)))%nat).
  assert (h' <= h)%nat as Hh by (unfold h, h'; lia).
  pose proof (sum_mono (work h') (work h) (<[i:=t']> (st_threads c)) (fun t => work_mono _ _ t Hh)).
  pose proof (sum_insert (work h) _ _ _ t' Hi). assert (work h t' < work h t)%nat by (apply Hw; lia). lia.
Qed.

(** C26: without a new request the threads make a bounded number of moves in
    all, in every order and whatever happens outside: at most the sum of what
    each has to do, which for a wait grows with the number of tasks there are
    to be joined. *)
Theorem server_moves_bounded ls c c' :
  Forall (fun l => is_arrival l = false) ls -> server_run ls c = Some c' ->
  (count is_move ls + measure c' <= measure c)%nat.
Proof.
  revert c. induction ls as [|l ls IH]; intros c Hl Hrun; simpl in Hrun; [by simplify_eq|].
  apply Forall_cons in Hl as [Hl Hls].
  destruct (server_step l c) as [c1|] eqn:E; simpl in Hrun; [|done].
  pose proof (step_measure _ _ _ Hl E). specialize (IH c1 Hls Hrun). unfold count in *. simpl. lia.
Qed.
End Term.

(** ** Runs *)

#[local] Existing Instance mem_host.
#[local] Existing Instance prost_ref.

Definition moves_of (ls : list nat) : list (server_label nat (list (list byte))) := map Move ls.

(** A session that is dialled, started, asked for its output and waited for. *)
Lemma server_moves_bounded_witness :
  exists c c',
    server_run (WO := prompt_world) [Arrive (Dial 1%nat); Arrive (Start sh 1%nat); Arrive (Stdout 1%nat); Arrive (Wait 1%nat)]
      (server_init []) = Some c
    /\ server_run (WO := prompt_world) (moves_of [0; 1; 1; 1; 2; 2; 2; 3; 3; 3; 3; 3; 3; 3; 3]%nat) c = Some c'
    /\ measure c = 16%nat /\ (15 + measure c' <= measure c)%nat.
Proof.
  set (c := default (server_init []) (server_run (WO := prompt_world)
    [Arrive (Dial 1%nat); Arrive (Start sh 1%nat); Arrive (Stdout 1%nat); Arrive (Wait 1%nat)] (server_init []))).
  set (c' := default (server_init []) (server_run (WO := prompt_world)
    (moves_of [0; 1; 1; 1; 2; 2; 2; 3; 3; 3; 3; 3; 3; 3; 3]%nat) c)).
  assert (server_run (WO := prompt_world) (moves_of [0; 1; 1; 1; 2; 2; 2; 3; 3; 3; 3; 3; 3; 3; 3]%nat) c = Some c') as Hr
    by (vm_compute; reflexivity).
  exists c, c'. split; [vm_compute; reflexivity|]. split; [exact Hr|]. split; [vm_compute; reflexivity|].
  apply (server_moves_bounded (WO := prompt_world) _ c c') in Hr; [|by vm_compute; repeat constructor].
  exact Hr.
Defined.
