(* ===== verification/StepsRefine.v ===== *)
(** * One request at a time, the interleaved server is the server of Server.v

    When the world outside does not keep it waiting, a request that runs alone
    in Steps.v answers, and does to the tables and the host what the
    corresponding operation of Server.v does. *)

From Stdlib Require Import Strings.Byte.
From S2P Require Import Prelude Bytes Io Error Fcall Utils Text Namespace Launcher LauncherProps.
From S2P Require Import Server ServerProps Steps StepsProps.

Section Refine.
Context {I : Type} `{CI : Countable I}.
Context {O Fd Child Sock Handle : Type} `{HO : Host O Fd Child Sock Handle}.
Context {WO : World O Sock Child Handle Fd}.
Context {DecodeError : Set} `{PR : Prost DecodeError}.

Abbreviation server := (Server.server I O Fd Child Handle).
Abbreviation shared := (Steps.shared I O Fd Child Handle).
Abbreviation thread := (Steps.thread I Fd Child Sock Handle).
Abbreviation state := (Steps.server_state I O Fd Child Sock Handle).
Abbreviation object := (Steps.object Fd Child Handle).

(** ** Computations of Server.v that only see the host *)

Definition set_host (o : O) (s : server) : server :=
  {| host := o; sessions := sessions s; pending := pending s |}.

Definition host_only {A} (m : M server ServerError A) : Prop := forall s,
  m s = ((m (server_new (host s))).1, set_host (host (m (server_new (host s))).2) s).

Lemma host_only_bind {A B} (m : M server ServerError A) (k : A -> M server ServerError B) :
  host_only m -> (forall a, host_only (k a)) -> host_only (m ≫= k).
Proof.
  intros Hm Hk s. unfold mbind, M_bind. rewrite (Hm s), (Hm (server_new (host s))). simpl.
  destruct (m (server_new (host s))) as [[a|e] s1]; simpl; [|done].
  by rewrite (Hk a (set_host (host s1) s)), (Hk a (set_host (host s1) (server_new (host s)))).
Qed.

Lemma host_only_ret {A} (a : A) : host_only (mret a).
Proof. by intros []. Qed.

Lemma host_only_throw {A} e : host_only (throw e : M server ServerError A).
Proof. by intros []. Qed.

Lemma host_only_call {E A} (err : E -> ServerError) (m : M O E A) : host_only (call err m).
Proof. intros s. unfold call. simpl. by destruct (m (host s)) as [[]]. Qed.

Lemma host_only_try_call {E A} (m : M O E A) : host_only (try_call m).
Proof. intros s. unfold try_call. simpl. by destruct (m (host s)). Qed.

Lemma host_only_spawn_task {A} (m : O -> A * O) : host_only (spawn_task m).
Proof. intros s. unfold spawn_task. simpl. by destruct (m (host s)). Qed.

#[local] Hint Resolve host_only_bind host_only_ret host_only_throw host_only_call host_only_try_call
  host_only_spawn_task : core.

Lemma host_only_stdio b : host_only (stdio b).
Proof.
  unfold stdio. destruct b;
    repeat (apply host_only_bind; [apply host_only_call|intros ?]; repeat case_match); apply host_only_ret.
Qed.

Lemma host_only_with_ninep cmd p : host_only (with_ninep cmd p).
Proof. unfold with_ninep. repeat case_match; auto. Qed.

Lemma host_only_spawn_command cmd p : host_only (spawn_command cmd p).
Proof.
  unfold spawn_command. apply host_only_bind; [auto|intros l]. apply host_only_bind; [auto|intros port].
  apply host_only_bind; [apply host_only_with_ninep|intros c].
  apply host_only_bind; [apply host_only_stdio|intros [[[i o] e] kept]]. auto.
Qed.

Lemma host_only_hand_over listener cmd : host_only (hand_over listener cmd).
Proof. unfold hand_over, send_command. auto 10. Qed.

Lemma host_only_open_forward : host_only open_forward.
Proof.
  unfold open_forward. apply host_only_bind; [auto|intros l]. apply host_only_bind; [auto|intros port].
  apply host_only_bind; [apply host_only_spawn_task|intros h]. apply host_only_ret.
Qed.

(** ** The state of Server.v *)

Definition session_of (x : object) : Session Fd Child Handle := {|
  s_stdin := o_stdin x; s_stdout := o_stdout x; s_stderr := o_stderr x; s_child := o_child x;
  s_handles := fst <$> o_handles x |}.

Definition abstract (sh : shared) : server := {|
  host := sh_host sh;
  sessions := omap (fun n => session_of <$> sh_objects sh !! n) (sh_sessions sh);
  pending := sh_pending sh |}.

Lemma lookup_abstract (sh : shared) sid :
  sessions (abstract sh) !! sid = sh_sessions sh !! sid ≫= fun n => session_of <$> sh_objects sh !! n.
Proof. apply (lookup_omap (M := gmap I)). Qed.

(** Nobody holds a lock, and no task of a session has been joined. *)
Definition idle (x : object) : Prop :=
  stdin_locked x = false /\ child_locked x = false /\ handles_locked x = false
  /\ Forall (fun h => h.2 = false) (o_handles x).

Record quiet (sh : shared) : Prop := {
  quiet_table : sh_starting sh = false;
  quiet_idle : forall sid n, sh_sessions sh !! sid = Some n -> exists x, sh_objects sh !! n = Some x /\ idle x;
  quiet_inj : forall sid sid' n, sh_sessions sh !! sid = Some n -> sh_sessions sh !! sid' = Some n -> sid = sid'
}.

Lemma abstract_with_host o (sh : shared) : abstract (with_host o sh) = set_host o (abstract sh).
Proof. done. Qed.

Lemma abstract_on_host {A} (m : M server ServerError A) (sh sh' : shared) r :
  host_only m -> on_host m sh = (r, sh') -> m (abstract sh) = (r, abstract sh') /\ exists o, sh' = with_host o sh.
Proof.
  intros Hm. unfold on_host. destruct (m (server_new (sh_host sh))) as [r1 s1] eqn:E. intros [= <- <-].
  rewrite (Hm (abstract sh)). simpl. rewrite E. simpl. split; [done|by eexists].
Qed.

Lemma quiet_with_host o (sh : shared) : quiet sh -> quiet (with_host o sh).
Proof. intros [H1 H2 H3]. by split. Qed.

Lemma quiet_with_pending p (sh : shared) : quiet sh -> quiet (with_pending p sh).
Proof. intros [H1 H2 H3]. by split. Qed.

(** Looking a session up. *)
Lemma find_quiet sid (sh : shared) : quiet sh ->
  match find_session sid sh with
  | None => get_session sid (abstract sh) = (Err SessionNotExist, abstract sh)
  | Some (n, x) => sh_sessions sh !! sid = Some n /\ sh_objects sh !! n = Some x /\ idle x
      /\ get_session sid (abstract sh) = (Ok (session_of x), abstract sh)
  end.
Proof.
  intros Hq. unfold find_session, get_session. rewrite lookup_abstract.
  destruct (sh_sessions sh !! sid) as [n|] eqn:E; simpl; [|done].
  destruct (quiet_idle _ Hq _ _ E) as (x & Hx & Hi). by rewrite Hx.
Qed.

(** Changing the object of a session changes that session. *)
Lemma abstract_update sid n f (sh : shared) x : quiet sh ->
  sh_sessions sh !! sid = Some n -> sh_objects sh !! n = Some x ->
  abstract (update n f sh) = {| host := sh_host sh;
    sessions := <[sid := session_of (f x)]> (sessions (abstract sh)); pending := sh_pending sh |}.
Proof.
  intros Hq Hs Hx. unfold abstract at 1. f_equal. apply map_eq. intros k.
  change (sessions (abstract (update n f sh)) !! k = <[sid:=session_of (f x)]> (sessions (abstract sh)) !! k).
  rewrite lookup_abstract. change (sh_sessions (update n f sh)) with (sh_sessions sh). destruct (decide (k = sid)) as [->|Hne].
  - rewrite lookup_insert_eq, Hs. simpl. rewrite list_lookup_alter_eq, Hx. done.
  - rewrite lookup_insert_ne by done. rewrite lookup_abstract.
    destruct (sh_sessions sh !! k) as [m|] eqn:Hk; simpl; [|done].
    rewrite list_lookup_alter_ne; [done|]. intros <-. apply Hne. by eapply (quiet_inj _ Hq).
Qed.

Lemma update_update n f g o (sh : shared) :
  update n f (with_host o (update n g sh)) = with_host o (update n (f ∘ g) sh).
Proof.
  unfold update, with_host, with_objects. simpl. f_equal.
  apply list_eq. intros m. destruct (decide (n = m)) as [->|Hne].
  - rewrite !list_lookup_alter_eq. by destruct (sh_objects sh !! m).
  - by rewrite !list_lookup_alter_ne.
Qed.

Lemma update_same n f (sh : shared) x : sh_objects sh !! n = Some x -> f x = x -> update n f sh = sh.
Proof.
  intros Hx E. unfold update, with_objects. destruct sh as [o s p l b]. simpl in *. f_equal.
  apply list_eq. intros m. destruct (decide (m = n)) as [->|Hne].
  - by rewrite list_lookup_alter_eq, Hx; simpl; rewrite E.
  - by rewrite list_lookup_alter_ne by done.
Qed.

Lemma with_host_same (sh : shared) : with_host (sh_host sh) sh = sh.
Proof. by destruct sh. Qed.

Lemma quiet_update n f (sh : shared) : quiet sh -> (forall x, idle x -> idle (f x)) -> quiet (update n f sh).
Proof.
  intros [H1 H2 H3] Hf. split; [done| |done]. intros sid m Hm. rewrite objects_update.
  destruct (H2 _ _ Hm) as (x & Hx & Hi). rewrite Hx. destruct (decide (n = m)); simpl; eauto.
Qed.

(** A new session. *)
Definition with_new (sid : I) (i : Session Fd Child Handle) (sh : shared) : shared :=
  with_sessions (<[sid := length (sh_objects sh)]> (sh_sessions sh))
    (with_objects (sh_objects sh ++ [new_object i]) sh).

Lemma quiet_valid (sh : shared) sid n : quiet sh -> sh_sessions sh !! sid = Some n -> (n < length (sh_objects sh))%nat.
Proof. intros Hq Hs. destruct (quiet_idle _ Hq _ _ Hs) as (x & Hx & _). by eapply lookup_lt_Some. Qed.

Lemma session_of_new (i : Session Fd Child Handle) : session_of (new_object i) = i.
Proof.
  destruct i as [a b c d hs]. unfold session_of. simpl. f_equal.
  induction hs as [|h hs IH]; simpl; [done|by f_equal].
Qed.

Lemma idle_new i : idle (new_object i).
Proof. repeat split. simpl. induction (s_handles i); simpl; auto. Qed.

Lemma abstract_new sid i (sh : shared) : quiet sh ->
  abstract (with_new sid i sh) = {| host := sh_host sh; sessions := <[sid := i]> (sessions (abstract sh)); pending := sh_pending sh |}.
Proof.
  intros Hq. unfold abstract at 1. f_equal. apply map_eq. intros k.
  change (sessions (abstract (with_new sid i sh)) !! k = <[sid:=i]> (sessions (abstract sh)) !! k).
  rewrite lookup_abstract. cbn [sh_sessions sh_objects with_new with_sessions with_objects].
  destruct (decide (k = sid)) as [->|Hne].
  - rewrite !lookup_insert_eq. simpl. by rewrite list_lookup_middle; simpl; rewrite ?session_of_new.
  - rewrite !lookup_insert_ne by done. rewrite lookup_abstract.
    destruct (sh_sessions sh !! k) as [n|] eqn:E; simpl; [|done].
    by rewrite lookup_app_l by by eapply quiet_valid.
Qed.

Lemma quiet_new sid i (sh : shared) : quiet sh -> quiet (with_new sid i sh).
Proof.
  intros Hq. split; [apply (quiet_table _ Hq)|..]; cbn [sh_sessions sh_objects with_new with_sessions with_objects].
  - intros k n. destruct (decide (k = sid)) as [->|Hne].
    + rewrite lookup_insert_eq. intros [= <-]. exists (new_object i). split; [by apply list_lookup_middle|apply idle_new].
    + rewrite lookup_insert_ne by done. intros (x & Hx & Hi)%(quiet_idle _ Hq). exists x. split; [|done].
      by apply lookup_app_l_Some.
  - intros k k' n. rewrite !lookup_insert_Some.
    intros [[<- <-]|[Hk E]] [[<- E']|[Hk' E']]; [done| | |by eapply (quiet_inj _ Hq)];
      [apply (quiet_valid _ _ _ Hq) in E'; lia|subst n; apply (quiet_valid _ _ _ Hq) in E; lia].
Qed.

(** ** A thread on its own *)

Definition alone : relation (thread * shared) := fun a b => move a.1 a.2 = Some b.

Lemma alone_step t (sh : shared) t' sh' b : move t sh = Some (t', sh') -> rtc alone (t', sh') b -> rtc alone (t, sh) b.
Proof. intros H1 H2. by eapply rtc_l. Qed.

Lemma alone_run ts t (sh : shared) b : rtc alone (t, sh) b ->
  exists k, server_run (replicate k (Move (length ts))) {| st_shared := sh; st_threads := ts ++ [t] |}
    = Some {| st_shared := b.2; st_threads := ts ++ [b.1] |}.
Proof.
  intros H. remember (t, sh) as a eqn:E. revert t sh E.
  induction H as [a|a [t2 sh2] b Hm _ IH]; intros t sh ->; [by exists 0%nat|].
  destruct (IH _ _ eq_refl) as (k & Hk). exists (S k). unfold alone in Hm. simpl in *.
  rewrite list_lookup_middle by done. simpl. rewrite Hm. simpl. rewrite insert_app_r_alt by lia.
  by rewrite Nat.sub_diag.
Qed.

(** ** Requests, in their order *)

Fixpoint arrivals (ls : list (server_label I O)) : list (request I) :=
  match ls with
  | [] => []
  | Arrive r :: ls => r :: arrivals ls
  | _ :: ls => arrivals ls
  end.

(** The operations of Server.v, one after the other: which of them succeed. *)
Fixpoint serve_all (rs : list (request I)) (s : server) : list bool * server :=
  match rs with
  | [] => ([], s)
  | r :: rs => let '(b, s) := serve_request r s in let '(bs, s) := serve_all rs s in (b :: bs, s)
  end.

Lemma arrivals_app ls ls' : arrivals (ls ++ ls') = arrivals ls ++ arrivals ls'.
Proof. induction ls as [|[] ls IH]; simpl; by rewrite ?IH. Qed.

Lemma arrivals_moves k i : arrivals (replicate k (Move i)) = [].
Proof. by induction k. Qed.

(** ** Each operation *)

Context (prompt : forall (e : event Sock Child Handle Fd) (o : O), happened e o = true).

(** [t], alone, answers, and did what [m] does. *)
Definition agrees {A} (t : thread) (sh : shared) (m : result ServerError A * server) : Prop :=
  exists a sh', rtc alone (t, sh) (Answered a, sh') /\ quiet sh'
    /\ is_ok a = is_ok m.1 /\ abstract sh' = m.2.

Lemma agrees_step {A} t t' (sh sh' : shared) (m : result ServerError A * server) :
  move t sh = Some (t', sh') -> agrees t' sh' m -> agrees t sh m.
Proof. intros Hm (a & sh2 & Hr & H). exists a, sh2. split; [by eapply alone_step|done]. Qed.

Lemma agrees_steps {A} t b (sh : shared) (m : result ServerError A * server) :
  move t sh = Some b -> agrees b.1 b.2 m -> agrees t sh m.
Proof. destruct b. apply agrees_step. Qed.

Lemma agrees_answer {A} a (sh : shared) (m : result ServerError A * server) :
  quiet sh -> is_ok a = is_ok m.1 -> abstract sh = m.2 -> agrees (Answered a) sh m.
Proof. intros. exists a, sh. split; [apply rtc_refl|done]. Qed.

(** An answer that lets go of the table. *)
Lemma agrees_unlocked {A} a (sh : shared) (m : result ServerError A * server) :
  quiet sh -> is_ok a = is_ok m.1 -> abstract sh = m.2 -> agrees (Answered a) (with_starting false sh) m.
Proof.
  intros Hq. assert (with_starting false sh = sh) as ->; [|by apply agrees_answer].
  pose proof (quiet_table _ Hq). destruct sh; simpl in *; by subst.
Qed.

Lemma after_happened e (sh : shared) (k : option (thread * shared)) : after_event e sh k = k.
Proof. unfold after_event. by rewrite prompt. Qed.

Lemma table_quiet (sh : shared) (k : option (thread * shared)) : quiet sh -> table_free sh k = k.
Proof. intros Hq. unfold table_free. by rewrite (quiet_table _ Hq). Qed.

Lemma dial_agrees sid (sh : shared) : quiet sh -> agrees (Called (Dial sid)) sh (dial sid (abstract sh)).
Proof.
  intros Hq. unfold dial. simpl. destruct (sh_pending sh !! sid) eqn:E;
    (eapply agrees_step; [simpl; by rewrite E|]; apply agrees_answer; [|done..]); [done|by apply quiet_with_pending].
Qed.

Lemma forward_agrees sid (sh : shared) :
  quiet sh -> agrees (Called (NinepForward sid)) sh (ninep_forward sid (abstract sh)).
Proof.
  intros Hq. unfold ninep_forward. simpl. destruct (sh_pending sh !! sid) as [p|] eqn:E.
  2: { eapply agrees_step; [simpl; by rewrite E|]. by apply agrees_answer. }
  pose proof host_only_open_forward as Hm.
  destruct (on_host open_forward sh) as [r sh2] eqn:Eo. destruct (abstract_on_host _ _ _ _ Hm Eo) as [Ea [o Es]].
  unfold mbind, M_bind. rewrite Ea.
  destruct r as [q|e]; (eapply agrees_step; [simpl; by rewrite E, Eo|]); apply agrees_answer; try done; subst sh2; try done;
    [apply quiet_with_pending|]; by apply quiet_with_host.
Qed.

Lemma start_agrees cmd sid (sh : shared) :
  quiet sh -> agrees (Called (Start cmd sid)) sh (start cmd sid (abstract sh)).
Proof.
  intros Hq. unfold start, take_pending, mbind, M_bind. cbn [pending abstract].
  destruct (sh_pending sh !! sid) as [p|] eqn:E.
  2: { eapply agrees_step; [simpl; by rewrite E|]. by apply agrees_answer. }
  set (sh1 := with_pending (delete sid (sh_pending sh)) sh).
  assert (quiet sh1) as Hq1 by by apply quiet_with_pending.
  eapply agrees_step; [simpl; by rewrite E|]. fold sh1.
  change ({| host := _; sessions := _; pending := _ |}) with (abstract sh1). clearbody sh1. clear E Hq sh.
  rename sh1 into sh, Hq1 into Hq. unfold check_not_started. rewrite lookup_abstract.
  apply agrees_steps with (begin_start cmd sid p sh); [simpl; by rewrite table_quiet|]. unfold begin_start.
  destruct (sh_sessions sh !! sid) as [n|] eqn:Es.
  { destruct (quiet_idle _ Hq _ _ Es) as (x & Hx & Hi). simpl. rewrite Hx. by apply agrees_answer. }
  simpl. destruct (on_host (spawn_command cmd (fst <$> p_ninep p)) sh) as [r sh2] eqn:Eo.
  destruct (abstract_on_host _ _ _ _ (host_only_spawn_command _ _) Eo) as [Ea [o ->]]. rewrite Ea.
  destruct r as [[[[l c] k] ch]|e]; [|apply agrees_answer; [by apply quiet_with_host|done..]].
  apply agrees_steps with (finish_start l c sid (new_session p k ch) (with_starting true (with_host o sh)));
    [simpl; by rewrite after_happened|]. unfold finish_start.
  destruct (on_host (hand_over l c) (with_host o sh)) as [r sh2] eqn:Eh.
  destruct (abstract_on_host _ _ _ _ (host_only_hand_over _ _) Eh) as [Eb [o' ->]]. rewrite Eb.
  replace (on_host (hand_over l c) (with_starting true (with_host o sh)))
    with (r, with_starting true (with_host o' sh)).
  2: { revert Eh. unfold on_host. simpl. destruct (hand_over l c (server_new o)) as [r2 s2]. by intros [= <- <-]. }
  assert (quiet (with_host o' sh)) as Hq2 by by apply quiet_with_host.
  destruct r as [[]|e].
  - apply (agrees_unlocked _ (with_new sid (new_session p k ch) (with_host o' sh))); [by apply quiet_new|done|].
    by rewrite abstract_new.
  - by apply (agrees_unlocked _ (with_host o' sh)).
Qed.

(** Taking a lock and letting go of it. *)
Lemma relock n f g o (sh : shared) x : sh_objects sh !! n = Some x -> f (g x) = x ->
  update n f (with_host o (update n g sh)) = with_host o sh.
Proof. intros Hx E. rewrite update_update. f_equal. by eapply update_same. Qed.

Lemma stdin_loop_agrees n x items o (sh : shared) : quiet sh -> sh_objects sh !! n = Some x -> idle x ->
  agrees (StdinReading n items) (with_host o (update n (lock_stdin true) sh))
    (write_items (o_stdin x) items (abstract (with_host o sh))).
Proof.
  intros Hq Hx Hi. assert (lock_stdin false (lock_stdin true x) = x) as Hl.
  { destruct x, Hi as (E & _). simpl in *. by subst. }
  revert o. induction items as [|item items IH]; intros o.
  - eapply agrees_step; [simpl; unfold read_item; by rewrite after_happened|].
    rewrite (relock _ _ _ _ _ _ Hx Hl). apply agrees_answer; [by apply quiet_with_host|done..].
  - eapply agrees_step; [simpl; unfold read_item; by rewrite after_happened|].
    simpl. unfold mbind, M_bind.
    destruct (on_host (call IoErr (fd_write_all (o_stdin x) item)) (with_host o sh)) as [r sh2] eqn:Eo.
    destruct (abstract_on_host _ _ _ _ (host_only_call _ _) Eo) as [Ea [o' ->]]. rewrite Ea.
    assert (on_host (call IoErr (fd_write_all (o_stdin x) item)) (with_host o (update n (lock_stdin true) sh))
      = (r, with_host o' (update n (lock_stdin true) sh))) as Eo'.
    { revert Eo. unfold on_host. change (sh_host (with_host o sh)) with o.
      change (sh_host (with_host o _)) with o.
      destruct (call IoErr (fd_write_all (o_stdin x) item) (server_new o)) as [r2 s2]. by intros [= <- <-]. }
    assert (sh_objects (with_host o (update n (lock_stdin true) sh)) !! n = Some (lock_stdin true x)) as Hx'.
    { change (sh_objects (update n (lock_stdin true) sh) !! n = Some (lock_stdin true x)).
      rewrite objects_update, decide_True by done. by rewrite Hx. }
    destruct r as [[]|e].
    + eapply agrees_step; [cbn [move]; rewrite Hx'; cbn [mbind option_bind]; unfold write_item; rewrite after_happened; cbn [o_stdin lock_stdin]; by rewrite Eo'|].
      apply IH.
    + eapply agrees_step; [cbn [move]; rewrite Hx'; cbn [mbind option_bind]; unfold write_item; rewrite after_happened; cbn [o_stdin lock_stdin]; by rewrite Eo'|].
      rewrite (relock _ _ _ _ _ _ Hx Hl). apply agrees_answer; [by apply quiet_with_host|done..].
Qed.

Lemma stdin_agrees sid items (sh : shared) :
  quiet sh -> agrees (Called (Stdin sid items)) sh (stdin sid items (abstract sh)).
Proof.
  intros Hq. unfold stdin, mbind, M_bind. pose proof (find_quiet sid sh Hq) as Hf.
  destruct (find_session sid sh) as [[n x]|] eqn:E.
  2: { rewrite Hf. eapply agrees_step; [simpl; by rewrite table_quiet, E|]. by apply agrees_answer. }
  destruct Hf as (Hs & Hx & Hi & Hg). rewrite Hg.
  eapply agrees_step; [simpl; by rewrite table_quiet, E|].
  eapply agrees_step; [simpl; rewrite Hx; simpl; by destruct Hi as (-> & _)|].
  exact (stdin_loop_agrees n x items (sh_host sh) sh Hq Hx Hi).
Qed.

(** [stdout] and [stderr]. *)
Lemma copy_agrees r (fd : Session Fd Child Handle -> option Fd) sid (sh : shared) :
  quiet sh ->
  (forall n x, find_session sid sh = Some (n, x) ->
     begin r sh = Some (let '(h, o) := spawn_copy (fd (session_of x)) (sh_host sh) in (Pushing sid h, with_host o sh))) ->
  (find_session sid sh = None -> begin r sh = Some (Answered (Err SessionNotExist), sh)) ->
  agrees (Called r) sh ((i ← get_session sid; h ← spawn_task (spawn_copy (fd i)); push_handle sid h) (abstract sh)).
Proof.
  intros Hq H1 H2. unfold push_handle, spawn_task, mbind, M_bind. pose proof (find_quiet sid sh Hq) as Hf.
  destruct (find_session sid sh) as [[n x]|] eqn:E.
  2: { rewrite Hf. eapply agrees_step; [by apply H2|]. by apply agrees_answer. }
  destruct Hf as (Hs & Hx & Hi & Hg). rewrite Hg. specialize (H1 n x eq_refl).
  change (host (abstract sh)) with (sh_host sh).
  destruct (spawn_copy (fd (session_of x)) (sh_host sh)) as [h o].
  pose proof (quiet_with_host o sh Hq) as Hqo. pose proof (find_quiet sid _ Hqo) as Hf.
  assert (find_session sid (with_host o sh) = Some (n, x)) as E' by exact E. rewrite E' in Hf.
  destruct Hf as (_ & _ & _ & Hg').
  change ({| host := o; sessions := _; pending := _ |}) with (abstract (with_host o sh)). rewrite Hg'.
  eapply agrees_step; [exact H1|].
  eapply agrees_step; [simpl; by rewrite table_quiet, E'|].
  eapply agrees_step; [simpl; rewrite Hx; simpl; by destruct Hi as (_ & _ & -> & _)|].
  apply agrees_answer; [|done|].
  - destruct Hi as (I1 & I2 & I3 & I4). destruct Hqo as [Q1 Q2 Q3]. split; [done| |done].
    intros k m Hm. rewrite objects_update. destruct (Q2 _ _ Hm) as (y & Hy & Hiy). rewrite Hy.
    case_decide; simpl; [|eauto]. subst m. eexists. split; [done|]. repeat split; try apply Hiy. simpl.
    apply Forall_app. split; [|by constructor].
    change (sh_objects sh !! n = Some y) in Hy. rewrite Hx in Hy. by injection Hy as <-.
  - rewrite (abstract_update sid n _ (with_host o sh) x) by done. simpl. f_equal. f_equal.
    unfold session_of. simpl. f_equal. by rewrite fmap_app.
Qed.

Lemma stdout_agrees sid (sh : shared) : quiet sh -> agrees (Called (Stdout sid)) sh (stdout sid (abstract sh)).
Proof.
  intros Hq. apply (copy_agrees _ (fun i => Some (s_stdout i))); [done| |]; simpl; rewrite table_quiet by done.
  - intros n x ->. simpl. by destruct (spawn_copy _ _).
  - by intros ->.
Qed.

Lemma stderr_agrees sid (sh : shared) : quiet sh -> agrees (Called (Stderr sid)) sh (stderr sid (abstract sh)).
Proof.
  intros Hq. apply (copy_agrees _ s_stderr); [done| |]; simpl; rewrite table_quiet by done.
  - intros n x ->. simpl. by destruct (spawn_copy _ _).
  - by intros ->.
Qed.

(** ** wait *)

Lemma drop_lookup_cons {A} (l : list A) k y : l !! k = Some y -> drop k l = y :: drop (S k) l.
Proof. intros H. by rewrite (drop_S _ _ _ H). Qed.

(** The joining of the tasks, which all can be: it comes to its end, and the
    session it works on is the only one it changes. *)
Lemma joining_runs n sid ret rest : forall k (sh : shared) x,
  sh_objects sh !! n = Some x -> drop k (o_handles x) = rest -> Forall (fun h => h.2 = false) rest ->
  exists o f, rtc alone (Joining n k sid ret, sh) (Removing sid ret, with_host o (update n f sh))
    /\ forall s, host s = sh_host sh -> join_all (fst <$> rest) s = (Ok tt, set_host o s).
Proof.
  induction rest as [|[h b] rest IH]; intros k sh x Hx Hd Hall.
  - exists (sh_host sh), (lock_handles false). split.
    + eapply rtc_once. unfold alone. simpl. rewrite Hx. simpl. unfold join_next.
      rewrite lookup_ge_None_2; [done|]. apply (f_equal length) in Hd. rewrite length_drop in Hd. simpl in Hd. lia.
    + by intros [] <-.
  - apply Forall_cons in Hall as [Hb Hall]. simpl in Hb. subst b.
    assert (o_handles x !! k = Some (h, false)) as Hk by (by rewrite <- (Nat.add_0_r k), <- lookup_drop, Hd).
    set (g := set_handles (<[k := (h, true)]> (o_handles x)) : object -> object).
    destruct (join h (sh_host sh)) as [rj o1] eqn:Ej.
    set (sh1 := update n g (with_host o1 sh)).
    destruct (IH (S k) sh1 (g x)) as (o & f & Hr & Hj); [| |done|].
    + unfold sh1. rewrite objects_update, decide_True by done.
      change (sh_objects (with_host o1 sh)) with (sh_objects sh). by rewrite Hx.
    + simpl. rewrite drop_insert_lt by lia. rewrite (drop_lookup_cons _ _ _ Hk) in Hd. by injection Hd.
    + exists o, (f ∘ g). split.
      * eapply rtc_l with (Joining n (S k) sid ret, sh1).
        { unfold alone. simpl. rewrite Hx. simpl. unfold join_next. rewrite Hk, after_happened.
          unfold on_host, try_call. simpl. by rewrite Ej. }
        replace (with_host o (update n (f ∘ g) sh)) with (with_host o (update n f sh1)); [done|].
        unfold sh1. rewrite <- (update_update n f g o sh). done.
      * intros s Hs. simpl. unfold mbind, M_bind, try_call. rewrite Hs, Ej.
        by apply (Hj {| host := o1; sessions := sessions s; pending := pending s |}).
Qed.

Lemma abstract_remove sid n f o (sh : shared) : quiet sh -> sh_sessions sh !! sid = Some n ->
  quiet (with_sessions (delete sid (sh_sessions sh)) (with_host o (update n f sh)))
  /\ abstract (with_sessions (delete sid (sh_sessions sh)) (with_host o (update n f sh)))
     = {| host := o; sessions := delete sid (sessions (abstract sh)); pending := sh_pending sh |}.
Proof.
  intros Hq Hs.
  assert (forall k m, delete sid (sh_sessions sh) !! k = Some m ->
    sh_objects (update n f sh) !! m = sh_objects sh !! m) as Hobj.
  { intros k m [Hne Hm]%lookup_delete_Some. rewrite objects_update, decide_False; [done|].
    intros <-. apply Hne. by eapply (quiet_inj _ Hq). }
  split.
  - split; [apply (quiet_table _ Hq)|..]; cbn [sh_sessions with_sessions].
    + intros k m Hm. pose proof (Hobj _ _ Hm) as E. apply lookup_delete_Some in Hm as [_ Hm].
      destruct (quiet_idle _ Hq _ _ Hm) as (x & Hx & Hi). exists x. split; [|done].
      by etrans; [exact E|].
    + intros k k' m [_ Hk]%lookup_delete_Some [_ Hk']%lookup_delete_Some. by eapply (quiet_inj _ Hq).
  - unfold abstract at 1. f_equal. apply map_eq. intros k.
    set (sh' := with_sessions _ _). change (sessions (abstract sh') !! k = delete sid (sessions (abstract sh)) !! k).
    rewrite lookup_abstract. change (sh_sessions sh') with (delete sid (sh_sessions sh)).
    change (sh_objects sh') with (sh_objects (update n f sh)).
    destruct (delete sid (sh_sessions sh) !! k) as [m|] eqn:Hm; simpl.
    + etrans; [exact (f_equal (fmap session_of) (Hobj _ _ Hm))|]. apply lookup_delete_Some in Hm as [Hne Hm].
      rewrite lookup_delete_ne by done. etrans; [|symmetry; apply lookup_abstract]. by rewrite Hm.
    + symmetry. apply lookup_delete_None. apply lookup_delete_None in Hm as [->|Hm]; [by left|right].
      etrans; [apply lookup_abstract|]. by rewrite Hm.
Qed.

Lemma wait_agrees sid (sh : shared) : quiet sh -> agrees (Called (Wait sid)) sh (wait sid (abstract sh)).
Proof.
  intros Hq. unfold wait, mbind, M_bind. pose proof (find_quiet sid sh Hq) as Hf.
  destruct (find_session sid sh) as [[n x]|] eqn:E.
  2: { rewrite Hf. eapply agrees_step; [simpl; by rewrite table_quiet, E|]. by apply agrees_answer. }
  destruct Hf as (Hs & Hx & Hi & Hg). rewrite Hg. unfold try_call.
  change (host (abstract sh)) with (sh_host sh). change (s_child (session_of x)) with (o_child x).
  destruct (wait_child (o_child x) (sh_host sh)) as [status o] eqn:Ew.
  change ({| host := o; sessions := _; pending := _ |}) with (abstract (with_host o sh)).
  pose proof (quiet_with_host o sh Hq) as Hqo. pose proof (find_quiet sid _ Hqo) as Hf.
  assert (find_session sid (with_host o sh) = Some (n, x)) as E' by exact E. rewrite E' in Hf.
  destruct Hf as (_ & Hxo & _ & Hg'). rewrite Hg'. clear Hg Hg'.
  assert (lock_child false (lock_child true x) = x) as Hl.
  { destruct x, Hi as (_ & E1 & _). simpl in *. by subst. }
  eapply agrees_step; [simpl; by rewrite table_quiet, E|].
  eapply agrees_step; [simpl; rewrite Hx; simpl; by destruct Hi as (_ & -> & _)|].
  assert (sh_objects (update n (lock_child true) sh) !! n = Some (lock_child true x)) as Hx'
    by (by rewrite objects_update, decide_True, Hx).
  eapply agrees_step.
  { cbn [move]. rewrite Hx'. cbn [mbind option_bind]. rewrite after_happened.
    change (sh_host (update n (lock_child true) sh)) with (sh_host sh). cbn [o_child lock_child]. by rewrite Ew. }
  rewrite (relock _ _ _ _ _ _ Hx Hl).
  eapply agrees_step; [simpl; by rewrite table_quiet, E'|].
  eapply agrees_step; [cbn [move]; rewrite Hxo; simpl; by destruct Hi as (_ & _ & -> & _)|].
  destruct (joining_runs n sid (exit_ret status) (o_handles x) 0 (update n (lock_handles true) (with_host o sh))
    (lock_handles true x)) as (o' & f & Hr & Hj); [|done|apply Hi|].
  { by rewrite objects_update, decide_True, Hxo. }
  change (s_handles (session_of x)) with (fst <$> o_handles x). rewrite Hj by done. unfold remove_session.
  assert (update n f (update n (lock_handles true) (with_host o sh)) = with_host o (update n (f ∘ lock_handles true) sh)) as Eu
    by (by rewrite <- update_update).
  rewrite Eu in Hr.
  destruct (abstract_remove sid n (f ∘ lock_handles true) o' sh Hq Hs) as [Hq' Ha].
  set (ans := match exit_ret status with Ok c => Ok (Some c) | Err e => Err e end : answer).
  exists ans, (with_sessions (delete sid (sh_sessions sh)) (with_host o' (update n (f ∘ lock_handles true) sh))).
  split; [|split; [done|]].
  - etrans; [exact Hr|]. eapply rtc_once. unfold alone. simpl. unfold table_free. simpl.
    by rewrite (quiet_table _ Hq).
  - unfold of_result. simpl. split; [|by rewrite Ha]. unfold ans, exit_ret. by destruct status as [[]|].
Qed.

(** ** One request after the other *)

Lemma request_agrees r (sh : shared) : quiet sh ->
  exists a sh', rtc alone (Called r, sh) (Answered a, sh') /\ quiet sh'
    /\ serve_request r (abstract sh) = (is_ok a, abstract sh').
Proof.
  intros Hq.
  assert (forall A (m : result ServerError A * server), agrees (Called r) sh m ->
    exists a sh', rtc alone (Called r, sh) (Answered a, sh') /\ quiet sh' /\ is_success m = (is_ok a, abstract sh')) as H.
  { intros A m (a & sh' & H1 & H2 & H3 & H4). exists a, sh'. split; [done|]. split; [done|].
    unfold is_success. by rewrite H3, H4. }
  destruct r; apply H; auto using dial_agrees, start_agrees, stdin_agrees, stdout_agrees, stderr_agrees,
    forward_agrees, wait_agrees.
Qed.

Lemma requests_agree rs : forall c : state, quiet (st_shared c) ->
  exists ls c' answers, server_run ls c = Some c' /\ quiet (st_shared c')
    /\ arrivals ls = rs
    /\ st_threads c' = st_threads c ++ (Answered <$> answers)
    /\ serve_all rs (abstract (st_shared c)) = (is_ok <$> answers, abstract (st_shared c')).
Proof.
  induction rs as [|r rs IH]; intros c Hq.
  { exists [], c, []. by rewrite app_nil_r. }
  destruct (request_agrees r _ Hq) as (a & sh & Hr & Hq' & Hs).
  destruct (alone_run (st_threads c) _ _ _ Hr) as (k & Hk). simpl in Hk.
  destruct (IH {| st_shared := sh; st_threads := st_threads c ++ [Answered a] |} Hq')
    as (ls & c' & answers & Hrun & Hq2 & Harr & Ht & Hall). simpl in *.
  exists (Arrive r :: replicate k (Move (length (st_threads c))) ++ ls), c', (a :: answers).
  split; [|split; [done|split; [|split]]].
  - simpl. rewrite server_run_app, Hk. exact Hrun.
  - simpl. rewrite arrivals_app, arrivals_moves. simpl. by rewrite Harr.
  - by rewrite Ht, <- app_assoc.
  - by rewrite Hs, Hall.
Qed.

(** C12: one request after the other, the interleaved server is the server of
    Server.v.  When nothing outside keeps it waiting, every list of requests
    is answered, each as the operation of Server.v answers it, and leaves the
    host and both tables as those operations do. *)
Theorem server_refines_atomic o rs :
  exists ls c answers, server_run ls (server_init o) = Some c
    /\ arrivals ls = rs
    /\ st_threads c = Answered <$> answers
    /\ serve_all rs (server_new o) = (is_ok <$> answers, abstract (st_shared c)).
Proof.
  destruct (requests_agree rs (server_init o)) as (ls & c & answers & H1 & _ & H2 & H3 & H4).
  { split; [done|intros sid n; simpl; by rewrite lookup_empty..]. }
  exists ls, c, answers. split; [done|]. split; [done|]. split; [done|]. exact H4.
Qed.
End Refine.

(** ** Runs *)

#[local] Existing Instance mem_host.
#[local] Existing Instance prost_ref.

Lemma server_refines_atomic_witness :
  exists ls c answers,
    server_run (WO := prompt_world) ls (server_init []) = Some c
    /\ arrivals ls = [Dial 1%nat; NinepForward 1%nat; Start mount_sh 1%nat; Stdout 1%nat; Wait 1%nat; Wait 1%nat]
    /\ st_threads c = Answered <$> answers
    /\ is_ok <$> answers = [true; true; true; true; true; false].
Proof.
  destruct (server_refines_atomic (WO := prompt_world) (fun _ _ => eq_refl) []
    [Dial 1%nat; NinepForward 1%nat; Start mount_sh 1%nat; Stdout 1%nat; Wait 1%nat; Wait 1%nat])
    as (ls & c & answers & H1 & H2 & H3 & H4).
  exists ls, c, answers. split; [exact H1|]. split; [exact H2|]. split; [exact H3|].
  change (is_ok <$> answers) with (is_ok <$> answers, abstract (st_shared c)).1. rewrite <- H4. vm_compute. reflexivity.
Defined.
