(* ===== verification/Streams.v ===== *)
(** * Streams of buffers (libp9cpu/src/client.rs, rpc.rs, rpc/rpc_client.rs)

    [StreamReader] makes a reader of a stream of buffers and [SenderWriter] a
    writer of a channel, so that the 9p server can be run over an RPC;
    [PrependedStream] and [ByteVecStream] are the adapters of the RPC layer.
    All are polled: an operation that cannot go on answers [Pending]. *)

From Stdlib Require Import Strings.Byte.
From S2P Require Import Prelude Bytes Io.

Inductive poll (A : Type) : Type :=
  | Pending
  | Ready (a : A).
Arguments Pending {A}.
Arguments Ready {A} a.

(** [futures::Stream] *)
Class Stream (S Item : Type) := poll_next : S -> poll (option Item) * S.

(** [Into<Vec<u8>>] *)
Class IntoVec (Item : Type) := into_vec : Item -> list byte.

#[export] Instance into_vec_bytes : IntoVec (list byte) := fun b => b.

(** ** PrependedStream *)

Record PrependedStream (I S : Type) : Type := { p_stream : S; p_item : option I }.
Arguments p_stream {I S}.
Arguments p_item {I S}.

Definition PrependedStream_new {I S} (stream : S) (item : I) : PrependedStream I S :=
  {| p_stream := stream; p_item := Some item |}.

#[export] Instance PrependedStream_next {I S} `{Stream S I} : Stream (PrependedStream I S) I := fun s =>
  match p_item s with
  | Some item => (Ready (Some item), {| p_stream := p_stream s; p_item := None |})
  | None =>
      let '(r, stream) := poll_next (p_stream s) in (r, {| p_stream := stream; p_item := p_item s |})
  end.

(** ** ByteVecStream *)

Record ByteVecStream (S : Type) : Type := { b_inner : S }.
Arguments b_inner {S}.

#[export] Instance ByteVecStream_next {B S Status} `{IntoVec B} `{Stream S (result Status B)}
    : Stream (ByteVecStream S) (list byte) := fun s =>
  let '(r, inner) := poll_next (b_inner s) in
  (match r with
   | Pending => Pending
   | Ready None => Ready None
   | Ready (Some (Ok b)) => Ready (Some (into_vec b))
   | Ready (Some (Err _)) => Ready None
   end, {| b_inner := inner |}).

(** ** StreamReader *)

(** [tokio::io::ReadBuf]: what was put in it, and the room that is left. *)
Record ReadBuf : Set := { filled : list byte; remaining : nat }.

(** [put_slice] panics when the slice does not fit. *)
Definition put_slice (bs : list byte) (buf : ReadBuf) : option ReadBuf :=
  if decide (length bs <= remaining buf)%nat
  then Some {| filled := filled buf ++ bs; remaining := remaining buf - length bs |}
  else None.

Record StreamReader (S : Type) : Type := { inner : S; buffer : list byte; consumed : nat }.
Arguments inner {S}.
Arguments buffer {S}.
Arguments consumed {S}.

Definition StreamReader_new {S} (stream : S) : StreamReader S :=
  {| inner := stream; buffer := []; consumed := 0 |}.

Section Reader.
Context {T Item : Type} `{HS : Stream T Item} `{HI : IntoVec Item}.

(** The [loop] of [poll_read]: [None] when the fuel is spent or [put_slice]
    panics. *)
Fixpoint poll_read_loop (fuel : nat) (buf : ReadBuf) (r : StreamReader T)
    : option (poll (result io_error unit) * ReadBuf * StreamReader T) :=
  match fuel with
  | O => None
  | S fuel =>
      if (consumed r <? length (buffer r))%nat then
        let left := (length (buffer r) - consumed r)%nat in
        let read_to := (Nat.min (remaining buf) left + consumed r)%nat in
        match put_slice (drop (consumed r) (take read_to (buffer r))) buf with
        | None => None
        | Some buf =>
            Some (Ready (Ok tt), buf, {| inner := inner r; buffer := buffer r; consumed := read_to |})
        end
      else
        match poll_next (inner r) with
        | (Ready (Some item), s) =>
            let r := {| inner := s; buffer := into_vec item; consumed := 0 |} in
            match buffer r with
            | [] => Some (Ready (Ok tt), buf, r)
            | _ => poll_read_loop fuel buf r
            end
        | (Ready None, s) =>
            Some (Ready (Ok tt), buf, {| inner := s; buffer := buffer r; consumed := consumed r |})
        | (Pending, s) =>
            Some (Pending, buf, {| inner := s; buffer := buffer r; consumed := consumed r |})
        end
  end.

Definition poll_read (buf : ReadBuf) (r : StreamReader T)
    : option (poll (result io_error unit) * ReadBuf * StreamReader T) :=
  if (remaining buf =? 0)%nat then Some (Ready (Ok tt), buf, r) else poll_read_loop 2 buf r.
End Reader.

(** ** SenderWriter *)

(** [tokio_util::sync::PollSender] *)
Class PollSender (P Item : Type) := {
  poll_reserve : P -> poll (result unit unit) * P;
  send_item : Item -> P -> result unit unit * P;
  close : P -> P
}.

(** What a sender has sent: an item is sent or refused, and nothing else
    sends. *)
Class PollSenderLaws (P Item : Type) `{PollSender P Item} := {
  sent : P -> list Item;
  reserve_sends_nothing : forall p, sent (poll_reserve p).2 = sent p;
  send_item_sends : forall i p,
    sent (send_item i p).2 = sent p ++ match (send_item i p).1 with Ok _ => [i] | Err _ => [] end;
  close_sends_nothing : forall p, sent (close p) = sent p
}.

Definition broken_pipe (msg : string) : io_error := Simple BrokenPipe msg.

Record SenderWriter (P : Type) : Type := { w_inner : option P }.
Arguments w_inner {P}.

Section Writer.
Context {P : Type} `{HP : PollSender P (list byte)}.

Definition SenderWriter_new (sender : P) : SenderWriter P := {| w_inner := Some sender |}.

Definition poll_write (buf : list byte) (w : SenderWriter P)
    : poll (result io_error nat) * SenderWriter P :=
  match buf with
  | [] => (Ready (Ok 0%nat), w)
  | _ =>
      match w_inner w with
      | None => (Ready (Err (broken_pipe "Sender is down.")), w)
      | Some p =>
          match poll_reserve p with
          | (Pending, p) => (Pending, {| w_inner := Some p |})
          | (Ready (Err _), p) => (Ready (Err (broken_pipe "Channel is closed.")), {| w_inner := Some p |})
          | (Ready (Ok _), p) =>
              match send_item buf p with
              | (Ok _, p) => (Ready (Ok (length buf)), {| w_inner := Some p |})
              | (Err _, p) => (Ready (Err (broken_pipe "Channel is closed.")), {| w_inner := Some p |})
              end
          end
      end
  end.

Definition poll_flush (w : SenderWriter P) : poll (result io_error unit) :=
  match w_inner w with
  | Some _ => Ready (Ok tt)
  | None => Ready (Err (broken_pipe "Sender is down."))
  end.

(** The sender is taken out, closed and dropped: it is the third result. *)
Definition poll_shutdown (w : SenderWriter P)
    : poll (result io_error unit) * SenderWriter P * option P :=
  match w_inner w with
  | Some p => (Ready (Ok tt), {| w_inner := None |}, Some (close p))
  | None => (Ready (Err (broken_pipe "Sender is down.")), {| w_inner := None |}, None)
  end.
End Writer.
