(* ===== verification/StreamsProps.v ===== *)
(** * Properties of the streams

    The adapters deliver the items they should, and a 9p server on a
    [StreamReader] and a [SenderWriter] gets and sends the bytes themselves:
    nothing is lost, repeated or reordered, however the bytes are cut. *)

From Stdlib Require Import Strings.Byte.
From S2P Require Import Prelude Bytes Io Streams.

(** ** What a stream delivers *)

Section Delivers.
Context {T Item : Type} `{HS : Stream T Item}.

(** The items of a stream that is polled to its end. *)
Inductive delivers : T -> list Item -> Prop :=
  | delivers_end s s' : poll_next s = (Ready None, s') -> delivers s []
  | delivers_pending s s' l : poll_next s = (Pending, s') -> delivers s' l -> delivers s l
  | delivers_item s s' i l : poll_next s = (Ready (Some i), s') -> delivers s' l -> delivers s (i :: l).

(** Some polls, and the items they gave. *)
Inductive polls : T -> list Item -> T -> Prop :=
  | polls_nil s : polls s [] s
  | polls_none s r s' l s'' : poll_next s = (r, s') -> r = Pending \/ r = Ready None ->
      polls s' l s'' -> polls s l s''
  | polls_item s s' i l s'' : poll_next s = (Ready (Some i), s') -> polls s' l s'' -> polls s (i :: l) s''.

Lemma polls_trans s l s' l' s'' : polls s l s' -> polls s' l' s'' -> polls s (l ++ l') s''.
Proof. induction 1; intros ?; simpl; [done|eapply polls_none; eauto|eapply polls_item; eauto]. Qed.
End Delivers.

Lemma prepended_rest {T Item} `{Stream T Item} (s : T) l :
  delivers s l -> delivers {| p_stream := s; p_item := None |} l.
Proof.
  induction 1 as [s s' E|s s' l E _ IH|s s' i l E _ IH].
  - eapply delivers_end. unfold poll_next at 1, PrependedStream_next. simpl. by rewrite E.
  - eapply delivers_pending; [|exact IH]. unfold poll_next at 1, PrependedStream_next. simpl. by rewrite E.
  - eapply delivers_item; [|exact IH]. unfold poll_next at 1, PrependedStream_next. simpl. by rewrite E.
Qed.

Lemma prepended_delivers {T Item} `{Stream T Item} (s : T) (i : Item) l :
  delivers s l -> delivers (PrependedStream_new s i) (i :: l).
Proof. intros Hl. eapply delivers_item; [done|]. by apply prepended_rest. Qed.

(** The items before the first error. *)
Fixpoint before_error {B Status} `{IntoVec B} (l : list (result Status B)) : list (list byte) :=
  match l with
  | Ok b :: l => into_vec b :: before_error l
  | _ => []
  end.

Lemma byte_vec_delivers {T B Status} `{IntoVec B} `{Stream T (result Status B)} (s : T) l :
  delivers s l -> delivers {| b_inner := s |} (before_error l).
Proof.
  induction 1 as [s s' E|s s' l E _ IH|s s' [b|e] l E _ IH]; simpl.
  - eapply delivers_end. unfold poll_next at 1, ByteVecStream_next. simpl. by rewrite E.
  - eapply delivers_pending; [|exact IH]. unfold poll_next at 1, ByteVecStream_next. simpl. by rewrite E.
  - eapply delivers_item; [|exact IH]. unfold poll_next at 1, ByteVecStream_next. simpl. by rewrite E.
  - eapply delivers_end. unfold poll_next at 1, ByteVecStream_next. simpl. by rewrite E.
Qed.

(** ** StreamReader *)

Section Reader.
Context {T Item : Type} `{HS : Stream T Item} `{HI : IntoVec Item}.

(** The bytes of the buffer that were not read yet. *)
Definition unread (r : StreamReader T) : list byte := drop (consumed r) (buffer r).

Lemma unread_nil r : (length (buffer r) <= consumed r)%nat -> unread r = [].
Proof. intros. by apply drop_ge. Qed.

(** What one turn of the loop does with a buffer that has bytes left. *)
Lemma serve_buffer fuel buf (r : StreamReader T) :
  (consumed r < length (buffer r))%nat ->
  exists c, poll_read_loop (S fuel) buf r
    = Some (Ready (Ok tt),
        {| filled := filled buf ++ take (remaining buf) (unread r);
           remaining := remaining buf - length (take (remaining buf) (unread r)) |},
        {| inner := inner r; buffer := buffer r; consumed := c |})
    /\ drop c (buffer r) = drop (remaining buf) (unread r).
Proof.
  intros Hlt. simpl. rewrite (proj2 (Nat.ltb_lt _ _)) by done.
  set (n := Nat.min (remaining buf) (length (buffer r) - consumed r)).
  assert (drop (consumed r) (take (n + consumed r) (buffer r)) = take (remaining buf) (unread r)) as E.
  { rewrite Nat.add_comm, <- take_drop_commute. fold (unread r). unfold n.
    rewrite <- length_drop. fold (unread r).
    destruct (Nat.min_spec (remaining buf) (length (unread r))) as [[_ ->]|[Hge ->]]; [done|].
    by rewrite (take_ge _ (remaining buf)), take_ge by lia. }
  rewrite E. unfold put_slice. rewrite decide_True by (rewrite length_take; lia).
  eexists. split; [reflexivity|]. unfold unread, n. rewrite drop_drop.
  destruct (Nat.min_spec (remaining buf) (length (buffer r) - consumed r)) as [[_ ->]|[Hge ->]].
  - f_equal. lia.
  - rewrite !drop_ge by lia. done.
Qed.

(** An empty buffer of [n] bytes. *)
Definition room (n : nat) : ReadBuf := {| filled := []; remaining := n |}.

(** What a read gives: bytes that were left, or what a poll of the stream
    brought. *)
Lemma poll_read_cases n (r : StreamReader T) : (0 < n)%nat ->
  (unread r <> [] /\ exists m r', poll_read (room n) r
      = Some (Ready (Ok tt), {| filled := take n (unread r); remaining := m |}, r')
      /\ inner r' = inner r /\ unread r' = drop n (unread r))
  \/ (unread r = [] /\ exists r', inner r' = (poll_next (inner r)).2 /\
      match (poll_next (inner r)).1 with
      | Pending => poll_read (room n) r = Some (Pending, room n, r') /\ unread r' = []
      | Ready None => poll_read (room n) r = Some (Ready (Ok tt), room n, r') /\ unread r' = []
      | Ready (Some i) => exists m, poll_read (room n) r
          = Some (Ready (Ok tt), {| filled := take n (into_vec i); remaining := m |}, r')
          /\ unread r' = drop n (into_vec i)
      end).
Proof.
  intros Hn. unfold poll_read. rewrite (proj2 (Nat.eqb_neq _ _)) by (simpl; lia).
  destruct (decide (consumed r < length (buffer r))%nat) as [Hlt|Hge].
  - left. split; [unfold unread; intros E%(f_equal length); rewrite length_drop in E; simpl in E; lia|].
    destruct (serve_buffer 1 (room n) r Hlt) as (c & -> & Hc). do 2 eexists. split; [reflexivity|]. done.
  - right. split; [apply unread_nil; lia|].
    remember 1%nat as one eqn:E1. cbn [poll_read_loop]. rewrite (proj2 (Nat.ltb_ge _ _)) by lia. subst one.
    destruct (poll_next (inner r)) as [[|[i|]] s] eqn:E; cbn [fst snd].
    + eexists {| inner := s; buffer := buffer r; consumed := consumed r |}. split; [done|]. split; [done|].
      apply unread_nil. simpl. lia.
    + destruct (into_vec i) as [|b bs] eqn:Ei.
      * eexists {| inner := s; buffer := []; consumed := 0 |}. cbn [buffer]. split; [done|].
        exists n. by rewrite take_nil, drop_nil.
      * destruct (serve_buffer 0 (room n) {| inner := s; buffer := b :: bs; consumed := 0 |}) as (c & Hs & Hc);
          [simpl; lia|].
        cbn [buffer inner]. rewrite Hs.
        eexists {| inner := s; buffer := b :: bs; consumed := c |}. split; [done|].
        eexists. split; [reflexivity|]. done.
    + eexists {| inner := s; buffer := buffer r; consumed := consumed r |}. split; [done|]. split; [done|].
      apply unread_nil. simpl. lia.
Qed.

(** A reader that is read, with buffers of any size, until a read gives
    nothing; [out] is all that was read. *)
Inductive read_run : StreamReader T -> list byte -> Prop :=
  | run_end n r m r' : (0 < n)%nat ->
      poll_read (room n) r = Some (Ready (Ok tt), {| filled := []; remaining := m |}, r') -> read_run r []
  | run_pending n r r' out : (0 < n)%nat -> poll_read (room n) r = Some (Pending, room n, r') ->
      read_run r' out -> read_run r out
  | run_bytes n r bs m r' out : (0 < n)%nat -> bs <> [] ->
      poll_read (room n) r = Some (Ready (Ok tt), {| filled := bs; remaining := m |}, r') ->
      read_run r' out -> read_run r (bs ++ out).

Fixpoint before_empty (l : list (list byte)) : list (list byte) :=
  match l with
  | [] | [] :: _ => []
  | bs :: l => bs :: before_empty l
  end.

Lemma delivers_inv (s : T) l : delivers s l ->
  match poll_next s with
  | (Ready None, _) => l = []
  | (Pending, s') => delivers s' l
  | (Ready (Some i), s') => exists l', l = i :: l' /\ delivers s' l'
  end.
Proof. destruct 1 as [s s' E|s s' l E H|s s' i l E H]; rewrite E; eauto. Qed.

(** The bytes a reader still has to give when its stream delivers [items]. *)
Definition pending_bytes (r : StreamReader T) (items : list Item) : list byte :=
  unread r ++ concat (before_empty (map into_vec items)).

Lemma take_nonempty {A} n (l : list A) : (0 < n)%nat -> l <> [] -> take n l <> [].
Proof. destruct n, l; (lia || done). Qed.

Lemma read_run_gives (r : StreamReader T) out : read_run r out ->
  forall items, delivers (inner r) items -> out = pending_bytes r items.
Proof.
  unfold pending_bytes.
  induction 1 as [n r m r' Hn E|n r r' out Hn E _ IH|n r bs m r' out Hn Hbs E _ IH]; intros items Hd;
    pose proof (delivers_inv _ _ Hd) as Hi;
    (destruct (poll_read_cases n r Hn) as [(Hu & m' & r'' & E' & Hr & Hu')|(Hu & r'' & Hr & Hp)];
      [rewrite E' in E|rewrite Hu; destruct (poll_next (inner r)) as [[|[i|]] s] eqn:Ep; simpl in Hr, Hp;
        [destruct Hp as [E' Hu']|destruct Hp as (m' & E' & Hu')|destruct Hp as [E' Hu']]; rewrite E' in E]);
    simplify_eq/=.
  - by destruct (take_nonempty n (unread r)).
  - destruct Hi as (l' & -> & _). simpl. destruct (into_vec i), n; (lia || done).
  - done.
  - rewrite (IH items) by done. by rewrite Hu'.
  - rewrite (IH items) by (by rewrite Hr). by rewrite Hu', app_assoc, take_drop.
  - destruct Hi as (l' & -> & Hl'). rewrite (IH l') by done. rewrite Hu'. simpl.
    rewrite app_assoc, take_drop. destruct (into_vec i), n; (lia || done).
  - by lazymatch goal with H : room _ = _ |- _ => injection H as <- _ end.
Qed.

(** Reading always can go on, to the end of the stream. *)
Lemma read_run_left (r : StreamReader T) out :
  (forall r', inner r' = inner r -> unread r' = [] -> read_run r' out) -> read_run r (unread r ++ out).
Proof.
  intros Hout. destruct (unread r) as [|b bs] eqn:Eu; [by apply Hout|].
  destruct (poll_read_cases (length (unread r)) r) as [(_ & m & r' & E & Hr & Hu)|[Hu _]];
    [rewrite Eu; simpl; lia| |by rewrite Hu in Eu].
  rewrite take_ge, Eu in E by lia. eapply (run_bytes _ _ (b :: bs)); [|done|exact E|].
  - simpl. lia.
  - apply Hout; [done|]. by rewrite Hu, drop_ge.
Qed.

Lemma read_run_exists s items : delivers s items ->
  forall r, inner r = s -> read_run r (pending_bytes r items).
Proof.
  unfold pending_bytes. induction 1 as [s s' E|s s' l E _ IH|s s' i l E _ IH]; intros r Hr;
    apply read_run_left; intros r0 Hr0 Hu0; rewrite Hr in Hr0;
    (destruct (poll_read_cases 1 r0) as [[Hu _]|(_ & r1 & Hr1 & Hp)]; [lia|done|]);
    rewrite Hr0, E in Hr1, Hp; simpl in Hr1, Hp.
  - destruct Hp as [Ep _]. by eapply run_end; [|exact Ep]; lia.
  - destruct Hp as [Ep Hu1]. eapply run_pending; [|exact Ep|]; [lia|].
    specialize (IH r1 Hr1). by rewrite Hu1 in IH.
  - destruct Hp as (m & Ep & Hu1). simpl. destruct (into_vec i) as [|b bs] eqn:Ei.
    + by eapply run_end; [|exact Ep]; lia.
    + simpl. change (b :: bs ++ ?k) with ([b] ++ bs ++ k).
      eapply run_bytes; [|done|exact Ep|]; [lia|]. specialize (IH r1 Hr1). by rewrite Hu1 in IH.
Qed.
End Reader.

(** ** SenderWriter *)

Section Writer.
Context {P : Type} {HP : PollSender P (list byte)} {PL : PollSenderLaws P (list byte)}.

(** Calls of [poll_write] with any buffers; [out] is all that was
    acknowledged. *)
Inductive write_run : SenderWriter P -> list byte -> SenderWriter P -> Prop :=
  | write_nil w : write_run w [] w
  | write_refused w buf r w' out w'' : poll_write buf w = (r, w') ->
      (forall n, r <> Ready (Ok n)) -> write_run w' out w'' -> write_run w out w''
  | write_done w buf n w' out w'' : poll_write buf w = (Ready (Ok n), w') ->
      write_run w' out w'' -> write_run w (take n buf ++ out) w''.

Definition sent_items (w : SenderWriter P) : list (list byte) :=
  match w_inner w with Some p => sent p | None => [] end.

(** A write sends its whole buffer or nothing. *)
Lemma poll_write_sends buf (w : SenderWriter P) :
  match (poll_write buf w).1 with
  | Ready (Ok n) => take n buf = buf
      /\ sent_items (poll_write buf w).2
         = sent_items w ++ match buf with [] => [] | _ => [buf] end
  | _ => sent_items (poll_write buf w).2 = sent_items w
  end.
Proof.
  unfold poll_write, sent_items. destruct buf as [|b bs]; simpl; [by rewrite app_nil_r|].
  destruct (w_inner w) as [p|] eqn:Ew; simpl; [|by rewrite Ew].
  pose proof (reserve_sends_nothing p) as Hr. destruct (poll_reserve p) as [[|[[]|[]]] p1]; simpl in *; try done.
  pose proof (send_item_sends (b :: bs) p1) as Hs. destruct (send_item (b :: bs) p1) as [[[]|[]] p2]; simpl in *.
  - rewrite Hs, Hr. split; [|done]. f_equal. apply firstn_all.
  - by rewrite Hs, app_nil_r.
Qed.

Lemma write_run_sends (w : SenderWriter P) out w' : write_run w out w' ->
  exists items, sent_items w' = sent_items w ++ items /\ concat items = out /\ Forall (fun i => i <> []) items.
Proof.
  induction 1 as [w|w buf r w1 out w2 E Hr _ (items & -> & Hc & Hne)|w buf n w1 out w2 E _ (items & -> & Hc & Hne)].
  - exists []. by rewrite app_nil_r.
  - pose proof (poll_write_sends buf w) as Hs. rewrite E in Hs. simpl in Hs. exists items. split; [|done].
    destruct r as [|[n|e]]; [by rewrite Hs|by destruct (Hr n)|by rewrite Hs].
  - pose proof (poll_write_sends buf w) as Hs. rewrite E in Hs. destruct Hs as [Ht Hs]. simpl in Hs.
    exists (match buf with [] => [] | _ => [buf] end ++ items). rewrite Hs, <- app_assoc, Ht.
    split; [done|]. split; [by destruct buf; simpl; rewrite Hc|].
    destruct buf; [done|]. by constructor.
Qed.
End Writer.

(** Items without an empty one are read whole. *)
Lemma before_empty_all l : Forall (fun i => i <> []) l -> before_empty l = l.
Proof. induction 1 as [|i l Hi _ IH]; [done|]. simpl. destruct i; [done|]. by rewrite IH. Qed.

Lemma before_error_ok {Status} (l : list (list byte)) :
  before_error (map (fun b => Ok b : result Status (list byte)) l) = l.
Proof. induction l as [|b l IH]; simpl; [done|by rewrite IH]. Qed.

(** Reading an RPC's answers. *)
Lemma rpc_reader_gives {T Status} `{HS : Stream T (result Status (list byte))} (s : T) items out :
  Forall (fun i => i <> []) items -> delivers s (map Ok items) ->
  read_run (StreamReader_new {| b_inner := s |}) out <-> out = concat items.
Proof.
  intros Hne Hd. pose proof (byte_vec_delivers s _ Hd) as Hb.
  assert (pending_bytes (StreamReader_new {| b_inner := s |}) (before_error (Status := Status) (map Ok items)) = concat items) as E.
  { unfold pending_bytes, unread, StreamReader_new. simpl. rewrite before_error_ok, map_id.
    by rewrite before_empty_all. }
  split; [intros Hr; rewrite <- E; by apply read_run_gives|].
  intros ->. rewrite <- E. by eapply read_run_exists.
Qed.
