(* ===== verification/Tunnel.v ===== *)
(** * The 9p tunnel

    The kernel of the remote machine speaks 9p to a socket of the session
    server; the forwarder turns what it reads into the items of an RPC's
    answer and writes the items of the RPC's requests; at the other end the
    file server reads a [StreamReader] and writes a [SenderWriter].  What
    comes out at each end is what went in at the other. *)

From Stdlib Require Import Strings.Byte.
From S2P Require Import Prelude Bytes Io Server Streams StreamsProps.

(** ** The forwarder's loop *)

(** The events the loop goes on after. *)
Definition goes_on (e : forward_event) : Prop :=
  match e with
  | FromSocket (Ok bs) open => bs <> [] /\ open = true
  | FromClient _ (Ok n) => n <> 0%nat
  | _ => False
  end.

(** What it read from the socket, took from the client, and wrote. *)
Definition socket_read (evs : list forward_event) : list (list byte) :=
  omap (fun e => match e with FromSocket (Ok bs) _ => Some bs | _ => None end) evs.
Definition client_items (evs : list forward_event) : list (list byte) :=
  omap (fun e => match e with FromClient item (Ok _) => Some item | _ => None end) evs.
Definition socket_written (evs : list forward_event) : list (list byte) :=
  omap (fun e => match e with FromClient item (Ok n) => Some (take n item) | _ => None end) evs.

(** The writes took whole items; no write takes more than it is given. *)
Definition full_writes (evs : list forward_event) : Prop :=
  Forall (fun e => match e with FromClient item (Ok n) => n = length item | _ => True end) evs.
Definition writes_fit (evs : list forward_event) : Prop :=
  Forall (fun e => match e with FromClient item (Ok n) => (n <= length item)%nat | _ => True end) evs.

(** The loop runs up to the first event that stops it. *)
Definition stops_with (r : option (result ServerError unit)) (rest : list forward_event) : Prop :=
  match rest with
  | [] => r = None
  | FromSocket (Ok []) _ :: _ | ClientClosed :: _ | FromClient _ (Ok O) :: _ => r = Some (Ok tt)
  | FromSocket (Err e) _ :: _ | FromClient _ (Err e) :: _ => r = Some (Err (IoErr e))
  | FromSocket (Ok _) false :: _ => r = Some (Err ChannelClosed)
  | _ => False
  end.

Lemma forward_loop_spec evs f : exists run rest,
  evs = run ++ rest /\ Forall goes_on run /\ stops_with (forward_loop evs f).1 rest
  /\ to_client (forward_loop evs f).2 = to_client f ++ socket_read run
  /\ to_socket (forward_loop evs f).2 = to_socket f ++ concat (socket_written run).
Proof.
  revert f. induction evs as [|e evs IH]; intros f.
  { exists [], []. simpl. by rewrite !app_nil_r. }
  assert (forall e' f', goes_on e' -> to_client f' = to_client f ++ socket_read [e'] ->
    to_socket f' = to_socket f ++ concat (socket_written [e']) ->
    exists run rest, e' :: evs = run ++ rest /\ Forall goes_on run
      /\ stops_with (forward_loop evs f').1 rest
      /\ to_client (forward_loop evs f').2 = to_client f ++ socket_read run
      /\ to_socket (forward_loop evs f').2 = to_socket f ++ concat (socket_written run)) as Hgo.
  { intros e' f' He Hc Hs. destruct (IH f') as (run & rest & -> & Hrun & Hst & Ec & Es).
    exists (e' :: run), rest. split; [done|]. split; [by constructor|]. split; [done|].
    rewrite Ec, Es, Hc, Hs, <- !app_assoc. unfold socket_read, socket_written. simpl.
    split; [by case_match|]. f_equal. case_match; simpl; by rewrite ?app_nil_r. }
  assert (forall r, stops_with r (e :: evs) -> exists run rest, e :: evs = run ++ rest
    /\ Forall goes_on run /\ stops_with r rest /\ to_client f = to_client f ++ socket_read run
    /\ to_socket f = to_socket f ++ concat (socket_written run)) as Hstop.
  { intros r Hr. exists [], (e :: evs). simpl. by rewrite !app_nil_r. }
  destruct e as [[bs|e] open|item [n|e]|]; simpl; try by apply Hstop.
  - destruct bs as [|b bs]; simpl; [by apply Hstop|]. destruct open; [|by apply Hstop].
    apply Hgo; [done|done|simpl; by rewrite app_nil_r].
  - destruct n as [|n]; simpl; [by apply Hstop|].
    apply Hgo; [done|simpl; by rewrite app_nil_r|simpl; by rewrite app_nil_r].
Qed.

Lemma socket_read_nonempty run : Forall goes_on run -> Forall (fun i => i <> []) (socket_read run).
Proof.
  induction 1 as [|e run He _ IH]; [constructor|]. unfold socket_read. simpl.
  destruct e as [[bs|?] ?|? ?|]; try done. destruct He. by constructor.
Qed.

Lemma full_socket_written run : full_writes run -> socket_written run = client_items run.
Proof.
  induction 1 as [|e run He _ IH]; [done|]. unfold socket_written, client_items. simpl.
  destruct e as [? ?|item [n|?]|]; try exact IH. subst n. f_equal; [apply firstn_all|exact IH].
Qed.

(** A write that takes less loses the rest of its item. *)
Lemma socket_written_all run : writes_fit run ->
  concat (socket_written run) = concat (client_items run) -> full_writes run.
Proof.
  intros Hfit E. apply (f_equal length) in E.
  assert (forall l, writes_fit l -> (length (concat (socket_written l)) <= length (concat (client_items l)))%nat
    /\ (length (concat (socket_written l)) = length (concat (client_items l)) -> full_writes l)) as H.
  { clear. induction 1 as [|e l He _ [IHle IH]]; [split; [done|constructor]|].
    destruct e as [? ?|item [n|?]|]; try (split; [exact IHle|]; intros El; constructor; [done|exact (IH El)]).
    change (socket_written (FromClient item (Ok n) :: l)) with (take n item :: socket_written l).
    change (client_items (FromClient item (Ok n) :: l)) with (item :: client_items l).
    simpl. rewrite !length_app, length_take. split; [lia|]. intros El. constructor; [lia|apply IH; lia]. }
  by apply H.
Qed.

(** ** End to end *)

Section Tunnel.
Context {T Status P : Type} {HT : Stream T (result Status (list byte))}.
Context {HP : PollSender P (list byte)} {PL : PollSenderLaws P (list byte)}.

(** C15: the tunnel is transparent.  When the answers of the forwarding RPC
    bring the items the forwarder sent, the 9p server reads exactly the bytes
    the forwarder read from the socket before it stopped, and sees the end only
    after the last.  The other way the forwarder writes, of every item that the
    9p server sent and in their order, the part the socket takes at once: all of
    what was sent arrives if and only if every write takes a whole item. *)
Theorem tunnel_transparent evs (s : T) (p : P) (w : SenderWriter P) written items :
  let r := forward_loop evs {| to_client := []; to_socket := [] |} in
  delivers s (map Ok (to_client r.2)) ->
  sent p = [] -> write_run (SenderWriter_new p) written w -> writes_fit evs ->
  exists run rest, evs = run ++ rest /\ Forall goes_on run /\ stops_with r.1 rest
    /\ (forall out, read_run (StreamReader_new {| b_inner := s |}) out <-> out = concat (socket_read run))
    /\ to_socket r.2 = concat (socket_written run)
    /\ (sent_items w = client_items run ++ items ->
        written = to_socket r.2 ++ concat items <-> full_writes run).
Proof.
  intros r Hd Hp Hw Hfit. destruct (forward_loop_spec evs {| to_client := []; to_socket := [] |})
    as (run & rest & E & Hrun & Hst & Hc & Hs). fold r in Hs, Hc, Hst. simpl in Hs.
  exists run, rest. split; [done|]. split; [done|]. split; [done|]. split; [|split; [exact Hs|]].
  - intros out. rewrite Hc in Hd. apply rpc_reader_gives; [by apply socket_read_nonempty|done].
  - intros Hsent. apply write_run_sends in Hw as (l & Hl & <- & _). unfold sent_items in Hl at 2. simpl in Hl.
    rewrite Hp, Hsent in Hl. simpl in Hl. subst l. rewrite Hs, concat_app. split.
    + intros Heq%app_inv_tail. apply socket_written_all; [|done]. rewrite E in Hfit. by apply Forall_app in Hfit as [? _].
    + intros Hfull. by rewrite full_socket_written.
Qed.
End Tunnel.

(** ** Witness: a scripted stream and a channel without bound *)

Definition script : Type := list (poll (option (result unit (list byte)))).

#[local] Instance script_stream : Stream script (result unit (list byte)) := fun s =>
  match s with [] => (Ready None, []) | r :: s => (r, s) end.

#[local] Instance list_sender : PollSender (list (list byte)) (list byte) := {|
  poll_reserve p := (Ready (Ok tt), p);
  send_item i p := (Ok tt, p ++ [i]);
  close p := p
|}.

#[local] Instance list_sender_laws : PollSenderLaws (list (list byte)) (list byte).
Proof. by refine {| sent p := p |}. Defined.

Definition tunnel_events : list forward_event :=
  [FromSocket (Ok [x01; x02]) true; FromClient [x03; x04] (Ok 2%nat); FromSocket (Ok [x05]) true; ClientClosed].

Definition tunnel_script : script :=
  [Ready (Some (Ok [x01; x02])); Pending; Ready (Some (Ok [x05])); Ready None].

Lemma tunnel_transparent_witness :
  let r := forward_loop tunnel_events {| to_client := []; to_socket := [] |} in
  exists run rest, tunnel_events = run ++ rest
    /\ (forall out, read_run (StreamReader_new {| b_inner := tunnel_script |}) out
          <-> out = concat (socket_read run))
    /\ ([[x03; x04]] = client_items run ++ [] -> [x03; x04] = to_socket r.2 ++ [] <-> full_writes run).
Proof.
  destruct (tunnel_transparent tunnel_events tunnel_script [] {| w_inner := Some [[x03; x04]] |}
    [x03; x04] []) as (run & rest & E & _ & _ & Hr & _ & Hw).
  - eapply delivers_item; [reflexivity|]. eapply delivers_pending; [reflexivity|].
    eapply delivers_item; [reflexivity|]. eapply delivers_end. reflexivity.
  - reflexivity.
  - eapply (write_done _ [x03; x04] 2%nat _ []); [reflexivity|apply write_nil].
  - repeat constructor.
  - exists run, rest. split; [exact E|]. split; [exact Hr|exact Hw].
Defined.
