(* ===== verification/Client.v ===== *)
(** * The client (libp9cpu/src/client.rs)

    [P9cpuClient] runs one command at a time on a remote machine, through a
    transport it only knows by its interface [ClientInnerT].  Every call that
    leaves the client is recorded with its outcome, so that the order of the
    calls can be stated. *)

From S2P Require Import Prelude Bytes Io Error Namespace.

(** ** The transport *)

(** [trait ClientInnerT]: [W] is what the calls act on, [Chan] a channel
    between local tasks, [BStream] a stream of buffers. *)
Class ClientInnerT (W InnerError SessionId Chan BStream EmptyFuture : Type) := {
  inner_dial : M W InnerError SessionId;
  inner_start : SessionId -> Cmd -> M W InnerError unit;
  inner_stdout : SessionId -> M W InnerError BStream;
  inner_stderr : SessionId -> M W InnerError BStream;
  inner_stdin : SessionId -> Chan -> W -> EmptyFuture * W;
  inner_ninep_forward : SessionId -> Chan -> M W InnerError BStream;
  inner_wait : SessionId -> M W InnerError i32
}.

Inductive ClientError (InnerError : Type) : Type :=
  | NotStarted
  | NonZeroExitCode (code : i32)
  | AlreadyStarted
  | ClientIoErr (e : io_error)
  | Sys (e : Errno)
  | ClientChannelClosed
  | Inner (e : InnerError).
Arguments NotStarted {InnerError}.
Arguments NonZeroExitCode {InnerError} code.
Arguments AlreadyStarted {InnerError}.
Arguments ClientIoErr {InnerError} e.
Arguments Sys {InnerError} e.
Arguments ClientChannelClosed {InnerError}.
Arguments Inner {InnerError} e.

(** The client's own machine: its tasks, channels and terminal. *)
Class Local (W InnerError Chan BStream EmptyFuture Handle Stop Termios : Type) := {
  mpsc_channel : W -> Chan * W;
  broadcast_channel : W -> Stop * W;
  (** the task of [copy_stream], to the standard output or error *)
  spawn_copy_stream : BStream -> bool -> W -> Handle * W;
  (** the task that sends the standard input until it ends or is stopped *)
  spawn_stdin : EmptyFuture -> Chan -> Stop -> W -> Handle * W;
  (** the 9p server on the forwarded stream *)
  spawn_9p : BStream -> Chan -> W -> unit * W;
  stop_send : Stop -> M W unit unit;
  join_handle : Handle -> M W unit (result (ClientError InnerError) unit);
  tcgetattr : M W Errno Termios;
  cfmakeraw : Termios -> Termios;
  tcsetattr : Termios -> M W Errno unit
}.

Section Client.
Context {W InnerError SessionId Chan BStream EmptyFuture Handle Stop Termios : Type}.
Context `{CI : ClientInnerT W InnerError SessionId Chan BStream EmptyFuture}.
Context `{LO : Local W InnerError Chan BStream EmptyFuture Handle Stop Termios}.

Inductive client_call : Type :=
  | CallDial
  | CallNinepForward (sid : SessionId)
  | CallStart (sid : SessionId) (cmd : Cmd)
  | CallStdout (sid : SessionId)
  | CallStderr (sid : SessionId)
  | CallStdin (sid : SessionId)
  | CallWait (sid : SessionId)
  | CallTcgetattr
  | CallTcsetattr (t : Termios)
  | CallStop
  | CallJoin (h : Handle).

Record SessionInfo : Type := { i_sid : SessionId; i_handles : list Handle; i_stop : Stop; i_tty : bool }.

Record P9cpuClient : Type := {
  world : W; session_info : option SessionInfo; calls : list (client_call * bool)
}.

Definition P9cpuClient_new (w : W) : P9cpuClient :=
  {| world := w; session_info := None; calls := [] |}.

Abbreviation client := (M P9cpuClient (ClientError InnerError)).

(** A call, recorded. *)
Definition call_with {E A} (c : client_call) (m : M W E A) (err : E -> ClientError InnerError) : client A :=
  fun s =>
    match m (world s) with
    | (Ok a, w) => (Ok a, {| world := w; session_info := session_info s; calls := calls s ++ [(c, true)] |})
    | (Err e, w) => (Err (err e), {| world := w; session_info := session_info s; calls := calls s ++ [(c, false)] |})
    end.

(** A call whose error is only logged. *)
Definition call_logged {E A} (c : client_call) (m : M W E A) : client unit := fun s =>
  let '(r, w) := m (world s) in
  (Ok tt, {| world := w; session_info := session_info s; calls := calls s ++ [(c, is_ok r)] |}).

(** A call whose result is kept for later. *)
Definition call_result {E A} (c : client_call) (m : M W E A) : client (result E A) := fun s =>
  let '(r, w) := m (world s) in
  (Ok r, {| world := w; session_info := session_info s; calls := calls s ++ [(c, is_ok r)] |}).

(** Local steps that cannot fail. *)
Definition local {A} (m : W -> A * W) : client A := fun s =>
  let '(a, w) := m (world s) in
  (Ok a, {| world := w; session_info := session_info s; calls := calls s |}).

Definition call_future {A} (c : client_call) (m : W -> A * W) : client A := fun s =>
  let '(a, w) := m (world s) in
  (Ok a, {| world := w; session_info := session_info s; calls := calls s ++ [(c, true)] |}).

Definition set_session (i : option SessionInfo) : client unit := fun s =>
  (Ok tt, {| world := world s; session_info := i; calls := calls s |}).

Definition of_client_result {A} (r : result (ClientError InnerError) A) : client A := fun s => (r, s).

(** ** start *)

Definition setup_stderr (sid : SessionId) (tty : bool) (handles : list Handle) : client (list Handle) :=
  if tty then mret handles
  else
    err_stream ← call_with (CallStderr sid) (inner_stderr sid) Inner;
    err_handle ← local (spawn_copy_stream err_stream false);
    mret (handles ++ [err_handle]).

Definition setup_stdio (sid : SessionId) (tty : bool) (stop_rx : Stop) : client (list Handle) :=
  out_stream ← call_with (CallStdout sid) (inner_stdout sid) Inner;
  out_handle ← local (spawn_copy_stream out_stream true);
  handles ← setup_stderr sid tty [out_handle];
  chan ← local mpsc_channel;
  stdin_future ← call_future (CallStdin sid) (inner_stdin sid chan);
  in_handle ← local (spawn_stdin stdin_future chan stop_rx);
  mret (handles ++ [in_handle]).

(** [if command.cmd.ninep] *)
Definition setup_9p (sid : SessionId) (cmd : Cmd) : client unit :=
  if ninep cmd then
    chan ← local mpsc_channel;
    ninep_out_stream ← call_with (CallNinepForward sid) (inner_ninep_forward sid chan) Inner;
    local (spawn_9p ninep_out_stream chan)
  else mret tt.

(** From the dialled session on. *)
Definition start_dialled (cmd : Cmd) (sid : SessionId) : client unit :=
  _ ← setup_9p sid cmd;
  _ ← call_with (CallStart sid cmd) (inner_start sid cmd) Inner;
  stop ← local broadcast_channel;
  handles ← setup_stdio sid (tty cmd) stop;
  set_session (Some {| i_sid := sid; i_handles := handles; i_stop := stop; i_tty := tty cmd |}).

Definition start_session (cmd : Cmd) : client unit :=
  sid ← call_with CallDial inner_dial Inner;
  start_dialled cmd sid.

Definition client_start (cmd : Cmd) : client unit := fun s =>
  match session_info s with
  | Some _ => (Err AlreadyStarted, s)
  | None => start_session cmd s
  end.

(** ** wait *)

(** [self.session_info.take().ok_or(ClientError::NotStarted)?] *)
Definition take_session : client SessionInfo := fun s =>
  match session_info s with
  | None => (Err NotStarted, s)
  | Some i => (Ok i, {| world := world s; session_info := None; calls := calls s |})
  end.

(** The terminal's attributes, when it was made raw. *)
Definition make_raw (tty : bool) : client (option Termios) :=
  if tty then
    current ← call_with CallTcgetattr tcgetattr Sys;
    _ ← call_with (CallTcsetattr (cfmakeraw current)) (tcsetattr (cfmakeraw current)) Sys;
    mret (Some current)
  else mret None.

Definition wait_inner (r : result InnerError i32) : result (ClientError InnerError) unit :=
  match r with
  | Err e => Err (Inner e)
  | Ok code => if code =? 0 then Ok tt else Err (NonZeroExitCode code)
  end.

Fixpoint join_handles (hs : list Handle) : client unit :=
  match hs with
  | [] => mret tt
  | h :: hs => _ ← call_logged (CallJoin h) (join_handle h); join_handles hs
  end.

Definition restore (attr : option Termios) : client unit :=
  match attr with
  | Some current => call_logged (CallTcsetattr current) (tcsetattr current)
  | None => mret tt
  end.

(** From the waiting on. *)
Definition wait_session (i : SessionInfo) (attr : option Termios) : client unit :=
  code ← call_result (CallWait (i_sid i)) (inner_wait (i_sid i));
  _ ← call_logged CallStop (stop_send (i_stop i));
  _ ← join_handles (i_handles i);
  _ ← restore attr;
  of_client_result (wait_inner code).

Definition client_wait : client unit :=
  i ← take_session;
  attr ← make_raw (i_tty i);
  wait_session i attr.
End Client.
Arguments client_call : clear implicits.
Arguments SessionInfo : clear implicits.
Arguments P9cpuClient : clear implicits.
