(* ===== verification/ClientProps.v ===== *)
(** * Properties of the client

    Which calls starting a command makes and what a failure leaves; that
    waiting gives the terminal back and reports the command's exit code. *)

From S2P Require Import Prelude Bytes Io Error Namespace Client.

Section Props.
Context {W InnerError SessionId Chan BStream EmptyFuture Handle Stop Termios : Type}.
Context `{CI : ClientInnerT W InnerError SessionId Chan BStream EmptyFuture}.
Context `{LO : Local W InnerError Chan BStream EmptyFuture Handle Stop Termios}.

Abbreviation state := (P9cpuClient W SessionId Handle Stop Termios).
Abbreviation call := (client_call SessionId Handle Termios).
Abbreviation client := (M state (ClientError InnerError)).

Definition all_ok (cs : list call) : list (call * bool) := map (fun c => (c, true)) cs.

(** The calls of a failed computation: all but the last succeeded. *)
Definition failed_in (cs : list call) (before after : list (call * bool)) : Prop :=
  exists k c, cs !! k = Some c /\ after = before ++ all_ok (take k cs) ++ [(c, false)].

(** A computation that makes the calls [cs], one after the other, until one
    fails, and leaves the session. *)
Definition steps {A} (m : client A) (cs : list call) : Prop := forall s,
  session_info (m s).2 = session_info s
  /\ match (m s).1 with
     | Ok _ => calls (m s).2 = calls s ++ all_ok cs
     | Err e => failed_in cs (calls s) (calls (m s).2) /\ exists ie, e = Inner ie
     end.

(** The same, but a session is recorded at the end. *)
Definition finishes (m : client unit) (cs : list call) (sid : SessionId) (tty : bool) : Prop := forall s,
  match (m s).1 with
  | Ok _ => calls (m s).2 = calls s ++ all_ok cs
      /\ exists i, session_info (m s).2 = Some i /\ i_sid i = sid /\ i_tty i = tty
  | Err e => session_info (m s).2 = session_info s
      /\ failed_in cs (calls s) (calls (m s).2) /\ exists ie, e = Inner ie
  end.

Lemma failed_in_app cs ds before after : failed_in cs before after -> failed_in (cs ++ ds) before after.
Proof.
  intros (k & c & Hk & ->). exists k, c. split; [by apply lookup_app_l_Some|].
  by rewrite take_app_le by (apply lookup_lt_Some in Hk; lia).
Qed.

Lemma failed_in_later cs ds before after :
  failed_in ds (before ++ all_ok cs) after -> failed_in (cs ++ ds) before after.
Proof.
  intros (k & c & Hk & ->). exists (length cs + k)%nat, c. split.
  { rewrite lookup_app_r by lia. by replace (length cs + k - length cs)%nat with k by lia. }
  rewrite take_app_add, <- app_assoc. unfold all_ok. by rewrite map_app, <- !app_assoc.
Qed.

Lemma steps_bind {A B} (m : client A) (k : A -> client B) cs ds :
  steps m cs -> (forall a, steps (k a) ds) -> steps (m ≫= k) (cs ++ ds).
Proof.
  intros Hm Hk s. destruct (Hm s) as [Hi Hc]. unfold mbind, M_bind.
  destruct (m s) as [[a|e] s1]; simpl in *.
  - destruct (Hk a s1) as [Hi' Hc']. rewrite Hi', Hi. split; [done|]. rewrite Hc in Hc'.
    destruct (k a s1) as [[b|e] s2]; simpl in *.
    + by rewrite Hc', <- app_assoc; unfold all_ok; rewrite map_app.
    + destruct Hc' as [Hf He]. split; [|done]. by apply failed_in_later.
  - destruct Hc as [Hf He]. split; [done|]. split; [|done]. by apply failed_in_app.
Qed.

Lemma finishes_bind {A} (m : client A) (k : A -> client unit) cs ds sid t :
  steps m cs -> (forall a, finishes (k a) ds sid t) -> finishes (m ≫= k) (cs ++ ds) sid t.
Proof.
  intros Hm Hk s. destruct (Hm s) as [Hi Hc]. unfold mbind, M_bind.
  destruct (m s) as [[a|e] s1]; simpl in *.
  - pose proof (Hk a s1) as Hk'. rewrite Hc, Hi in Hk'.
    destruct (k a s1) as [[b|e] s2]; simpl in *.
    + destruct Hk' as [Hc' Hi']. split; [|done].
      by rewrite Hc', <- app_assoc; unfold all_ok; rewrite map_app.
    + destruct Hk' as (Hi' & Hf & He). split; [done|]. split; [|done]. by apply failed_in_later.
  - destruct Hc as [Hf He]. split; [done|]. split; [|done]. by apply failed_in_app.
Qed.

Lemma steps_ret {A} (a : A) : steps (mret a) [].
Proof. intros s. simpl. by rewrite app_nil_r. Qed.

Lemma steps_local {A} (m : W -> A * W) : steps (local m) [].
Proof. intros s. unfold local. destruct (m (world s)). simpl. by rewrite app_nil_r. Qed.

Lemma steps_call {A} (c : call) (m : M W InnerError A) : steps (call_with c m Inner) [c].
Proof.
  intros s. unfold call_with. destruct (m (world s)) as [[a|e] w]; simpl; [done|].
  split; [done|]. split; [|by exists e]. by exists 0%nat, c.
Qed.

Lemma steps_future {A} (c : call) (m : W -> A * W) : steps (call_future c m) [c].
Proof. intros s. unfold call_future. by destruct (m (world s)). Qed.

#[local] Hint Resolve steps_ret steps_local steps_call steps_future : core.

Lemma steps_setup_9p sid cmd :
  steps (setup_9p sid cmd) (if ninep cmd then [CallNinepForward sid] else []).
Proof.
  unfold setup_9p. destruct (ninep cmd); [|done].
  apply (steps_bind _ _ [] [_]); [done|intros chan]. by apply (steps_bind _ _ [_] []).
Qed.

Lemma steps_setup_stdio sid t stop :
  steps (setup_stdio sid t stop)
    ([CallStdout sid] ++ (if t then [] else [CallStderr sid]) ++ [CallStdin sid]).
Proof.
  unfold setup_stdio. apply steps_bind; [done|intros out].
  apply (steps_bind _ _ []); [done|intros h]. apply steps_bind.
  - unfold setup_stderr. destruct t; [done|]. apply (steps_bind _ _ [_] []); [done|intros e].
    by apply (steps_bind _ _ [] []).
  - intros hs. apply (steps_bind _ _ []); [done|intros chan].
    apply (steps_bind _ _ [_] []); [done|intros f]. by apply (steps_bind _ _ [] []).
Qed.

(** The calls of a start whose dialling gave [sid]. *)
Definition start_calls (sid : SessionId) (cmd : Cmd) : list call :=
  (if ninep cmd then [CallNinepForward sid] else []) ++ [CallStart sid cmd; CallStdout sid]
  ++ (if tty cmd then [] else [CallStderr sid]) ++ [CallStdin sid].

Lemma finishes_start_dialled cmd sid :
  finishes (start_dialled cmd sid) (start_calls sid cmd) sid (tty cmd).
Proof.
  unfold start_dialled, start_calls. apply finishes_bind; [apply steps_setup_9p|intros _].
  apply (finishes_bind _ _ [_]); [done|intros _]. apply (finishes_bind _ _ []); [done|intros stop].
  lazymatch goal with |- finishes _ ?l _ _ => rewrite <- (app_nil_r l) end.
  apply finishes_bind; [apply steps_setup_stdio|intros hs].
  intros s. simpl. rewrite app_nil_r. split; [done|]. by eexists.
Qed.

(** C31: starting a command dials the remote machine and then makes, in order
    and for the session it was given, the calls the command needs: the 9p
    forwarding when it mounts the client's files, the start, and a stream for
    each standard descriptor it has.  The first that fails is the last, its
    error is the result, and the client can start again; when all succeed the
    session is recorded, and a second start is refused without a call. *)
Theorem client_start_spec cmd (s : state) :
  let r := client_start cmd s in
  match session_info s with
  | Some _ => r = (Err AlreadyStarted, s)
  | None =>
      match (inner_dial (world s)).1 with
      | Err e => r.1 = Err (Inner e) /\ session_info r.2 = None
          /\ calls r.2 = calls s ++ [(CallDial, false)]
      | Ok sid =>
          match r.1 with
          | Ok _ => calls r.2 = calls s ++ all_ok (CallDial :: start_calls sid cmd)
              /\ exists i, session_info r.2 = Some i /\ i_sid i = sid /\ i_tty i = tty cmd
          | Err e => (exists ie, e = Inner ie) /\ session_info r.2 = None
              /\ failed_in (CallDial :: start_calls sid cmd) (calls s) (calls r.2)
          end
      end
  end.
Proof.
  intros r. subst r. unfold client_start. destruct (session_info s) as [i|] eqn:Es; [done|].
  unfold start_session, mbind, M_bind, call_with. destruct (inner_dial (world s)) as [[sid|e] w]; simpl; [|done].
  match goal with |- context [start_dialled cmd sid ?s1] => pose proof (finishes_start_dialled cmd sid s1) as Hf end.
  simpl in Hf. destruct (start_dialled _ _ _) as [[[]|e] s2]; simpl in *.
  - destruct Hf as [Hc Hi]. split; [|done]. by rewrite Hc, <- app_assoc.
  - destruct Hf as (Hi & Hf & He). split; [done|]. split; [by rewrite Hi|].
    by apply (failed_in_later [_]).
Qed.

(** ** wait *)

Lemma join_handles_calls hs (s : state) : exists s',
  join_handles hs s = (Ok tt, s') /\ session_info s' = session_info s
  /\ map fst (calls s') = map fst (calls s) ++ map CallJoin hs.
Proof.
  revert s. induction hs as [|h hs IH]; intros s; simpl; [exists s; by rewrite app_nil_r|].
  unfold mbind, M_bind, call_logged. destruct (join_handle h (world s)) as [r w].
  lazymatch goal with |- context [join_handles hs ?s1] => destruct (IH s1) as (s' & E & Hi & Hc) end.
  exists s'. split; [exact E|]. split; [exact Hi|]. rewrite Hc. simpl. by rewrite map_app, <- app_assoc.
Qed.

Definition restore_calls (attr : option Termios) : list call :=
  match attr with Some t => [CallTcsetattr t] | None => [] end.

Lemma restore_runs attr (s : state) : exists s',
  restore attr s = (Ok tt, s') /\ session_info s' = session_info s
  /\ map fst (calls s') = map fst (calls s) ++ restore_calls attr.
Proof.
  destruct attr as [t|]; simpl; [|exists s; by rewrite app_nil_r].
  unfold call_logged. destruct (tcsetattr t (world s)) as [r w]. eexists. split; [done|].
  simpl. by rewrite map_app.
Qed.

(** The calls of a wait, and the result its session's exit gives. *)
Definition wait_calls (i : SessionInfo SessionId Handle Stop) (attr : option Termios) : list call :=
  [CallWait (i_sid i); CallStop] ++ map CallJoin (i_handles i) ++ restore_calls attr.

Definition exit_result (r : result InnerError i32) (x : result (ClientError InnerError) unit) : Prop :=
  (x = Ok tt <-> r = Ok 0) /\ (forall c, x = Err (NonZeroExitCode c) <-> r = Ok c /\ c <> 0)
  /\ (forall e, r = Err e -> x = Err (Inner e)).

Lemma wait_inner_result r : exit_result r (wait_inner r).
Proof.
  destruct r as [code|e]; simpl; [|by repeat split; naive_solver].
  destruct (Z.eqb_spec code 0) as [->|Hne]; repeat split; naive_solver.
Qed.

Lemma wait_session_calls i attr (s : state) :
  exit_result (inner_wait (i_sid i) (world s)).1 (wait_session i attr s).1
  /\ session_info (wait_session i attr s).2 = session_info s
  /\ map fst (calls (wait_session i attr s).2) = map fst (calls s) ++ wait_calls i attr.
Proof.
  unfold wait_session, mbind, M_bind, call_result, call_logged.
  destruct (inner_wait (i_sid i) (world s)) as [code w] eqn:Ew. simpl.
  destruct (stop_send (i_stop i) w) as [r w']. simpl.
  lazymatch goal with |- context [join_handles ?hs ?s1] => destruct (join_handles_calls hs s1) as (s2 & -> & Hi2 & Hc2) end.
  destruct (restore_runs attr s2) as (s3 & -> & Hi3 & Hc3). simpl in *.
  split; [apply wait_inner_result|]. split; [by rewrite Hi3, Hi2|].
  rewrite Hc3, Hc2. unfold wait_calls. rewrite !map_app, <- !app_assoc. done.
Qed.

(** C22: waiting for a command that was not started is refused.  Otherwise the
    session is taken; with a terminal it is first made raw, and if that fails
    the error is returned at once.  Then the client waits for the command,
    stops its tasks and, whatever the outcome, sets the terminal back to what
    it was; the result is the command's exit code. *)
Theorem client_wait_spec (s : state) :
  let r := client_wait s in
  match session_info s with
  | None => r = (Err NotStarted, s)
  | Some i =>
      session_info r.2 = None
      /\ if i_tty i then
           (exists e cs, r.1 = Err (Sys e) /\ calls r.2 = calls s ++ cs
             /\ (cs = [(CallTcgetattr, false)]
                 \/ exists t, cs = [(CallTcgetattr, true); (CallTcsetattr (cfmakeraw t), false)]))
           \/ exists t w, exit_result (inner_wait (i_sid i) w).1 r.1
                /\ map fst (calls r.2) = map fst (calls s)
                     ++ [CallTcgetattr; CallTcsetattr (cfmakeraw t)] ++ wait_calls i (Some t)
         else exit_result (inner_wait (i_sid i) (world s)).1 r.1
              /\ map fst (calls r.2) = map fst (calls s) ++ wait_calls i None
  end.
Proof.
  intros r. subst r. unfold client_wait, take_session, make_raw, mbind, M_bind.
  destruct (session_info s) as [i|] eqn:Es; [|done]. destruct (i_tty i).
  2: { simpl. lazymatch goal with |- context [wait_session i None ?s1] =>
         destruct (wait_session_calls i None s1) as (He & Hi & Hc) end. done. }
  unfold call_with. simpl. destruct (tcgetattr (world s)) as [[t|e] w1]; simpl.
  2: { split; [done|]. left. do 2 eexists. split; [done|]. split; [reflexivity|]. by left. }
  destruct (tcsetattr (cfmakeraw t) w1) as [[[]|e] w2]; simpl.
  2: { split; [done|]. left. do 2 eexists. split; [done|]. rewrite <- app_assoc.
       split; [reflexivity|]. right. by exists t. }
  lazymatch goal with |- context [wait_session i (Some t) ?s1] =>
    destruct (wait_session_calls i (Some t) s1) as (He & Hi & Hc) end.
  split; [done|]. right. exists t, w2. split; [done|]. rewrite Hc. simpl. rewrite !map_app, <- !app_assoc. done.
Qed.
End Props.
