(* ===== verification/Rpc.v ===== *)
(** * The RPC layer (libp9cpu/src/rpc.rs, rpc/rpc_client.rs, rpc/rpc_server.rs)

    The handlers of the gRPC service on top of [Server], and the transport
    [RpcClient] on top of the generated client.  A request stream is the list
    of the items that arrive, a failure of the transport being one; tonic, the
    generated code and uuid are parameters. *)

From Stdlib Require Import Strings.Byte.
From S2P Require Import Prelude Bytes Io Error Fcall Utils Text Namespace Launcher Server Client Streams.

(** [tonic::Status] *)
Inductive Code : Set := InvalidArgument | Internal | OtherCode (n : Z).
Record Status : Set := { code : Code; message : string }.

(** uuid: the sixteen bytes of an identifier. *)
Class Uuid (U UuidError : Type) := {
  from_slice : list byte -> result UuidError U;
  into_bytes : U -> list byte
}.

Class UuidLaws (U UuidError : Type) `{Uuid U UuidError} : Prop :=
  from_into : forall u, from_slice (into_bytes u) = Ok u.

(** The texts of the errors. *)
Class Display (E : Type) := to_string : E -> string.

(** [StreamExt::map] and [StreamExt::scan] with a closure that keeps no state,
    on the items of a stream. *)
Class StreamExt := {
  stream_map : forall A B, (A -> B) -> list A -> list B;
  stream_scan : forall A B, (A -> option B) -> list A -> list B
}.
Arguments stream_map {_ A B}.
Arguments stream_scan {_ A B}.

Class StreamExtLaws `{StreamExt} : Prop := {
  stream_map_law : forall A B (f : A -> B) l, stream_map f l = map f l;
  (** a scan ends with the first [None] of its closure *)
  stream_scan_nil : forall A B (f : A -> option B), stream_scan f [] = [];
  stream_scan_cons : forall A B (f : A -> option B) x l,
    stream_scan f (x :: l) = match f x with Some y => y :: stream_scan f l | None => [] end
}.

(** ** The messages of p9cpu.proto *)

Record StartRequest : Set := { start_id : list byte; start_cmd : option Cmd }.

(** [StdinRequest] and [NinepForwardRequest]. *)
Record DataRequest : Set := { req_id : option (list byte); req_data : list byte }.

(** ** The service (rpc_server.rs) *)

Section Service.
Context {U UuidError : Type} `{Countable U} `{UU : Uuid U UuidError}.
Context {O Fd Child Sock Handle : Type} `{HO : Host O Fd Child Sock Handle}.
Context {DecodeError : Set} `{PR : Prost DecodeError}.
Context `{DS : Display ServerError} `{DU : Display UuidError} `{SE : StreamExt}.

Abbreviation service := (M (server U O Fd Child Handle) Status).

(** [impl From<server::Error> for Status] *)
Definition Status_from (e : ServerError) : Status := {| code := Internal; message := to_string e |}.

Definition invalid_argument (msg : string) : Status := {| code := InvalidArgument; message := msg |}.

Definition vec_to_uuid (v : list byte) : service U := fun s =>
  (match from_slice v with Ok u => Ok u | Err e => Err (invalid_argument (to_string e)) end, s).

Definition service_start (request : StartRequest) : service unit :=
  match start_cmd request with
  | None => throw (invalid_argument "No cmd provided.")
  | Some cmd => sid ← vec_to_uuid (start_id request); map_err Status_from (Server.start cmd sid)
  end.

(** The closure of the [scan]. *)
Definition data_or_end (req : result Status DataRequest) : option (list byte) :=
  match req with Ok r => Some (req_data r) | Err _ => None end.

(** [let Some(Ok(StdinRequest { id: Some(id), data })) = in_stream.next().await] *)
Definition first_request (in_stream : list (result Status DataRequest))
    : service (list byte * list byte * list (result Status DataRequest)) :=
  match in_stream with
  | Ok {| req_id := Some id; req_data := data |} :: rest => mret (id, data, rest)
  | _ => throw (invalid_argument "no session id.")
  end.

Definition service_stdin (in_stream : list (result Status DataRequest)) : service unit :=
  '(id, data, rest) ← first_request in_stream;
  sid ← vec_to_uuid id;
  map_err Status_from (Server.stdin sid (data :: stream_scan data_or_end rest)).

Definition service_stdout (id : list byte) : service unit :=
  sid ← vec_to_uuid id; map_err Status_from (Server.stdout sid).

Definition service_stderr (id : list byte) : service unit :=
  sid ← vec_to_uuid id; map_err Status_from (Server.stderr sid).

(** [new_v4] is the identifier that was drawn. *)
Definition service_dial (new_v4 : U) : service (list byte) :=
  _ ← map_err Status_from (Server.dial new_v4); mret (into_bytes new_v4).

(** The items it gives the forwarder are those of [ninep_items]. *)
Definition service_ninep_forward (in_stream : list (result Status DataRequest)) : service unit :=
  '(id, _, _) ← first_request in_stream;
  sid ← vec_to_uuid id;
  map_err Status_from (Server.ninep_forward sid).

Definition ninep_items (in_stream : list (result Status DataRequest)) : list (list byte) :=
  match in_stream with [] => [] | _ :: rest => stream_scan data_or_end rest end.

Definition service_wait (id : list byte) : service i32 :=
  sid ← vec_to_uuid id; map_err Status_from (Server.wait sid).
End Service.

(** ** The transport (rpc_client.rs) *)

Inductive RpcError (UuidError JoinError TransportError : Type) : Type :=
  | RpcStatus (e : Status)
  | InvalidUuid (e : UuidError)
  | RpcJoinError (e : JoinError)
  | Transport (e : TransportError).
Arguments RpcStatus {UuidError JoinError TransportError} e.
Arguments InvalidUuid {UuidError JoinError TransportError} e.
Arguments RpcJoinError {UuidError JoinError TransportError} e.
Arguments Transport {UuidError JoinError TransportError} e.

(** How an operation of the transport stops short. *)
Inductive rpc_stop (E : Type) : Type :=
  | Failed (e : E)
  | Unwrapped.
Arguments Failed {E} e.
Arguments Unwrapped {E}.

(** The generated client: one call per method of the service. *)
Class P9cpuRpc (W : Type) := {
  rpc_dial : M W Status (list byte);
  rpc_start : StartRequest -> M W Status unit;
  rpc_stdin : list DataRequest -> M W Status unit;
  rpc_stdout : list byte -> M W Status unit;
  rpc_stderr : list byte -> M W Status unit;
  rpc_ninep_forward : list DataRequest -> M W Status unit;
  rpc_wait : list byte -> M W Status i32
}.

(** [TryOrErrInto::poll] *)
Definition TryOrErrInto_poll {R E1 E2} (from : E2 -> E1) (p : poll (result E2 (result E1 R)))
    : poll (result E1 R) :=
  match p with
  | Pending => Pending
  | Ready (Ok r) => Ready r
  | Ready (Err e) => Ready (Err (from e))
  end.

Section Transport.
Context {W U UuidError JoinError TransportError : Type} `{UU : Uuid U UuidError} `{RP : P9cpuRpc W} `{SE : StreamExt}.

Abbreviation transport := (M W (rpc_stop (RpcError UuidError JoinError TransportError))).

Definition question {A} (m : M W Status A) : transport A := map_err (fun e => Failed (RpcStatus e)) m.

Definition RpcClient_dial : transport U :=
  id_vec ← question rpc_dial;
  match from_slice id_vec with Ok sid => mret sid | Err e => throw (Failed (InvalidUuid e)) end.

Definition RpcClient_start (sid : U) (command : Cmd) : transport unit :=
  question (rpc_start {| start_id := into_bytes sid; start_cmd := Some command |}).

Definition RpcClient_stdout (sid : U) : transport unit := question (rpc_stdout (into_bytes sid)).
Definition RpcClient_stderr (sid : U) : transport unit := question (rpc_stderr (into_bytes sid)).

(** The requests of a stream of buffers that starts with [first]. *)
Definition requests (sid : U) (first : list byte) (stream : list (list byte)) : list DataRequest :=
  {| req_id := Some (into_bytes sid); req_data := first |}
  :: stream_map (fun data => {| req_id := None; req_data := data |}) stream.

(** The task [stdin] spawns, for the buffers its stream gives until it ends. *)
Definition stdin_task (sid : U) (stream : list (list byte)) : transport unit :=
  match stream with
  | [] => mret tt
  | first_vec :: stream => question (rpc_stdin (requests sid first_vec stream))
  end.

(** [client.ninep_forward(stream).await.unwrap()] *)
Definition RpcClient_ninep_forward (sid : U) (in_stream : list (list byte)) : transport unit :=
  map_err (fun _ => Unwrapped) (rpc_ninep_forward (requests sid [] in_stream)).

Definition RpcClient_wait (sid : U) : transport i32 := question (rpc_wait (into_bytes sid)).

(** [impl ClientInnerT for RpcClient].  The future of [stdin] is the task that
    was spawned for the session and a channel; [items] is what the receiver of
    a channel gives until it ends, and a stream of buffers is known by the
    session it belongs to. *)
Definition RpcClient_ClientInnerT {Chan : Type} (items : Chan -> list (list byte))
    : ClientInnerT W (rpc_stop (RpcError UuidError JoinError TransportError)) U Chan U (U * Chan) := {|
  inner_dial := RpcClient_dial;
  inner_start := RpcClient_start;
  inner_stdout sid := _ ← RpcClient_stdout sid; mret sid;
  inner_stderr sid := _ ← RpcClient_stderr sid; mret sid;
  inner_stdin sid chan w := ((sid, chan), w);
  inner_ninep_forward sid chan := _ ← RpcClient_ninep_forward sid (items chan); mret sid;
  inner_wait := RpcClient_wait
|}.
End Transport.
