(* ===== verification/RpcProps.v ===== *)
(** * Properties of the RPC layer

    Over a transport that loses nothing, each operation of the client's
    transport is the operation of the session server with the same arguments;
    over one that fails, the standard input is cut, never altered. *)

From Stdlib Require Import Strings.Byte.
From S2P Require Import Prelude Bytes Io Error Fcall Utils Text Namespace NamespaceProps.
From S2P Require Import Launcher LauncherProps Server ServerProps Client Streams Rpc.

Section Props.
Context {U UuidError : Type} `{CU : Countable U} {UU : Uuid U UuidError} {UL : UuidLaws U UuidError}.
Context {O Fd Child Sock Handle : Type} `{HO : Host O Fd Child Sock Handle}.
Context {DecodeError : Set} `{PR : Prost DecodeError}.
Context `{DS : Display ServerError} `{DU : Display UuidError}.
Context {SE : StreamExt} {SL : StreamExtLaws}.
Context {JoinError TransportError : Type}.

Abbreviation state := (server U O Fd Child Handle).
Abbreviation error := (rpc_stop (RpcError UuidError JoinError TransportError)).

(** The service itself as the far end, each request arriving. *)
Definition direct (new_v4 : U) : P9cpuRpc state := {|
  rpc_dial := service_dial new_v4;
  rpc_start := service_start;
  rpc_stdin reqs := service_stdin (map Ok reqs);
  rpc_stdout := service_stdout;
  rpc_stderr := service_stderr;
  rpc_ninep_forward reqs := service_ninep_forward (map Ok reqs);
  rpc_wait := service_wait
|}.

(** A server's error as the client sees it. *)
Definition as_status (e : ServerError) : error := Failed (RpcStatus (Status_from e)).

Lemma as_status_map {A} (m : M state ServerError A) s :
  map_err (fun e => Failed (RpcStatus e) : error) (map_err Status_from m) s = map_err as_status m s.
Proof. unfold map_err. by destruct (m s) as [[?|?] ?]. Qed.

Lemma map_err_ext {S E F A} (f : E -> F) (m m' : M S E A) s :
  m s = m' s -> map_err f m s = map_err f m' s.
Proof. unfold map_err. by intros ->. Qed.

Lemma map_err_bind_ok {S E F A B} (f : E -> F) (m : M S E A) (k : A -> M S E B) s a :
  m s = (Ok a, s) -> map_err f (m ≫= k) s = map_err f (k a) s.
Proof. intros Hm. unfold map_err, mbind, M_bind. by rewrite Hm. Qed.

Lemma vec_to_uuid_into (sid : U) (s : state) : vec_to_uuid (into_bytes sid) s = (Ok sid, s).
Proof. unfold vec_to_uuid. by rewrite from_into. Qed.

Lemma scan_all (l : list DataRequest) : stream_scan data_or_end (map Ok l) = map req_data l.
Proof. induction l as [|r l IH]; [apply stream_scan_nil|]. simpl. by rewrite stream_scan_cons, IH. Qed.

Lemma scan_cut (l : list DataRequest) e rest :
  stream_scan data_or_end (map Ok l ++ Err e :: rest) = map req_data l.
Proof. induction l as [|r l IH]; simpl; rewrite stream_scan_cons; simpl; [done|by rewrite IH]. Qed.

Lemma map_req_data (l : list (list byte)) :
  map req_data (stream_map (fun data => {| req_id := None; req_data := data |}) l) = l.
Proof. rewrite stream_map_law, map_map. apply map_id. Qed.

(** The service on the requests of a stream, cut by an error or not. *)
Lemma service_stdin_requests (sid : U) first items (after : list (result Status DataRequest)) (s : state) :
  (after = [] \/ exists e rest, after = Err e :: rest) ->
  service_stdin (map Ok (requests sid first items) ++ after) s
  = map_err Status_from (Server.stdin sid (first :: items)) s.
Proof.
  intros Ha. unfold requests, service_stdin. simpl.
  assert (forall l : list DataRequest, stream_scan data_or_end (map Ok l ++ after) = map req_data l) as Hs.
  { intros l. destruct Ha as [->|(e & rest & ->)]; [rewrite app_nil_r; apply scan_all|apply scan_cut]. }
  unfold mbind, M_bind. rewrite ret_run, vec_to_uuid_into, Hs, map_req_data. done.
Qed.

(** C14: over a connection that brings every request, the client's transport
    implements the session server: each of its operations does what the
    server's operation does with the same session and arguments, and reports
    the server's error; the standard input is written as the very items the
    client gave, and nothing is asked when there are none; the identifier a
    dialling returns is the one the session was recorded under. *)
Theorem rpc_refines_server (new_v4 sid : U) cmd items (s : state) :
  let RP := direct new_v4 in
  RpcClient_dial s = (_ ← map_err as_status (Server.dial new_v4); mret new_v4) s
  /\ RpcClient_start sid cmd s = map_err as_status (Server.start cmd sid) s
  /\ stdin_task sid items s
     = (match items with [] => (Ok tt, s) | _ => map_err as_status (Server.stdin sid items) s end)
  /\ RpcClient_stdout sid s = map_err as_status (Server.stdout sid) s
  /\ RpcClient_stderr sid s = map_err as_status (Server.stderr sid) s
  /\ RpcClient_ninep_forward sid items s
     = map_err (fun _ => Unwrapped : error) (Server.ninep_forward sid) s
  /\ ninep_items (map Ok (requests sid [] items)) = items
  /\ RpcClient_wait sid s = map_err as_status (Server.wait sid) s.
Proof.
  intros RP. pose proof (vec_to_uuid_into sid s) as Hv.
  split; [|split; [|split; [|split; [|split; [|split; [|split]]]]]].
  - unfold RpcClient_dial, question, RP, direct, service_dial. cbn [rpc_dial].
    unfold map_err, mbind, M_bind. destruct (Server.dial new_v4 s) as [[[]|e] s']; [|done].
    rewrite !ret_run, from_into. done.
  - unfold RpcClient_start, question. cbn. unfold service_start. cbn.
    rewrite (map_err_bind_ok _ _ _ _ _ Hv). apply as_status_map.
  - destruct items as [|i items]; [done|]. unfold stdin_task, question. cbn [RP direct rpc_stdin].
    etransitivity; [|apply as_status_map]. apply map_err_ext.
    rewrite <- (app_nil_r (map Ok _)). apply service_stdin_requests. by left.
  - unfold RpcClient_stdout, question. cbn. unfold service_stdout. rewrite (map_err_bind_ok _ _ _ _ _ Hv). apply as_status_map.
  - unfold RpcClient_stderr, question. cbn. unfold service_stderr. rewrite (map_err_bind_ok _ _ _ _ _ Hv). apply as_status_map.
  - unfold RpcClient_ninep_forward. cbn. unfold service_ninep_forward. cbn.
    unfold map_err, mbind, M_bind. rewrite ret_run, Hv. by destruct (Server.ninep_forward sid s) as [[?|?] ?].
  - unfold requests, ninep_items. simpl. by rewrite scan_all, map_req_data.
  - unfold RpcClient_wait, question. cbn. unfold service_wait. rewrite (map_err_bind_ok _ _ _ _ _ Hv). apply as_status_map.
Qed.

(** C39: when the connection fails while the standard input is sent, the
    command gets the items that arrived before, in order, and no other; when
    the first request is lost, nothing is written and the call is refused. *)
Theorem stdin_cut_by_failure (sid : U) first items k e rest (s : state) :
  service_stdin (map Ok (take (S k) (requests sid first items)) ++ Err e :: rest) s
  = map_err Status_from (Server.stdin sid (first :: take k items)) s
  /\ service_stdin (Err e :: rest) s = (Err (invalid_argument "no session id."), s)
  /\ service_stdin [] s = (Err (invalid_argument "no session id."), s).
Proof.
  split; [|done]. rewrite <- service_stdin_requests with (after := Err e :: rest) by eauto.
  do 3 f_equal. unfold requests. simpl. f_equal.
  by rewrite !stream_map_law, <- firstn_map.
Qed.
End Props.

(** ** Witnesses: identifiers that are their bytes, streams that are lists *)

#[local] Existing Instance byte_countable.
#[local] Existing Instance mem_host.
#[local] Existing Instance prost_ref.

#[local] Instance uuid_ref : Uuid (list byte) unit := {| from_slice l := Ok l; into_bytes u := u |}.
#[local] Instance uuid_ref_laws : UuidLaws (list byte) unit.
Proof. by intros u. Qed.

Fixpoint scan_ref {A B} (f : A -> option B) (l : list A) : list B :=
  match l with
  | [] => []
  | x :: l => match f x with Some y => y :: scan_ref f l | None => [] end
  end.

#[local] Instance stream_ref : StreamExt := {| stream_map A B := @map A B; stream_scan A B := scan_ref |}.
#[local] Instance stream_ref_laws : StreamExtLaws.
Proof. by split. Qed.

#[local] Instance no_text {E} : Display E := fun _ => "".

Definition running : server (list byte) (list (list byte)) nat nat nat :=
  (start sh [x01] (dial [x01] (server_new [])).2).2.

Lemma rpc_refines_server_witness :
  stdin_task (JoinError := unit) (TransportError := unit) (RP := direct [x02]) [x01] [[x61]; [x62]] running
  = map_err as_status (Server.stdin [x01] [[x61]; [x62]]) running.
Proof.
  exact (proj1 (proj2 (proj2 (rpc_refines_server [x02] [x01] sh [[x61]; [x62]] running)))).
Defined.

Lemma stdin_cut_by_failure_witness :
  service_stdin [Ok {| req_id := Some [x01]; req_data := [x61] |};
                 Err {| code := OtherCode 14; message := "unavailable" |}] running
  = map_err Status_from (Server.stdin [x01] [[x61]]) running.
Proof.
  exact (proj1 (stdin_cut_by_failure [x01] [x61] [[x62]] 0 {| code := OtherCode 14; message := "unavailable" |}
    [] running)).
Defined.
