(* ===== verification/AsyncFd.v ===== *)
(** * Non-blocking descriptors (libp9cpu/src/async_fd.rs)

    [AsyncFd] reads and writes a descriptor when the runtime says that it is
    ready, and asks again when the descriptor turns out not to be.  The
    runtime's registration and libc's calls are parameters. *)

From Stdlib Require Import Strings.Byte.
From S2P Require Import Prelude Bytes Io Error Streams.

(** [loop { .. }]: a body that continues with a state or returns. *)
Fixpoint loop {D R : Type} (fuel : nat) (body : D -> D + R) (d : D) : option R :=
  match fuel with
  | O => None
  | S fuel => match body d with inl d => loop fuel body d | inr r => Some r end
  end.

(** [tokio::io::unix::AsyncFd] and the calls of libc on its descriptor; a call
    that returns a negative number left the error in errno. *)
Class Evented (D : Type) := {
  poll_read_ready : D -> poll (result io_error unit) * D;
  poll_write_ready : D -> poll (result io_error unit) * D;
  clear_ready : D -> D;
  libc_read : nat -> M D Errno (list byte);
  libc_write : list byte -> M D Errno nat;
  fcntl_getfl : M D Errno Z;
  fcntl_setfl : Z -> M D Errno unit;
  AsyncFd_new : M D io_error unit
}.

(** [read] gives at most what it was asked for. *)
Class EventedLaws (D : Type) `{Evented D} : Prop :=
  libc_read_bound : forall n d bs d', libc_read n d = (Ok bs, d') -> (length bs <= n)%nat.

Definition O_NONBLOCK : Z := 0x800.

Section AsyncFd.
Context {D : Type} `{EV : Evented D}.

(** [e.kind() == ErrorKind::WouldBlock] for the last OS error. *)
Definition would_block (e : Errno) : bool := e =? EAGAIN.

(** [TryFrom<OwnedFd>] *)
Definition AsyncFd_try_from : M D io_error unit :=
  flags ← map_err Os fcntl_getfl;
  _ ← map_err Os (fcntl_setfl (Z.lor flags O_NONBLOCK));
  AsyncFd_new.

(** One turn of [poll_read]; the buffer takes what was read. *)
Definition read_turn (buf : ReadBuf) (d : D) : D + (poll (result io_error unit) * ReadBuf * D) :=
  match poll_read_ready d with
  | (Pending, d) => inr (Pending, buf, d)
  | (Ready (Err e), d) => inr (Ready (Err e), buf, d)
  | (Ready (Ok _), d) =>
      match libc_read (remaining buf) d with
      | (Err e, d) => if would_block e then inl (clear_ready d) else inr (Ready (Err (Os e)), buf, d)
      | (Ok bs, d) =>
          inr (Ready (Ok tt),
               {| filled := filled buf ++ bs; remaining := remaining buf - length bs |}, d)
      end
  end.

Definition fd_poll_read (fuel : nat) (buf : ReadBuf) (d : D)
    : option (poll (result io_error unit) * ReadBuf * D) := loop fuel (read_turn buf) d.

(** One turn of [poll_write]. *)
Definition write_turn (buf : list byte) (d : D) : D + (poll (result io_error nat) * D) :=
  match poll_write_ready d with
  | (Pending, d) => inr (Pending, d)
  | (Ready (Err e), d) => inr (Ready (Err e), d)
  | (Ready (Ok _), d) =>
      match libc_write buf d with
      | (Err e, d) => if would_block e then inl (clear_ready d) else inr (Ready (Err (Os e)), d)
      | (Ok n, d) => inr (Ready (Ok n), d)
      end
  end.

Definition fd_poll_write (fuel : nat) (buf : list byte) (d : D)
    : option (poll (result io_error nat) * D) := loop fuel (write_turn buf) d.
End AsyncFd.

(** ** Properties *)

(** [k] turns of a loop that all went on. *)
Inductive turns {D R : Type} (body : D -> D + R) : nat -> D -> D -> Prop :=
  | turns_O d : turns body 0 d d
  | turns_S k d d' d'' : body d = inl d' -> turns body k d' d'' -> turns body (S k) d d''.

(** A loop answers with the first turn that returns, and with enough fuel for
    the turns before it does answer. *)
Lemma loop_answers {D R} (body : D -> D + R) fuel d r :
  loop fuel body d = Some r <-> exists k d', (k < fuel)%nat /\ turns body k d d' /\ body d' = inr r.
Proof.
  split.
  - revert d. induction fuel as [|fuel IH]; intros d; simpl; [done|].
    destruct (body d) as [d1|r1] eqn:E.
    + intros (k & d' & Hk & Ht & Hr)%IH. exists (S k), d'. split; [lia|]. split; [|done].
      by eapply turns_S.
    + intros [= ->]. exists 0%nat, d. split; [lia|]. split; [constructor|done].
  - intros (k & d' & Hk & Ht & Hr). revert fuel Hk.
    induction Ht as [d|k d d1 d' E _ IH]; intros [|fuel] Hk; try lia; simpl; [by rewrite Hr|].
    rewrite E. apply IH; [done|lia].
Qed.

(** The turn of a read that goes on: the descriptor was said to be ready and
    was not. *)
Lemma read_turn_goes_on {D} `{Evented D} buf (d d' : D) :
  read_turn buf d = inl d' <-> exists d1 d2, poll_read_ready d = (Ready (Ok tt), d1)
    /\ libc_read (remaining buf) d1 = (Err EAGAIN, d2) /\ d' = clear_ready d2.
Proof.
  unfold read_turn. split.
  - destruct (poll_read_ready d) as [[|[[]|e]] d1] eqn:E1; try done.
    destruct (libc_read (remaining buf) d1) as [[bs|e] d2] eqn:E2; [done|].
    unfold would_block. destruct (Z.eqb_spec e EAGAIN) as [->|]; [|done]. intros [= <-].
    exists d1, d2. by rewrite E2.
  - intros (d1 & d2 & -> & -> & ->). done.
Qed.

(** What a poll of the descriptor for [want] bytes may answer. *)
Definition read_answer (buf buf' : ReadBuf) (p : poll (result io_error unit)) : Prop :=
  match p with
  | Ready (Ok _) => exists bs, (length bs <= remaining buf)%nat
      /\ buf' = {| filled := filled buf ++ bs; remaining := remaining buf - length bs |}
  | _ => buf' = buf
  end.

(** A read of a descriptor is retried exactly while the descriptor is
    said to be ready and then would block, with the readiness cleared in
    between: it answers as soon as one turn is otherwise, with that turn's
    answer; it adds to the buffer what was read, never more than fits, and
    nothing when it answers anything else. *)
Theorem fd_poll_read_spec {D} `{EventedLaws D} buf (d : D) :
  (forall k d' r, turns (read_turn buf) k d d' -> read_turn buf d' = inr r ->
     forall fuel, (k < fuel)%nat -> fd_poll_read fuel buf d = Some r)
  /\ (forall fuel p buf' d', fd_poll_read fuel buf d = Some (p, buf', d') ->
        read_answer buf buf' p
        /\ exists k d1, turns (read_turn buf) k d d1 /\ read_turn buf d1 = inr (p, buf', d')).
Proof.
  split.
  - intros k d' r Ht Hr fuel Hf. apply loop_answers. eauto.
  - intros fuel p buf' d' (k & d1 & _ & Ht & Hr)%loop_answers. split; [|eauto].
    clear Ht. unfold read_turn in Hr. destruct (poll_read_ready d1) as [[|[[]|e]] d2]; simplify_eq/=; try done.
    destruct (libc_read (remaining buf) d2) as [[bs|e] d3] eqn:E; [|destruct (would_block e)]; simplify_eq/=; [|done].
    apply libc_read_bound in E. by exists bs.
Qed.

(** ** Witness: a pipe that is first not ready after all *)

Definition pipe_state : Type := list (result Errno (list byte)).

#[local] Instance pipe : Evented pipe_state := {|
  poll_read_ready d := match d with [] => (Pending, []) | _ => (Ready (Ok tt), d) end;
  poll_write_ready d := (Ready (Ok tt), d);
  clear_ready d := d;
  libc_read n d :=
    match d with
    | [] => (Ok [], [])
    | Ok bs :: d => (Ok (take n bs), d)
    | Err e :: d => (Err e, d)
    end;
  libc_write bs d := (Ok (length bs), d);
  fcntl_getfl d := (Ok 0, d);
  fcntl_setfl _ d := (Ok tt, d);
  AsyncFd_new d := (Ok tt, d)
|}.

#[local] Instance pipe_laws : EventedLaws pipe_state.
Proof.
  intros n [|[bs'|e] d] bs d'; simpl; intros [= <- <-]; simpl; [lia|]. rewrite length_take. lia.
Qed.

Lemma fd_poll_read_spec_witness :
  fd_poll_read 2 {| filled := []; remaining := 4 |} ([Err EAGAIN; Ok [x61; x62]] : pipe_state)
  = Some (Ready (Ok tt), {| filled := [x61; x62]; remaining := 2 |}, []).
Proof.
  apply (proj1 (fd_poll_read_spec {| filled := []; remaining := 4 |} ([Err EAGAIN; Ok [x61; x62]] : pipe_state))
    1%nat [Ok [x61; x62]]); [|reflexivity|lia].
  eapply turns_S; [reflexivity|]. apply turns_O.
Defined.
