(* ===== verification/Stdio.v ===== *)
(** * The client's standard streams (libp9cpu/src/client.rs)

    The bodies of the tasks that [setup_stdio] of Client.v spawns: copying a
    stream of buffers to the standard output or error, and sending the
    standard input until it ends or the command has exited. *)

From Stdlib Require Import Strings.Byte.
From S2P Require Import Prelude Bytes Io Streams Namespace Client.

(** [tokio::io::AsyncWriteExt] *)
Class AsyncWrite (D : Type) := {
  dst_write_all : list byte -> M D io_error unit;
  dst_flush : M D io_error unit
}.

Class AsyncWriteLaws (D : Type) `{AsyncWrite D} := {
  dst_written : D -> list byte;
  dst_write_law : forall bs, writes dst_written (dst_write_all bs) bs;
  dst_flush_law : forall d, dst_written (dst_flush d).2 = dst_written d
}.

Section Output.
Context {InnerError T D : Type} `{HS : Stream T (list byte)} `{HD : AsyncWrite D}.

(** [copy_stream]'s task: [None] when the fuel, one poll each, is spent. *)
Fixpoint copy_stream (fuel : nat) (src : T) (dst : D) : option (result (ClientError InnerError) unit * D) :=
  match fuel with
  | O => None
  | S fuel =>
      match poll_next src with
      | (Pending, src) => copy_stream fuel src dst
      | (Ready None, _) => Some (Ok tt, dst)
      | (Ready (Some bytes), src) =>
          match map_err ClientIoErr (_ ← dst_write_all bytes; dst_flush) dst with
          | (Err e, dst) => Some (Err e, dst)
          | (Ok _, dst) => copy_stream fuel src dst
          end
      end
  end.
End Output.

(** ** The standard input *)

Definition STDIN_BUF_SIZE : nat := 128.

(** What wakes the [select!]: a read of at most [STDIN_BUF_SIZE] bytes, or the
    message that the command has exited. *)
Inductive stdin_event : Set :=
  | StdinRead (r : result io_error (list byte))
  | StdinStopped.

Section Input.
Context {InnerError W : Type}.

(** The loop: how it ended ([None]: it has not), and the buffers it sent; the
    channel takes [room] of them before its receiver is dropped ([None]: it
    never is). *)
Fixpoint stdin_loop (evs : list stdin_event) (room : option nat) (sent : list (list byte))
    : option (result (ClientError InnerError) unit) * list (list byte) :=
  match evs with
  | [] => (None, sent)
  | StdinStopped :: _ => (Some (Ok tt), sent)
  | StdinRead (Err e) :: _ => (Some (Err (ClientIoErr e)), sent)
  | StdinRead (Ok buf) :: evs =>
      match buf with
      | [] => (Some (Ok tt), sent)
      | _ =>
          match room with
          | Some 0%nat => (Some (Err ClientChannelClosed), sent)
          | _ => stdin_loop evs (pred <$> room) (sent ++ [buf])
          end
      end
  end.

(** The task: [future] is what [inner.stdin] makes of the buffers it receives.
    Its result is only awaited when the loop ended well; it goes on when the
    loop did not. *)
Definition in_task (evs : list stdin_event) (room : option nat)
    (future : list (list byte) -> M W InnerError unit) (w : W)
    : option (result (ClientError InnerError) unit * W) :=
  match stdin_loop evs room [] with
  | (None, _) => None
  | (Some (Err e), sent) => Some (Err e, (future sent w).2)
  | (Some (Ok _), sent) => Some (map_err Inner (future sent) w)
  end.
End Input.
