(* ===== verification/StdioProps.v ===== *)
(** * What is typed and what is printed

    The output of a command appears on the client as the server read it, and
    what is typed reaches the command: through the copying loops of both
    sides, the channels and the RPC in between, nothing is lost, repeated or
    reordered. *)

From Stdlib Require Import Strings.Byte.
From S2P Require Import Prelude Bytes Io Error Fcall Utils Text Namespace Launcher LauncherProps.
From S2P Require Import Server ServerProps Streams StreamsProps Client Rpc RpcProps Stdio.

(** ** The server's copying loop *)

(** The buffers of the reads before the first that fails or is empty. *)
Fixpoint output (reads : list (result io_error (list byte))) : list (list byte) :=
  match reads with
  | Ok (b :: bs) :: reads => (b :: bs) :: output reads
  | _ => []
  end.

(** The reads have come to the end of the output. *)
Fixpoint at_end (reads : list (result io_error (list byte))) : bool :=
  match reads with
  | Ok [] :: _ => true
  | Ok _ :: reads => at_end reads
  | _ => false
  end.

Definition up_to (room : option nat) (l : list (list byte)) : list (list byte) :=
  match room with Some n => take n l | None => l end.

Lemma copy_to_sends reads room sent : (copy_to reads room sent).2 = sent ++ up_to room (output reads).
Proof.
  revert room sent. induction reads as [|[[|b buf]|e] reads IH]; intros room sent; simpl;
    try (destruct room as [[|n]|]; simpl; by rewrite app_nil_r).
  destruct room as [[|n]|]; simpl; [by rewrite app_nil_r|rewrite IH..]; by rewrite <- app_assoc.
Qed.

Lemma copy_to_ok reads room sent : (copy_to reads room sent).1 = Some (Ok tt) ->
  at_end reads = true /\ (copy_to reads room sent).2 = sent ++ output reads.
Proof.
  revert room sent. induction reads as [|[[|b buf]|e] reads IH]; intros room sent; simpl; try done.
  { by rewrite app_nil_r. }
  destruct room as [[|n]|]; simpl; [done|..]; intros [E1 E2]%IH; (split; [done|]); by rewrite E2, <- app_assoc.
Qed.

(** ** The client's copying loop *)

Section Output.
Context {InnerError T D : Type} `{HS : Stream T (list byte)} `{HD : AsyncWrite D} {HL : AsyncWriteLaws D}.

(** A stream that ends is copied to its end, or to the first failure. *)
Lemma copy_stream_copies (s : T) items (d : D) : delivers s items ->
  exists n, forall fuel, (n <= fuel)%nat -> exists r d', copy_stream (InnerError := InnerError) fuel s d = Some (r, d')
    /\ match r with
       | Ok _ => dst_written d' = dst_written d ++ concat items
       | Err _ => exists p, p `prefix_of` concat items /\ dst_written d' = dst_written d ++ p
       end.
Proof.
  intros Hd. revert d. induction Hd as [s s' E|s s' l E _ IH|s s' i l E _ IH]; intros d.
  - exists 1%nat. intros [|fuel] ?; [lia|]. simpl. rewrite E. do 2 eexists. split; [done|]. simpl. by rewrite app_nil_r.
  - destruct (IH d) as [n Hn]. exists (S n). intros [|fuel] ?; [lia|]. simpl. rewrite E. apply Hn. lia.
  - pose proof (dst_write_law i d) as Hw. unfold appended in Hw.
    destruct (dst_write_all i d) as [[[]|e] d1] eqn:E1; simpl in Hw.
    + pose proof (dst_flush_law d1) as Hf. destruct (dst_flush d1) as [[[]|e] d2] eqn:E2; simpl in Hf.
      * destruct (IH d2) as [n Hn]. exists (S n). intros [|fuel] ?; [lia|]. simpl. rewrite E.
        unfold map_err, mbind, M_bind. rewrite E1, E2. destruct (Hn fuel) as (r & d' & Hr & Hres); [lia|].
        exists r, d'. split; [exact Hr|]. rewrite Hf, Hw in Hres. destruct r as [u|e].
        -- by rewrite Hres, <- app_assoc.
        -- destruct Hres as (p & Hp & ->). exists (i ++ p). split; [by apply prefix_app|by rewrite app_assoc].
      * exists 1%nat. intros [|fuel] ?; [lia|]. simpl. rewrite E. unfold map_err, mbind, M_bind. rewrite E1, E2.
        do 2 eexists. split; [done|]. exists i. split; [by apply prefix_app_r|by rewrite Hf].
    + destruct Hw as (p & Hp & Hw). exists 1%nat. intros [|fuel] ?; [lia|]. simpl. rewrite E.
      unfold map_err, mbind, M_bind. rewrite E1. do 2 eexists. split; [done|]. exists p. split; [|done].
      by apply prefix_app_r.
Qed.
End Output.

(** What an RPC brings of the items that were sent: all, or some and then a
    failure. *)
Definition arrives {Status} (sent : list (list byte)) (l : list (result Status (list byte))) : Prop :=
  l = map Ok sent \/ exists k e rest, l = map Ok (take k sent) ++ Err e :: rest.

Lemma before_error_cut {Status} k (sent : list (list byte)) (e : Status) rest :
  before_error (map Ok (take k sent) ++ Err e :: rest) = take k sent.
Proof. revert k. induction sent as [|b l IH]; intros [|k]; simpl; [done..|]. by rewrite IH. Qed.

Lemma concat_take_prefix {A} k (l : list (list A)) : concat (take k l) `prefix_of` concat l.
Proof. rewrite <- (take_drop k l) at 2. rewrite concat_app. by apply prefix_app_r. Qed.

Section Stdout.
Context {InnerError T D Status : Type} `{HS : Stream T (result Status (list byte))}.
Context `{HD : AsyncWrite D} {HL : AsyncWriteLaws D}.

(** C16: the output of a command is printed as it was written.  When the
    server copies what it reads of a command's output to the RPC, and the
    client's task prints what the RPC brings, the task comes to its end, and
    what it has printed is a part, from the start and without a gap, of what
    was read.  It is all of it when the command's output has ended, the RPC
    does not fail and neither do the writes. *)
Theorem stdout_delivered reads room (s : T) answers (d : D) :
  let c := copy_to reads room [] in
  arrives c.2 answers -> delivers s answers ->
  exists n, forall fuel, (n <= fuel)%nat ->
    exists r d' p, copy_stream (InnerError := InnerError) fuel {| b_inner := s |} d = Some (r, d')
      /\ dst_written d' = dst_written d ++ p
      /\ p `prefix_of` concat (output reads)
      /\ (c.1 = Some (Ok tt) -> answers = map Ok c.2 -> is_ok r = true ->
          at_end reads = true /\ p = concat (output reads)).
Proof.
  intros c Ha Hd. pose proof (byte_vec_delivers s _ Hd) as Hb.
  destruct (copy_stream_copies (InnerError := InnerError) _ _ d Hb) as [n Hn]. exists n. intros fuel Hf.
  destruct (Hn fuel Hf) as (r & d' & Hr & Hres).
  assert (concat (before_error answers) `prefix_of` concat (output reads)) as Hpre.
  { trans (concat c.2).
    - destruct Ha as [->|(k & e & rest & ->)]; [by rewrite before_error_ok|].
      rewrite before_error_cut. apply concat_take_prefix.
    - unfold c. rewrite copy_to_sends. simpl. destruct room; simpl; [apply concat_take_prefix|done]. }
  destruct r as [u|e].
  - exists (Ok u), d', (concat (before_error answers)). split; [done|]. split; [done|]. split; [done|].
    intros Hc -> _. apply copy_to_ok in Hc as [He Hs]. split; [done|].
    rewrite before_error_ok. unfold c. by rewrite Hs.
  - destruct Hres as (p & Hp & Hw). exists (Err e), d', p. split; [done|]. split; [done|].
    split; [by trans (concat (before_error answers))|done].
Qed.
End Stdout.

(** ** The standard input *)

(** What was typed before the input ended or the command exited. *)
Fixpoint typed (evs : list stdin_event) : list (list byte) :=
  match evs with
  | StdinRead (Ok (b :: bs)) :: evs => (b :: bs) :: typed evs
  | _ => []
  end.

Lemma stdin_loop_sends {InnerError} evs room sent :
  (stdin_loop (InnerError := InnerError) evs room sent).2 = sent ++ up_to room (typed evs).
Proof.
  revert room sent. induction evs as [|[[[|b buf]|e]|] evs IH]; intros room sent; simpl;
    try (destruct room as [[|n]|]; simpl; by rewrite app_nil_r).
  destruct room as [[|n]|]; simpl; [by rewrite app_nil_r|rewrite IH..]; by rewrite <- app_assoc.
Qed.

Lemma stdin_loop_ok {InnerError} evs room sent : (stdin_loop (InnerError := InnerError) evs room sent).1 = Some (Ok tt) ->
  (stdin_loop (InnerError := InnerError) evs room sent).2 = sent ++ typed evs.
Proof.
  revert room sent. induction evs as [|[[[|b buf]|e]|] evs IH]; intros room sent; simpl; try done;
    try by rewrite app_nil_r.
  destruct room as [[|n]|]; simpl; [done|..]; intros ->%IH; by rewrite <- app_assoc.
Qed.

(** What was written to a descriptor. *)
Class FdLaws (O Fd Child Sock Handle : Type) `{Host O Fd Child Sock Handle} := {
  fd_written : Fd -> O -> list byte;
  fd_write_law : forall fd bs, writes (fd_written fd) (fd_write_all fd bs) bs
}.

Section Stdin.
Context {U UuidError : Type} `{CU : Countable U} {UU : Uuid U UuidError} {UL : UuidLaws U UuidError}.
Context {O Fd Child Sock Handle : Type} `{HO : Host O Fd Child Sock Handle} {FL : FdLaws O Fd Child Sock Handle}.
Context {DecodeError : Set} `{PR : Prost DecodeError}.
Context `{DS : Display ServerError} `{DU : Display UuidError}.
Context {SE : StreamExt} {SL : StreamExtLaws}.
Context {JoinError TransportError : Type}.

Abbreviation state := (server U O Fd Child Handle).
Abbreviation error := (rpc_stop (RpcError UuidError JoinError TransportError)).

Lemma write_items_written fd items (s : state) :
  match (write_items fd items s).1 with
  | Ok _ => fd_written fd (host (write_items fd items s).2) = fd_written fd (host s) ++ concat items
  | Err _ => exists p, p `prefix_of` concat items
      /\ fd_written fd (host (write_items fd items s).2) = fd_written fd (host s) ++ p
  end.
Proof.
  revert s. induction items as [|item items IH]; intros s; simpl; [by rewrite app_nil_r|].
  pose proof (fd_write_law fd item (host s)) as Hw. unfold appended in Hw.
  unfold mbind, M_bind, call. destruct (fd_write_all fd item (host s)) as [[[]|e] o]; simpl in *.
  - set (s1 := {| host := o; sessions := sessions s; pending := pending s |}). specialize (IH s1).
    destruct (write_items fd items s1) as [[u|e] s2]; simpl in *.
    + by rewrite IH, Hw, <- app_assoc.
    + destruct IH as (p & Hp & ->). exists (item ++ p). split; [by apply prefix_app|]. by rewrite Hw, <- app_assoc.
  - destruct Hw as (p & Hp & Hw). exists p. split; [by apply prefix_app_r|done].
Qed.

(** C17: what is typed reaches the command.  When the client's task has ended
    well, over a connection that brings every request, all that was typed
    before the end of the input, or before the command exited, was written to
    the standard input of the session's command, in order and once; when it
    ended otherwise, a part of it was, from the start and without a gap.  In
    either case the session still has that descriptor: that the input has
    ended is not passed on to the command. *)
Theorem stdin_delivered (new_v4 sid : U) evs room (s : state) i r s' :
  sessions s !! sid = Some i ->
  in_task (W := state) (InnerError := error) evs room (stdin_task (RP := direct new_v4) sid) s = Some (r, s') ->
  sessions s' = sessions s
  /\ exists p, fd_written (s_stdin i) (host s') = fd_written (s_stdin i) (host s) ++ p
    /\ p `prefix_of` concat (typed evs)
    /\ (r = Ok tt -> p = concat (typed evs)).
Proof.
  intros Hi. unfold in_task.
  assert (forall items, let m := stdin_task (RP := direct new_v4) (JoinError := JoinError) (TransportError := TransportError) sid items s in
    sessions m.2 = sessions s /\ exists p, fd_written (s_stdin i) (host m.2) = fd_written (s_stdin i) (host s) ++ p
      /\ p `prefix_of` concat items /\ (is_ok m.1 = true -> p = concat items)) as Htask.
  { intros [|first items] m; [split; [done|]; exists []; rewrite app_nil_r; done|].
    assert (m = map_err as_status (Server.stdin sid (first :: items)) s) as ->.
    { unfold m, stdin_task, question. cbn [rpc_stdin direct].
      rewrite <- (app_nil_r (map Ok _)). rewrite <- as_status_map.
      apply map_err_ext, (service_stdin_requests sid first items [] s). by left. }
    unfold Server.stdin, get_session, mbind, M_bind, map_err. rewrite Hi.
    pose proof (write_items_written (s_stdin i) (first :: items) s) as Hw.
    destruct (keeps_write_items (s_stdin i) (first :: items) s) as [Hk _].
    destruct (write_items (s_stdin i) (first :: items) s) as [[u|e] s2]; cbn [fst snd] in *; (split; [exact Hk|]).
    - exists (concat (first :: items)). split; [exact Hw|done].
    - destruct Hw as (p & Hp & Hw). by exists p. }
  pose proof (stdin_loop_sends (InnerError := error) evs room []) as Hs.
  pose proof (stdin_loop_ok (InnerError := error) evs room []) as Hok.
  destruct (stdin_loop evs room []) as [[[u|e]|] sent]; simpl in *; [| |done]; intros Hres;
    destruct (Htask sent) as (Hk & p & Hw & Hp & Hall).
  - rewrite Hok in * by (by destruct u). injection Hres as Hres. unfold map_err in Hres.
    destruct (stdin_task sid (typed evs) s) as [rt st] eqn:Et. cbn [fst snd] in *.
    assert (s' = st /\ (r = Ok tt -> is_ok rt = true)) as [-> Hr] by (destruct rt; simplify_eq; by split).
    split; [done|]. exists p. auto.
  - injection Hres as <- <-. split; [done|]. exists p. split; [done|]. split; [|done]. trans (concat sent); [done|].
    rewrite Hs. destruct room; simpl; [apply concat_take_prefix|done].
Qed.
End Stdin.

(** ** Witnesses: a host with one descriptor, streams that are lists, and a
    terminal that keeps what it shows *)

#[local] Existing Instance byte_countable.
#[local] Existing Instance prost_ref.
#[local] Existing Instance uuid_ref.
#[local] Existing Instance uuid_ref_laws.
#[local] Existing Instance stream_ref.
#[local] Existing Instance stream_ref_laws.
#[local] Existing Instance no_text.

#[local] Instance pipe_host : Host (list byte) unit unit unit unit := {|
  bind_local o := (Ok tt, o); local_port _ o := (Ok 1024, o);
  openpty o := (Ok (tt, tt), o); pipe2 o := (Ok (tt, tt), o); try_clone _ o := (Ok tt, o); async_fd _ o := (Ok tt, o);
  spawn _ _ _ _ o := (Ok tt, o);
  accept _ o := (Ok tt, o); sock_write_all _ _ o := (Ok tt, o); sock_shutdown _ o := (Ok tt, o);
  fd_write_all _ bs o := (Ok tt, o ++ bs);
  wait_child _ o := (Ok (Some 0), o);
  spawn_copy _ o := (tt, o); spawn_forward _ o := (tt, o); join _ o := (Ok tt, o)
|}.

#[local] Instance pipe_host_laws : FdLaws (list byte) unit unit unit unit.
Proof. refine {| fd_written _ o := o |}. by intros fd bs o. Defined.

#[local] Instance terminal : AsyncWrite (list byte) := {| dst_write_all bs d := (Ok tt, d ++ bs); dst_flush d := (Ok tt, d) |}.
#[local] Instance terminal_laws : AsyncWriteLaws (list byte).
Proof. refine {| dst_written d := d |}; [by intros bs d|done]. Defined.

#[local] Instance answers_stream : Stream (list (result Status (list byte))) (result Status (list byte)) := fun l =>
  match l with [] => (Ready None, []) | i :: l => (Ready (Some i), l) end.

Lemma answers_delivered (l : list (result Status (list byte))) : delivers l l.
Proof. induction l as [|i l IH]; [by eapply delivers_end|by eapply delivers_item]. Defined.

Definition hello_reads : list (result io_error (list byte)) := [Ok [x68; x65]; Ok [x6c; x6c; x6f]; Ok []].

Lemma stdout_delivered_witness :
  exists n, forall fuel, (n <= fuel)%nat ->
    exists (r : result (ClientError unit) unit) d' p,
      copy_stream fuel {| b_inner := map Ok (copy_to hello_reads None []).2 : list (result Status (list byte)) |} [x24] = Some (r, d')
      /\ d' = [x24] ++ p /\ p `prefix_of` [x68; x65; x6c; x6c; x6f].
Proof.
  destruct (stdout_delivered (InnerError := unit) (HD := terminal) (HL := terminal_laws) hello_reads None
    (map Ok (copy_to hello_reads None []).2 : list (result Status (list byte))) _ [x24]
    (or_introl eq_refl) (answers_delivered _)) as [n Hn].
  exists n. intros fuel Hf. destruct (Hn fuel Hf) as (r & d' & p & H1 & H2 & H3 & _).
  exists r, d', p. split; [exact H1|]. split; [exact H2|exact H3].
Defined.

Definition typing : list stdin_event := [StdinRead (Ok [x61; x0a]); StdinRead (Ok [x62]); StdinStopped; StdinRead (Ok [x63])].

Definition pipe_running : server (list byte) (list byte) unit unit unit :=
  (start sh [x01] (dial [x01] (server_new [])).2).2.

Lemma stdin_delivered_witness :
  exists r s', in_task (InnerError := rpc_stop (RpcError unit unit unit)) typing None
      (stdin_task (RP := direct [x02]) [x01]) pipe_running = Some (r, s')
    /\ r = Ok tt /\ host s' = [x61; x0a; x62].
Proof.
  set (x := in_task (InnerError := rpc_stop (RpcError unit unit unit)) typing None
      (stdin_task (RP := direct [x02]) [x01]) pipe_running).
  assert (Some (Ok tt) = fst <$> x) as Hx by (vm_compute; reflexivity).
  destruct x as [[r s']|] eqn:E; [|discriminate Hx]. injection Hx as Hr. symmetry in Hr.
  assert (exists i, sessions pipe_running !! [x01] = Some i) as [i Hi] by (vm_compute; eexists; reflexivity).
  destruct (stdin_delivered (FL := pipe_host_laws) (PR := prost_ref) [x02] [x01] typing None pipe_running i r s' Hi E)
    as (_ & p & Hw & _ & Hp).
  exists r, s'. split; [reflexivity|]. split; [exact Hr|].
  rewrite (Hp Hr) in Hw. exact Hw.
Defined.
