(* ===== verification/NetText.v ===== *)
(** * Addresses as text, as core::net does them

    [Display] of [IpAddr] and [str::parse::<SocketAddr>], which the command
    lines and the client of p9cpu go through. *)

From Stdlib Require Import Ascii Strings.Byte.
From S2P Require Import Prelude Bytes Utils Text.

(** An IPv4 address is its four octets, an IPv6 address its eight segments. *)
Inductive IpAddr : Set :=
  | V4 (octets : list u8)
  | V6 (segments : list u16).

(** A scope identifier is read, and dropped here: nothing uses it. *)
Record SocketAddr : Set := { ip : IpAddr; port : u16 }.

Definition ip_wf (a : IpAddr) : Prop :=
  match a with
  | V4 l => length l = 4%nat /\ Forall (fits 8) l
  | V6 l => length l = 8%nat /\ Forall (fits 16) l
  end.

(** ** Display *)

(** The digits of a number below [2 ^ 64]. *)
Definition decimal (n : Z) : list byte := digits 20 n [].

Fixpoint joined (sep : byte) (ps : list (list byte)) : list byte :=
  match ps with
  | [] => []
  | [p] => p
  | p :: ps => p ++ sep :: joined sep ps
  end.

Definition hex_digit (d : Z) : byte := if d <? 10 then byte_of (48 + d) else byte_of (87 + d).

(** [{:x}] of a segment. *)
Fixpoint hex_digits (fuel : nat) (n : Z) (acc : list byte) : list byte :=
  match fuel with
  | O => acc
  | S fuel =>
      let acc := hex_digit (n mod 16) :: acc in
      if n <? 16 then acc else hex_digits fuel (n / 16) acc
  end.

Definition hex (n : Z) : list byte := hex_digits 4 n [].

(** The zeros that [l] starts with. *)
Fixpoint zeros (l : list u16) : nat :=
  match l with
  | x :: l => if x =? 0 then S (zeros l) else 0
  | [] => 0
  end.

(** The first of the longest runs of zeros: where it starts and its length.
    [i] is the index of [l], [best] the longest run so far. *)
Fixpoint longest_zeros (i : nat) (l : list u16) (best : nat * nat) : nat * nat :=
  match l with
  | [] => best
  | x :: l' => longest_zeros (S i) l' (if (best.2 <? zeros l)%nat then (i, zeros l) else best)
  end.

Definition show_v4 (l : list u8) : list byte := joined x2e (map decimal l).

Definition show_segments (l : list u16) : list byte :=
  let '(start, len) := longest_zeros 0 l (0%nat, 0%nat) in
  if (1 <? len)%nat
  then joined x3a (map hex (take start l)) ++ [x3a; x3a] ++ joined x3a (map hex (drop (start + len) l))
  else joined x3a (map hex l).

(** An IPv4 address in an IPv6 address is shown as such. *)
Definition show_v6 (l : list u16) : list byte :=
  match l with
  | [0; 0; 0; 0; 0; 0xffff; ab; cd] =>
      as_bytes "::ffff:" ++ show_v4 [ab / 256; ab mod 256; cd / 256; cd mod 256]
  | _ => show_segments l
  end.

Definition show_ip (a : IpAddr) : list byte :=
  match a with V4 l => show_v4 l | V6 l => show_v6 l end.

(** ** Parsing *)

(** A parser: what it read, and the rest. *)
Definition parser (A : Type) : Type := list byte -> option (A * list byte).

#[export] Instance parser_ret : MRet parser := fun A a l => Some (a, l).
#[export] Instance parser_bind : MBind parser := fun A B k m l =>
  match m l with Some (a, l) => k a l | None => None end.

Definition given_char (c : byte) : parser unit := fun l =>
  match l with
  | b :: l => if decide (b = c) then Some (tt, l) else None
  | [] => None
  end.

(** [char::to_digit] *)
Definition to_digit_radix (radix : Z) (b : byte) : option Z :=
  let v := byte_val b in
  let d := if between 48 57 b then Some (v - 48)
           else if between 97 122 b then Some (v - 87)
           else if between 65 90 b then Some (v - 55)
           else None in
  match d with Some d => if d <? radix then Some d else None | None => None end.

(** The digits there are: their number, their value, and the rest. *)
Fixpoint read_digits (radix : Z) (count : nat) (acc : Z) (l : list byte) : nat * Z * list byte :=
  match l with
  | [] => (count, acc, [])
  | b :: l' =>
      match to_digit_radix radix b with
      | Some d => read_digits radix (S count) (acc * radix + d) l'
      | None => (count, acc, l)
      end
  end.

(** [read_number]: at most [max_digits] digits, a value of [bits] bits. *)
Definition read_number (radix : Z) (max_digits : option nat) (allow_zero_prefix : bool) (bits : Z) : parser Z := fun l =>
  let '(count, n, rest) := read_digits radix 0 0 l in
  let zero_prefix := match l with b :: _ => bool_decide (b = x30) | [] => false end in
  if (count =? 0)%nat then None
  else if match max_digits with Some m => (m <? count)%nat | None => false end then None
  else if negb allow_zero_prefix && zero_prefix && (1 <? count)%nat then None
  else if n <? 2 ^ bits then Some (n, rest) else None.

Definition octet : parser u8 := read_number 10 (Some 3%nat) false 8.

Definition read_ipv4_addr : parser (list u8) :=
  a ← octet; _ ← given_char x2e; b ← octet; _ ← given_char x2e;
  c ← octet; _ ← given_char x2e; d ← octet; mret [a; b; c; d].

(** [read_separator]: nothing separates the first item. *)
Definition read_separator {A} (i : nat) (p : parser A) : parser A :=
  match i with
  | O => p
  | S _ => _ ← given_char x3a; p
  end.

(** [read_groups] from the [i]th of [limit] groups on: the groups, whether an
    IPv4 address ends them, and the rest. *)
Fixpoint read_groups (todo i limit : nat) (l : list byte) : list u16 * bool * list byte :=
  match todo with
  | O => ([], false, l)
  | S todo =>
      match (if (i <? limit - 1)%nat then read_separator i read_ipv4_addr l else None) with
      | Some ([a; b; c; d], l) => ([a * 256 + b; c * 256 + d], true, l)
      | _ =>
          match read_separator i (read_number 16 (Some 4%nat) true 16) l with
          | Some (g, l) => let '(gs, v4, l) := read_groups todo (S i) limit l in (g :: gs, v4, l)
          | None => ([], false, l)
          end
      end
  end.

(** What follows the [::] after [n] groups. *)
Definition read_tail (n : nat) : parser (list u16) := fun l =>
  let limit := (8 - (n + 1))%nat in
  let '(tail, _, l) := read_groups limit 0 limit l in
  Some (replicate (8 - n - length tail) 0 ++ tail, l).

Definition read_ipv6_addr : parser (list u16) := fun l =>
  let '(head, head_v4, l) := read_groups 8 0 8 l in
  if (length head =? 8)%nat then Some (head, l)
  else if head_v4 then None
  else (_ ← given_char x3a; _ ← given_char x3a; tail ← read_tail (length head); mret (head ++ tail) : parser _) l.

Definition read_port : parser u16 := _ ← given_char x3a; read_number 10 None true 16.

Definition read_socket_addr_v4 : parser SocketAddr :=
  a ← read_ipv4_addr; p ← read_port; mret {| ip := V4 a; port := p |}.

Definition read_scope_id : parser unit := fun l =>
  match (_ ← given_char x25; read_number 10 None true 32) l with
  | Some (_, l) => Some (tt, l)
  | None => Some (tt, l)
  end.

Definition read_socket_addr_v6 : parser SocketAddr :=
  _ ← given_char x5b; a ← read_ipv6_addr; _ ← read_scope_id; _ ← given_char x5d;
  p ← read_port; mret {| ip := V6 a; port := p |}.

(** [str::parse::<SocketAddr>]: the whole text. *)
Definition parse_socket_addr (s : list byte) : option SocketAddr :=
  match (match read_socket_addr_v4 s with Some r => Some r | None => read_socket_addr_v6 s end) with
  | Some (a, []) => Some a
  | _ => None
  end.

Example parse_v4 : parse_socket_addr (as_bytes "127.0.0.1:564") = Some {| ip := V4 [127; 0; 0; 1]; port := 564 |}.
Proof. by vm_compute. Qed.
Example parse_v4_zero : parse_socket_addr (as_bytes "127.00.0.1:564") = None.
Proof. by vm_compute. Qed.
Example parse_v6 : parse_socket_addr (as_bytes "[fe80::1%2]:17010")
  = Some {| ip := V6 [0xfe80; 0; 0; 0; 0; 0; 0; 1]; port := 17010 |}.
Proof. by vm_compute. Qed.
Example parse_v6_v4 : parse_socket_addr (as_bytes "[::ffff:10.0.0.1]:1") = Some {| ip := V6 [0; 0; 0; 0; 0; 0xffff; 0xa00; 1]; port := 1 |}.
Proof. by vm_compute. Qed.
Example parse_big_port : parse_socket_addr (as_bytes "[::]:65536") = None.
Proof. by vm_compute. Qed.
Example show_v6_example : show_ip (V6 [0x2001; 0xdb8; 0; 0; 1; 0; 0; 1]) = as_bytes "2001:db8::1:0:0:1".
Proof. by vm_compute. Qed.

(** ** Lemmas *)

Lemma to_digit_radix_digit d : 0 <= d < 10 -> to_digit_radix 10 (digit d) = Some d.
Proof.
  intros H. unfold to_digit_radix, between. rewrite digit_val by done.
  replace ((48 <=? 48 + d) && (48 + d <=? 57)) with true by lia.
  replace (48 + d - 48) with d by lia. by replace (d <? 10) with true by lia.
Qed.

(** Nothing more is read where there is no digit. *)
Definition no_digit (radix : Z) (l : list byte) : Prop :=
  match l with b :: _ => to_digit_radix radix b = None | [] => True end.

Lemma read_digits_stop radix c acc l : no_digit radix l -> read_digits radix c acc l = (c, acc, l).
Proof. destruct l as [|b l]; simpl; [done|]. by intros ->. Qed.

Lemma read_digits_app radix l rest : forall c acc c' acc',
  read_digits radix c acc l = (c', acc', []) -> read_digits radix c acc (l ++ rest) = read_digits radix c' acc' rest.
Proof.
  induction l as [|b l IH]; intros c acc c' acc'; simpl; [by intros [= -> ->]|].
  destruct (to_digit_radix radix b); [apply IH|done].
Qed.

Lemma read_digits_decimal fuel n : 0 <= n < 10 ^ Z.of_nat fuel -> (0 < fuel)%nat ->
  read_digits 10 0 0 (digits fuel n []) = (ndigits fuel n, n, []).
Proof.
  revert n. induction fuel as [|fuel IH]; intros n Hn Hf; [lia|]. cbn [digits ndigits].
  pose proof (Z.mod_pos_bound n 10 ltac:(lia)) as Hm. pose proof (Z.div_mod n 10 ltac:(lia)) as Hd.
  destruct (Z.ltb_spec n 10) as [Hlt|Hge].
  - rewrite Z.mod_small in * by lia. simpl. by rewrite to_digit_radix_digit by lia.
  - assert (0 < fuel)%nat as Hf' by (destruct fuel; [simpl in Hn; lia|lia]).
    rewrite digits_acc. erewrite read_digits_app by (apply IH; [|done];
      rewrite Nat2Z.inj_succ, Z.pow_succ_r in Hn by lia; lia).
    simpl. rewrite to_digit_radix_digit by lia. repeat f_equal. lia.
Qed.

(** A number starts with a zero only when it is zero. *)
Lemma decimal_head fuel n acc : 0 < n < 10 ^ Z.of_nat fuel ->
  exists b l, digits fuel n acc = b :: l /\ b <> x30.
Proof.
  revert n acc. induction fuel as [|fuel IH]; intros n acc Hn; [simpl in Hn; lia|]. cbn [digits].
  destruct (Z.ltb_spec n 10) as [Hlt|Hge].
  - eexists _, _. split; [done|]. intros E. pose proof (f_equal byte_val E) as E'.
    rewrite digit_val in E' by (apply Z.mod_pos_bound; lia). rewrite Z.mod_small in E' by lia.
    change (byte_val x30) with 48 in E'. lia.
  - apply IH. rewrite Nat2Z.inj_succ, Z.pow_succ_r in Hn by lia. pose proof (Z.div_mod n 10). 
    pose proof (Z.mod_pos_bound n 10). lia.
Qed.

(** Reading back a number that was printed. *)
Lemma read_number_decimal n max azp bits rest : 0 <= n < 10 ^ 20 -> no_digit 10 rest ->
  match max with Some m => (ndigits 20 n <= m)%nat | None => True end ->
  read_number 10 max azp bits (decimal n ++ rest) = if n <? 2 ^ bits then Some (n, rest) else None.
Proof.
  intros Hn Hr Hmax. unfold read_number, decimal.
  rewrite (read_digits_app _ _ _ _ _ _ _ (read_digits_decimal 20 n Hn ltac:(lia))).
  rewrite read_digits_stop by done.
  assert (negb (ndigits 20 n =? 0)%nat) as Hpos by done. destruct (ndigits 20 n =? 0)%nat eqn:E; [done|].
  replace (match max with Some m => (m <? ndigits 20 n)%nat | None => false end) with false
    by (destruct max; [symmetry; apply Nat.ltb_ge; done|done]).
  replace (negb azp && _ && (1 <? ndigits 20 n)%nat) with false; [done|].
  symmetry. destruct (Z.ltb_spec n 10) as [Hlt|Hge].
  - assert (ndigits 20 n = 1%nat) as -> by (cbn [ndigits]; by replace (n <? 10) with true by lia). by rewrite andb_false_r.
  - destruct (decimal_head 20 n []) as (b & l & Eb & Hb); [change (Z.of_nat 20) with 20; lia|]. rewrite Eb.
    generalize (ndigits 20 n). intros c. cbn [app]. rewrite bool_decide_false by done. by rewrite andb_false_r.
Qed.

Lemma ndigits_octet n : fits 8 n -> (ndigits 20 n <= 3)%nat.
Proof.
  unfold fits. intros Hn. change (2 ^ 8) with 256 in Hn. cbn [ndigits].
  destruct (Z.ltb_spec n 10); [lia|]. destruct (Z.ltb_spec (n / 10) 10); [lia|].
  destruct (Z.ltb_spec (n / 10 / 10) 10) as [|Hge]; [lia|]. rewrite Z.div_div in Hge by lia.
  assert (n / (10 * 10) < 10) by (apply Z.div_lt_upper_bound; lia). lia.
Qed.

Lemma octet_decimal n rest : fits 8 n -> no_digit 10 rest -> octet (decimal n ++ rest) = Some (n, rest).
Proof.
  intros Hn Hr. unfold octet. pose proof (ndigits_octet n Hn). unfold fits in Hn.
  rewrite read_number_decimal by (done || lia). by replace (n <? 2 ^ 8) with true by lia.
Qed.

Lemma port_decimal n rest : 0 <= n < 10 ^ 20 -> no_digit 10 rest ->
  read_port (x3a :: decimal n ++ rest) = if n <? 2 ^ 16 then Some (n, rest) else None.
Proof.
  intros Hn Hr. unfold read_port, mbind, parser_bind. simpl (given_char _ _).
  by apply (read_number_decimal n None true 16 rest).
Qed.

Lemma port_read p : fits 16 p -> read_port (x3a :: decimal p) = Some (p, []).
Proof.
  unfold fits. intros Hp. rewrite <- (app_nil_r (decimal p)), port_decimal by (done || lia).
  by replace (p <? 2 ^ 16) with true by lia.
Qed.

Lemma parser_bind_some {A B} (m : parser A) (k : A -> parser B) l a l' :
  m l = Some (a, l') -> (m ≫= k) l = k a l'.
Proof. intros E. unfold mbind, parser_bind. by rewrite E. Qed.

(** An IPv4 address is read back. *)
Lemma read_show_v4 l rest : length l = 4%nat -> Forall (fits 8) l -> no_digit 10 rest ->
  read_ipv4_addr (show_v4 l ++ rest) = Some (l, rest).
Proof.
  intros Hl Hf Hr. destruct l as [|a [|b [|c [|d [|]]]]]; try done.
  repeat apply Forall_cons in Hf as [? Hf]. unfold show_v4. simpl (joined _ _).
  rewrite <- app_assoc. simpl ((_ :: _) ++ _). rewrite <- app_assoc. simpl ((_ :: _) ++ _). rewrite <- app_assoc. simpl ((_ :: _) ++ _).
  unfold read_ipv4_addr. repeat (erewrite parser_bind_some; [|by apply octet_decimal];
    erewrite parser_bind_some; [|done]).
  erewrite parser_bind_some; [|by apply octet_decimal]. done.
Qed.

Lemma parse_socket_v4 l p : length l = 4%nat -> Forall (fits 8) l -> fits 16 p ->
  parse_socket_addr (show_v4 l ++ x3a :: decimal p) = Some {| ip := V4 l; port := p |}.
Proof.
  intros Hl Hf Hp. unfold parse_socket_addr, read_socket_addr_v4.
  erewrite parser_bind_some by by apply read_show_v4.
  by erewrite parser_bind_some by by apply port_read.
Qed.

(** Every address at a port, as the servers listen on it. *)
Lemma parse_socket_any p : 0 <= p < 2 ^ 32 ->
  parse_socket_addr (as_bytes "[::]:" ++ decimal p)
  = if p <? 2 ^ 16 then Some {| ip := V6 (replicate 8 0); port := p |} else None.
Proof.
  intros Hp. unfold parse_socket_addr.
  change (as_bytes "[::]:" ++ decimal p) with (x5b :: x3a :: x3a :: x5d :: x3a :: decimal p).
  assert (forall l, read_socket_addr_v4 (x5b :: l) = None) as -> by done.
  unfold read_socket_addr_v6.
  erewrite parser_bind_some by done.
  assert (forall l, read_ipv6_addr (x3a :: x3a :: x5d :: l) = Some (replicate 8 0, x5d :: l)) as H6 by done.
  erewrite parser_bind_some by apply H6.
  erewrite parser_bind_some by done. erewrite parser_bind_some by done.
  pose proof (port_decimal p [] ltac:(lia) ltac:(done)) as Hport. rewrite app_nil_r in Hport.
  unfold mbind, parser_bind. rewrite Hport. by destruct (p <? 2 ^ 16).
Qed.

(** ** An IPv6 address without its brackets *)

(** Without a dot no IPv4 address is read. *)
Lemma read_digits_suffix radix l : forall c acc c' acc' rest,
  read_digits radix c acc l = (c', acc', rest) -> rest `suffix_of` l.
Proof.
  induction l as [|b l IH]; intros c acc c' acc' rest; simpl; [by intros [= _ _ <-]|].
  destruct (to_digit_radix radix b); [|by intros [= _ _ <-]]. intros H%IH. by apply suffix_cons_r.
Qed.

Lemma octet_suffix l a rest : octet l = Some (a, rest) -> rest `suffix_of` l.
Proof.
  unfold octet, read_number. destruct (read_digits 10 0 0 l) as [[c n] r] eqn:E. apply read_digits_suffix in E.
  repeat case_match; by intros [= _ <-].
Qed.

Lemma read_ipv4_dot l r : read_ipv4_addr l = Some r -> x2e ∈ l.
Proof.
  unfold read_ipv4_addr, mbind, parser_bind. destruct (octet l) as [[a l1]|] eqn:E; [|done].
  apply octet_suffix in E as [k ->]. destruct l1 as [|b l1]; simpl; [done|].
  destruct (decide (b = x2e)) as [->|]; [|done]. intros _. apply elem_of_app. right. by left.
Qed.

Definition not_dot (b : byte) : Prop := b <> x2e.

Lemma digit_not_dot d : 0 <= d < 10 -> not_dot (digit d).
Proof. intros H E. apply (f_equal byte_val) in E. rewrite digit_val in E by done. change (byte_val x2e) with 46 in E. lia. Qed.

Lemma digits_not_dot fuel n acc : 0 <= n -> Forall not_dot acc -> Forall not_dot (digits fuel n acc).
Proof.
  revert n acc. induction fuel as [|fuel IH]; intros n acc Hn Ha; simpl; [done|].
  assert (Forall not_dot (digit (n mod 10) :: acc)) as H.
  { constructor; [|done]. apply digit_not_dot, Z.mod_pos_bound. lia. }
  destruct (n <? 10); [done|]. apply IH; [|done]. apply Z.div_pos; lia.
Qed.

Lemma hex_digit_val d : 0 <= d < 16 -> byte_val (hex_digit d) = if d <? 10 then 48 + d else 87 + d.
Proof.
  intros H. unfold hex_digit. destruct (Z.ltb_spec d 10); rewrite byte_val_of; apply wrap_id; unfold fits; lia.
Qed.

(** A hexadecimal digit is neither a dot, nor a colon, nor a bracket. *)
Lemma hex_digit_plain d : 0 <= d < 16 -> not_dot (hex_digit d) /\ hex_digit d <> x5b.
Proof.
  intros H. split; intros E; apply (f_equal byte_val) in E; rewrite hex_digit_val in E by done;
    [change (byte_val x2e) with 46 in E|change (byte_val x5b) with 91 in E]; destruct (Z.ltb_spec d 10); lia.
Qed.

Lemma hex_not_dot fuel n acc : 0 <= n -> Forall not_dot acc -> Forall not_dot (hex_digits fuel n acc).
Proof.
  revert n acc. induction fuel as [|fuel IH]; intros n acc Hn Ha; simpl; [done|].
  assert (Forall not_dot (hex_digit (n mod 16) :: acc)) as H.
  { constructor; [|done]. apply hex_digit_plain, Z.mod_pos_bound. lia. }
  destruct (n <? 16); [done|]. apply IH; [|done]. apply Z.div_pos; lia.
Qed.

Lemma hex_head fuel n acc : (0 < fuel)%nat -> 0 <= n -> exists b l, hex_digits fuel n acc = b :: l /\ b <> x5b.
Proof.
  revert n acc. induction fuel as [|fuel IH]; intros n acc Hf Hn; [lia|]. simpl.
  assert (hex_digit (n mod 16) <> x5b) as H by (apply hex_digit_plain, Z.mod_pos_bound; lia).
  destruct (n <? 16); [eauto|]. destruct fuel; [simpl; eauto|]. apply IH; [lia|]. apply Z.div_pos; lia.
Qed.

Lemma joined_not_dot sep ps : not_dot sep -> Forall (Forall not_dot) ps -> Forall not_dot (joined sep ps).
Proof.
  intros Hs. induction 1 as [|p ps Hp Hps IH]; simpl; [done|].
  destruct ps; [done|]. apply Forall_app. split; [done|]. by constructor.
Qed.

Lemma hexes_not_dot l : Forall (fits 16) l -> Forall (Forall not_dot) (map hex l).
Proof. induction 1 as [|x l Hx _ IH]; simpl; constructor; [|done]. apply hex_not_dot; [apply Hx|done]. Qed.

Lemma segments_not_dot l : Forall (fits 16) l -> Forall not_dot (show_segments l).
Proof.
  intros Hl. unfold show_segments. destruct (longest_zeros 0 l (0%nat, 0%nat)) as [start len].
  case_match; [|by apply joined_not_dot; [done|apply hexes_not_dot]].
  apply Forall_app. split; [apply joined_not_dot; [done|by apply hexes_not_dot, Forall_take]|].
  apply Forall_app. split; [by repeat constructor|]. apply joined_not_dot; [done|by apply hexes_not_dot, Forall_drop].
Qed.

Lemma segments_head (l : list u16) rest : l <> [] -> Forall (fits 16) l ->
  exists b k, show_segments l ++ rest = b :: k /\ b <> x5b.
Proof.
  intros Hne Hl. unfold show_segments. destruct (longest_zeros 0 l (0%nat, 0%nat)) as [start len].
  assert (forall ps rest, Forall (fits 16) ps -> ps <> [] -> exists b k, joined x3a (map hex ps) ++ rest = b :: k /\ b <> x5b) as Hj.
  { intros ps r Hps Hn. destruct Hps as [|x ps Hx _]; [done|].
    destruct (hex_head 4 x [] ltac:(lia) (proj1 Hx)) as (b & k & E & Hb). fold (hex x) in E.
    simpl. rewrite E. destruct (map hex ps); simpl; eauto. }
  case_match; [|by apply Hj]. rewrite <- app_assoc. destruct (take start l) as [|x ps] eqn:E;
    [exists x3a; eexists; split; [reflexivity|done]|].
  apply Hj; [|done]. rewrite <- E. by apply Forall_take.
Qed.

(** The text of an IPv6 address, a colon and a port is not read as the text of
    a socket address, which has brackets. *)
Lemma parse_socket_v6_bare l p : ip_wf (V6 l) -> fits 16 p ->
  parse_socket_addr (show_v6 l ++ x3a :: decimal p) = None.
Proof.
  intros [Hlen Hl] Hp. unfold parse_socket_addr.
  assert ((exists k, show_v6 l = as_bytes "::ffff:" ++ k) \/ show_v6 l = show_segments l) as Hs.
  { unfold show_v6. repeat case_match; eauto. }
  assert (forall k, read_socket_addr_v6 k = None \/ exists k', k = x5b :: k') as H6.
  { intros [|b k]; [by left|]. destruct (decide (b = x5b)) as [->|Hb]; [right; by eexists|left].
    unfold read_socket_addr_v6, mbind, parser_bind. simpl. by rewrite decide_False by done. }
  destruct Hs as [[k ->]| ->]; [done|].
  destruct (read_socket_addr_v4 (show_segments l ++ x3a :: decimal p)) as [r|] eqn:E4.
  - exfalso. unfold read_socket_addr_v4, mbind, parser_bind in E4.
    destruct (read_ipv4_addr _) as [r4|] eqn:E; [|done]. apply read_ipv4_dot in E.
    assert (Forall not_dot (show_segments l ++ x3a :: decimal p)) as Hnd.
    { apply Forall_app. split; [by apply segments_not_dot|]. constructor; [done|].
      apply digits_not_dot; [apply Hp|done]. }
    rewrite Forall_forall in Hnd. by apply (Hnd x2e E).
  - destruct (segments_head l (x3a :: decimal p)) as (b & k & Eb & Hb); [by intros ->|done|].
    destruct (H6 (show_segments l ++ x3a :: decimal p)) as [->|[k' E']]; [done|]. rewrite E' in Eb. by injection Eb.
Qed.
