(* ===== verification/App.v ===== *)
(** * The two programs (p9cpu.rs, p9cpud.rs) and their addresses (lib.rs, rpc_client.rs, rpc_server.rs)

    What each program does with its arguments, and how a connection is offered
    and made.  clap, tonic and the listeners are parameters. *)

From Stdlib Require Import Ascii Strings.Byte.
From S2P Require Import Prelude Bytes Io Error Utils Text NetText Namespace Launcher Streams.

(** [enum Net], the same in both programs *)
Inductive Net : Set := NetTcp | NetVsock | NetUnix.

Record VsockAddr : Set := { cid : u32; vsock_port : u32 }.

Inductive Addr : Set :=
  | Tcp (a : SocketAddr)
  | Vsock (a : VsockAddr)
  | Uds (path : string).

(** ** p9cpud *)

Record ServerArgs : Set := { d_net : Net; d_port : u32; d_uds : option string; d_launch : option u16 }.

(** [Launcher::launch]: the command line of the process that is spawned. *)
Definition launch (arg0 : string) (port : u16) : list string := [arg0; "--launch"; str_of_bytes (decimal port)].

Definition VMADDR_CID_ANY : u32 := 0xffffffff.

(** The address to listen on; [None] is the panic of an [unwrap]. *)
Definition server_addr (args : ServerArgs) : option Addr :=
  match d_net args with
  | NetVsock => Some (Vsock {| cid := VMADDR_CID_ANY; vsock_port := d_port args |})
  | NetTcp =>
      match parse_socket_addr (as_bytes "[::]:" ++ decimal (d_port args)) with
      | Some a => Some (Tcp a)
      | None => None
      end
  | NetUnix => match d_uds args with Some path => Some (Uds path) | None => None end
  end.

(** [main]: launching the command a server is to be asked for at a port, or
    serving. *)
Inductive daemon : Set :=
  | Launches (port : u16)
  | Serves (addr : option Addr).

Definition p9cpud_main (args : ServerArgs) : daemon :=
  match d_launch args with
  | Some port => Launches port
  | None => Serves (server_addr args)
  end.

(** ** p9cpu *)

Record ClientArgs : Set := { c_net : Net; c_host : string; c_port : u32; c_rest : Args }.

(** [str::parse::<u32>] *)
Definition parse_u32 (s : string) : option u32 :=
  let l := match as_bytes s with x2b :: l => l | l => l end in
  match read_digits 10 0 0 l with
  | (S _, n, []) => if n <? 2 ^ 32 then Some n else None
  | _ => None
  end.

(** How the program stops before it connects. *)
Inductive app_stop : Set :=
  | AppPanic
  | InvalidAddr
  | AppErr (e : AppError).

Definition client_addr (args : ClientArgs) : result app_stop Addr :=
  match c_net args with
  | NetVsock =>
      match parse_u32 (c_host args) with
      | Some n => Ok (Vsock {| cid := n; vsock_port := c_port args |})
      | None => Err AppPanic
      end
  | NetUnix => Ok (Uds (c_host args))
  | NetTcp =>
      match parse_socket_addr (as_bytes (c_host args) ++ x3a :: decimal (c_port args)) with
      | Some a => Ok (Tcp a)
      | None => Err InvalidAddr
      end
  end.

(** Where to connect to, and the command to start there. *)
Definition p9cpu_app (args : ClientArgs) (vars : list (list byte * list byte)) : result app_stop (Addr * Cmd) :=
  match client_addr args with
  | Err e => Err e
  | Ok addr =>
      match build_command (c_rest args) vars with
      | None => Err AppPanic
      | Some (Err e) => Err (AppErr e)
      | Some (Ok cmd) => Ok (addr, cmd)
      end
  end.

(** ** Connecting (rpc_client.rs) *)

(** tonic's endpoints and channels. *)
Class Endpoints (O TransportError Endpoint Channel : Type) := {
  from_shared : list byte -> result TransportError Endpoint;
  endpoint_connect : Endpoint -> M O TransportError Channel;
  connect_uds : string -> M O TransportError Channel;
  connect_vsock : u32 -> u32 -> M O TransportError Channel
}.

(** [format!("{}:{}", addr.ip(), addr.port())] *)
Definition authority (a : SocketAddr) : list byte := show_ip (ip a) ++ x3a :: decimal (port a).

Definition tcp_uri (a : SocketAddr) : list byte := as_bytes "http://" ++ authority a.

Section Connect.
Context {O TransportError Endpoint Channel : Type} `{EP : Endpoints O TransportError Endpoint Channel}.

Definition RpcClient_new (addr : Addr) : M O TransportError Channel :=
  match addr with
  | Uds path => connect_uds path
  | Tcp a =>
      match from_shared (tcp_uri a) with
      | Ok e => endpoint_connect e
      | Err e => throw e
      end
  | Vsock a => connect_vsock (cid a) (vsock_port a)
  end.

(** [rpc_based]: [None] is the panic of its [unwrap]. *)
Definition rpc_based (addr : Addr) (o : O) : option Channel * O :=
  match RpcClient_new addr o with
  | (Ok c, o) => (Some c, o)
  | (Err _, o) => (None, o)
  end.
End Connect.

(** ** Serving (rpc_server.rs) *)

Inductive ServeError (TransportError : Type) : Type :=
  | ServeTransport (e : TransportError)
  | ServeIo (e : io_error).
Arguments ServeTransport {TransportError} e.
Arguments ServeIo {TransportError} e.

(** The listeners, and tonic's router with the service on it. *)
Class Router (O TransportError Unix Vsocks : Type) := {
  unix_bind : string -> M O io_error Unix;
  vsock_bind : u32 -> u32 -> M O io_error Vsocks;
  router_serve : SocketAddr -> M O TransportError unit;
  serve_unix : Unix -> M O TransportError unit;
  serve_vsock : Vsocks -> M O TransportError unit
}.

Definition serve {O TransportError Unix Vsocks : Type} `{Router O TransportError Unix Vsocks} (addr : Addr)
    : M O (ServeError TransportError) unit :=
  match addr with
  | Tcp a => map_err ServeTransport (router_serve a)
  | Uds path => uds ← map_err ServeIo (unix_bind path); map_err ServeTransport (serve_unix uds)
  | Vsock a =>
      listener ← map_err ServeIo (vsock_bind (cid a) (vsock_port a));
      map_err ServeTransport (serve_vsock listener)
  end.

(** [VsockListenerStream]: the connections of a listener, without end. *)
Class PollAccept (Vsocks Sock Peer : Type) := poll_accept : Vsocks -> poll (result io_error (Sock * Peer)) * Vsocks.

Record VsockListenerStream (Vsocks : Type) : Type := { v_listener : Vsocks }.
Arguments v_listener {Vsocks}.

#[export] Instance VsockListenerStream_next {Vsocks Sock Peer} `{PollAccept Vsocks Sock Peer}
    : Stream (VsockListenerStream Vsocks) (result io_error Sock) := fun s =>
  let '(r, listener) := poll_accept (v_listener s) in
  (match r with
   | Ready (Ok (stream, _)) => Ready (Some (Ok stream))
   | Ready (Err err) => Ready (Some (Err err))
   | Pending => Pending
   end, {| v_listener := listener |}).
