(* ===== verification/AppProps.v ===== *)
(** * From the command line to the program that runs

    Which addresses the two programs agree on, and that the process a server
    spawns for a command becomes that command's program. *)

From Stdlib Require Import Ascii Strings.Byte.
From S2P Require Import Prelude Bytes Io Error Fcall Utils Text NetText Namespace NamespaceProps.
From S2P Require Import Launcher LauncherProps Server ServerProps Streams StreamsProps App.

(** ** Addresses *)

(** What the daemon listens on by TCP: every address, when the port is one. *)
Lemma server_addr_tcp args : d_net args = NetTcp -> fits 32 (d_port args) ->
  server_addr args = if d_port args <? 2 ^ 16 then Some (Tcp {| ip := V6 (replicate 8 0); port := d_port args |}) else None.
Proof.
  intros Hn Hp. unfold server_addr. rewrite Hn, parse_socket_any by apply Hp. by destruct (d_port args <? 2 ^ 16).
Qed.

(** C37: the address a client is given reaches the transport as it was given
    only when it is an IPv4 address.  The host and port of the URI it connects
    to are then read as that very address; those of an IPv6 address, which is
    printed without its brackets, are not read as an address at all. *)
Theorem uri_names_host (a : SocketAddr) : ip_wf (ip a) -> fits 16 (port a) ->
  parse_socket_addr (authority a) = match ip a with V4 _ => Some a | V6 _ => None end.
Proof.
  destruct a as [[l|l] p]; unfold authority; simpl; intros Hip Hp.
  - destruct Hip. by apply parse_socket_v4.
  - by apply parse_socket_v6_bare.
Qed.

Lemma uri_names_host_witness :
  parse_socket_addr (authority {| ip := V4 [127; 0; 0; 1]; port := 17010 |}) = Some {| ip := V4 [127; 0; 0; 1]; port := 17010 |}
  /\ parse_socket_addr (authority {| ip := V6 [0; 0; 0; 0; 0; 0; 0; 1]; port := 17010 |}) = None.
Proof.
  split.
  - apply (uri_names_host {| ip := V4 [127; 0; 0; 1]; port := 17010 |}); [|by vm_compute].
    split; [done|by repeat constructor].
  - apply (uri_names_host {| ip := V6 [0; 0; 0; 0; 0; 0; 0; 1]; port := 17010 |}); [|by vm_compute].
    split; [done|by repeat constructor].
Defined.

(** A client that names the IPv4 address of a server and its port connects
    there. *)
Lemma client_addr_v4 args l : c_net args = NetTcp -> as_bytes (c_host args) = show_v4 l ->
  ip_wf (V4 l) -> fits 16 (c_port args) ->
  client_addr args = Ok (Tcp {| ip := V4 l; port := c_port args |}).
Proof. intros Hn Hh [H1 H2] Hp. unfold client_addr. by rewrite Hn, Hh, parse_socket_v4. Qed.

(** The connections of a listener, as the stream tonic takes them from. *)
Lemma vsock_listener_accepts {Vsocks Sock Peer} `{PollAccept Vsocks Sock Peer} (v : Vsocks) :
  (poll_next (Item := result io_error Sock) {| v_listener := v |}).1 <> Ready None.
Proof. unfold poll_next, VsockListenerStream_next. simpl. by destruct (poll_accept v) as [[|[[]|]] v']. Qed.

(** ** The process that is spawned *)

Section Spawned.
Context {I : Type} `{CI : Countable I}.
Context {O Fd Child Sock Handle : Type} `{HO : Host O Fd Child Sock Handle} {HL : HostLaws O Fd Child Sock Handle}.
Context {DecodeError : Set} `{PR : Prost DecodeError} {PL : ProstLaws DecodeError} `{BF : Bitflags} {BL : BitflagsLaws}.
Context {K : Type} `{KE : Kernel K}.

(** What clap makes of a command line: [#[arg(long, hide = true)] launch]
    takes a port, and the other arguments have their defaults. *)
Context (parse_args : list string -> option ServerArgs).
Hypothesis parse_launch : forall arg0 port, fits 16 port ->
  parse_args (launch arg0 port) = Some {| d_net := NetTcp; d_port := 17010; d_uds := None; d_launch := Some port |}.

(** The spawned process: [main], when it is to launch. *)
Definition spawned (argv : list string) (p : process K) : option (result (stop DecodeError) unit * process K) :=
  match parse_args argv with
  | Some args => match p9cpud_main args with Launches port => Some (connect port p) | Serves _ => None end
  | None => None
  end.

(** What a spawning gives, in more detail: the port is the listener's. *)
Lemma spawn_command_port cmd p (s s' : server I O Fd Child Handle) listener cmd' kept child :
  spawn_command cmd p s = (Ok (listener, cmd', kept, child), s') ->
  exists port o1 cin cout cerr o2, (local_port listener o1).1 = Ok port /\ (spawn port cin cout cerr o2).1 = Ok child.
Proof.
  intros H. unfold spawn_command in H. apply bind_ok_inv in H as (l & s1 & _ & H).
  apply bind_ok_inv in H as (port & s2 & H2 & H). apply bind_ok_inv in H as (c & s3 & _ & H).
  apply bind_ok_inv in H as ([[[cin cout] cerr] kept'] & s4 & _ & H).
  apply bind_ok_inv in H as (ch & s5 & H5 & H). rewrite ret_run in H. simplify_eq.
  apply call_ok in H2, H5. eexists _, _, _, _, _, _. by rewrite H2, H5.
Qed.

Lemma hand_over_accepts listener cmd (s s' : server I O Fd Child Handle) u :
  hand_over listener cmd s = (Ok u, s') ->
  exists stream o, (accept listener o).1 = Ok stream /\ sock_written (host s') stream = command_frame cmd.
Proof.
  intros (stream & s1 & H1 & H)%bind_ok_inv. apply call_ok in H1. exists stream, (host s).
  split; [by rewrite H1|]. apply accept_fresh in H1. apply send_command_written in H. by rewrite H, H1.
Qed.

(** C9: a started command is run.  When a start has succeeded, a process was
    spawned with a command line that makes it connect to the very listener the
    server accepts on; whatever its kernel answers, when what it reads there is
    what the server wrote, that process receives the command that was asked
    for, with the 9p port filled in, and if it succeeds it has made exactly the
    calls that command asks for, down to the running of its program. *)
Theorem started_program_runs cmd sid (s s' : server I O Fd Child Handle) u :
  cmd_wf cmd -> start cmd sid s = (Ok u, s') ->
  exists cmd' p listener port stream,
    pending s !! sid = Some p /\ sent_command cmd p cmd'
    /\ (exists o, (local_port listener o).1 = Ok port)
    /\ (exists o, (accept listener o).1 = Ok stream)
    /\ (exists i cin cout cerr o, sessions s' !! sid = Some i /\ (spawn port cin cout cerr o).1 = Ok (s_child i))
    /\ sock_written (host s') stream = command_frame cmd'
    /\ forall arg0 k r p', fits 16 port -> Z.of_nat (length (encode_to_vec cmd')) < 2 ^ 64 ->
       (forall k', accept_stream k' = {| incoming_bytes := sock_written (host s') stream; broken := None |}) ->
       spawned (launch arg0 port) {| machine := k; trace := [] |} = Some (r, p') ->
       is_ok r = true -> map fst (trace p') = launch_calls port cmd'.
Proof.
  intros Hwf H. unfold start in H.
  apply bind_ok_inv in H as (p & s1 & Hp & H). apply bind_ok_inv in H as (v & s2 & _ & H).
  apply bind_ok_inv in H as ([[[listener cmd'] kept] child] & s3 & H3 & H).
  apply bind_ok_inv in H as (v' & s4 & H4 & H).
  pose proof (spawn_command_spec _ _ _ _ _ _ _ _ H3) as [(s5 & s6 & Hn) _].
  apply spawn_command_port in H3 as (port & o1 & cin & cout & cerr & o2 & Hport & Hspawn).
  apply hand_over_accepts in H4 as (stream & o3 & Hacc & Hw).
  unfold put_session in H. simplify_eq.
  exists cmd', p, listener, port, stream.
  split; [unfold take_pending in Hp; destruct (pending s !! sid); by simplify_eq|].
  split; [by eapply with_ninep_sent|]. split; [by exists o1|]. split; [by exists o3|].
  split; [exists (new_session p kept child), cin, cout, cerr, o2; split; [apply lookup_insert_eq|exact Hspawn]|].
  split; [exact Hw|].
  intros arg0 k r p' Hfit Hlen Hk Hsp Hok. unfold spawned in Hsp. rewrite parse_launch in Hsp by done. simpl in Hsp.
  injection Hsp as Hsp. destruct r as [[]|e]; [|done].
  apply connect_calls in Hsp as (cmd2 & k2 & Hr & Ht). cbn [trace app] in Ht. rewrite Ht.
  rewrite Hk in Hr. cbn [host] in Hw. cbn [host] in Hr. rewrite Hw, <- (app_nil_r (command_frame cmd')) in Hr.
  rewrite receive_frame_extra in Hr; [by injection Hr as ->| |done]. by eapply with_ninep_wf.
Qed.
End Spawned.

(** ** Witness: a host with one socket, and a kernel that refuses nothing *)

#[local] Existing Instance prost_ref.
#[local] Existing Instance prost_ref_laws.
#[local] Existing Instance free_kernel.
#[local] Existing Instance bitflags_ref.

#[local] Instance sock_host : Host (list byte) unit unit unit unit := {|
  bind_local o := (Ok tt, o); local_port _ o := (Ok 1024, o);
  openpty o := (Ok (tt, tt), o); pipe2 o := (Ok (tt, tt), o); try_clone _ o := (Ok tt, o); async_fd _ o := (Ok tt, o);
  spawn _ _ _ _ o := (Ok tt, o);
  accept _ o := (Ok tt, []); sock_write_all _ bs o := (Ok tt, o ++ bs); sock_shutdown _ o := (Ok tt, o);
  fd_write_all _ _ o := (Ok tt, o);
  wait_child _ o := (Ok (Some 0), o);
  spawn_copy _ o := (tt, o); spawn_forward _ o := (tt, o); join _ o := (Ok tt, o)
|}.

#[local] Instance sock_host_laws : HostLaws (list byte) unit unit unit unit.
Proof.
  refine {| sock_written o _ := o |}; [by intros _ o c o' [= _ <-]|by intros c bs o u o' [= _ <-]|by intros c o u o' [= _ <-]].
Defined.

Definition parse_args_ref (argv : list string) : option ServerArgs :=
  match argv with
  | [_; flag; n] =>
      if decide (flag = "--launch") then
        match parse_u32 n with
        | Some port => Some {| d_net := NetTcp; d_port := 17010; d_uds := None; d_launch := Some port |}
        | None => None
        end
      else None
  | _ => None
  end.

Lemma parse_u32_decimal n : fits 32 n -> parse_u32 (str_of_bytes (decimal n)) = Some n.
Proof.
  intros Hn. unfold parse_u32. rewrite as_bytes_of_bytes. unfold fits in Hn.
  pose proof (read_digits_decimal 20 n ltac:(change (Z.of_nat 20) with 20; lia) ltac:(lia)) as Hr.
  destruct (digits_nonneg_head 20 n [] ltac:(lia) ltac:(lia)) as (b & l & E & Hb).
  unfold decimal in *. rewrite E in *. destruct b; try done; rewrite Hr;
    replace (n <? 2 ^ 32) with true by lia; done.
Qed.

Lemma parse_launch_ref arg0 port : fits 16 port ->
  parse_args_ref (launch arg0 port) = Some {| d_net := NetTcp; d_port := 17010; d_uds := None; d_launch := Some port |}.
Proof.
  intros Hp. unfold parse_args_ref, launch. rewrite decide_True by done.
  rewrite parse_u32_decimal; [done|]. by apply (fits_mono 16).
Qed.

Definition sh_start : result ServerError unit * server nat (list byte) unit unit unit :=
  start (HO := sock_host) sh 1%nat (dial 1%nat (server_new [])).2.

Lemma started_program_runs_witness :
  exists port r p', spawned (DecodeError := unit) parse_args_ref (launch "p9cpud" port) {| machine := tt; trace := [] |} = Some (r, p')
    /\ is_ok r = true /\ map fst (trace p') = launch_calls port sh.
Proof.
  assert (start (HO := sock_host) sh 1%nat (dial 1%nat (server_new [])).2 = (Ok tt, sh_start.2)) as E.
  { assert (sh_start.1 = Ok tt) as E1 by (vm_compute; reflexivity). rewrite <- E1. apply surjective_pairing. }
  destruct (started_program_runs (HO := sock_host) (HL := sock_host_laws) (PR := prost_ref) (PL := prost_ref_laws) (KE := free_kernel)
    parse_args_ref parse_launch_ref sh 1%nat _ sh_start.2 tt sh_wf E)
    as (cmd' & p & listener & port & stream & _ & Hc & [o Ho] & _ & _ & Hw & Hrun).
  assert (port = 1024) as -> by (vm_compute in Ho; congruence).
  assert (cmd' = sh) as -> by exact Hc.
  set (x := spawned (K := unit) (DecodeError := unit) parse_args_ref (launch "p9cpud" 1024) {| machine := tt; trace := [] |}).
  assert (exists r p', x = Some (r, p') /\ is_ok r = true) as (r & p' & Hx & Hr) by (vm_compute; do 2 eexists; split; reflexivity).
  exists 1024, r, p'. split; [exact Hx|]. split; [exact Hr|].
  assert (fits 16 1024) as Hfit by (split; [discriminate|reflexivity]).
  assert (Z.of_nat (length (encode_to_vec sh)) < 2 ^ 64) as Hlen by (vm_compute; reflexivity).
  assert (forall k' : unit, accept_stream k' = {| incoming_bytes := sock_written (host sh_start.2) stream; broken := None |}) as Hk
    by (intros k'; rewrite Hw; reflexivity).
  exact (Hrun "p9cpud" tt r p' Hfit Hlen Hk Hx Hr).
Defined.
