(* ===== verification/Session.v ===== *)
(** * A whole session

    The client of Client.v, on the transport of Rpc.v, to the session server
    of Server.v, over a connection that brings every request: what a user sees
    of a run is what became of the process on the remote machine. *)

From Stdlib Require Import Strings.Byte.
From S2P Require Import Prelude Bytes Io Error Fcall Utils Text Namespace.
From S2P Require Import Launcher LauncherProps Server ServerProps Client ClientProps Rpc RpcProps.

Section Session.
Context {U UuidError : Type} `{CU : Countable U} {UU : Uuid U UuidError} {UL : UuidLaws U UuidError}.
Context {O Fd Child Sock Handle : Type} `{HO : Host O Fd Child Sock Handle}.
Context {HL : HostLaws O Fd Child Sock Handle}.
Context {DecodeError : Set} `{PR : Prost DecodeError} {PL : ProstLaws DecodeError}.
Context `{DS : Display ServerError} `{DU : Display UuidError}.
Context {SE : StreamExt} {SL : StreamExtLaws}.
Context {JoinError TransportError : Type}.
Context {L Chan LHandle Stop Termios : Type} (items : Chan -> list (list byte)) (new_v4 : U).

Abbreviation remote := (server U O Fd Child Handle).
Abbreviation error := (rpc_stop (RpcError UuidError JoinError TransportError)).
Context `{LO : Local L error Chan U (U * Chan) LHandle Stop Termios}.

(** ** The two machines *)

Definition on_remote {E A} (m : M remote E A) : M (L * remote) E A := fun w =>
  let '(r, s) := m w.2 in (r, (w.1, s)).

Definition on_local {E A} (m : M L E A) : M (L * remote) E A := fun w =>
  let '(r, l) := m w.1 in (r, (l, w.2)).

Definition on_local_step {A} (m : L -> A * L) (w : L * remote) : A * (L * remote) :=
  let '(a, l) := m w.1 in (a, (l, w.2)).

Definition connection : P9cpuRpc (L * remote) := {|
  rpc_dial := on_remote (rpc_dial (P9cpuRpc := direct new_v4));
  rpc_start r := on_remote (rpc_start (P9cpuRpc := direct new_v4) r);
  rpc_stdin r := on_remote (rpc_stdin (P9cpuRpc := direct new_v4) r);
  rpc_stdout r := on_remote (rpc_stdout (P9cpuRpc := direct new_v4) r);
  rpc_stderr r := on_remote (rpc_stderr (P9cpuRpc := direct new_v4) r);
  rpc_ninep_forward r := on_remote (rpc_ninep_forward (P9cpuRpc := direct new_v4) r);
  rpc_wait r := on_remote (rpc_wait (P9cpuRpc := direct new_v4) r)
|}.

#[local] Instance transport : ClientInnerT (L * remote) error U Chan U (U * Chan) :=
  RpcClient_ClientInnerT (RP := connection) items.

#[local] Instance both : Local (L * remote) error Chan U (U * Chan) LHandle Stop Termios := {|
  mpsc_channel := on_local_step mpsc_channel;
  broadcast_channel := on_local_step broadcast_channel;
  spawn_copy_stream s b := on_local_step (spawn_copy_stream s b);
  spawn_stdin f c s := on_local_step (spawn_stdin f c s);
  spawn_9p s c := on_local_step (spawn_9p s c);
  stop_send s := on_local (stop_send s);
  join_handle h := on_local (join_handle h);
  tcgetattr := on_local tcgetattr;
  cfmakeraw := cfmakeraw;
  tcsetattr t := on_local (tcsetattr t)
|}.

Abbreviation state := (P9cpuClient (L * remote) U LHandle Stop Termios).

(** A client that has done nothing, and a server. *)
Definition fresh (l : L) (s : remote) : state := P9cpuClient_new (l, s).

(** ** The server's side of a call *)

(** The process of a session. *)
Definition runs (sid : U) (child : Child) (s : remote) : Prop :=
  exists i, sessions s !! sid = Some i /\ s_child i = child.

Lemma copy_keeps_child (f : Session Fd Child Handle -> option Fd) sid child (s s' : remote) u :
  (i ← get_session sid; h ← spawn_task (spawn_copy (f i)); push_handle sid h) s = (Ok u, s') ->
  runs sid child s -> runs sid child s'.
Proof.
  intros H (i & Hi & Hc). split_bind. unfold get_session in H0. rewrite Hi in H0. simplify_eq.
  unfold spawn_task in H1. destruct (spawn_copy (f x) (host x0)) as [h o]. simplify_eq.
  unfold push_handle in H. split_bind. unfold get_session in H0. simpl in H0. rewrite Hi in H0. simplify_eq.
  unfold put_session in H. simplify_eq. eexists. simpl. by rewrite lookup_insert_eq.
Qed.

(** What a wait answers, and that it ends the session. *)
Definition exit_code (status : result io_error exit_status) : result ServerError i32 :=
  match status with
  | Ok (Some c) => Ok c
  | Ok None => Err NoReturnCode
  | Err e => Err (CommandError e)
  end.

Lemma wait_result sid child (s : remote) : runs sid child s ->
  (Server.wait sid s).1 = exit_code (wait_child child (host s)).1
  /\ sessions (Server.wait sid s).2 !! sid = None.
Proof.
  intros (i & Hi & <-). unfold Server.wait.
  rewrite (bind_ok _ _ _ i s) by (unfold get_session; by rewrite Hi).
  destruct (wait_child (s_child i) (host s)) as [st o] eqn:Ew.
  set (s1 := {| host := o; sessions := sessions s; pending := pending s |}).
  rewrite (bind_ok _ _ _ st s1) by (unfold try_call; by rewrite Ew).
  rewrite (bind_ok _ _ _ i s1) by (unfold get_session; simpl; by rewrite Hi).
  destruct (join_all_ok (s_handles i) s1) as [s2 E2].
  rewrite (bind_ok _ _ _ tt s2) by done.
  unfold remove_session, of_result, mbind, M_bind. simpl. rewrite lookup_delete_eq.
  split; [|done]. by destruct st as [[?|]|?].
Qed.

(** What the transport's calls do to the server. *)
Lemma map_err_ok {S E F A} (f : E -> F) (m : M S E A) s a s' :
  map_err f m s = (Ok a, s') -> m s = (Ok a, s').
Proof. unfold map_err. destruct (m s) as [[?|?] ?]; [|done]. by intros [= -> ->]. Qed.

Lemma question_ok {A} (m : M remote Status A) (w w' : L * remote) a :
  question (UuidError := UuidError) (JoinError := JoinError) (TransportError := TransportError)
    (on_remote m) w = (Ok a, w') -> m w.2 = (Ok a, w'.2).
Proof.
  intros H%map_err_ok. unfold on_remote in H. destruct (m w.2) as [r s]. by simplify_eq/=.
Qed.

Lemma with_uuid_ok {A} (m : U -> M remote ServerError A) sid s a s' :
  (sid ← vec_to_uuid (into_bytes sid); map_err Status_from (m sid)) s = (Ok a, s') -> m sid s = (Ok a, s').
Proof.
  intros H. apply bind_ok_inv in H as (x & s1 & Hx & H). rewrite vec_to_uuid_into in Hx.
  injection Hx as <- <-. by apply map_err_ok in H.
Qed.

Lemma inner_start_ok sid cmd (w w' : L * remote) u :
  inner_start sid cmd w = (Ok u, w') -> Server.start cmd sid w.2 = (Ok u, w'.2).
Proof. intros H%question_ok. by apply (with_uuid_ok (fun sid => Server.start cmd sid)) in H. Qed.

Lemma inner_stdout_keeps sid child (w w' : L * remote) x :
  inner_stdout sid w = (Ok x, w') -> runs sid child w.2 -> runs sid child w'.2.
Proof.
  intros H. apply bind_ok_inv in H as ([] & w1 & H & [= _ <-]).
  apply question_ok, (with_uuid_ok (fun sid => Server.stdout sid)) in H. exact (copy_keeps_child (fun i => Some (s_stdout i)) _ _ _ _ _ H).
Qed.

Lemma inner_stderr_keeps sid child (w w' : L * remote) x :
  inner_stderr sid w = (Ok x, w') -> runs sid child w.2 -> runs sid child w'.2.
Proof.
  intros H. apply bind_ok_inv in H as ([] & w1 & H & [= _ <-]).
  apply question_ok, (with_uuid_ok (fun sid => Server.stderr sid)) in H. exact (copy_keeps_child s_stderr _ _ _ _ _ H).
Qed.

Lemma inner_wait_result sid child (w : L * remote) : runs sid child w.2 ->
  (inner_wait sid w).1 = match exit_code (wait_child child (host w.2)).1 with
                         | Ok c => Ok c
                         | Err e => Err (as_status e)
                         end
  /\ sessions (inner_wait sid w).2.2 !! sid = None.
Proof.
  intros Hr. destruct (wait_result _ _ _ Hr) as [Hw Hn].
  cbn [inner_wait transport RpcClient_ClientInnerT]. unfold RpcClient_wait, question, map_err.
  cbn [rpc_wait connection]. unfold on_remote. cbn [rpc_wait direct].
  unfold service_wait. rewrite (bind_ok _ _ _ sid w.2) by apply vec_to_uuid_into. unfold map_err.
  destruct (Server.wait sid w.2) as [r s'] eqn:E. simpl in Hw, Hn. subst r.
  by destruct (exit_code _).
Qed.

(** ** The client's side *)

(** A computation of the client that leaves the session's process. *)
Definition keeps_child {A} (sid : U) (m : M state (ClientError error) A) : Prop :=
  forall child c a c', m c = (Ok a, c') -> runs sid child (world c).2 -> runs sid child (world c').2.

Lemma keeps_child_bind {A B} sid (m : M state (ClientError error) A) (k : A -> M state (ClientError error) B) :
  keeps_child sid m -> (forall a, keeps_child sid (k a)) -> keeps_child sid (m ≫= k).
Proof. intros Hm Hk child c b c' (a & c1 & H1 & H2)%bind_ok_inv Hr. eapply Hk; [exact H2|]. by eapply Hm. Qed.

Lemma keeps_child_ret {A} sid (a : A) : keeps_child sid (mret a).
Proof. by intros child c a' c' [= _ <-]. Qed.

Lemma keeps_child_local {A} sid (m : L -> A * L) : keeps_child sid (local (on_local_step m)).
Proof.
  intros child c a c'. unfold local, on_local_step. destruct (m (world c).1). by intros [= _ <-].
Qed.

Lemma keeps_child_call {A} sid call (m : M (L * remote) error A) :
  (forall child w a w', m w = (Ok a, w') -> runs sid child w.2 -> runs sid child w'.2) ->
  keeps_child sid (call_with call m Inner).
Proof.
  intros Hm child c a c'. unfold call_with. destruct (m (world c)) as [[x|e] w] eqn:E; [|done].
  intros [= -> <-]. exact (Hm _ _ _ _ E).
Qed.

Lemma keeps_child_future {A} sid call (a : A) : keeps_child sid (call_future call (fun w => (a, w))).
Proof. by intros child c a' c' [= _ <-]. Qed.

Lemma setup_stdio_keeps sid t stop : keeps_child sid (setup_stdio sid t stop).
Proof.
  unfold setup_stdio, setup_stderr.
  apply keeps_child_bind; [apply keeps_child_call; intros; by eapply inner_stdout_keeps|intros out].
  apply keeps_child_bind; [apply keeps_child_local|intros h]. apply keeps_child_bind.
  - destruct t; [apply keeps_child_ret|].
    apply keeps_child_bind; [apply keeps_child_call; intros; by eapply inner_stderr_keeps|intros e].
    apply keeps_child_bind; [apply keeps_child_local|intros h']. apply keeps_child_ret.
  - intros hs. apply keeps_child_bind; [apply keeps_child_local|intros chan].
    apply keeps_child_bind; [apply keeps_child_future|intros f].
    apply keeps_child_bind; [apply keeps_child_local|intros h']. apply keeps_child_ret.
Qed.

(** ** The run *)

(** The server as the start finds it: the session was dialled, and a 9p
    forwarder was asked for if the command wants one. *)
Definition dialled_for (cmd : Cmd) (s s1 : remote) : Prop :=
  exists s0, Server.dial new_v4 s = (Ok tt, s0)
    /\ (if ninep cmd then Server.ninep_forward new_v4 s0 = (Ok tt, s1) else s1 = s0).

(** A client's start on the server [s]: the session is prepared, the server's
    start spawns [child] with the port of the listener on which it accepts the
    launcher, and what it writes there is received as the command. *)
Definition launched (cmd : Cmd) (s : remote) (child : Child) : Prop :=
  exists (s1 s2 : remote) cmd',
    dialled_for cmd s s1 /\ Server.start cmd new_v4 s1 = (Ok tt, s2)
    /\ starts_process cmd new_v4 s1 s2 cmd' child
    /\ (Z.of_nat (length (encode_to_vec cmd')) < 2 ^ 64 ->
        receive {| incoming_bytes := command_frame cmd'; broken := None |} = Ok cmd').

(** The user's result for what became of the process. *)
Definition reports (status : result io_error exit_status) (r : result (ClientError error) unit) : Prop :=
  (r = Ok tt <-> status = Ok (Some 0))
  /\ (forall c, r = Err (NonZeroExitCode c) <-> status = Ok (Some c) /\ c <> 0).

Lemma call_with_ok {A} call (m : M (L * remote) error A) (c c' : state) a :
  call_with call m Inner c = (Ok a, c') -> m (world c) = (Ok a, world c').
Proof. unfold call_with. destruct (m (world c)) as [[x|e] w]; [|done]. by intros [= -> <-]. Qed.

Lemma inner_dial_ok (w w' : L * remote) sid : inner_dial w = (Ok sid, w') ->
  sid = new_v4 /\ Server.dial new_v4 w.2 = (Ok tt, w'.2).
Proof.
  intros H. apply bind_ok_inv in H as (v & w2 & H & Hv). apply question_ok in H.
  apply bind_ok_inv in H as ([] & s2 & Hd%map_err_ok & [= <- E2]). subst s2. rewrite from_into in Hv.
  by injection Hv as <- <-.
Qed.

Lemma inner_ninep_ok chan (w w' : L * remote) x :
  inner_ninep_forward new_v4 chan w = (Ok x, w') -> Server.ninep_forward new_v4 w.2 = (Ok tt, w'.2).
Proof.
  intros H. apply bind_ok_inv in H as ([] & w1 & H%map_err_ok & [= _ <-]).
  unfold connection in H. simpl in H. unfold on_remote in H.
  destruct (service_ninep_forward _ w.2) as [r s] eqn:E. injection H as -> <-. simpl.
  unfold service_ninep_forward, first_request, requests in E. simpl in E.
  by apply (with_uuid_ok (fun sid => Server.ninep_forward sid)) in E.
Qed.

Lemma setup_9p_dialled cmd (c c' : state) u : setup_9p new_v4 cmd c = (Ok u, c') ->
  if ninep cmd then Server.ninep_forward new_v4 (world c).2 = (Ok tt, (world c').2) else (world c').2 = (world c).2.
Proof.
  unfold setup_9p. destruct (ninep cmd); [|by intros [= _ <-]]. intros H.
  apply bind_ok_inv in H as (chan & c1 & H1 & H). apply bind_ok_inv in H as (o & c2 & H2%call_with_ok%inner_ninep_ok & H).
  unfold local in H, H1. simpl in H, H1. unfold on_local_step in H, H1.
  destruct (mpsc_channel (world c).1) as [a l]. destruct (spawn_9p _ _ _) as [b l'].
  injection H1 as <- <-. injection H as _ <-. exact H2.
Qed.

Lemma client_start_launches cmd l s c1 :
  cmd_wf cmd -> client_start cmd (fresh l s) = (Ok tt, c1) ->
  exists child i, launched cmd s child /\ runs new_v4 child (world c1).2
    /\ session_info c1 = Some i /\ i_sid i = new_v4.
Proof.
  intros Hwf H. unfold client_start, start_session in H. simpl in H.
  apply bind_ok_inv in H as (sid & c2 & H1 & H).
  apply call_with_ok, inner_dial_ok in H1 as [-> Hd].
  unfold start_dialled in H. apply bind_ok_inv in H as ([] & c3 & H3%setup_9p_dialled & H).
  apply bind_ok_inv in H as ([] & c4 & H4 & H). apply bind_ok_inv in H as (stop & c5 & H5 & H).
  apply bind_ok_inv in H as (hs & c6 & H6 & [= <-]).
  apply call_with_ok in H4 as E4.
  apply inner_start_ok in E4. destruct (start_sends _ _ _ _ _ Hwf E4) as (cmd' & child & Hsp & Hwf').
  exists child. eexists. split.
  - exists (world c3).2, (world c4).2, cmd'. split; [exists (world c2).2; exact (conj Hd H3)|].
    split; [done|]. split; [done|].
    intros Hlen. rewrite <- (app_nil_r (command_frame cmd')). exact (receive_frame_extra cmd' [] Hwf' Hlen).
  - split; [|done]. refine (setup_stdio_keeps _ _ _ _ _ _ _ H6 _).
    refine (keeps_child_local _ _ _ _ _ _ H5 _).
    destruct Hsp as (p & ? & ? & ? & ? & ? & ? & kept & ? & ? & ? & ? & ? & Hsp).
    exists (new_session p kept child). split; [apply Hsp|done].
Qed.

(** Making the terminal raw does nothing to the server. *)
Lemma make_raw_local t (c : state) :
  (exists e, (make_raw t c).1 = Err (Sys e))
  \/ exists attr c', make_raw t c = (Ok attr, c') /\ (world c').2 = (world c).2.
Proof.
  unfold make_raw. destruct t; [|right; by eexists _, c].
  unfold mbind, M_bind, call_with. cbn [tcgetattr tcsetattr both]. unfold on_local.
  destruct (tcgetattr (world c).1) as [[t|e] l1]; simpl; [|left; by exists e].
  destruct (tcsetattr (cfmakeraw t) l1) as [[[]|e] l2]; simpl; [|left; by exists e].
  right. by do 2 eexists.
Qed.

(** C18: a whole run.  When the client has started a command, the server has
    spawned a process for it, with the port of the listener on which it then
    accepted the launcher and wrote it that command, the 9p port filled in; and
    waiting then reports what has become of that process: success exactly when
    it exits with zero, and its code when it exits with another; the only other
    way to end is a terminal that cannot be made raw. *)
Theorem run_reports_exit cmd (l : L) (s : remote) c1 c2 r :
  cmd_wf cmd -> client_start cmd (fresh l s) = (Ok tt, c1) -> client_wait c1 = (r, c2) ->
  exists child, launched cmd s child
    /\ ((exists e, r = Err (Sys e)) \/ reports (wait_child child (host (world c1).2)).1 r).
Proof.
  intros Hwf Hs Hw. destruct (client_start_launches _ _ _ _ Hwf Hs) as (child & i & Hl & Hr & Hi & Hsid).
  exists child. split; [done|]. unfold client_wait, take_session in Hw.
  set (c1' := {| world := world c1; session_info := None; calls := calls c1 |} : state).
  rewrite (bind_ok _ _ _ i c1') in Hw by (by rewrite Hi).
  destruct (make_raw_local (i_tty i) c1') as [[e He]|(attr & c' & He & Hw')].
  { left. exists e. apply (bind_err_fst _ (fun attr => wait_session i attr)) in He. by rewrite Hw in He. }
  right. rewrite (bind_ok _ _ _ attr c') in Hw by done.
  destruct (wait_session_calls i attr c') as (Hx & _). rewrite Hw, Hsid in Hx. cbn [fst] in Hx.
  destruct (inner_wait_result new_v4 child (world c')) as [E _]; [by rewrite Hw'|].
  rewrite E, Hw' in Hx. cbn [world] in Hx. destruct Hx as (H1 & H2 & _). unfold reports. rewrite H1. setoid_rewrite H2.
  destruct (wait_child child _).1 as [[code|]|e]; simpl; naive_solver.
Qed.
End Session.

(** ** Witness: a shell that exits with zero *)

#[local] Existing Instance byte_countable.
#[local] Existing Instance mem_host.
#[local] Existing Instance mem_host_laws.
#[local] Existing Instance prost_ref.
#[local] Existing Instance prost_ref_laws.
#[local] Existing Instance uuid_ref.
#[local] Existing Instance uuid_ref_laws.
#[local] Existing Instance stream_ref.
#[local] Existing Instance stream_ref_laws.
#[local] Existing Instance no_text.

#[local] Instance idle : Local unit (rpc_stop (RpcError unit unit unit)) unit (list byte) (list byte * unit)
    nat unit unit := {|
  mpsc_channel w := (tt, w);
  broadcast_channel w := (tt, w);
  spawn_copy_stream _ _ w := (0%nat, w);
  spawn_stdin _ _ _ w := (1%nat, w);
  spawn_9p _ _ w := (tt, w);
  stop_send _ w := (Ok tt, w);
  join_handle _ w := (Ok (Ok tt), w);
  tcgetattr w := (Ok tt, w);
  cfmakeraw t := t;
  tcsetattr _ w := (Ok tt, w)
|}.

Abbreviation sh_state := (P9cpuClient
  (unit * server (list byte) (list (list byte)) nat nat nat) (list byte) nat unit unit).

Definition no_items (_ : unit) : list (list byte) := [].

Definition sh_started :
    result (ClientError (rpc_stop (RpcError unit unit unit))) unit * sh_state :=
  client_start (CI := transport no_items [x01]) (LO := both) sh (fresh tt (server_new [])).

Definition sh_waited :
    result (ClientError (rpc_stop (RpcError unit unit unit))) unit * sh_state :=
  client_wait (CI := transport no_items [x01]) (LO := both) sh_started.2.

Lemma run_reports_exit_witness :
  exists child, launched (HO := mem_host) (HL := mem_host_laws) (PR := prost_ref) [x01] sh (server_new []) child
    /\ ((exists e, sh_waited.1 = Err (Sys e))
        \/ reports (wait_child (Host := mem_host) child (host (world sh_started.2).2)).1 sh_waited.1).
Proof.
  apply (run_reports_exit no_items [x01] sh tt (server_new []) sh_started.2 sh_waited.2 sh_waited.1 sh_wf).
  - assert (sh_started.1 = Ok tt) as E by (vm_compute; reflexivity).
    rewrite <- E. apply surjective_pairing.
  - apply surjective_pairing.
Defined.
